(* ===== verification/_CoqProject ===== *)
-Q . S2P
Prelude.v
Inevitable.v
GoStrconv.v
GoJson.v
GoJsonFacts.v
JsonText.v
JsonTextFacts.v
Objects.v
ObjectFacts.v
Backend.v
SpecStatus.v
NormalForms.v
StoreSpec.v
StoreInterface.v
StreamInterface.v
MemoryStore.v
Fixtures.v
MemoryStoreFacts.v
MemoryStoreRuns.v
MemoryStoreTheorems.v
MemoryInterface.v
MemoryStreams.v
MemoryStoreWitnesses.v
FileTree.v
Filesystem.v
FilesystemDisk.v
FilesystemFacts.v
FilesystemList.v
FilesystemRuns.v
FilesystemInterface.v
FilesystemStreams.v
FilesystemErrors.v
FilesystemTheorems.v
FilesystemWitnesses.v
EventQueue.v
Informer.v
InformerFacts.v
InformerTheorems.v
InformerSteps.v
Client.v
ClientTheorems.v
Cache.v
CacheTheorems.v
CacheWitnesses.v
CacheSystem.v
CacheDelivery.v
CachePosition.v
CacheConvergence.v
CacheShutdown.v
CacheSystemTheorems.v
CacheSystemWitnesses.v
ListerWatcher.v
ListerWatcherTheorems.v
ListerWatcherWitnesses.v
PostgresVersion.v
PostgresLease.v
Postgres.v
PostgresFacts.v
PostgresInterface.v
PostgresSchema.v
PostgresTheorems.v
PostgresBridge.v
PostgresWitnesses.v
Suite.v
Storetest.v
SuiteSpec.v
StoretestProofs.v
SuiteObjects.v
SuiteHistory.v
SuiteMemory.v
SuiteFilesystem.v
SuitePool.v
SuiteConcurrent.v
SuiteStarvation.v
SuiteWriters.v
SuiteTheorems.v
