(* ===== verification/Prelude.v ===== *)
(** * A verification of storectrl

    storectrl (Go) lets Kubernetes-style controllers run on a pluggable [Store]
    instead of an API server: typed objects with metadata, optimistic
    concurrency through resource versions, and watches that can be resumed from
    a revision. Its parts, and how they use each other:

    - a [Store] (store.go) keeps objects and hands out watchers; there are an
      in-memory, a filesystem and a PostgreSQL backend;
    - a client (client.go) offers the controller-runtime client over a [Store];
    - a cache (cache.go) keeps one informer per type: it lists the store, then
      watches it from the list's revision, relists when that revision is gone,
      and hands changes to event handlers through a queue that merges events of
      one key;
    - a lister-watcher (listerwatcher.go) serves client-go reflectors, watchList
      bookmarks included;
    - a conformance suite (storetest/storetest.go) that every backend's tests run.

    ** How the development is laid out

    The language and its library:
    - Prelude (this file): Go results with errors and panics ([outcome]), int64
      wrap-around, buffered channels, tactics and generic lemmas. Inevitable: what
      happens under every schedule of a step relation ([inevitably]), by ranks.
    - GoStrconv: [strconv.FormatInt]/[ParseInt] and their round trip.
    - GoJson, GoJsonFacts: [encoding/json] on Go structs, with [omitempty] and
      decoding over an existing value. JsonText, JsonTextFacts: the text of JSON
      values, compact and indented, and that reading it back gives the value.

    Shared data and helpers:
    - Objects, ObjectFacts: object.go, errors.go, watcher.go and the options of
      store.go. An [Object] carries the description of its Go struct, so the
      reflective operations are functions.
    - Backend: the helpers of the backends (GVK lookup, [contentEqual],
      [copyObject], list filling, label filters).
    - SpecStatus: the merge behind the spec/status split. NormalForms: objects
      that survive encoding and decoding unchanged.

    The contract:
    - StoreSpec: a store is a history of changes; [view] is what it holds after
      them, [changesSince] and [replayOf] what a watch starts with. [wfHistory]
      says that revisions count up by one, events carry their revision, and each
      event fits the objects before it.
    - StoreInterface: [StoreOps], the methods of the [Store] interface, and
      [StoreLaws], the contract in terms of the history. Client, cache and
      lister-watcher are proved against the laws. StreamInterface adds watchers:
      [StreamOps], what a consumer does with one, and [StreamLaws], what its channel
      gets while other clients use the store. The running cache is proved against
      these; MemoryStreams and FilesystemStreams discharge them.

    The components:
    - MemoryStore (Module Mem): memory/store.go and memory/watcher.go, one
      definition per method, watchers on a heap shared with the consumer.
      MemoryStoreFacts has the invariant [Inv] and the effect of each write;
      MemoryStoreRuns the transition system [step]/[run] of calls by concurrent
      clients and consumers and [reachable]; MemoryStoreTheorems the properties;
      MemoryInterface discharges [StoreLaws].
    - FileTree: files and directories by path, and the os calls on them, each of
      which may fail (a list of faults says which). Filesystem (Module FS):
      filesystem/store.go and filesystem/watcher.go on such a disk.
      FilesystemDisk, FilesystemFacts, FilesystemList describe the tree below a
      store's root and the effect of each call; FilesystemRuns has the transition
      system with restarts; FilesystemErrors is about failing disks;
      FilesystemTheorems has the properties and FilesystemInterface discharges
      [StoreLaws].
    - postgres/store.go: PostgresVersion (Module PGV) has the composite resource
      versions, PostgresLease (Module PGL) the lease statements and the renewal
      goroutine, Postgres (Module PG) the methods, the conversion between objects
      and columns, the error mapping and the watch bridge, whose inner watch is a
      buffer that is filled, stopped and closed from outside. A lease statement may fail
      before or after it is committed ([sqlFault]). crbridge is the class [CrbDB]; PostgresInterface states its documented behaviour as [CrbLaws], and
      PostgresSchema (Module Schema) shows that a client of the stored procedure of
      testdata/schema.sql satisfies it. PostgresFacts, PostgresTheorems, and
      PostgresBridge for the bridge.
    - EventQueue: cache.go, [eventQueue] and [processEvents].
    - Informer (Module Inf): cache.go, [storeInformer], with its indices,
      selectors, transform, relist and resync. InformerFacts, InformerTheorems.
    - Cache (Module Cache): cache.go, options, [storeCache] and the watch loop.
      CacheTheorems.
    - InformerSteps (Module InfS) and CacheSystem (Module Sys): a running informer
      as the goroutines of [startInformer], [watchInformer], [processEvents] and
      [AddEventHandler], each with a program counter, next to other clients of the
      store. A step is one critical section, one call of the store or one call of a
      handler. CacheDelivery has the invariant about queue, processor and handlers,
      CachePosition the one that ties program counter, cache and watch channel to
      the store's history, with the ranks the steps decrease; CacheConvergence and
      CacheShutdown put them together for a running and for a cancelled informer;
      CacheSystemTheorems has the properties, CacheSystemWitnesses runs them on the
      in-memory and the filesystem backend.
    - Client (Module Cli): client.go; other clients act between the calls of
      [Patch] and [DeleteAllOf] ([env]). ClientTheorems.
    - ListerWatcher (Module LW): listerwatcher.go. ListerWatcherTheorems.
    - storetest/storetest.go: Fixtures has its object types, at which the
      ...Witnesses files apply the theorems, with executions that show where the
      code departs from its comments. Suite (Module Suite) has the language of
      tests: calls of a [TestedStore], failures, goroutines ([pool], [poolOk]);
      Storetest (Module Storetest) one definition per subtest. SuiteSpec gives
      the calls a reference semantics on histories ([specPost], [wp]) and says
      what it means that a backend [Refines] it; StoretestProofs proves the
      sequential tests in it. SuiteObjects, SuiteHistory, SuiteMemory and
      SuiteFilesystem prove that the two backends refine it. SuitePool reduces
      goroutines to invariants and schedules of the reference semantics,
      SuiteConcurrent, SuiteStarvation and SuiteWriters use it, SuiteTheorems
      has the properties.

    ** What the theorems show

    - In-memory backend: a reachable store implements an abstract history, and the
      effect of each operation on every branch is pinned ([mem_Create_Delete],
      [mem_Update], [mem_UpdateStatus], which keeps labels of the input against the
      contract, [mem_List_exact]); writers
      never overwrite a version they have not seen; a watcher sees every later
      change in order and without gaps until it is stopped or evicted; a list
      followed by a watch from its revision misses nothing; a compacted revision
      is refused exactly when changes were lost; no call panics or blocks.
    - Filesystem backend: the same contract, kept across restarts; what is on disk
      is exactly the current objects, each in its own file; on any disk a failed
      write announces nothing and touches no other object's file.
    - PostgreSQL backend: a bucket has one owner and a former owner is fenced off;
      objects read back from their columns as they were written; each write reports
      missing, stale and fenced objects apart and changes only its row; a listing
      is exact and a watch resumes where it ended; the bridge announces the
      selected changes in order and, once stopped, ends under every schedule. Where these
      theorems show a departure from the documented contract (generations, the
      status in an [Update], soft-deleted rows, equal contents) their comments say so.
    - Queue and informer: merging events preserves what the handlers end up
      with; an informer fed the store's events holds the selected objects, its
      indexed listing is exact, and one processor round brings handlers up to date.
    - Cache: start and reconnect bring an informer in step with the store, for
      every [Store] that satisfies the laws; the retry delay is bounded;
      [WaitForCacheSync] answers what it has seen ([cache_wait_sync]).
    - Running cache, in every interleaving with other clients: a synced cache always
      shows a state the store had and never goes back, handlers get calls that make
      sense to them, the watch goroutine never panics or gets stuck
      ([cache_tracks_store]); once the others rest, every schedule ends with
      cache and handlers equal to the store ([cache_eventually_consistent]); after a
      cancellation every goroutine ends, in spite of finitely many steps of others, and
      what is queued is delivered ([cache_shuts_down]). Two executions show a
      handler that is registered late and left with a deleted object
      ([late_handler_stale]) and a removed informer that goes on watching
      ([removed_informer_watches]).
    - Client: [DeleteAllOf], left alone, deletes exactly the selected objects; [Patch]
      on every branch, whatever others do in between: it conflicts exactly when they
      changed the object; the subresource clients.
    - Lister-watcher: adapters filter without loss or reordering in every
      interleaving, and the watchList protocol reaches the store's objects.
    - Conformance suite: the in-memory and the filesystem backend refine its
      reference semantics, pass every sequential test, and pass the concurrent
      CRUD and monotonicity tests under every schedule; the test of concurrent
      spec and status writers ends in every schedule, with no error of a writer
      and at least one write, but has a schedule under which it fails on both.

    ** Bounds, fuel and assumptions

    Revisions, UIDs and generations are int64 and wrap. The theorems about
    reachable stores are about runs of fewer than 2^63 - 1 steps ([reachable],
    [room], [hasRoom]), so that revisions have not wrapped. All recursion is structural.
    Fuel appears in the reader of JSON texts ([JsonText.parseValue]), which gets
    the length of the text, enough to read back every text that is written
    (JsonTextFacts), and in the suite's loops over a channel ([Storetest.collect],
    [drainCount], [eventCounter], [drainViolations]); running out of it fails the test, so the
    theorems that the tests pass show that it is enough.
    A call that would block or panic is a value ([None], [Panic]), and the
    theorems say when it does not occur. Channels have the capacities of the
    source; the event log has any non-negative size.

    Methods that hold their lock for the whole body are single steps; where the
    code takes locks one after the other the steps are separate ([Mem.stopClose],
    [Mem.removeWatcher]). Goroutines are step functions and an interleaving is a
    sequence of steps; in the suite's concurrent tests every interleaving of the
    calls is considered, and waiting for a timeout succeeds when nothing
    arrives. In a running cache a select takes any case that is ready and timers may
    fire at any time; its theorems are about informers without a label selector
    (with one the code can miss a change, see CacheWitnesses), transforms that
    succeed and keep name and resource version ([goodTransform]), handlers that were
    registered before the start and stay, and stores whose List and Watch fail only
    as the contract says. Ranging over a Go map is [map_to_list]: some fixed order,
    and results are stated up to permutation or by membership.

    The filesystem theorems about reachable stores are about names that are single
    path elements ([okKey], [okGVK]) and objects that encoding preserves
    ([fsObject]), on a disk without faults; those about failures are about
    any disk. When decoding fails, the caller's object is left as it was, while
    Go may have filled in part of it. The PostgreSQL theorems are about types whose
    fields are spec and status ([columnType]) where columns are read back, and about
    versions and counters below the BIGINT limit ([validVersion], [seqLeft]);
    a column is read back as the JSON value that was written. The laws of crbridge
    are about calls that reach the database; of its watch only this is assumed:
    it delivers events until it is stopped or closes its channel, and it closes the
    channel once it is stopped.

    Code outside the repository is a parameter: label and field selectors
    (by their methods), [labels.Parse] and [fields.ParseSelector],
    [meta.ExtractList] and [meta.SetList], [apiutil.GVKForObject], the json-patch
    library, user transforms and index functions, the [runtime.Scheme] and the
    crbridge database client.

    ** What is not modelled

    The inside of crbridge (polling, notification, connections) and of the
    database, of which only the lease statements and the stored procedure are
    modelled; timers and real time beyond
    [now()]; logging; the examples; and the fields of [metav1.ObjectMeta] the code
    never touches. *)

From stdpp Require Export base gmap strings list fin_maps sorting.
From Stdlib Require Export ZArith Lia.

Declare Scope storectrl_scope.
Delimit Scope storectrl_scope with sc.

(** ** Outcomes of Go calls

    A Go function that returns an [error] either returns a value, returns a
    non-nil error, or panics. *)

Inductive outcome (E A : Type) : Type :=
| Ret (a : A)
| Fail (e : E)
| Panic.
Arguments Ret {E A} a.
Arguments Fail {E A} e.
Arguments Panic {E A}.

#[export] Instance outcome_eq_dec {E A} `{EqDecision E, EqDecision A} : EqDecision (outcome E A).
Proof. solve_decision. Defined.

Definition is_ret {E A} (o : outcome E A) : bool :=
  match o with Ret _ => true | _ => false end.

(** ** int64 *)

Definition min_int64 : Z := (- 2 ^ 63)%Z.
Definition max_int64 : Z := (2 ^ 63 - 1)%Z.

Definition in_int64 (z : Z) : bool := ((min_int64 <=? z) && (z <=? max_int64))%Z.

(** Two's-complement wrap-around of Go's int64 arithmetic. *)
Definition wrap64 (z : Z) : Z := ((z + 2 ^ 63) mod 2 ^ 64 - 2 ^ 63)%Z.

(** ** Go channels

    A buffered channel: its queued values (oldest first), its capacity and
    whether it has been closed. *)

Record chan (A : Type) : Type := Chan {
  buf : list A;
  cap : nat;
  chClosed : bool;
}.
Arguments Chan {A} buf cap chClosed.
Arguments buf {A} _.
Arguments cap {A} _.
Arguments chClosed {A} _.

Definition makeChan {A} (n : nat) : chan A := Chan [] n false.

(** A non-blocking send, [select { case ch <- v: default: }]. *)
Inductive sendResult (A : Type) : Type :=
| Sent (c : chan A)
| Full
| SendOnClosed.
Arguments Sent {A} c.
Arguments Full {A}.
Arguments SendOnClosed {A}.

Definition trySend {A} (c : chan A) (v : A) : sendResult A :=
  if chClosed c then SendOnClosed
  else if bool_decide (length (buf c) < cap c)
       then Sent (Chan (buf c ++ [v]) (cap c) false)
       else Full.

(** [close(ch)]; [None] is the panic of closing a closed channel. *)
Definition closeChan {A} (c : chan A) : option (chan A) :=
  if chClosed c then None else Some (Chan (buf c) (cap c) true).

(** A receive: a queued value, the closed signal, or nothing yet. *)
Inductive recvResult (A : Type) : Type :=
| Received (v : A) (c : chan A)
| RecvClosed
| WouldBlock.
Arguments Received {A} v c.
Arguments RecvClosed {A}.
Arguments WouldBlock {A}.

Definition recv {A} (c : chan A) : recvResult A :=
  match buf c with
  | v :: vs => Received v (Chan vs (cap c) (chClosed c))
  | [] => if chClosed c then RecvClosed else WouldBlock
  end.

(** ** Shared list operations *)

(** The last [n] elements of a list, the whole list when it is shorter. *)
Definition lastn {A} (n : nat) (l : list A) : list A := drop (length l - n) l.

(** ** Tactics *)

Ltac invc H := inversion H; clear H; simplify_eq/=.

(** Case analysis on the scrutinee of a [match] or [if] of the goal, or of a
    hypothesis, keeping the equation. *)
Ltac case_goal :=
  match goal with
  | |- context [ match ?x with _ => _ end ] =>
      lazymatch x with
      | context [ match _ with _ => _ end ] => fail
      | _ => let E := fresh "E" in destruct x eqn:E
      end
  end.

Ltac case_hyp H :=
  match type of H with
  | context [ match ?x with _ => _ end ] =>
      lazymatch x with
      | context [ match _ with _ => _ end ] => fail
      | _ => let E := fresh "E" in destruct x eqn:E
      end
  end.

Ltac split_bools :=
  repeat match goal with
    | H : _ && _ = true |- _ => apply andb_true_iff in H as [? ?]
    | H : Is_true (_ && _) |- _ => apply andb_True in H as [? ?]
    | H : bool_decide _ = true |- _ => apply bool_decide_eq_true_1 in H
    | H : bool_decide _ = false |- _ => apply bool_decide_eq_false_1 in H
    | H : negb _ = true |- _ => apply negb_true_iff in H
    | H : negb _ = false |- _ => apply negb_false_iff in H
    end.

(** A closed equation that holds by evaluation of its sides. *)
Ltac computed :=
  lazymatch goal with |- @eq ?A _ ?b => vm_cast_no_check (@eq_refl A b) end.

(** ** Hint databases *)

Create HintDb sc discriminated.
Create Rewrite HintDb sc_rw.

(** ** Generic lemmas *)

Lemma in_int64_spec z : in_int64 z = true <-> (min_int64 <= z <= max_int64)%Z.
Proof. unfold in_int64. rewrite andb_true_iff, !Z.leb_le. tauto. Qed.

Lemma wrap64_id z : in_int64 z = true -> wrap64 z = z.
Proof.
  rewrite in_int64_spec. unfold min_int64, max_int64, wrap64. intros H.
  rewrite Z.mod_small; lia.
Qed.

Lemma wrap64_range z : in_int64 (wrap64 z) = true.
Proof.
  apply in_int64_spec. unfold wrap64, min_int64, max_int64.
  pose proof (Z.mod_pos_bound (z + 2 ^ 63) (2 ^ 64)). lia.
Qed.

Lemma wrap64_succ z : (0 <= z < max_int64)%Z -> wrap64 (z + 1) = (z + 1)%Z.
Proof.
  intros H. apply wrap64_id, in_int64_spec. unfold min_int64, max_int64 in *. lia.
Qed.

Lemma lastn_all {A} n (l : list A) : length l <= n -> lastn n l = l.
Proof. intros H. unfold lastn. by replace (length l - n) with 0 by lia. Qed.

Lemma lastn_length {A} n (l : list A) : length (lastn n l) = Nat.min n (length l).
Proof. unfold lastn. rewrite length_drop. lia. Qed.

Lemma lastn_suffix {A} n (l : list A) : exists p, l = p ++ lastn n l.
Proof. exists (take (length l - n) l). unfold lastn. by rewrite take_drop. Qed.

Lemma last_lastn {A} n (l : list A) x : last (lastn n l) = Some x -> last l = Some x.
Proof.
  destruct (lastn_suffix n l) as [p E]. rewrite E at 2. rewrite last_app. by intros ->.
Qed.

(** Keeping the last [n] of a list that already is the last [n] of a longer
    one, after appending one element, is keeping the last [n] of the longer
    list with the element appended. *)
Lemma lastn_snoc {A} n (l : list A) x :
  lastn n (lastn n l ++ [x]) = lastn n (l ++ [x]).
Proof.
  unfold lastn. rewrite !length_app, length_drop. simpl.
  destruct (decide (n <= length l)).
  - destruct n as [|n].
    + rewrite !drop_ge; [done|rewrite length_app; simpl; lia|].
      rewrite length_app, length_drop; simpl; lia.
    + rewrite !drop_app_le; [| lia | rewrite length_drop; lia].
      rewrite drop_drop. do 2 f_equal. lia.
  - replace (length l - n) with 0 by lia. rewrite drop_0.
    f_equal. lia.
Qed.

Lemma map_lastn {A B} (f : A -> B) n l : map f (lastn n l) = lastn n (map f l).
Proof. unfold lastn. by rewrite length_map, List.skipn_map. Qed.

Lemma NoDup_map_filter {A B} (f : A -> B) (P : A -> bool) (l : list A) :
  NoDup (map f l) -> NoDup (map f (List.filter P l)).
Proof.
  induction l as [|x l IH]; simpl; [done|]. intros [Hx Hl]%NoDup_cons.
  destruct (P x); [|by apply IH]. simpl. constructor; [|by apply IH].
  rewrite list_elem_of_In, in_map_iff. intros (y & E & Hy). apply Hx.
  apply List.filter_In in Hy as [Hy _]. rewrite list_elem_of_In, in_map_iff. eauto.
Qed.

#[export] Hint Resolve wrap64_range : sc.
#[export] Hint Rewrite @lastn_length : sc_rw.
