(* ===== verification/Inevitable.v ===== *)
(** * Inevitability

    What happens under every schedule of a step relation, by ranks that the steps
    decrease; used for the goroutines of the cache and of the PostgreSQL watch
    bridge. *)

From S2P Require Import Prelude.

(** ** Induction on three ranks *)

Section ranks.
Context {A : Type} (a b c : A -> nat).

Definition smaller (y x : A) : Prop :=
  a y < a x \/ (a y = a x /\ (b y < b x \/ (b y = b x /\ c y < c x))).

Lemma smaller_ind (P : A -> Prop) : (forall x, (forall y, smaller y x -> P y) -> P x) -> forall x, P x.
Proof.
  intros Hstep x. remember (a x) as n eqn:En. revert x En. induction (lt_wf n) as [n _ IHa]. intros x ->.
  remember (b x) as m eqn:Em. remember (a x) as n eqn:En. revert x En Em. induction (lt_wf m) as [m _ IHb]. intros x -> ->.
  remember (c x) as k eqn:Ek. remember (a x) as n eqn:En. remember (b x) as m eqn:Em. revert x En Em Ek.
  induction (lt_wf k) as [k _ IHc]. intros x -> -> ->. apply Hstep. intros y [Hlt|[Ea [Hlt|[Eb Hlt]]]].
  - by eapply IHa.
  - eapply IHb; [exact Hlt|congruence|done].
  - eapply IHc; [exact Hlt|congruence|congruence|done].
Qed.
End ranks.

(** ** Inevitability *)

(** Whatever steps are made, they lead to a state that satisfies [P], and there
    is a step until then. *)
Inductive inevitably {Y : Type} (step : Y -> Y -> Prop) (P : Y -> Prop) (y : Y) : Prop :=
| inev_now : P y -> inevitably step P y
| inev_later : (exists y', step y y') -> (forall y', step y y' -> inevitably step P y') -> inevitably step P y.

Lemma inevitably_impl {Y : Type} (step : Y -> Y -> Prop) (P Q : Y -> Prop) y :
  (forall y, P y -> Q y) -> inevitably step P y -> inevitably step Q y.
Proof. intros Himp. induction 1 as [y HP|y Hex _ IH]; [by apply inev_now, Himp|by apply inev_later]. Qed.

(** States with an invariant from which every step leads to a smaller one. *)
Lemma inevitable {Y : Type} (step : Y -> Y -> Prop) (I P : Y -> Prop) (a b c : Y -> nat) :
  (forall y, I y -> (exists y', step y y') \/ P y) ->
  (forall y y', I y -> step y y' -> I y' /\ smaller a b c y' y) ->
  forall y, I y -> inevitably step P y.
Proof.
  intros Hquiet Hstep. apply (smaller_ind a b c (fun y => I y -> inevitably step P y)). intros y IH Hy.
  destruct (Hquiet y Hy) as [Hex|HP]; [|by apply inev_now]. apply inev_later; [done|]. intros y' Hs.
  destruct (Hstep y y' Hy Hs) as [Hy' Hlt]. by apply IH.
Qed.

(** ** Interference

    Others may make steps too, as many as a budget allows: a state comes with the
    steps they have left. *)

Inductive interfered {Y : Type} (step others : Y -> Y -> Prop) : nat * Y -> nat * Y -> Prop :=
| intf_own n y y' : step y y' -> interfered step others (n, y) (n, y')
| intf_other n y y' : others y y' -> interfered step others (S n, y) (n, y').

(** With an invariant for each remaining budget under which own steps make the
    ranks smaller, which may depend on a parameter that the others change. *)
Lemma inevitable_interfered {Y X : Type} (step others : Y -> Y -> Prop) (I : nat -> X -> Y -> Prop) (P : Y -> Prop)
    (a b c : X -> Y -> nat) :
  (forall n x y, I n x y -> (exists y', step y y') \/ P y) ->
  (forall n x y y', I n x y -> step y y' -> I n x y' /\ smaller (a x) (b x) (c x) y' y) ->
  (forall n x y y', I (S n) x y -> others y y' -> exists x', I n x' y') ->
  forall n x y, I n x y -> inevitably (interfered step others) (fun ny => P ny.2) (n, y).
Proof.
  intros Hquiet Hstep Hothers n. induction n as [n IHn] using lt_wf_ind. intros x.
  apply (smaller_ind (a x) (b x) (c x) (fun y => I n x y -> inevitably (interfered step others) (fun ny => P ny.2) (n, y))).
  intros y IH Hy. destruct (Hquiet n x y Hy) as [[y' Hs]|HP]; [|by apply inev_now].
  apply inev_later; [exists (n, y'); by constructor|]. intros ny' Hs'. inversion Hs' as [? ? y2 Hs2|m ? y2 Ho]; subst.
  - destruct (Hstep n x y y2 Hy Hs2) as [Hy2 Hlt]. by apply IH.
  - destruct (Hothers m x y y2 Hy Ho) as [x' Hx']. by eapply IHn; [lia|].
Qed.
