(* ===== verification/GoStrconv.v ===== *)
(** * strconv: decimal integers as Go prints and parses them

    ResourceVersions are decimal strings. The backends write them with
    [strconv.FormatInt(rv, 10)] and the cache reads them back with
    [strconv.ParseInt(s, 10, 64)], whose result the callers use in two ways:
    checking the error, or ignoring it and using the value that comes with it
    (0 on a syntax error, the nearest int64 on a range error). [ParseInt]
    therefore returns both. *)

From Stdlib Require Import Ascii DecimalString DecimalFacts DecimalZ.
From S2P Require Import Prelude.

Inductive numError : Type := ErrSyntax | ErrRange.

Definition FormatInt (z : Z) : string := NilZero.string_of_int (Z.to_int z).

(** The digits of an unsigned decimal literal; at least one is required. *)
Definition parseUint (s : string) : option Z :=
  Z.of_uint <$> NilZero.uint_of_string s.

Definition clamp (z : Z) : Z * option numError :=
  if (max_int64 <? z)%Z then (max_int64, Some ErrRange)
  else if (z <? min_int64)%Z then (min_int64, Some ErrRange)
  else (z, None).

Definition ParseInt (s : string) : Z * option numError :=
  match s with
  | String "-"%char s' =>
      match parseUint s' with Some n => clamp (- n) | None => (0%Z, Some ErrSyntax) end
  | String "+"%char s' =>
      match parseUint s' with Some n => clamp n | None => (0%Z, Some ErrSyntax) end
  | _ =>
      match parseUint s with Some n => clamp n | None => (0%Z, Some ErrSyntax) end
  end.

(** The idiom [if rv, err := strconv.ParseInt(s, 10, 64); err == nil]. *)
Definition parsed (s : string) : option Z :=
  match ParseInt s with (z, None) => Some z | _ => None end.

Lemma to_uint_nonnil p : Pos.to_uint p <> Decimal.Nil.
Proof.
  intros H. pose proof (DecimalPos.Unsigned.of_to p) as E. by rewrite H in E.
Qed.

Lemma clamp_id z : in_int64 z = true -> clamp z = (z, None).
Proof.
  rewrite in_int64_spec. unfold clamp. intros [H1 H2].
  destruct (Z.ltb_spec max_int64 z); [lia|].
  destruct (Z.ltb_spec z min_int64); [lia|done].
Qed.

Lemma parseUint_to_uint p :
  parseUint (NilZero.string_of_uint (Pos.to_uint p)) = Some (Z.pos p).
Proof.
  unfold parseUint. rewrite NilZero.usu by apply to_uint_nonnil. simpl.
  unfold Z.of_uint. by rewrite DecimalPos.Unsigned.of_to.
Qed.

(** A digit string never starts with a sign. *)
Lemma ParseInt_digits d :
  ParseInt (NilZero.string_of_uint d) =
  match parseUint (NilZero.string_of_uint d) with
  | Some n => clamp n | None => (0%Z, Some ErrSyntax)
  end.
Proof. by destruct d. Qed.

Lemma ParseInt_FormatInt_clamp z : ParseInt (FormatInt z) = clamp z.
Proof.
  unfold FormatInt. destruct z as [|p|p]; [done| |].
  - simpl. by rewrite ParseInt_digits, parseUint_to_uint.
  - cbn. by rewrite parseUint_to_uint.
Qed.

Lemma ParseInt_FormatInt z : in_int64 z = true -> ParseInt (FormatInt z) = (z, None).
Proof. intros H. by rewrite ParseInt_FormatInt_clamp, clamp_id. Qed.

Lemma parsed_FormatInt z : in_int64 z = true -> parsed (FormatInt z) = Some z.
Proof. intros H. unfold parsed. by rewrite ParseInt_FormatInt. Qed.

Lemma FormatInt_nonempty z : FormatInt z <> "".
Proof.
  unfold FormatInt. destruct z as [|p|p]; [done| |done].
  simpl. pose proof (to_uint_nonnil p). by destruct (Pos.to_uint p).
Qed.

#[export] Instance FormatInt_inj : Inj (=) (=) FormatInt.
Proof.
  intros x y H. unfold FormatInt in H.
  assert (E : forall z, NilZero.int_of_string (NilZero.string_of_int (Z.to_int z)) = Some (Z.to_int z)).
  { intros [|p|p]; [done| |].
    - apply NilZero.isi; simpl; intros [=]; by eapply to_uint_nonnil.
    - apply NilZero.isi; intros [=]; by eapply to_uint_nonnil. }
  pose proof (E x) as Ex. rewrite H, E in Ex. simplify_eq.
  by apply DecimalZ.to_int_inj.
Qed.

#[export] Hint Resolve FormatInt_nonempty : sc.
