(* ===== verification/GoJson.v ===== *)
(** * encoding/json: marshalling Go values and decoding into them

    The backends copy, split and merge objects through [json.Marshal] and
    [json.Unmarshal]. What matters for them, and what this file models, is

    - [omitempty]: an empty field is left out of the encoding;
    - [Unmarshal] decodes _into_ an existing value: a struct field whose key is
      absent keeps its old content, a decoded map is merged key by key into the
      old one, a slice element is decoded over the old element, [null] resets
      maps, slices and pointers and leaves everything else alone.

    JSON texts are abstract syntax trees. Member order is kept, so that two
    encodings produced by [json.Marshal] are byte-equal exactly when the trees
    are equal. The Go types covered are booleans, int64, strings,
    [map[string]string], slices, pointers and structs. *)

From S2P Require Import Prelude.

#[local] Set Warnings "-register-all".

Inductive json : Type :=
| JNull
| JBool (b : bool)
| JNum (z : Z)
| JStr (s : string)
| JArr (js : list json)
| JObj (kvs : list (string * json)).

(** Go types; a struct field has its JSON key and its [omitempty] flag. *)
Inductive gty : Type :=
| GBool
| GInt
| GString
| GStrMap
| GSlice (e : gty)
| GPtr (e : gty)
| GStruct (fs : list ((string * bool) * gty)).

Abbreviation field := ((string * bool) * gty)%type.

Definition fkey (f : field) : string := f.1.1.
Definition fomit (f : field) : bool := f.1.2.
Definition fty (f : field) : gty := f.2.

Inductive gval : Type :=
| VBool (b : bool)
| VInt (z : Z)
| VStr (s : string)
| VMap (m : option (gmap string string))
| VSlice (l : option (list gval))
| VPtr (p : option gval)
| VStruct (vs : list gval).

(** The zero value of a type. *)
Fixpoint zero (t : gty) : gval :=
  match t with
  | GBool => VBool false
  | GInt => VInt 0
  | GString => VStr ""
  | GStrMap => VMap None
  | GSlice _ => VSlice None
  | GPtr _ => VPtr None
  | GStruct fs => VStruct (map (fun f => zero f.2) fs)
  end.

(** The emptiness test of [omitempty]; a struct is never empty. *)
Definition isEmptyValue (v : gval) : bool :=
  match v with
  | VBool b => negb b
  | VInt z => (z =? 0)%Z
  | VStr s => bool_decide (s = "")
  | VMap m => bool_decide (default ∅ m = ∅)
  | VSlice l => bool_decide (default [] l = [])
  | VPtr p => bool_decide (p = None)
  | VStruct _ => false
  end.

Fixpoint marshal (t : gty) (v : gval) : json :=
  match t, v with
  | GBool, VBool b => JBool b
  | GInt, VInt z => JNum z
  | GString, VStr s => JStr s
  | GStrMap, VMap (Some m) => JObj (prod_map id JStr <$> map_to_list m)
  | GSlice e, VSlice (Some l) => JArr (map (marshal e) l)
  | GPtr e, VPtr (Some w) => marshal e w
  | GStruct fs, VStruct vs =>
      JObj ((fix go (fs : list field) (vs : list gval) : list (string * json) :=
               match fs, vs with
               | f :: fs', w :: vs' =>
                   if f.1.2 && isEmptyValue w then go fs' vs'
                   else (f.1.1, marshal f.2 w) :: go fs' vs'
               | _, _ => []
               end) fs vs)
  | _, _ => JNull
  end.

(** The members of a JSON object with a given key, in order of appearance. *)
Definition named (k : string) (kvs : list (string * json)) : list json :=
  omap (fun kv => if decide (kv.1 = k) then Some kv.2 else None) kvs.

(** Decode several JSON values one after the other into the same target. *)
Fixpoint decode_all (f : json -> gval -> option gval) (js : list json) (v : gval) : option gval :=
  match js with
  | [] => Some v
  | j :: js' => match f j v with Some v' => decode_all f js' v' | None => None end
  end.

(** Decoding an object into a [map[string]string]: each element is decoded
    into a fresh string and stored under its key; other keys stay. *)
Fixpoint decode_strmap (kvs : list (string * json)) (m : gmap string string) : option (gmap string string) :=
  match kvs with
  | [] => Some m
  | (k, JStr s) :: kvs' => decode_strmap kvs' (<[k := s]> m)
  | (k, JNull) :: kvs' => decode_strmap kvs' (<[k := ""]> m)
  | _ :: _ => None
  end.

(** [Unmarshal] of a JSON value into an existing value of a type; [None] is
    the type error. *)
Fixpoint unmarshal (t : gty) (j : json) (v : gval) {struct t} : option gval :=
  match t, v with
  | GBool, VBool _ =>
      match j with JBool b => Some (VBool b) | JNull => Some v | _ => None end
  | GInt, VInt _ =>
      match j with
      | JNum z => if in_int64 z then Some (VInt z) else None
      | JNull => Some v
      | _ => None
      end
  | GString, VStr _ =>
      match j with JStr s => Some (VStr s) | JNull => Some v | _ => None end
  | GStrMap, VMap m =>
      match j with
      | JNull => Some (VMap None)
      | JObj kvs => VMap ∘ Some <$> decode_strmap kvs (default ∅ m)
      | _ => None
      end
  | GSlice e, VSlice l =>
      match j with
      | JNull => Some (VSlice None)
      | JArr js =>
          VSlice ∘ Some <$>
            (fix go (js : list json) (ws : list gval) : option (list gval) :=
               match js with
               | [] => Some []
               | j :: js' =>
                   match unmarshal e j (default (zero e) (head ws)) with
                   | Some u =>
                       match go js' (tail ws) with
                       | Some us => Some (u :: us)
                       | None => None
                       end
                   | None => None
                   end
               end) js (default [] l)
      | _ => None
      end
  | GPtr e, VPtr p =>
      match j with
      | JNull => Some (VPtr None)
      | _ => VPtr ∘ Some <$> unmarshal e j (default (zero e) p)
      end
  | GStruct fs, VStruct vs =>
      match j with
      | JNull => Some v
      | JObj kvs =>
          VStruct <$>
            (fix go (fs : list field) (vs : list gval) : option (list gval) :=
               match fs, vs with
               | [], _ => Some []
               | f :: fs', w :: vs' =>
                   match decode_all (unmarshal f.2) (named f.1.1 kvs) w with
                   | Some u =>
                       match go fs' vs' with
                       | Some us => Some (u :: us)
                       | None => None
                       end
                   | None => None
                   end
               | _ :: _, [] => None
               end) fs vs
      | _ => None
      end
  | _, _ => None
  end.

(** [json.Unmarshal(data, &m)] for [m map[string]json.RawMessage], the last of
    several equal keys winning, and [json.Marshal(m)] back. *)
Definition rawMap (j : json) : gmap string json :=
  match j with
  | JObj kvs => list_to_map (reverse kvs)
  | _ => ∅
  end.

Definition mapJson (m : gmap string json) : json := JObj (map_to_list m).

(** ** Typing *)

Fixpoint has_type (t : gty) (v : gval) : bool :=
  match t, v with
  | GBool, VBool _ => true
  | GInt, VInt z => in_int64 z
  | GString, VStr _ => true
  | GStrMap, VMap _ => true
  | GSlice e, VSlice l => forallb (has_type e) (default [] l)
  | GPtr e, VPtr p => match p with Some w => has_type e w | None => true end
  | GStruct fs, VStruct vs =>
      (fix go (fs : list field) (vs : list gval) : bool :=
         match fs, vs with
         | [], [] => true
         | f :: fs', w :: vs' => has_type f.2 w && go fs' vs'
         | _, _ => false
         end) fs vs
  | _, _ => false
  end.

(** Types whose encoding [null] stands for exactly one value: pointers point
    to values that are never encoded as [null]; struct keys are distinct. *)
Definition nullable (t : gty) : bool :=
  match t with GStrMap | GSlice _ | GPtr _ => true | _ => false end.

Fixpoint wf_type (t : gty) : bool :=
  match t with
  | GSlice e => wf_type e
  | GPtr e => negb (nullable e) && wf_type e
  | GStruct fs => bool_decide (NoDup (map fkey fs)) && forallb (fun f => wf_type f.2) fs
  | _ => true
  end.

(** Types without [omitempty] and without maps: a decoded encoding replaces
    everything that was there before. *)
Fixpoint overwriting (t : gty) : bool :=
  match t with
  | GStrMap => false
  | GSlice e => overwriting e
  | GPtr e => overwriting e
  | GStruct fs => forallb (fun f => negb f.1.2 && overwriting f.2) fs
  | _ => true
  end.

(** What a value becomes when it is encoded and decoded into a zero value:
    empty [omitempty] fields are reset. *)
Fixpoint norm (t : gty) (v : gval) : gval :=
  match t, v with
  | GSlice e, VSlice (Some l) => VSlice (Some (map (norm e) l))
  | GPtr e, VPtr (Some w) => VPtr (Some (norm e w))
  | GStruct fs, VStruct vs =>
      VStruct
        ((fix go (fs : list field) (vs : list gval) : list gval :=
            match fs, vs with
            | f :: fs', w :: vs' =>
                (if f.1.2 && isEmptyValue w then zero f.2 else norm f.2 w) :: go fs' vs'
            | _, _ => []
            end) fs vs)
  | _, _ => v
  end.
