(* ===== verification/GoJsonFacts.v ===== *)
(** * Facts about encoding/json

    Three laws carry the backends' proofs: decoding an encoding into a zero
    value gives the value back up to [norm] ([unmarshal_zero]), decoding a
    value's own encoding over itself changes nothing ([unmarshal_self]), and
    for types without [omitempty] and maps decoding replaces the target
    ([unmarshal_overwriting]). *)

From S2P Require Import Prelude GoJson.

(** ** Decidable equality and induction *)

#[export] Instance json_eq_dec : EqDecision json.
Proof.
  refine (fix go (x y : json) {struct x} : Decision (x = y) :=
    match x, y with
    | JNull, JNull => left eq_refl
    | JBool a, JBool b => cast_if (decide (a = b))
    | JNum a, JNum b => cast_if (decide (a = b))
    | JStr a, JStr b => cast_if (decide (a = b))
    | JArr a, JArr b => cast_if (@list_eq_dec _ go a b)
    | JObj a, JObj b => cast_if (@list_eq_dec _ (@prod_eq_dec _ _ _ go) a b)
    | _, _ => right _
    end); clear go; abstract congruence.
Defined.

Section gty_induction.
Variable P : gty -> Prop.
Hypothesis HBool : P GBool.
Hypothesis HInt : P GInt.
Hypothesis HString : P GString.
Hypothesis HStrMap : P GStrMap.
Hypothesis HSlice : forall e, P e -> P (GSlice e).
Hypothesis HPtr : forall e, P e -> P (GPtr e).
Hypothesis HStruct : forall fs, Forall (fun f : field => P (fty f)) fs -> P (GStruct fs).

Fixpoint gty_nested_ind (t : gty) : P t :=
  match t with
  | GBool => HBool
  | GInt => HInt
  | GString => HString
  | GStrMap => HStrMap
  | GSlice e => HSlice e (gty_nested_ind e)
  | GPtr e => HPtr e (gty_nested_ind e)
  | GStruct fs =>
      HStruct fs
        ((fix go (fs : list field) : Forall (fun f : field => P (fty f)) fs :=
            match fs with
            | [] => Forall_nil_2 _
            | f :: fs' => Forall_cons_2 _ _ _ (gty_nested_ind (fty f)) (go fs')
            end) fs)
  end.
End gty_induction.

(** ** The struct and slice loops by name *)

Fixpoint marshal_fields (fs : list field) (vs : list gval) : list (string * json) :=
  match fs, vs with
  | f :: fs', w :: vs' =>
      if f.1.2 && isEmptyValue w then marshal_fields fs' vs'
      else (f.1.1, marshal f.2 w) :: marshal_fields fs' vs'
  | _, _ => []
  end.

Definition unmarshal_fields (kvs : list (string * json)) :
    list field -> list gval -> option (list gval) :=
  fix go (fs : list field) (vs : list gval) : option (list gval) :=
    match fs, vs with
    | [], _ => Some []
    | f :: fs', w :: vs' =>
        match decode_all (unmarshal f.2) (named f.1.1 kvs) w with
        | Some u =>
            match go fs' vs' with
            | Some us => Some (u :: us)
            | None => None
            end
        | None => None
        end
    | _ :: _, [] => None
    end.

Definition unmarshal_elems (e : gty) : list json -> list gval -> option (list gval) :=
  fix go (js : list json) (ws : list gval) : option (list gval) :=
    match js with
    | [] => Some []
    | j :: js' =>
        match unmarshal e j (default (zero e) (head ws)) with
        | Some u =>
            match go js' (tail ws) with
            | Some us => Some (u :: us)
            | None => None
            end
        | None => None
        end
    end.

Fixpoint norm_fields (fs : list field) (vs : list gval) : list gval :=
  match fs, vs with
  | f :: fs', w :: vs' =>
      (if f.1.2 && isEmptyValue w then zero f.2 else norm f.2 w) :: norm_fields fs' vs'
  | _, _ => []
  end.

Lemma marshal_struct fs vs :
  marshal (GStruct fs) (VStruct vs) = JObj (marshal_fields fs vs).
Proof. reflexivity. Qed.

Lemma unmarshal_struct fs vs kvs :
  unmarshal (GStruct fs) (JObj kvs) (VStruct vs) = VStruct <$> unmarshal_fields kvs fs vs.
Proof. reflexivity. Qed.

Lemma unmarshal_slice e js l :
  unmarshal (GSlice e) (JArr js) (VSlice l) =
  VSlice ∘ Some <$> unmarshal_elems e js (default [] l).
Proof. reflexivity. Qed.

Lemma norm_struct fs vs : norm (GStruct fs) (VStruct vs) = VStruct (norm_fields fs vs).
Proof. reflexivity. Qed.

Lemma has_type_struct fs vs :
  has_type (GStruct fs) (VStruct vs) = true <->
  Forall2 (fun f v => has_type (fty f) v = true) fs vs.
Proof.
  split.
  - revert vs. induction fs as [|f fs IH]; intros [|v vs]; simpl; try done.
    intros [H1 H2]%andb_true_iff. constructor; [done|]. by apply IH.
  - induction 1 as [|f v fs vs H1 _ IH]; [done|]. unfold fty in H1. simpl in *. by rewrite H1.
Qed.

Lemma has_type_slice e l :
  has_type (GSlice e) (VSlice l) = true <->
  Forall (fun v => has_type e v = true) (default [] l).
Proof. simpl. rewrite forallb_forall, Forall_forall. setoid_rewrite list_elem_of_In. done. Qed.

(** Values of a type have the shape of the type. *)
Lemma has_type_struct_inv fs v :
  has_type (GStruct fs) v = true -> exists vs, v = VStruct vs /\
  Forall2 (fun f v => has_type (fty f) v = true) fs vs.
Proof.
  destruct v; try done. intros H. eexists; split; [done|]. by apply has_type_struct.
Qed.

Lemma wf_type_struct fs :
  wf_type (GStruct fs) = true <->
  NoDup (map fkey fs) /\ Forall (fun f => wf_type (fty f) = true) fs.
Proof.
  simpl. rewrite andb_true_iff, bool_decide_eq_true, forallb_forall, Forall_forall.
  setoid_rewrite list_elem_of_In. done.
Qed.

(** ** Members by key *)

Lemma named_cons k kv kvs :
  named k (kv :: kvs) = if decide (kv.1 = k) then kv.2 :: named k kvs else named k kvs.
Proof. unfold named. simpl. by case_decide. Qed.

Lemma named_not_in k kvs : k ∉ kvs.*1 -> named k kvs = [].
Proof.
  induction kvs as [|[k' j] kvs IH]; [done|]. rewrite named_cons. simpl.
  intros H. case_decide; [set_solver|]. apply IH. set_solver.
Qed.

Lemma marshal_fields_keys fs vs : (marshal_fields fs vs).*1 ⊆ map fkey fs.
Proof.
  revert vs. induction fs as [|f fs IH]; intros [|v vs]; simpl; try set_solver.
  case_goal; [set_solver|]. simpl. set_solver.
Qed.

Lemma marshal_fields_NoDup fs vs :
  NoDup (map fkey fs) -> NoDup (marshal_fields fs vs).*1.
Proof.
  revert vs. induction fs as [|f fs IH]; intros [|v vs]; simpl; try by constructor.
  intros [H1 H2]%NoDup_cons. case_goal; [by apply IH|]. simpl. constructor; [|by apply IH].
  intros H. apply H1. by eapply marshal_fields_keys.
Qed.

(** What a field's key holds in the encoding of its struct. *)
Definition member (f : field) (v : gval) : list json :=
  if fomit f && isEmptyValue v then [] else [marshal (fty f) v].

Lemma named_marshal_fields fs vs :
  NoDup (map fkey fs) ->
  length fs = length vs ->
  Forall2 (fun f v => named (fkey f) (marshal_fields fs vs) = member f v) fs vs.
Proof.
  revert vs. induction fs as [|f fs IH]; intros [|v vs]; [constructor|done|done|].
  intros [H1 H2]%NoDup_cons Hlen. constructor.
  - simpl. unfold member, fomit. case_goal.
    + apply named_not_in. intros H. apply H1. by eapply marshal_fields_keys.
    + rewrite named_cons. simpl. rewrite decide_True by done. f_equal.
      apply named_not_in. intros H. apply H1. by eapply marshal_fields_keys.
  - specialize (IH vs H2 ltac:(by simpl in *; lia)).
    apply Forall2_same_length_lookup in IH as [Hl IH].
    apply Forall2_same_length_lookup; split; [done|]. intros i g w Hg Hw.
    rewrite <- (IH i g w Hg Hw). simpl.
    case_goal; [done|]. rewrite named_cons. simpl. rewrite decide_False; [done|].
    intros Heq. apply H1. unfold fkey at 1. rewrite Heq.
    apply list_elem_of_In, in_map, list_elem_of_In. by eapply list_elem_of_lookup_2.
Qed.

Lemma unmarshal_fields_cons kvs f fs v vs :
  unmarshal_fields kvs (f :: fs) (v :: vs) =
  match decode_all (unmarshal (fty f)) (named (fkey f) kvs) v with
  | Some u => (u ::.) <$> unmarshal_fields kvs fs vs
  | None => None
  end.
Proof. reflexivity. Qed.

Lemma unmarshal_elems_cons e j js ws :
  unmarshal_elems e (j :: js) ws =
  match unmarshal e j (default (zero e) (head ws)) with
  | Some u => (u ::.) <$> unmarshal_elems e js (tail ws)
  | None => None
  end.
Proof. reflexivity. Qed.

(** Decoding a struct decodes every field from the members with its key. *)
Lemma unmarshal_fields_Forall3 kvs fs vs us :
  Forall3 (fun f v u => decode_all (unmarshal (fty f)) (named (fkey f) kvs) v = Some u) fs vs us ->
  unmarshal_fields kvs fs vs = Some us.
Proof.
  induction 1 as [|f v u fs vs us H1 HF IH]; [done|].
  by rewrite unmarshal_fields_cons, H1, IH.
Qed.

Lemma decode_member f v w u :
  (fomit f && isEmptyValue v = true -> u = w) ->
  (fomit f && isEmptyValue v = false -> unmarshal (fty f) (marshal (fty f) v) w = Some u) ->
  decode_all (unmarshal (fty f)) (member f v) w = Some u.
Proof.
  intros H1 H2. unfold member. destruct (_ && _).
  - simpl. by rewrite H1.
  - simpl. by rewrite H2.
Qed.

(** ** Building [Forall3] from pointwise facts *)

Lemma Forall3_lookup_build {A B C} (P : A -> B -> C -> Prop) l k (g : list C) :
  length l = length k -> length g = length l ->
  (forall i x y z, l !! i = Some x -> k !! i = Some y -> g !! i = Some z -> P x y z) ->
  Forall3 P l k g.
Proof.
  revert k g. induction l as [|x l IH]; intros [|y k] [|z g]; try done; [constructor|].
  simpl. intros H1 H2 H. constructor; [by apply (H 0)|].
  apply IH; [lia|lia|]. intros i. exact (H (S i)).
Qed.

Lemma lookup_norm_fields fs vs i f v :
  fs !! i = Some f -> vs !! i = Some v ->
  norm_fields fs vs !! i =
  Some (if fomit f && isEmptyValue v then zero (fty f) else norm (fty f) v).
Proof.
  revert vs i. induction fs as [|f' fs IH]; intros [|v' vs] [|i]; simpl; try done.
  - by intros [= ->] [= ->].
  - apply IH.
Qed.

Lemma length_norm_fields fs vs :
  length fs = length vs -> length (norm_fields fs vs) = length fs.
Proof.
  revert vs. induction fs as [|f fs IH]; intros [|v vs]; simpl; try done.
  intros [= H]. by rewrite IH.
Qed.

(** ** Decoding the pieces *)

Lemma decode_strmap_entries l m0 :
  NoDup l.*1 ->
  decode_strmap (prod_map id JStr <$> l) m0 = Some (list_to_map l ∪ m0).
Proof.
  revert m0. induction l as [|[k s] l IH]; intros m0; simpl.
  - by rewrite (left_id_L ∅ (∪)).
  - intros [H1 H2]%NoDup_cons. rewrite IH by done. f_equal.
    rewrite <- insert_union_l. rewrite <- insert_union_r; [done|].
    by apply not_elem_of_list_to_map_1.
Qed.

Lemma decode_strmap_map m m0 :
  decode_strmap (prod_map id JStr <$> map_to_list m) m0 = Some (m ∪ m0).
Proof.
  rewrite decode_strmap_entries by apply NoDup_fst_map_to_list.
  by rewrite list_to_map_to_list.
Qed.

Lemma marshal_not_null t v :
  nullable t = false -> has_type t v = true -> marshal t v <> JNull.
Proof. by destruct t, v. Qed.

Lemma unmarshal_ptr e j p :
  j <> JNull ->
  unmarshal (GPtr e) j (VPtr p) = VPtr ∘ Some <$> unmarshal e j (default (zero e) p).
Proof. by destruct j. Qed.

Lemma unmarshal_elems_map e (g : gval -> gval) l ws :
  (forall i v, l !! i = Some v ->
     unmarshal e (marshal e v) (default (zero e) (ws !! i)) = Some (g v)) ->
  unmarshal_elems e (map (marshal e) l) ws = Some (map g l).
Proof.
  revert ws. induction l as [|v l IH]; intros ws H; [done|].
  simpl map. rewrite unmarshal_elems_cons.
  replace (head ws) with (ws !! 0) by (by destruct ws).
  rewrite (H 0 v) by done. rewrite IH; [done|].
  intros i w Hi. rewrite <- (H (S i) w Hi). by destruct ws.
Qed.

Lemma has_type_zero t : has_type t (zero t) = true.
Proof.
  induction t as [| | | |e IH|e IH|fs IH] using gty_nested_ind; try done.
  simpl zero. apply has_type_struct.
  induction IH as [|f fs H _ IHfs]; [constructor|]. by constructor.
Qed.

(** Encoding a struct, member by member, against the decoder's view. *)
Lemma struct_members fs vs :
  NoDup (map fkey fs) ->
  Forall2 (fun f v => has_type (fty f) v = true) fs vs ->
  forall i f v, fs !! i = Some f -> vs !! i = Some v ->
  named (fkey f) (marshal_fields fs vs) = member f v.
Proof.
  intros Hnd HT i f v Hf Hv.
  pose proof (named_marshal_fields fs vs Hnd (Forall2_length _ _ _ HT)) as H.
  by eapply Forall2_lookup_lr in H.
Qed.

Section struct_decode.
Context (fs : list field) (vs ws us : list gval).
Hypothesis Hnd : NoDup (map fkey fs).
Hypothesis HT : Forall2 (fun f v => has_type (fty f) v = true) fs vs.
Hypothesis Hws : length ws = length fs.
Hypothesis Hus : length us = length fs.

(** Decoding the encoding of [vs] over [ws] gives [us] as soon as every field
    does so on its own. *)
Lemma unmarshal_marshal_struct :
  (forall i f v w u, fs !! i = Some f -> vs !! i = Some v -> ws !! i = Some w -> us !! i = Some u ->
     decode_all (unmarshal (fty f)) (member f v) w = Some u) ->
  unmarshal (GStruct fs) (marshal (GStruct fs) (VStruct vs)) (VStruct ws) = Some (VStruct us).
Proof.
  intros H. rewrite marshal_struct, unmarshal_struct.
  erewrite unmarshal_fields_Forall3; [done|].
  apply Forall3_lookup_build; [done|done|]. intros i f w u Hf Hw Hu.
  assert (is_Some (vs !! i)) as [v Hv].
  { apply lookup_lt_is_Some. rewrite <- (Forall2_length _ _ _ HT). by eapply lookup_lt_Some. }
  erewrite struct_members by eauto. eauto.
Qed.
End struct_decode.

(** ** The laws *)

(** Decoding a value's own encoding over itself leaves it unchanged. *)
Lemma unmarshal_self t v :
  wf_type t = true -> has_type t v = true -> unmarshal t (marshal t v) v = Some v.
Proof.
  revert v. induction t as [| | | |e IH|e IH|fs IH] using gty_nested_ind; intros v Hwf Hv.
  - by destruct v.
  - destruct v; simpl in *; try done. by rewrite Hv.
  - by destruct v.
  - destruct v as [| | |[m|]| | |]; try done. simpl. rewrite decode_strmap_map. simpl.
    by rewrite (idemp_L (∪)).
  - destruct v as [| | | |[l|]| |]; try done. apply has_type_slice in Hv. simpl in Hv.
    change (marshal (GSlice e) (VSlice (Some l))) with (JArr (map (marshal e) l)).
    rewrite unmarshal_slice. simpl default.
    rewrite (unmarshal_elems_map e id), map_id; [done|].
    intros i w Hi. rewrite Hi. simpl. apply IH; [done|].
    rewrite Forall_lookup in Hv. eauto.
  - destruct v as [| | | | |[w|]|]; try done. simpl in Hwf, Hv. split_bools.
    change (marshal (GPtr e) (VPtr (Some w))) with (marshal e w).
    rewrite unmarshal_ptr by (by apply marshal_not_null). simpl. by rewrite IH.
  - apply has_type_struct_inv in Hv as (vs & -> & HT). apply wf_type_struct in Hwf as [Hnd Hwf].
    pose proof (Forall2_length _ _ _ HT).
    apply unmarshal_marshal_struct; [done..|]. intros i f v w u Hf Hv Hw Hu. simplify_eq.
    apply decode_member; [done|]. intros _.
    rewrite Forall_lookup in IH, Hwf. eapply IH; eauto.
    by eapply Forall2_lookup_lr in HT.
Qed.

(** Decoding an encoding into the zero value gives the value up to [norm]. *)
Lemma unmarshal_zero t v :
  wf_type t = true -> has_type t v = true -> unmarshal t (marshal t v) (zero t) = Some (norm t v).
Proof.
  revert v. induction t as [| | | |e IH|e IH|fs IH] using gty_nested_ind; intros v Hwf Hv.
  - by destruct v.
  - destruct v; simpl in *; try done. by rewrite Hv.
  - by destruct v.
  - destruct v as [| | |[m|]| | |]; try done. simpl. rewrite decode_strmap_map. simpl.
    by rewrite (right_id_L ∅ (∪)).
  - destruct v as [| | | |[l|]| |]; try done. apply has_type_slice in Hv. simpl in Hv.
    change (marshal (GSlice e) (VSlice (Some l))) with (JArr (map (marshal e) l)).
    simpl zero. rewrite unmarshal_slice. simpl default.
    rewrite (unmarshal_elems_map e (norm e)); [done|].
    intros i w Hi. rewrite lookup_nil. simpl. apply IH; [done|].
    rewrite Forall_lookup in Hv. eauto.
  - destruct v as [| | | | |[w|]|]; try done. simpl in Hwf, Hv. split_bools.
    change (marshal (GPtr e) (VPtr (Some w))) with (marshal e w). simpl zero.
    rewrite unmarshal_ptr by (by apply marshal_not_null). simpl. by rewrite IH.
  - apply has_type_struct_inv in Hv as (vs & -> & HT). apply wf_type_struct in Hwf as [Hnd Hwf].
    pose proof (Forall2_length _ _ _ HT). rewrite norm_struct. simpl zero.
    apply unmarshal_marshal_struct;
      [done|done|by rewrite length_map|by apply length_norm_fields|].
    intros i f v w u Hf Hv Hw Hu.
    rewrite list_lookup_fmap, Hf in Hw. rewrite (lookup_norm_fields _ _ _ _ _ Hf Hv) in Hu.
    simplify_eq/=. rewrite Forall_lookup in IH, Hwf.
    apply decode_member; intros E; rewrite E; [done|].
    eapply IH; eauto. by eapply Forall2_lookup_lr in HT.
Qed.

(** For overwriting types, decoding an encoding replaces the old content. *)
Lemma unmarshal_overwriting t v w :
  wf_type t = true -> overwriting t = true -> has_type t v = true -> has_type t w = true ->
  unmarshal t (marshal t v) w = Some v.
Proof.
  revert v w. induction t as [| | | |e IH|e IH|fs IH] using gty_nested_ind; intros v w Hwf Ho Hv Hw.
  - by destruct v, w.
  - destruct v, w; simpl in *; try done. by rewrite Hv.
  - by destruct v, w.
  - done.
  - destruct v as [| | | |[l|]| |], w as [| | | |k| |]; try done.
    apply has_type_slice in Hv, Hw. simpl in Hv.
    change (marshal (GSlice e) (VSlice (Some l))) with (JArr (map (marshal e) l)).
    rewrite unmarshal_slice, (unmarshal_elems_map e id), map_id; [done|].
    intros i x Hi. rewrite Forall_lookup in Hv. apply IH; eauto.
    destruct (default [] k !! i) eqn:E; simpl; [|apply has_type_zero].
    rewrite Forall_lookup in Hw. eauto.
  - destruct v as [| | | | |[v|]|], w as [| | | | |p|]; try done. simpl in Hwf, Ho, Hv, Hw. split_bools.
    change (marshal (GPtr e) (VPtr (Some v))) with (marshal e v).
    rewrite unmarshal_ptr by (by apply marshal_not_null). rewrite IH; try done.
    destruct p; simpl; [done|apply has_type_zero].
  - apply has_type_struct_inv in Hv as (vs & -> & HT), Hw as (ws & -> & HT').
    apply wf_type_struct in Hwf as [Hnd Hwf].
    pose proof (Forall2_length _ _ _ HT). pose proof (Forall2_length _ _ _ HT').
    apply unmarshal_marshal_struct; [done..|]. intros i f v w u Hf Hv Hw Hu. simplify_eq.
    simpl in Ho. rewrite forallb_forall in Ho. specialize (Ho f). split_bools.
    assert (In f fs) as Hin by (apply list_elem_of_In; by eapply list_elem_of_lookup_2).
    apply Ho in Hin. split_bools. unfold fomit.
    apply decode_member; unfold fomit; [by intros E; split_bools; congruence|]. intros _.
    rewrite Forall_lookup in IH, Hwf.
    eapply IH; eauto; [by eapply Forall2_lookup_lr in HT|by eapply Forall2_lookup_lr in HT'].
Qed.

(** ** Decoding preserves types and never fails on encodings *)

Lemma decode_all_typed t js v u :
  (forall j v u, has_type t v = true -> unmarshal t j v = Some u -> has_type t u = true) ->
  has_type t v = true -> decode_all (unmarshal t) js v = Some u -> has_type t u = true.
Proof.
  intros H. revert v. induction js as [|j js IH]; intros v Hv; simpl.
  - by intros [= ->].
  - destruct (unmarshal t j v) eqn:E; [|done]. eauto.
Qed.

Lemma unmarshal_elems_typed e js ws us :
  (forall j v u, has_type e v = true -> unmarshal e j v = Some u -> has_type e u = true) ->
  Forall (fun v => has_type e v = true) ws ->
  unmarshal_elems e js ws = Some us -> Forall (fun v => has_type e v = true) us.
Proof.
  intros H. revert ws us. induction js as [|j js IH]; intros ws us Hws Heq.
  - simpl in Heq. by simplify_eq.
  - rewrite unmarshal_elems_cons in Heq. case_hyp Heq; [|done].
    destruct (unmarshal_elems e js (tail ws)) eqn:E2; simplify_eq/=. constructor.
    + eapply H; [|done]. destruct Hws; simpl; [apply has_type_zero|done].
    + eapply IH; [|done]. by destruct Hws.
Qed.

Lemma unmarshal_typed t j v u :
  has_type t v = true -> unmarshal t j v = Some u -> has_type t u = true.
Proof.
  revert j v u. induction t as [| | | |e IH|e IH|fs IH] using gty_nested_ind; intros j v u Hv Hu.
  - destruct v, j; by simplify_eq/=.
  - destruct v, j; simplify_eq/=; try done. by destruct (in_int64 z0) eqn:E; simplify_eq/=.
  - destruct v, j; by simplify_eq/=.
  - destruct v as [| | |m| | |], j; simplify_eq/=; try done. by destruct (decode_strmap kvs (default ∅ m)); simplify_eq/=.
  - destruct v as [| | | |l| |], j as [| | | |js|]; try by simplify_eq/=.
    rewrite unmarshal_slice in Hu.
    destruct (unmarshal_elems e js (default [] l)) as [l0|] eqn:E; simplify_eq/=.
    apply (has_type_slice e (Some l0)). eapply unmarshal_elems_typed; [done| |done].
    by apply (has_type_slice e l).
  - destruct v as [| | | | |p|]; try done.
    destruct (decide (j = JNull)) as [->|Hj]; [by simplify_eq/=|].
    rewrite unmarshal_ptr in Hu by done.
    destruct (unmarshal e j (default (zero e) p)) eqn:E; simplify_eq/=.
    eapply IH; [|done]. destruct p; [done|apply has_type_zero].
  - apply has_type_struct_inv in Hv as (vs & -> & HT).
    destruct j as [| | | | |kvs]; simplify_eq/=; try done; [by apply has_type_struct|].
    change (VStruct <$> unmarshal_fields kvs fs vs = Some u) in Hu.
    destruct (unmarshal_fields kvs fs vs) as [us|] eqn:E; simplify_eq/=.
    apply (has_type_struct fs us). revert us E. induction HT as [|f v fs vs Hv HT IHT]; intros us E.
    + simpl in E. by simplify_eq.
    + apply Forall_cons in IH as [IH1 IH2]. rewrite unmarshal_fields_cons in E.
      destruct (decode_all _ _ _) eqn:E1; [|done].
      destruct (unmarshal_fields kvs fs vs) eqn:E2; simplify_eq/=.
      constructor; [by eapply decode_all_typed|]. by apply IHT.
Qed.

Lemma unmarshal_elems_succeeds e l ws :
  (forall v w, has_type e v = true -> has_type e w = true -> is_Some (unmarshal e (marshal e v) w)) ->
  Forall (fun v => has_type e v = true) l -> Forall (fun v => has_type e v = true) ws ->
  is_Some (unmarshal_elems e (map (marshal e) l) ws).
Proof.
  intros H Hl. revert ws. induction Hl as [|v l Hv Hl IH]; intros ws Hws; [by eexists|].
  simpl map. rewrite unmarshal_elems_cons.
  edestruct (H v (default (zero e) (head ws))) as [u ->]; [done| |].
  { destruct Hws; simpl; [apply has_type_zero|done]. }
  edestruct (IH (tail ws)) as [us ->]; [by destruct Hws|]. by eexists.
Qed.

Lemma unmarshal_succeeds t v w :
  wf_type t = true -> has_type t v = true -> has_type t w = true ->
  is_Some (unmarshal t (marshal t v) w).
Proof.
  revert v w. induction t as [| | | |e IH|e IH|fs IH] using gty_nested_ind; intros v w Hwf Hv Hw.
  - destruct v, w; by simplify_eq/=.
  - destruct v, w; simplify_eq/=; try done. by rewrite Hv.
  - destruct v, w; by simplify_eq/=.
  - destruct v as [| | |[m|]| | |], w as [| | |m'| | |]; try done. simpl. by rewrite decode_strmap_map.
  - destruct v as [| | | |[l|]| |], w as [| | | |k| |]; try done.
    change (marshal (GSlice e) (VSlice (Some l))) with (JArr (map (marshal e) l)).
    rewrite unmarshal_slice. apply has_type_slice in Hv, Hw.
    edestruct (unmarshal_elems_succeeds e l (default [] k)) as [us ->]; eauto.
  - destruct v as [| | | | |[v|]|], w as [| | | | |p|]; try done. simpl in Hwf, Hv, Hw. split_bools.
    change (marshal (GPtr e) (VPtr (Some v))) with (marshal e v).
    rewrite unmarshal_ptr by (by apply marshal_not_null).
    edestruct (IH v (default (zero e) p)) as [u ->]; eauto.
    destruct p; [done|apply has_type_zero].
  - apply has_type_struct_inv in Hv as (vs & -> & HT), Hw as (ws & -> & HT').
    apply wf_type_struct in Hwf as [Hnd Hwf]. rewrite marshal_struct, unmarshal_struct.
    pose proof (struct_members _ _ Hnd HT) as Hm.
    assert (is_Some (unmarshal_fields (marshal_fields fs vs) fs ws)) as [us ->]; [|by eexists].
    revert Hm. generalize (marshal_fields fs vs) as kvs. intros kvs. clear Hnd. revert ws HT'.
    induction HT as [|f v fs vs Hv HT IHT]; intros ws HT' Hm; [by eexists|].
    apply Forall2_cons_inv_l in HT' as (w & ws' & Hw & HT' & ->).
    apply Forall_cons in IH as [IH1 IH2], Hwf as [Hwf1 Hwf2].
    rewrite unmarshal_fields_cons, (Hm 0 f v) by done.
    assert (is_Some (decode_all (unmarshal (fty f)) (member f v) w)) as [u ->].
    { unfold member. case_goal; simpl; [by eexists|].
      by destruct (IH1 v w Hwf1 Hv Hw) as [u ->]; eexists. }
    edestruct IHT as [us ->]; [done|done|exact HT'| |by eexists].
    intros i. exact (Hm (S i)).
Qed.

(** Equal encodings mean equal values, up to [norm]. *)
Lemma marshal_inj_norm t v w :
  wf_type t = true -> has_type t v = true -> has_type t w = true ->
  marshal t v = marshal t w -> norm t v = norm t w.
Proof.
  intros Hwf Hv Hw E. pose proof (unmarshal_zero t v Hwf Hv) as H.
  rewrite E, unmarshal_zero in H by done. congruence.
Qed.

Lemma isEmptyValue_norm t v : has_type t v = true -> isEmptyValue (norm t v) = isEmptyValue v.
Proof. destruct t, v as [| | | |[[]|]|[]|]; done. Qed.

Lemma isEmptyValue_zero t v : has_type t v = true -> isEmptyValue v = true -> isEmptyValue (zero t) = true.
Proof. destruct t, v; done. Qed.

(** Normalising a value does not change its encoding. *)
Lemma marshal_norm t v : has_type t v = true -> marshal t (norm t v) = marshal t v.
Proof.
  revert v. induction t as [| | | |e IH|e IH|fs IH] using gty_nested_ind; intros v Hv; try by destruct v.
  - destruct v as [| | | |[l|]| |]; try done. apply has_type_slice in Hv. simpl in *. f_equal.
    rewrite map_map. apply map_ext_in. intros w Hw%list_elem_of_In.
    rewrite Forall_forall in Hv. auto.
  - destruct v as [| | | | |[w|]|]; try done. by apply IH.
  - apply has_type_struct_inv in Hv as (vs & -> & HT). rewrite norm_struct, !marshal_struct. f_equal.
    induction HT as [|f v fs vs Hv HT IHT]; [done|]. apply Forall_cons in IH as [IH1 IH2].
    specialize (IHT IH2). simpl. unfold fty in *. destruct (f.1.2) eqn:Eo; simpl.
    + destruct (isEmptyValue v) eqn:Ev.
      * by rewrite (isEmptyValue_zero _ v).
      * rewrite isEmptyValue_norm, Ev by done. by rewrite IH1, IHT.
    + by rewrite IH1, IHT.
Qed.

(** ** RawMessage maps *)

Lemma named_lookup k kvs :
  NoDup kvs.*1 -> named k kvs = option_list (list_to_map (M := gmap string json) kvs !! k).
Proof.
  induction kvs as [|[k' j] kvs IH]; [done|].
  intros Hnd. rewrite named_cons. simpl in *. apply NoDup_cons in Hnd as [H1 H2]. case_decide as E.
  - subst. rewrite lookup_insert_eq. simpl. by rewrite named_not_in.
  - rewrite lookup_insert_ne by done. by apply IH.
Qed.

Lemma named_mapJson k m : named k (map_to_list m) = option_list (m !! k).
Proof.
  rewrite named_lookup by apply NoDup_fst_map_to_list. by rewrite list_to_map_to_list.
Qed.

Lemma rawMap_lookup k kvs :
  NoDup kvs.*1 -> option_list (rawMap (JObj kvs) !! k) = named k kvs.
Proof.
  intros H. rewrite named_lookup by done. f_equal. simpl. f_equal.
  apply list_to_map_proper.
  - by rewrite (reverse_Permutation kvs).
  - apply reverse_Permutation.
Qed.

Lemma option_list_inj {A} (x y : option A) : option_list x = option_list y -> x = y.
Proof. destruct x, y; simpl; congruence. Qed.
