(* ===== verification/JsonText.v ===== *)
(** * JSON texts: json.Marshal, json.MarshalIndent and the decoder's scanner

    The filesystem backend compares and stores JSON _texts_: [json.Marshal]
    writes no white space, [json.MarshalIndent(v, "", "  ")] breaks lines, and a
    [json.RawMessage] decoded from a text keeps the white space inside it. A text
    is a list of tokens, white space included, so that two texts are equal as
    bytes exactly when the token lists are. Literals are tokens with their value:
    Go's escaping of strings and printing of numbers is one to one on them. *)

From S2P Require Import Prelude GoJson.

Inductive token : Type :=
| TNull
| TBool (b : bool)
| TNum (z : Z)
| TStr (s : string)
| TLBrace | TRBrace
| TLBracket | TRBracket
| TColon | TComma
| TSpace
| TNewline (indent : nat). (** a line feed and [indent] levels of two spaces *)

#[export] Instance token_eq_dec : EqDecision token.
Proof. solve_decision. Defined.

Abbreviation text := (list token).

(** ** Printing *)

Section print.
(** The white space after a line break at a depth, and after a colon. *)
Context (nl : nat -> text) (sp : text).

Fixpoint print (d : nat) (j : json) {struct j} : text :=
  match j with
  | JNull => [TNull]
  | JBool b => [TBool b]
  | JNum z => [TNum z]
  | JStr s => [TStr s]
  | JArr [] => [TLBracket; TRBracket]
  | JArr (j :: js) =>
      TLBracket :: nl (S d) ++ print (S d) j ++
        (fix go (js : list json) : text :=
           match js with
           | [] => nl d ++ [TRBracket]
           | j :: js' => TComma :: nl (S d) ++ print (S d) j ++ go js'
           end) js
  | JObj [] => [TLBrace; TRBrace]
  | JObj ((k, j) :: kvs) =>
      TLBrace :: nl (S d) ++ TStr k :: TColon :: sp ++ print (S d) j ++
        (fix go (kvs : list (string * json)) : text :=
           match kvs with
           | [] => nl d ++ [TRBrace]
           | (k, j) :: kvs' => TComma :: nl (S d) ++ TStr k :: TColon :: sp ++ print (S d) j ++ go kvs'
           end) kvs
  end.
End print.

(** [json.Marshal] and [json.MarshalIndent(v, "", "  ")] *)
Definition compactText (j : json) : text := print (fun _ => []) [] 0 j.
Definition indentText (j : json) : text := print (fun n => [TNewline n]) [TSpace] 0 j.

(** ** Scanning *)

Definition isSpace (t : token) : bool :=
  match t with TSpace | TNewline _ => true | _ => false end.

Fixpoint skipSpace (ts : text) : text :=
  match ts with
  | t :: ts' => if isSpace t then skipSpace ts' else ts
  | [] => []
  end.

(** One value and the text after it; [None] is a syntax error. The length of
    the text is enough fuel. *)
Fixpoint parseValue (fuel : nat) (ts : text) {struct fuel} : option (json * text) :=
  match fuel with
  | 0 => None
  | S fuel =>
      match skipSpace ts with
      | TNull :: ts => Some (JNull, ts)
      | TBool b :: ts => Some (JBool b, ts)
      | TNum z :: ts => Some (JNum z, ts)
      | TStr s :: ts => Some (JStr s, ts)
      | TLBracket :: ts =>
          match skipSpace ts with
          | TRBracket :: ts => Some (JArr [], ts)
          | _ => prod_map JArr id <$> parseElements fuel ts
          end
      | TLBrace :: ts =>
          match skipSpace ts with
          | TRBrace :: ts => Some (JObj [], ts)
          | _ => prod_map (JObj ∘ map (prod_map id fst)) id <$> parseMembers fuel ts
          end
      | _ => None
      end
  end
with parseElements (fuel : nat) (ts : text) {struct fuel} : option (list json * text) :=
  match fuel with
  | 0 => None
  | S fuel =>
      match parseValue fuel ts with
      | Some (j, ts) =>
          match skipSpace ts with
          | TComma :: ts => prod_map (cons j) id <$> parseElements fuel ts
          | TRBracket :: ts => Some ([j], ts)
          | _ => None
          end
      | None => None
      end
  end
(** The members of an object, each with its value and its raw text. *)
with parseMembers (fuel : nat) (ts : text) {struct fuel} : option (list (string * (json * text)) * text) :=
  match fuel with
  | 0 => None
  | S fuel =>
      match skipSpace ts with
      | TStr k :: ts =>
          match skipSpace ts with
          | TColon :: ts =>
              match parseValue fuel ts with
              | Some (j, ts') =>
                  let raw := skipSpace ts in
                  let raw := take (length raw - length ts') raw in
                  match skipSpace ts' with
                  | TComma :: ts'' => prod_map (cons (k, (j, raw))) id <$> parseMembers fuel ts''
                  | TRBrace :: ts'' => Some ([(k, (j, raw))], ts'')
                  | _ => None
                  end
              | None => None
              end
          | _ => None
          end
      | _ => None
      end
  end.

(** A whole text: one value and only white space after it. *)
Definition parseText (ts : text) : option json :=
  match parseValue (length ts) ts with
  | Some (j, rest) => if bool_decide (skipSpace rest = []) then Some j else None
  | None => None
  end.

(** [json.Unmarshal(data, &m)] for [m map[string]json.RawMessage]: the raw
    texts of the members, the last of several equal keys winning. *)
Definition rawTexts (ts : text) : option (gmap string text) :=
  match parseText ts with
  | Some JNull => Some ∅
  | Some (JObj _) =>
      match skipSpace ts with
      | TLBrace :: ts =>
          match skipSpace ts with
          | TRBrace :: _ => Some ∅
          | _ => (fun m => list_to_map (reverse (map (prod_map id snd) m.1))) <$> parseMembers (length ts) ts
          end
      | _ => None
      end
  | _ => None
  end.
