(* ===== verification/JsonTextFacts.v ===== *)
(** * Facts about JSON texts

    Scanning what was printed gives the value back ([parse_print]), so equal
    texts are equal values, and a raw member of an indented text equals its
    compact text only when it has no line break inside ([indent_compact]). *)

From S2P Require Import Prelude GoJson GoJsonFacts JsonText.

(** ** Induction over JSON values *)

Section json_induction.
Context (P : json -> Prop).
Hypothesis HNull : P JNull.
Hypothesis HBool : forall b, P (JBool b).
Hypothesis HNum : forall z, P (JNum z).
Hypothesis HStr : forall s, P (JStr s).
Hypothesis HArr : forall js, Forall P js -> P (JArr js).
Hypothesis HObj : forall kvs, Forall (fun kv => P kv.2) kvs -> P (JObj kvs).

Fixpoint json_nested_ind (j : json) : P j :=
  match j with
  | JNull => HNull
  | JBool b => HBool b
  | JNum z => HNum z
  | JStr s => HStr s
  | JArr js =>
      HArr js ((fix go (js : list json) : Forall P js :=
                  match js with
                  | [] => Forall_nil_2 _
                  | j :: js' => Forall_cons_2 _ _ _ (json_nested_ind j) (go js')
                  end) js)
  | JObj kvs =>
      HObj kvs ((fix go (kvs : list (string * json)) : Forall (fun kv => P kv.2) kvs :=
                   match kvs with
                   | [] => Forall_nil_2 _
                   | kv :: kvs' => Forall_cons_2 _ _ _ (json_nested_ind kv.2) (go kvs')
                   end) kvs)
  end.
End json_induction.

(** ** White space *)

Lemma skipSpace_app ws ts : Forall (fun t => isSpace t = true) ws -> skipSpace (ws ++ ts) = skipSpace ts.
Proof. induction 1 as [|t ws Ht _ IH]; [done|]. simpl. by rewrite Ht. Qed.

(** A text that starts with a token that is not white space. *)
Definition solid (ts : text) : Prop := exists t ts', ts = t :: ts' /\ isSpace t = false.

Lemma skipSpace_solid ts : solid ts -> skipSpace ts = ts.
Proof. intros (t & ts' & -> & Ht). simpl. by rewrite Ht. Qed.

Lemma solid_app ts ts' : solid ts -> solid (ts ++ ts').
Proof. intros (t & ts1 & -> & Ht). exists t, (ts1 ++ ts'). done. Qed.

Section print.
Context (nl : nat -> text) (sp : text).
Hypothesis Hnl : forall n, Forall (fun t => isSpace t = true) (nl n).
Hypothesis Hsp : Forall (fun t => isSpace t = true) sp.

#[local] Abbreviation print := (print nl sp).

(** What follows the first element, or the first member. *)
Fixpoint printElements (d : nat) (js : list json) : text :=
  match js with
  | [] => nl d ++ [TRBracket]
  | j :: js' => TComma :: nl (S d) ++ print (S d) j ++ printElements d js'
  end.

Fixpoint printMembers (d : nat) (kvs : list (string * json)) : text :=
  match kvs with
  | [] => nl d ++ [TRBrace]
  | (k, j) :: kvs' => TComma :: nl (S d) ++ TStr k :: TColon :: sp ++ print (S d) j ++ printMembers d kvs'
  end.

Lemma print_arr d j js :
  print d (JArr (j :: js)) = TLBracket :: nl (S d) ++ print (S d) j ++ printElements d js.
Proof.
  simpl. do 3 f_equal. induction js as [|j' js IH]; [done|]. simpl. by rewrite IH.
Qed.

Lemma print_obj d k j kvs :
  print d (JObj ((k, j) :: kvs)) =
  TLBrace :: nl (S d) ++ TStr k :: TColon :: sp ++ print (S d) j ++ printMembers d kvs.
Proof.
  simpl. do 6 f_equal. induction kvs as [|[k' j'] kvs IH]; [done|]. simpl. by rewrite IH.
Qed.

Lemma print_solid d j : solid (print d j).
Proof. destruct j as [| | | |[]|[|[]]]; simpl; by eexists _, _. Qed.

(** [parseValue] on a text that starts with a printed value. *)
Definition scans (d : nat) (j : json) : Prop :=
  forall fuel ws rest, Forall (fun t => isSpace t = true) ws -> length (print d j) <= fuel ->
    parseValue fuel (ws ++ print d j ++ rest) = Some (j, rest).

Lemma parseElements_print d js : forall j fuel ws rest,
  scans (S d) j -> Forall (scans (S d)) js -> Forall (fun t => isSpace t = true) ws ->
  length (print (S d) j) + length (printElements d js) <= fuel ->
  parseElements fuel (ws ++ print (S d) j ++ printElements d js ++ rest) = Some (j :: js, rest).
Proof using Hnl.
  induction js as [|j' js IH]; intros j fuel ws rest Hj Hjs Hws Hf; destruct fuel as [|fuel];
    simpl in Hf; try (rewrite ?length_app in Hf; simpl in Hf; lia).
  - simpl. rewrite Hj by (done || rewrite length_app in Hf; simpl in Hf; lia).
    rewrite <- (assoc_L (++)), skipSpace_app by done. done.
  - apply Forall_cons in Hjs as [Hj' Hjs]. rewrite !length_app in Hf. simpl.
    rewrite Hj by (done || lia). simpl. rewrite <- !(assoc_L (++)).
    rewrite IH; [done|done|done|apply Hnl|lia].
Qed.

Lemma parseMembers_print d kvs : forall k j fuel ws rest,
  scans (S d) j -> Forall (fun kv => scans (S d) kv.2) kvs -> Forall (fun t => isSpace t = true) ws ->
  S (length (print (S d) j) + length (printMembers d kvs)) <= fuel ->
  parseMembers fuel (ws ++ TStr k :: TColon :: sp ++ print (S d) j ++ printMembers d kvs ++ rest) =
  Some ((k, (j, print (S d) j)) :: map (fun kv => (kv.1, (kv.2, print (S d) kv.2))) kvs, rest).
Proof using Hnl Hsp.
  assert (forall j rest', take (length (skipSpace (sp ++ print (S d) j ++ rest')) - length rest')
            (skipSpace (sp ++ print (S d) j ++ rest')) = print (S d) j) as Hraw.
  { intros j rest'. rewrite skipSpace_app by done.
    rewrite skipSpace_solid by apply solid_app, print_solid. rewrite length_app.
    by replace (length (print (S d) j) + length rest' - length rest') with (length (print (S d) j)) by lia;
       rewrite take_app_length. }
  induction kvs as [|[k' j'] kvs IH]; intros k j fuel ws rest Hj Hkvs Hws Hf; destruct fuel as [|fuel];
    simpl in Hf; try (rewrite ?length_app in Hf; simpl in Hf; lia).
  - cbn [parseMembers]. rewrite skipSpace_app by done. simpl.
    rewrite Hj by (done || rewrite length_app in Hf; simpl in Hf; lia). rewrite Hraw.
    simpl. rewrite <- (assoc_L (++)), skipSpace_app by done. done.
  - apply Forall_cons in Hkvs as [Hj' Hkvs]. rewrite !length_app in Hf. simpl in Hf.
    rewrite !length_app in Hf.
    cbn [parseMembers]. rewrite skipSpace_app by done. simpl.
    rewrite Hj by (done || lia). rewrite Hraw. simpl.
    rewrite <- !(assoc_L (++)). simpl. rewrite <- !(assoc_L (++)).
    rewrite IH; [done|done|done|apply Hnl|lia].
Qed.

(** Scanning a printed value gives the value and the text after it. *)
Lemma parse_print j : forall d, scans d j.
Proof using Hnl Hsp.
  induction j as [|b|z|s|js IH|kvs IH] using json_nested_ind; intros d fuel ws rest Hws Hf;
    (destruct fuel as [|fuel]; [pose proof (print_solid d) as Hs; match goal with _ : length (JsonText.print _ _ _ ?x) <= 0 |- _ =>
       destruct (Hs x) as (? & ? & E & _); rewrite E in Hf; simpl in Hf; lia end|]);
    cbn [parseValue]; rewrite skipSpace_app by done; try done.
  - destruct js as [|j js]; [done|]. rewrite print_arr in *. simpl in Hf. rewrite !length_app in Hf.
    simpl. rewrite <- !(assoc_L (++)), skipSpace_app by apply Hnl.
    apply Forall_cons in IH as [Hj Hjs].
    rewrite (parseElements_print d js j fuel (nl (S d)) rest); [|done|by eapply Forall_impl; [exact Hjs|]|apply Hnl|lia].
    rewrite skipSpace_solid by apply solid_app, print_solid.
    by destruct j as [| | | |[]|[|[]]].
  - destruct kvs as [|[k j] kvs]; [done|]. rewrite print_obj in *. simpl in Hf. rewrite !length_app in Hf.
    simpl in Hf. rewrite !length_app in Hf.
    simpl. rewrite <- !(assoc_L (++)), skipSpace_app by apply Hnl. simpl. rewrite <- !(assoc_L (++)).
    apply Forall_cons in IH as [Hj Hkvs]. simpl in Hj.
    rewrite (parseMembers_print d kvs k j fuel (nl (S d)) rest);
      [|done|by eapply Forall_impl; [exact Hkvs|]|apply Hnl|lia].
    simpl. do 4 f_equal. rewrite map_map. rewrite <- (map_id kvs) at 2. apply map_ext. by intros [].
Qed.

Lemma parseText_print d j : parseText (print d j) = Some j.
Proof using Hnl Hsp.
  unfold parseText. pose proof (parse_print j d (length (print d j)) [] [] ltac:(done) ltac:(done)) as E.
  rewrite app_nil_r in E. simpl in E. by rewrite E.
Qed.

Lemma rawTexts_print kvs :
  rawTexts (print 0 (JObj kvs)) = Some (list_to_map (reverse (map (prod_map id (print 1)) kvs))).
Proof using Hnl Hsp.
  unfold rawTexts. rewrite parseText_print. destruct kvs as [|[k j] kvs]; [done|].
  rewrite print_obj. simpl. rewrite skipSpace_app by apply Hnl. simpl.
  pose proof (parseMembers_print 0 kvs k j
    (length (nl 1 ++ TStr k :: TColon :: sp ++ print 1 j ++ printMembers 0 kvs)) (nl 1) []) as E.
  rewrite app_nil_r in E. rewrite E; [|apply parse_print|apply Forall_true; intros; apply parse_print|apply Hnl|].
  - simpl. do 2 f_equal. unfold prod_map. rewrite map_map. done.
  - rewrite length_app. simpl. rewrite !length_app. lia.
Qed.
End print.

Lemma parseText_indent j : parseText (indentText j) = Some j.
Proof. apply parseText_print; [intros n|]; by repeat constructor. Qed.

Lemma parseText_compact j : parseText (compactText j) = Some j.
Proof. apply parseText_print; [intros n|]; by repeat constructor. Qed.

#[export] Instance indentText_inj : Inj (=) (=) indentText.
Proof.
  intros j1 j2 E. apply (f_equal parseText) in E. rewrite !parseText_indent in E. by apply (inj Some).
Qed.

(** The texts of an indented object's members, one level deep. *)
Definition memberText (j : json) : text := print (fun n => [TNewline n]) [TSpace] 1 j.

(** A value whose text has no white space in either layout. *)
Definition flat (j : json) : bool :=
  match j with JArr (_ :: _) | JObj (_ :: _) => false | _ => true end.

Lemma print_no_newline j d n : TNewline n ∉ print (fun _ => []) [] d j.
Proof.
  revert d. induction j as [|b|z|s|js IH|kvs IH] using json_nested_ind; intros d; try set_solver.
  - destruct js as [|j js]; [set_solver|]. rewrite print_arr. apply Forall_cons in IH as [Hj Hjs].
    rewrite elem_of_cons, !elem_of_app. intros [?|[?|[?|Hin]]]; [done|set_solver|by apply (Hj (S d))|].
    induction Hjs as [|j' js Hj' _ IH]; simpl in Hin; [set_solver|].
    apply elem_of_cons in Hin as [?|Hin]; [done|]. apply elem_of_app in Hin as [?|?]; [by eapply Hj'|auto].
  - destruct kvs as [|[k j] kvs]; [set_solver|]. rewrite print_obj. apply Forall_cons in IH as [Hj Hjs].
    rewrite elem_of_cons, !elem_of_app, !elem_of_cons, !elem_of_app.
    intros [?|[?|[?|[?|[?|[Hin|Hin]]]]]]; try done; try set_solver.
    clear Hj. induction Hjs as [|[k' j'] kvs Hj' _ IH]; simpl in Hin; [set_solver|].
    set_solver.
Qed.

(** Without line breaks the depth does not matter. *)
Lemma compact_depth j d : print (fun _ => []) [] d j = compactText j.
Proof.
  unfold compactText. revert d. assert (forall d d', print (fun _ => []) [] d j = print (fun _ => []) [] d' j) as H; [|auto].
  induction j as [|b|z|s|js IH|kvs IH] using json_nested_ind; intros d d'; try done.
  - destruct js as [|j js]; [done|]. rewrite !print_arr. apply Forall_cons in IH as [Hj Hjs].
    simpl. rewrite (Hj (S d) (S d')). do 2 f_equal.
    induction Hjs as [|j' js Hj' _ IH]; [done|]. simpl. by rewrite (Hj' (S d) (S d')), IH.
  - destruct kvs as [|[k j] kvs]; [done|]. rewrite !print_obj. apply Forall_cons in IH as [Hj Hjs].
    simpl in *. rewrite (Hj (S d) (S d')). do 4 f_equal.
    induction Hjs as [|[k' j'] kvs Hj' _ IH]; [done|]. simpl in *. by rewrite (Hj' (S d) (S d')), IH.
Qed.

Lemma parseText_member j : parseText (memberText j) = Some j.
Proof. apply parseText_print; [intros n|]; by repeat constructor. Qed.

Lemma list_to_map_texts (f : json -> text) kvs :
  list_to_map (reverse (map (prod_map id f) kvs)) = f <$> rawMap (JObj kvs).
Proof. simpl. rewrite <- list_to_map_fmap, <- fmap_reverse. done. Qed.

(** The raw members of an encoded object. *)
Lemma rawTexts_indent kvs : rawTexts (indentText (JObj kvs)) = Some (memberText <$> rawMap (JObj kvs)).
Proof.
  unfold indentText. rewrite rawTexts_print by (intros; by repeat constructor). f_equal. apply list_to_map_texts.
Qed.

Lemma rawTexts_compact kvs : rawTexts (compactText (JObj kvs)) = Some (compactText <$> rawMap (JObj kvs)).
Proof.
  unfold compactText at 1. rewrite rawTexts_print by (intros; by repeat constructor). f_equal.
  rewrite <- list_to_map_texts. do 2 f_equal. apply map_ext. intros [k j]. simpl. unfold prod_map. simpl. by rewrite compact_depth.
Qed.

(** A member kept raw from an indented text is the compact text of a value
    exactly when it is that value and has no line break. *)
Lemma memberText_compact j j' : memberText j = compactText j' <-> j = j' /\ flat j = true.
Proof.
  split.
  - intros E. assert (flat j = true) as Hf.
    { destruct j as [| | | |[]|[|[]]]; try done; exfalso;
        apply (print_no_newline j' 0 2); unfold compactText in E; rewrite <- E; unfold memberText;
        [rewrite print_arr|rewrite print_obj]; set_solver. }
    split; [|done]. apply (f_equal parseText) in E. rewrite parseText_compact in E.
    by destruct j as [| | | |[]|[|[]]]; try done; injection E as <-.
  - intros [<- Hf]. by destruct j as [| | | |[]|[|[]]].
Qed.
