(* ===== verification/Objects.v ===== *)
(** * Objects, errors, events and options: object.go, errors.go, watcher.go, store.go

    The vocabulary every component shares. A [client.Object] is a value of a
    user-defined struct that embeds [BaseObject]; the model carries the struct's
    description (its JSON fields beyond the embedded part) together with the
    value, so that the reflective operations the code uses ([json.Marshal],
    [json.Unmarshal], [DeepCopyObject], [scheme.ObjectKinds]) are functions of
    the value. Of [metav1.ObjectMeta] the model has the fields the code reads or
    writes. Objects are values: a deep copy is the value itself. *)

From S2P Require Import Prelude GoStrconv GoJson GoJsonFacts.

(** ** Keys *)

Record GVK : Type := mkGVK { gGroup : string; gVersion : string; gKind : string }.

Record ObjectKey : Type := mkKey { kNamespace : string; kName : string }.

#[export] Instance GVK_eq_dec : EqDecision GVK.
Proof. solve_decision. Defined.
#[export] Instance ObjectKey_eq_dec : EqDecision ObjectKey.
Proof. solve_decision. Defined.
#[export] Program Instance GVK_countable : Countable GVK :=
  inj_countable' (fun g => (gGroup g, gVersion g, gKind g))
                 (fun '(a, b, c) => mkGVK a b c) _.
Next Obligation. by intros []. Qed.
#[export] Program Instance ObjectKey_countable : Countable ObjectKey :=
  inj_countable' (fun k => (kNamespace k, kName k)) (fun '(a, b) => mkKey a b) _.
Next Obligation. by intros []. Qed.

(** [types.NamespacedName.String()] *)
Definition keyString (k : ObjectKey) : string := kNamespace k +:+ "/" +:+ kName k.

(** ** Objects *)

Record TypeMeta : Type := mkTypeMeta { tmKind : string; tmAPIVersion : string }.

Record ObjectMeta : Type := mkMeta {
  mName : string;
  mNamespace : string;
  mUID : string;
  mResourceVersion : string;
  mGeneration : Z;
  mLabels : option (gmap string string);
  mAnnotations : option (gmap string string);
}.

Record BaseObject : Type := mkBase { bTypeMeta : TypeMeta; bObjectMeta : ObjectMeta }.

(** [b.DeepCopyInto(out)]: what [out] holds afterwards. *)
Definition BaseObject_DeepCopyInto (b out : BaseObject) : BaseObject :=
  let out := mkBase (bTypeMeta b) (bObjectMeta out) in
  mkBase (bTypeMeta out) (bObjectMeta b).

(** A user-defined Go struct: its name and its fields beyond [BaseObject]. *)
Record GoType : Type := mkGoType { tName : string; tFields : list field }.

Record Object : Type := mkObject {
  oType : GoType;
  oBase : BaseObject;
  oBody : list gval;
}.

Definition oMeta (o : Object) : ObjectMeta := bObjectMeta (oBase o).

Definition withMeta (f : ObjectMeta -> ObjectMeta) (o : Object) : Object :=
  mkObject (oType o) (mkBase (bTypeMeta (oBase o)) (f (oMeta o))) (oBody o).

Definition GetName (o : Object) := mName (oMeta o).
Definition GetNamespace (o : Object) := mNamespace (oMeta o).
Definition GetUID (o : Object) := mUID (oMeta o).
Definition GetResourceVersion (o : Object) := mResourceVersion (oMeta o).
Definition GetGeneration (o : Object) := mGeneration (oMeta o).
(** A nil map reads as an empty one. *)
Definition GetLabels (o : Object) : gmap string string := default ∅ (mLabels (oMeta o)).
Definition GetAnnotations (o : Object) : gmap string string := default ∅ (mAnnotations (oMeta o)).

Definition SetUID (u : string) : Object -> Object :=
  withMeta (fun m => mkMeta (mName m) (mNamespace m) u (mResourceVersion m)
                       (mGeneration m) (mLabels m) (mAnnotations m)).
Definition SetResourceVersion (rv : string) : Object -> Object :=
  withMeta (fun m => mkMeta (mName m) (mNamespace m) (mUID m) rv
                       (mGeneration m) (mLabels m) (mAnnotations m)).
Definition SetGeneration (g : Z) : Object -> Object :=
  withMeta (fun m => mkMeta (mName m) (mNamespace m) (mUID m) (mResourceVersion m)
                       g (mLabels m) (mAnnotations m)).
Definition SetAnnotations (a : option (gmap string string)) : Object -> Object :=
  withMeta (fun m => mkMeta (mName m) (mNamespace m) (mUID m) (mResourceVersion m)
                       (mGeneration m) (mLabels m) a).

Definition ObjectKeyFromObject (o : Object) : ObjectKey := mkKey (GetNamespace o) (GetName o).

(** ** Objects as Go structs for encoding/json *)

Definition metaType : gty := GStruct [
  (("name", true), GString);
  (("namespace", true), GString);
  (("uid", true), GString);
  (("resourceVersion", true), GString);
  (("generation", true), GInt);
  (("labels", true), GStrMap);
  (("annotations", true), GStrMap)].

Definition baseFields : list field := [
  (("kind", true), GString);
  (("apiVersion", true), GString);
  (("metadata", false), metaType)].

Definition objectType (t : GoType) : gty := GStruct (baseFields ++ tFields t).

Definition metaVal (m : ObjectMeta) : gval :=
  VStruct [VStr (mName m); VStr (mNamespace m); VStr (mUID m); VStr (mResourceVersion m);
           VInt (mGeneration m); VMap (mLabels m); VMap (mAnnotations m)].

Definition valMeta (v : gval) : option ObjectMeta :=
  match v with
  | VStruct [VStr n; VStr ns; VStr u; VStr rv; VInt g; VMap l; VMap a] =>
      Some (mkMeta n ns u rv g l a)
  | _ => None
  end.

Definition objectVal (o : Object) : gval :=
  VStruct (VStr (tmKind (bTypeMeta (oBase o))) :: VStr (tmAPIVersion (bTypeMeta (oBase o)))
           :: metaVal (oMeta o) :: oBody o).

Definition valObject (t : GoType) (v : gval) : option Object :=
  match v with
  | VStruct (VStr k :: VStr av :: m :: body) =>
      (fun m => mkObject t (mkBase (mkTypeMeta k av) m) body) <$> valMeta m
  | _ => None
  end.

(** [json.Marshal(obj)] *)
Definition MarshalObject (o : Object) : json := marshal (objectType (oType o)) (objectVal o).

(** [json.Unmarshal(data, obj)]: the object afterwards. *)
Definition UnmarshalObject (j : json) (o : Object) : option Object :=
  unmarshal (objectType (oType o)) j (objectVal o) ≫= valObject (oType o).

(** The zero value of a registered type, as [scheme.New] returns it. *)
Definition zeroMeta : ObjectMeta := mkMeta "" "" "" "" 0 None None.
Definition zeroObject (t : GoType) : Object :=
  mkObject t (mkBase (mkTypeMeta "" "") zeroMeta) (map (fun f => zero (fty f)) (tFields t)).

(** A well-formed object: its struct has distinct JSON keys and its fields hold
    values of their types. *)
Definition wfObject (o : Object) : bool :=
  wf_type (objectType (oType o)) && has_type (objectType (oType o)) (objectVal o).

(** ** Lists *)

(** What reflection finds as the list's [Items] field. *)
Inductive itemsField : Type :=
| NoItems
| UnsettableItems (t : GoType)
| ItemsOf (t : GoType).

Record ObjectList : Type := mkList {
  lName : string;
  lItemsField : itemsField;
  lResourceVersion : string;
  lItems : list Object;
}.

Definition SetListResourceVersion (rv : string) (l : ObjectList) : ObjectList :=
  mkList (lName l) (lItemsField l) rv (lItems l).
Definition SetItems (items : list Object) (l : ObjectList) : ObjectList :=
  mkList (lName l) (lItemsField l) (lResourceVersion l) items.

(** ** Errors *)

Inductive error : Type :=
| NotFoundError (Key : string)
| AlreadyExistsError (Key : string)
| ConflictError (Key : string)
| RevisionTooOldError (RequestedRevision OldestRevision : Z)
| FencedError (Bucket : Z)
| OtherError (msg : string)
| WrappedError (msg : string) (inner : error).

#[export] Instance error_eq_dec : EqDecision error.
Proof. solve_decision. Defined.

(** The [Error()] methods; [WrappedError] is [fmt.Errorf("msg: %w", err)]. *)
Fixpoint ErrorString (e : error) : string :=
  match e with
  | NotFoundError k => "object not found: " +:+ k
  | AlreadyExistsError k => "object already exists: " +:+ k
  | ConflictError k => "conflict: object was modified: " +:+ k
  | RevisionTooOldError r o =>
      "requested revision " +:+ FormatInt r +:+ " is too old, oldest available is " +:+ FormatInt o
  | FencedError b => "bucket " +:+ FormatInt b +:+ ": lease not held or fenced"
  | OtherError m => m
  | WrappedError m e => m +:+ ": " +:+ ErrorString e
  end.

Record Status : Type := mkStatus {
  sStatus : string; sReason : string; sMessage : string; sCode : Z }.

(** The [Status()] methods; the other errors do not implement [APIStatus]. *)
Definition errorStatus (e : error) : option Status :=
  match e with
  | NotFoundError _ => Some (mkStatus "Failure" "NotFound" (ErrorString e) 404)
  | AlreadyExistsError _ => Some (mkStatus "Failure" "AlreadyExists" (ErrorString e) 409)
  | ConflictError _ => Some (mkStatus "Failure" "Conflict" (ErrorString e) 409)
  | RevisionTooOldError _ _ => Some (mkStatus "Failure" "Gone" (ErrorString e) 410)
  | FencedError _ => Some (mkStatus "Failure" "Conflict" (ErrorString e) 409)
  | OtherError _ | WrappedError _ _ => None
  end.

(** [errors.As(err, &rvErr)] for [*RevisionTooOldError]: search the chain. *)
Fixpoint asRevisionTooOld (e : error) : bool :=
  match e with
  | RevisionTooOldError _ _ => true
  | WrappedError _ e => asRevisionTooOld e
  | _ => false
  end.

Abbreviation result := (outcome error).

(** ** Events *)

Inductive EventType : Type := EventAdded | EventModified | EventDeleted | EventBookmark.

#[export] Instance EventType_eq_dec : EqDecision EventType.
Proof. solve_decision. Defined.

Definition EventTypeString (t : EventType) : string :=
  match t with
  | EventAdded => "ADDED"
  | EventModified => "MODIFIED"
  | EventDeleted => "DELETED"
  | EventBookmark => "BOOKMARK"
  end.

Record Event : Type := mkEvent { evType : EventType; evObject : Object }.

(** ** Selectors and list options

    Selectors are implemented by apimachinery: a label selector is given by its
    [Matches] and [Empty] methods, a field selector by [Matches] and
    [Requirements]. *)

Record labelsSelector : Type := mkLabelsSelector {
  lsMatches : gmap string string -> bool;
  lsEmpty : bool;
}.

Inductive selOperator : Type := OpEquals | OpNotEquals.

#[export] Instance selOperator_eq_dec : EqDecision selOperator.
Proof. solve_decision. Defined.

Record fieldRequirement : Type := mkReq { rqField : string; rqOperator : selOperator; rqValue : string }.

Record fieldsSelector : Type := mkFieldsSelector {
  fsMatches : gmap string string -> bool;
  fsRequirements : list fieldRequirement;
}.

Record ListOptions : Type := mkListOptions {
  loNamespace : string;
  loLabelSelector : option labelsSelector;
  loFieldSelector : option fieldsSelector;
}.

Inductive ListOption : Type :=
| InNamespace (ns : string)
| MatchingLabelsSelector (sel : labelsSelector)
| MatchingFieldsSelector (sel : fieldsSelector)
| WatchFromRevision (rv : Z)
| EnableWatchBookmarks (b : bool).

Definition ApplyToList (opt : ListOption) (o : ListOptions) : ListOptions :=
  match opt with
  | InNamespace ns => mkListOptions ns (loLabelSelector o) (loFieldSelector o)
  | MatchingLabelsSelector s => mkListOptions (loNamespace o) (Some s) (loFieldSelector o)
  | MatchingFieldsSelector s => mkListOptions (loNamespace o) (loLabelSelector o) (Some s)
  | WatchFromRevision _ => o
  | EnableWatchBookmarks _ => o
  end.

Definition applyOptions (opts : list ListOption) : ListOptions :=
  foldl (fun o opt => ApplyToList opt o) (mkListOptions "" None None) opts.

(** ** The scheme

    [runtime.Scheme] maps Go types to GVKs and GVKs to fresh values. *)

Inductive runtimeObject : Type :=
| RObject (o : Object)
| RList (l : ObjectList)
| ROther.

Record Scheme : Type := mkScheme {
  ObjectKinds : string -> result (list GVK);
  SchemeNew : GVK -> result runtimeObject;
}.

(** Cutting the suffix "List" off a kind, for kinds longer than the suffix. *)
Definition trimListSuffix (kind : string) : string :=
  let n := String.length kind in
  if bool_decide (4 < n) && bool_decide (String.substring (n - 4) 4 kind = "List")
  then String.substring 0 (n - 4) kind
  else kind.
