(* ===== verification/ObjectFacts.v ===== *)
(** * Facts about objects and their JSON form

    What [json.Unmarshal] does to an object, field by field: the metadata of the
    result is [overMeta], every other field is decoded from the member with its
    key. *)

From S2P Require Import Prelude GoStrconv GoJson GoJsonFacts Objects.

(** The JSON member an object's encoding has under a key, what the code reads
    as [storedMap["spec"]] or [inputMap["status"]]. *)
Definition rawField (k : string) (o : Object) : option json := rawMap (MarshalObject o) !! k.

(** Decoding a non-empty string over another, a non-zero number, a map. *)
Definition overStr (a b : string) : string := if bool_decide (a = "") then b else a.
Definition overInt (a b : Z) : Z := if (a =? 0)%Z then b else a.
Definition overMap (a b : option (gmap string string)) : option (gmap string string) :=
  if bool_decide (default ∅ a = ∅) then b else Some (default ∅ a ∪ default ∅ b).

(** Metadata [a] decoded over metadata [b]. *)
Definition overMeta (a b : ObjectMeta) : ObjectMeta := mkMeta
  (overStr (mName a) (mName b))
  (overStr (mNamespace a) (mNamespace b))
  (overStr (mUID a) (mUID b))
  (overStr (mResourceVersion a) (mResourceVersion b))
  (overInt (mGeneration a) (mGeneration b))
  (overMap (mLabels a) (mLabels b))
  (overMap (mAnnotations a) (mAnnotations b)).

(** The field of a type with a JSON key. *)
Definition findField (k : string) (t : GoType) : option field :=
  List.find (fun f => bool_decide (fkey f = k)) (tFields t).

(** A field that is always encoded and whose decoding replaces the target. *)
Definition plainField (k : string) (t : GoType) : bool :=
  match findField k t with
  | Some f => negb (fomit f) && overwriting (fty f)
  | None => true
  end.

(** ** Conversions *)

Lemma valMeta_metaVal m : valMeta (metaVal m) = Some m.
Proof. by destruct m. Qed.

Lemma valObject_objectVal o : valObject (oType o) (objectVal o) = Some o.
Proof. by destruct o as [t [[k av] []] b]. Qed.

Lemma has_type_metaType v :
  has_type metaType v = true -> exists m, v = metaVal m /\ in_int64 (mGeneration m) = true.
Proof.
  intros (vs & -> & H)%has_type_struct_inv.
  repeat (apply Forall2_cons_inv_l in H as (?v & ? & ? & H & ->)).
  apply Forall2_nil_inv_l in H as ->. unfold fty in *. simpl in *.
  repeat match goal with v : gval |- _ => destruct v; try done end.
  match goal with |- exists m, VStruct [VStr ?a; VStr ?b; VStr ?c; VStr ?d; VInt ?e; VMap ?f; VMap ?g] = _ /\ _ =>
    by exists (mkMeta a b c d e f g) end.
Qed.

Lemma has_type_metaVal m : has_type metaType (metaVal m) = in_int64 (mGeneration m).
Proof. cbn. by rewrite andb_true_r. Qed.

Lemma has_type_objectVal o :
  has_type (objectType (oType o)) (objectVal o) = true <->
  in_int64 (mGeneration (oMeta o)) = true /\
  Forall2 (fun f v => has_type (fty f) v = true) (tFields (oType o)) (oBody o).
Proof.
  unfold objectType, objectVal, baseFields. simpl app. rewrite has_type_struct, !Forall2_cons.
  unfold fty at 1 2 3. simpl (_.2). rewrite has_type_metaVal. naive_solver.
Qed.

Lemma has_type_objectType t v :
  has_type (objectType t) v = true -> exists o, oType o = t /\ v = objectVal o.
Proof.
  intros (vs & -> & H)%has_type_struct_inv. unfold baseFields in H. simpl in H.
  apply Forall2_cons_inv_l in H as (v1 & ? & H1 & H & ->).
  apply Forall2_cons_inv_l in H as (v2 & ? & H2 & H & ->).
  apply Forall2_cons_inv_l in H as (v3 & body & H3 & H & ->).
  unfold fty in H1, H2. destruct v1 as [| |k| | | |], v2 as [| |av| | | |]; try done.
  apply has_type_metaType in H3 as (m & -> & _).
  by exists (mkObject t (mkBase (mkTypeMeta k av) m) body).
Qed.

Lemma wfObject_spec o :
  wfObject o = true <->
  NoDup (map fkey (baseFields ++ tFields (oType o))) /\
  Forall (fun f => wf_type (fty f) = true) (tFields (oType o)) /\
  in_int64 (mGeneration (oMeta o)) = true /\
  Forall2 (fun f v => has_type (fty f) v = true) (tFields (oType o)) (oBody o).
Proof.
  unfold wfObject. rewrite andb_true_iff, has_type_objectVal. unfold objectType.
  rewrite wf_type_struct, Forall_app. split; [tauto|].
  intros (? & ? & ? & ?). split_and!; try done. repeat constructor.
Qed.

Lemma wfObject_type o : wfObject o = true -> wf_type (objectType (oType o)) = true.
Proof. unfold wfObject. intros H. by split_bools. Qed.

Lemma wfObject_val o : wfObject o = true -> has_type (objectType (oType o)) (objectVal o) = true.
Proof. unfold wfObject. intros H. by split_bools. Qed.

(** ** The setters *)

Lemma wfObject_withMeta f o :
  mGeneration (f (oMeta o)) = mGeneration (oMeta o) -> wfObject o = true -> wfObject (withMeta f o) = true.
Proof.
  intros Hg. rewrite !wfObject_spec. unfold withMeta, oMeta in *. simpl. by rewrite Hg.
Qed.

Lemma wfObject_SetUID u o : wfObject o = true -> wfObject (SetUID u o) = true.
Proof. by apply wfObject_withMeta. Qed.
Lemma wfObject_SetResourceVersion u o : wfObject o = true -> wfObject (SetResourceVersion u o) = true.
Proof. by apply wfObject_withMeta. Qed.
Lemma wfObject_SetGeneration g o :
  in_int64 g = true -> wfObject o = true -> wfObject (SetGeneration g o) = true.
Proof. rewrite !wfObject_spec. unfold SetGeneration, withMeta, oMeta. simpl. tauto. Qed.

Lemma key_withMeta f o :
  mName (f (oMeta o)) = mName (oMeta o) -> mNamespace (f (oMeta o)) = mNamespace (oMeta o) ->
  ObjectKeyFromObject (withMeta f o) = ObjectKeyFromObject o.
Proof. intros H1 H2. unfold ObjectKeyFromObject, GetNamespace, GetName, withMeta, oMeta in *. simpl. congruence. Qed.

Lemma key_SetUID u o : ObjectKeyFromObject (SetUID u o) = ObjectKeyFromObject o.
Proof. done. Qed.
Lemma key_SetResourceVersion u o : ObjectKeyFromObject (SetResourceVersion u o) = ObjectKeyFromObject o.
Proof. done. Qed.
Lemma key_SetGeneration u o : ObjectKeyFromObject (SetGeneration u o) = ObjectKeyFromObject o.
Proof. done. Qed.

#[export] Hint Resolve wfObject_SetUID wfObject_SetResourceVersion wfObject_SetGeneration : sc.
#[export] Hint Rewrite key_SetUID key_SetResourceVersion key_SetGeneration : sc_rw.

(** ** Decoding metadata *)

Lemma overStr_self a : overStr a a = a.
Proof. unfold overStr. by case_bool_decide. Qed.
Lemma overInt_self a : overInt a a = a.
Proof. unfold overInt. by destruct (a =? 0)%Z. Qed.
Lemma overMap_self a : overMap a a = a.
Proof.
  unfold overMap. case_bool_decide; [done|]. destruct a; [|done]. simpl. by rewrite (idemp_L (∪)).
Qed.

Lemma overMeta_self m : overMeta m m = m.
Proof. destruct m. unfold overMeta. simpl. by rewrite !overStr_self, overInt_self, !overMap_self. Qed.

Lemma decode_over_str (k : string) a b :
  decode_all (unmarshal GString) (member ((k, true), GString) (VStr a)) (VStr b) = Some (VStr (overStr a b)).
Proof. unfold member, overStr. simpl. by case_bool_decide. Qed.

Lemma decode_over_int (k : string) a b :
  in_int64 a = true ->
  decode_all (unmarshal GInt) (member ((k, true), GInt) (VInt a)) (VInt b) = Some (VInt (overInt a b)).
Proof. intros H. unfold member, overInt. simpl. destruct (a =? 0)%Z; simpl; [done|]. by rewrite H. Qed.

Lemma decode_over_map (k : string) a b :
  decode_all (unmarshal GStrMap) (member ((k, true), GStrMap) (VMap a)) (VMap b) = Some (VMap (overMap a b)).
Proof.
  unfold member, overMap. simpl. case_bool_decide as E; [done|]. destruct a as [m|]; [|done].
  simpl. by rewrite decode_strmap_map.
Qed.

Lemma unmarshal_meta a b :
  in_int64 (mGeneration a) = true ->
  unmarshal metaType (marshal metaType (metaVal a)) (metaVal b) = Some (metaVal (overMeta a b)).
Proof.
  intros Hg. apply unmarshal_marshal_struct; [|apply has_type_struct; change (has_type metaType (metaVal a) = true); by rewrite has_type_metaVal|done|done|].
  - by apply (bool_decide_unpack _).
  - intros i f v w u Hf Hv Hw Hu.
    do 7 (destruct i as [|i];
      [simpl in Hf, Hv, Hw, Hu; simplify_eq; unfold fty; simpl (_.2);
       first [apply decode_over_str | by apply decode_over_int | apply decode_over_map]|]).
    done.
Qed.

Lemma decode_over_meta a b :
  in_int64 (mGeneration a) = true ->
  decode_all (unmarshal metaType) [marshal metaType (metaVal a)] (metaVal b) = Some (metaVal (overMeta a b)).
Proof. intros H. unfold decode_all. by rewrite unmarshal_meta. Qed.

(** ** Encodings field by field *)

Definition allFields (t : GoType) : list field := baseFields ++ tFields t.
Definition allVals (o : Object) : list gval :=
  VStr (tmKind (bTypeMeta (oBase o))) :: VStr (tmAPIVersion (bTypeMeta (oBase o)))
    :: metaVal (oMeta o) :: oBody o.

Lemma MarshalObject_fields o :
  MarshalObject o = JObj (marshal_fields (allFields (oType o)) (allVals o)).
Proof. reflexivity. Qed.

Section object_encoding.
Context (o : Object) (Hwf : wfObject o = true).

Lemma allFields_NoDup : NoDup (map fkey (allFields (oType o))).
Proof using Hwf. by apply wfObject_spec in Hwf as (? & _). Qed.

Lemma allVals_typed : Forall2 (fun f v => has_type (fty f) v = true) (allFields (oType o)) (allVals o).
Proof using Hwf. by apply has_type_struct, wfObject_val. Qed.

Lemma rawField_at i f v :
  allFields (oType o) !! i = Some f -> allVals o !! i = Some v ->
  option_list (rawField (fkey f) o) = member f v.
Proof using Hwf.
  intros Hf Hv. unfold rawField. rewrite MarshalObject_fields, rawMap_lookup.
  - eapply struct_members; eauto using allFields_NoDup, allVals_typed.
  - apply marshal_fields_NoDup, allFields_NoDup.
Qed.

Lemma rawField_unknown k : k ∉ map fkey (allFields (oType o)) -> rawField k o = None.
Proof using Hwf.
  intros Hk. apply option_list_inj. unfold rawField. rewrite MarshalObject_fields, rawMap_lookup.
  - rewrite named_not_in; [done|]. intros H. apply Hk. by eapply marshal_fields_keys.
  - apply marshal_fields_NoDup, allFields_NoDup.
Qed.

Lemma rawField_metadata : rawField "metadata" o = Some (marshal metaType (metaVal (oMeta o))).
Proof using Hwf. apply option_list_inj. by apply (rawField_at 2 (("metadata", false), metaType) (metaVal (oMeta o))). Qed.
End object_encoding.

Lemma lookup_key k (fs : list field) :
  k ∈ map fkey fs -> exists i f, fs !! i = Some f /\ fkey f = k.
Proof.
  intros (f & -> & Hf)%list_elem_of_fmap. apply list_elem_of_lookup in Hf as [i Hi]. eauto.
Qed.

(** Objects that agree on a field agree on its encoding. *)
Lemma rawField_ext k o1 o2 :
  wfObject o1 = true -> wfObject o2 = true -> oType o1 = oType o2 ->
  (forall i f, allFields (oType o1) !! i = Some f -> fkey f = k -> allVals o1 !! i = allVals o2 !! i) ->
  rawField k o1 = rawField k o2.
Proof.
  intros H1 H2 Ht H. destruct (decide (k ∈ map fkey (allFields (oType o1)))) as [Hk|Hk].
  - apply lookup_key in Hk as (i & f & Hf & <-).
    destruct (Forall2_lookup_l _ _ _ _ _ (allVals_typed _ H1) Hf) as (v & Hv & _).
    apply option_list_inj. rewrite (rawField_at o1 H1 i f v), (rawField_at o2 H2 i f v); try done.
    + congruence.
    + by rewrite <- (H i f).
  - rewrite (rawField_unknown o1 H1 _ Hk), (rawField_unknown o2); [done|done|congruence].
Qed.

(** ** Decoding a map of raw messages into an object *)

Definition overTypeMeta (a b : TypeMeta) : TypeMeta :=
  mkTypeMeta (overStr (tmKind a) (tmKind b)) (overStr (tmAPIVersion a) (tmAPIVersion b)).

Lemma overTypeMeta_self a : overTypeMeta a a = a.
Proof. unfold overTypeMeta. rewrite !overStr_self. by destruct a. Qed.

(** The body fields after decoding the members [g k] over them. *)
Definition bodyDecoded (g : string -> list json) (t : GoType) (old new : list gval) : Prop :=
  Forall3 (fun f v u => decode_all (unmarshal (fty f)) (g (fkey f)) v = Some u) (tFields t) old new.

Lemma UnmarshalObject_members kvs src dst us :
  wfObject src = true ->
  named "kind" kvs = option_list (rawField "kind" src) ->
  named "apiVersion" kvs = option_list (rawField "apiVersion" src) ->
  named "metadata" kvs = option_list (rawField "metadata" src) ->
  bodyDecoded (fun k => named k kvs) (oType dst) (oBody dst) us ->
  UnmarshalObject (JObj kvs) dst =
  Some (mkObject (oType dst)
          (mkBase (overTypeMeta (bTypeMeta (oBase src)) (bTypeMeta (oBase dst)))
                  (overMeta (oMeta src) (oMeta dst))) us).
Proof.
  intros Hwf Hk Ha Hm Hb. unfold UnmarshalObject, objectType, objectVal.
  rewrite unmarshal_struct.
  pose proof (rawField_at src Hwf 0 (("kind", true), GString) (VStr (tmKind (bTypeMeta (oBase src)))) eq_refl eq_refl) as Ek.
  pose proof (rawField_at src Hwf 1 (("apiVersion", true), GString) (VStr (tmAPIVersion (bTypeMeta (oBase src)))) eq_refl eq_refl) as Ea.
  unfold fkey in Ek, Ea. simpl (_.1) in Ek, Ea. rewrite Ek in Hk. rewrite Ea in Ha.
  rewrite (rawField_metadata src Hwf) in Hm.
  assert (in_int64 (mGeneration (oMeta src)) = true) by (by apply wfObject_spec in Hwf as (_ & _ & ? & _)).
  set (tm := overTypeMeta (bTypeMeta (oBase src)) (bTypeMeta (oBase dst))).
  rewrite (unmarshal_fields_Forall3 _ _ _
    (VStr (tmKind tm) :: VStr (tmAPIVersion tm) :: metaVal (overMeta (oMeta src) (oMeta dst)) :: us)).
  - reflexivity.
  - unfold baseFields. simpl app. repeat constructor; [| | |exact Hb]; unfold fkey, fty; simpl (_.2); simpl (_.1).
    + rewrite Hk. apply decode_over_str.
    + rewrite Ha. apply decode_over_str.
    + rewrite Hm. by apply decode_over_meta.
Qed.

Lemma Forall3_choose {A B C} (P : A -> B -> C -> Prop) l k :
  length l = length k ->
  (forall i x y, l !! i = Some x -> k !! i = Some y -> exists z, P x y z) ->
  exists g, Forall3 P l k g.
Proof.
  revert k. induction l as [|x l IH]; intros [|y k]; try done; [exists []; constructor|].
  intros [= Hl] H. destruct (H 0 x y) as [z Hz]; [done..|].
  destruct (IH k Hl) as [g Hg]; [intros i; apply (H (S i))|]. exists (z :: g). by constructor.
Qed.

Lemma decode_member_succeeds f v w :
  wf_type (fty f) = true -> has_type (fty f) v = true -> has_type (fty f) w = true ->
  exists u, decode_all (unmarshal (fty f)) (member f v) w = Some u.
Proof.
  intros H1 H2 H3. unfold member. case_goal; simpl; [eauto|].
  destruct (unmarshal_succeeds (fty f) v w H1 H2 H3) as [u ->]. eauto.
Qed.

(** If every member comes from some object of the target's type, decoding the
    body succeeds. *)
Lemma bodyDecoded_exists (g : string -> list json) dst :
  wfObject dst = true ->
  (forall k, k ∈ map fkey (tFields (oType dst)) ->
     exists src, wfObject src = true /\ oType src = oType dst /\ g k = option_list (rawField k src)) ->
  exists us, bodyDecoded g (oType dst) (oBody dst) us.
Proof.
  intros Hd Hg. pose proof Hd as (Hnd & Hwt & Hgen & HT)%wfObject_spec. apply Forall3_choose.
  - by eapply Forall2_length.
  - intros i f v Hf Hv. destruct (Hg (fkey f)) as (src & Hs & Ht & ->).
    { apply list_elem_of_In, in_map, list_elem_of_In. by eapply list_elem_of_lookup_2. }
    pose proof Hs as (_ & _ & _ & HTs)%wfObject_spec. rewrite Ht in HTs.
    destruct (Forall2_lookup_l _ _ _ _ _ HTs Hf) as (w & Hw & Hwty).
    rewrite (rawField_at src Hs (3 + i) f w); [|by rewrite Ht|done].
    apply decode_member_succeeds; [|done|by eapply Forall2_lookup_lr in HT].
    rewrite Forall_lookup in Hwt. eauto.
Qed.

(** [json.Unmarshal(json.Marshal(src), dst)] for objects of one type. *)
Lemma UnmarshalObject_copy src dst :
  wfObject src = true -> wfObject dst = true -> oType src = oType dst ->
  exists us,
    UnmarshalObject (MarshalObject src) dst =
    Some (mkObject (oType dst)
            (mkBase (overTypeMeta (bTypeMeta (oBase src)) (bTypeMeta (oBase dst)))
                    (overMeta (oMeta src) (oMeta dst))) us) /\
    bodyDecoded (fun k => option_list (rawField k src)) (oType dst) (oBody dst) us.
Proof.
  intros H1 H2 Ht. rewrite MarshalObject_fields.
  assert (Hn : forall k, named k (marshal_fields (allFields (oType src)) (allVals src)) = option_list (rawField k src)).
  { intros k. unfold rawField. rewrite MarshalObject_fields, rawMap_lookup; [done|].
    apply marshal_fields_NoDup. by apply allFields_NoDup. }
  destruct (bodyDecoded_exists (fun k => option_list (rawField k src)) dst) as [us Hus]; [done|eauto|].
  exists us. split; [|done].
  apply UnmarshalObject_members; try done.
  unfold bodyDecoded in *. eapply Forall3_impl; [exact Hus|]. intros f v u. by rewrite Hn.
Qed.

Lemma UnmarshalObject_self o : wfObject o = true -> UnmarshalObject (MarshalObject o) o = Some o.
Proof.
  intros H. unfold UnmarshalObject, MarshalObject.
  rewrite unmarshal_self by (by eauto using wfObject_type, wfObject_val).
  apply valObject_objectVal.
Qed.

Lemma UnmarshalObject_typed j o o' :
  wfObject o = true -> UnmarshalObject j o = Some o' -> wfObject o' = true /\ oType o' = oType o.
Proof.
  intros H. unfold UnmarshalObject. rewrite bind_Some. intros (v & Hu & Hv).
  pose proof (unmarshal_typed _ _ _ _ (wfObject_val _ H) Hu) as Hty.
  destruct (has_type_objectType _ _ Hty) as (o1 & Ht & ->).
  rewrite <- Ht, valObject_objectVal in Hv. simplify_eq. split; [|done].
  unfold wfObject. rewrite Ht, Hty. by rewrite (wfObject_type _ H).
Qed.

(** What an object becomes when it is encoded and decoded into a fresh one. *)
Definition normObject (o : Object) : Object :=
  default o (valObject (oType o) (norm (objectType (oType o)) (objectVal o))).

Lemma objectVal_zeroObject t : objectVal (zeroObject t) = zero (objectType t).
Proof. unfold objectVal, zeroObject, objectType, baseFields. cbn. done. Qed.

Lemma UnmarshalObject_zero o :
  wfObject o = true ->
  UnmarshalObject (MarshalObject o) (zeroObject (oType o)) = Some (normObject o).
Proof.
  intros H. unfold UnmarshalObject, MarshalObject.
  change (oType (zeroObject (oType o))) with (oType o).
  rewrite objectVal_zeroObject, unmarshal_zero by (by eauto using wfObject_type, wfObject_val).
  change (valObject (oType o) (norm (objectType (oType o)) (objectVal o)) = Some (normObject o)).
  unfold normObject.
  assert (has_type (objectType (oType o)) (norm (objectType (oType o)) (objectVal o)) = true) as Hty.
  { eapply unmarshal_typed; [apply has_type_zero|].
    apply unmarshal_zero; eauto using wfObject_type, wfObject_val. }
  destruct (has_type_objectType _ _ Hty) as (o1 & Ht & ->).
  rewrite <- Ht. by rewrite valObject_objectVal.
Qed.

Lemma wfObject_zeroObject o : wfObject o = true -> wfObject (zeroObject (oType o)) = true.
Proof.
  intros H. unfold wfObject.
  change (oType (zeroObject (oType o))) with (oType o).
  by rewrite (wfObject_type _ H), objectVal_zeroObject, has_type_zero.
Qed.

Lemma normObject_typed o :
  wfObject o = true -> wfObject (normObject o) = true /\ oType (normObject o) = oType o.
Proof.
  intros H. pose proof (UnmarshalObject_zero o H) as E.
  apply UnmarshalObject_typed in E; [done|]. by apply wfObject_zeroObject.
Qed.

(** Metadata survives up to empty maps reading as nil ones. *)
Lemma oMeta_normObject o : wfObject o = true -> oMeta (normObject o) = overMeta (oMeta o) zeroMeta.
Proof.
  intros H. pose proof (UnmarshalObject_zero o H) as E.
  destruct (UnmarshalObject_copy o (zeroObject (oType o))) as (us & E' & _);
    [done|by apply wfObject_zeroObject|done|].
  rewrite E in E'. injection E' as ->. done.
Qed.

(** ** Results of decoding, read as raw fields *)

Lemma decode_member_self f v :
  wf_type (fty f) = true -> has_type (fty f) v = true ->
  decode_all (unmarshal (fty f)) (member f v) v = Some v.
Proof. intros H1 H2. apply decode_member; [done|]. intros _. by apply unmarshal_self. Qed.

Lemma decode_member_plain f v w :
  fomit f = false -> overwriting (fty f) = true ->
  wf_type (fty f) = true -> has_type (fty f) v = true -> has_type (fty f) w = true ->
  decode_all (unmarshal (fty f)) (member f v) w = Some v.
Proof.
  intros Hf Ho H1 H2 H3. apply decode_member; rewrite Hf; simpl; [done|].
  intros _. by apply unmarshal_overwriting.
Qed.

Lemma findField_at t i f :
  NoDup (map fkey (tFields t)) -> tFields t !! i = Some f -> findField (fkey f) t = Some f.
Proof.
  unfold findField. generalize (tFields t) as fs. intros fs. revert i.
  induction fs as [|f' fs IH]; intros [|i] Hnd Hi; simpl in *; simplify_eq.
  - by rewrite bool_decide_true.
  - apply NoDup_cons in Hnd as [H1 H2]. rewrite bool_decide_false; [by eapply IH|].
    intros E. apply H1. rewrite E. apply list_elem_of_In, in_map, list_elem_of_In.
    by eapply list_elem_of_lookup_2.
Qed.

Lemma wfObject_tFields_NoDup o : wfObject o = true -> NoDup (map fkey (tFields (oType o))).
Proof.
  intros (H & _)%wfObject_spec. rewrite map_app in H. by apply NoDup_app in H as (_ & _ & ?).
Qed.

(** The value a body field holds after decoding from [x]'s encoding. *)
Lemma bodyDecoded_value g d us x i f v :
  wfObject d = true -> wfObject x = true -> oType x = oType d ->
  bodyDecoded g (oType d) (oBody d) us ->
  g (fkey f) = option_list (rawField (fkey f) x) ->
  x = d \/ plainField (fkey f) (oType d) = true ->
  tFields (oType d) !! i = Some f -> oBody x !! i = Some v ->
  us !! i = Some v.
Proof.
  intros Hd Hx Ht HB Hg Hor Hf Hv.
  pose proof Hd as (_ & Hwt & _ & HTd)%wfObject_spec.
  pose proof Hx as (_ & _ & _ & HTx)%wfObject_spec. rewrite Ht in HTx.
  destruct (Forall2_lookup_l _ _ _ _ _ HTd Hf) as (w & Hw & Hwty).
  assert (has_type (fty f) v = true) as Hvty by (by eapply Forall2_lookup_lr in HTx).
  assert (wf_type (fty f) = true) as Hfw by (rewrite Forall_lookup in Hwt; eauto).
  destruct (Forall3_lookup_l _ _ _ _ _ _ HB Hf) as (w' & u & Hw' & Hu & Hdec). simplify_eq.
  rewrite Hg, (rawField_at x Hx (3 + i) f v) in Hdec; [|by rewrite Ht|done].
  destruct Hor as [->|Hp].
  - simplify_eq. rewrite decode_member_self in Hdec by done. by simplify_eq.
  - unfold plainField in Hp. rewrite (findField_at _ i f) in Hp by eauto using wfObject_tFields_NoDup.
    split_bools. rewrite decode_member_plain in Hdec by done. by simplify_eq.
Qed.

Lemma bodyDecoded_rawField g d b us x k :
  wfObject d = true -> wfObject (mkObject (oType d) b us) = true ->
  wfObject x = true -> oType x = oType d ->
  k ∉ map fkey baseFields ->
  bodyDecoded g (oType d) (oBody d) us ->
  g k = option_list (rawField k x) ->
  x = d \/ plainField k (oType d) = true ->
  rawField k (mkObject (oType d) b us) = rawField k x.
Proof.
  intros Hd Hm Hx Ht Hk HB Hg Hor. apply rawField_ext; [done|done|done|].
  intros i f Hf <-. simpl in Hf. unfold allFields in Hf.
  apply lookup_app_Some in Hf as [Hf|[Hi Hf]].
  { destruct Hk. apply list_elem_of_In, in_map, list_elem_of_In. by eapply list_elem_of_lookup_2. }
  change (length baseFields) with 3 in *. destruct i as [|[|[|i]]]; try (simpl in Hi; lia). simpl.
  pose proof Hx as (_ & _ & _ & HTx)%wfObject_spec. rewrite Ht in HTx.
  replace (S (S (S i)) - 3) with i in Hf by lia.
  destruct (Forall2_lookup_l _ _ _ _ _ HTx Hf) as (v & Hv & _). rewrite Hv.
  by apply (bodyDecoded_value g d us x i f v).
Qed.

(** Setting metadata does not change the other members. *)
Lemma rawField_withMeta k f o :
  wfObject o = true -> wfObject (withMeta f o) = true -> k <> "metadata" ->
  rawField k (withMeta f o) = rawField k o.
Proof.
  intros H1 H2 Hk. apply rawField_ext; [done|done|done|]. intros i g Hg <-. simpl in Hg.
  by destruct i as [|[|[|i]]]; simplify_eq/=.
Qed.

(** The copy is total between objects of one type. *)
Lemma UnmarshalObject_copy_total src dst :
  wfObject src = true -> wfObject dst = true -> oType src = oType dst ->
  exists o, UnmarshalObject (MarshalObject src) dst = Some o /\
    wfObject o = true /\ oType o = oType dst /\ oMeta o = overMeta (oMeta src) (oMeta dst).
Proof.
  intros H1 H2 Ht. destruct (UnmarshalObject_copy src dst H1 H2 Ht) as (us & E & _).
  destruct (UnmarshalObject_typed _ _ _ H2 E) as [Hw _]. by eexists.
Qed.

(** Encoding forgets exactly what [normObject] resets. *)
Lemma MarshalObject_norm o : wfObject o = true -> MarshalObject (normObject o) = MarshalObject o.
Proof.
  intros H. pose proof (wfObject_val _ H) as Hv.
  pose proof (unmarshal_zero _ _ (wfObject_type _ H) Hv) as E.
  apply unmarshal_typed in E; [|apply has_type_zero].
  destruct (has_type_objectType _ _ E) as (o' & Ht & En).
  assert (normObject o = o') as ->.
  { unfold normObject. by rewrite En, <- Ht, valObject_objectVal. }
  unfold MarshalObject. rewrite Ht, <- En. by apply marshal_norm.
Qed.

Lemma overMeta_inj_encoding o1 o2 :
  wfObject o1 = true -> wfObject o2 = true -> MarshalObject o1 = MarshalObject o2 ->
  overMeta (oMeta o1) zeroMeta = overMeta (oMeta o2) zeroMeta.
Proof.
  intros H1 H2 E.
  assert (rawField "metadata" o1 = rawField "metadata" o2) as Em by (unfold rawField; by rewrite E).
  rewrite !rawField_metadata in Em by done. apply (inj Some) in Em.
  pose proof (unmarshal_meta (oMeta o1) zeroMeta) as U1. pose proof (unmarshal_meta (oMeta o2) zeroMeta) as U2.
  apply wfObject_spec in H1 as (_ & _ & H1 & _), H2 as (_ & _ & H2 & _).
  specialize (U1 H1). specialize (U2 H2).
  rewrite Em, U2 in U1. apply (inj Some), (f_equal valMeta) in U1.
  rewrite !valMeta_metaVal in U1. by apply (inj Some) in U1.
Qed.
