(* ===== verification/Backend.v ===== *)
(** * What the memory and filesystem backends share

    The helpers both backends have their own copy of: the GVK lookups, the
    filter of [List], the JSON copies and the reflective filling of a list. *)

From S2P Require Import Prelude GoStrconv GoJson GoJsonFacts Objects ObjectFacts.

Definition contentEqual (stored incoming : Object) : bool :=
  let inCopy := SetUID (GetUID stored) (SetResourceVersion (GetResourceVersion stored) incoming) in
  bool_decide (MarshalObject stored = MarshalObject inCopy).

(** A JSON round trip from [src] into [dst]. *)
Definition copyObject (src dst : Object) : Object * result unit :=
  match UnmarshalObject (MarshalObject src) dst with
  | Some o => (o, Ret tt)
  | None => (dst, Fail (OtherError "json: cannot unmarshal"))
  end.

(** Fill the list's [Items] by reflection; appending an item of another type
    than the slice's element type panics. *)
Definition populateListItems (lst : ObjectList) (items : list Object) : ObjectList * result unit :=
  match lItemsField lst with
  | NoItems => (lst, Fail (OtherError "list type does not have Items field"))
  | UnsettableItems _ => (lst, Fail (OtherError "Items field of list type cannot be set"))
  | ItemsOf t =>
      if forallb (fun o => bool_decide (tName (oType o) = tName t)) items
      then (SetItems items lst, Ret tt)
      else (lst, Panic)
  end.


(** The filter of [List]: by namespace, then by labels. *)
Definition listed (o : ListOptions) (key : ObjectKey) (obj : Object) : bool :=
  if bool_decide (loNamespace o <> "") && bool_decide (kNamespace key <> loNamespace o) then false
  else match loLabelSelector o with
       | Some sel => lsMatches sel (GetLabels obj)
       | None => true
       end.


(** The last [WatchFromRevision] among the options, if any. *)
Definition fromRevisionOpt (opts : list ListOption) : option Z :=
  foldl (fun acc opt => match opt with WatchFromRevision rv => Some rv | _ => acc end) None opts.

(** The label filter of [Watch] on replayed events. *)
Definition selectEvents (sel : option labelsSelector) (evts : list Event) : list Event :=
  match sel with
  | None => evts
  | Some sel =>
      List.filter (fun evt => bool_decide (evType evt = EventBookmark)
                              || lsMatches sel (GetLabels (evObject evt))) evts
  end.

Section scheme.
Context (scheme : Scheme).

Definition gvkForObject (obj : Object) : result GVK :=
  match ObjectKinds scheme (tName (oType obj)) with
  | Ret (gvk :: _) => Ret gvk
  | Ret [] => Fail (OtherError "no GVK found for object type")
  | Fail e => Fail e
  | Panic => Panic
  end.

Definition gvkForList (lst : ObjectList) : result GVK :=
  match ObjectKinds scheme (lName lst) with
  | Ret (gvk :: _) => Ret (mkGVK (gGroup gvk) (gVersion gvk) (trimListSuffix (gKind gvk)))
  | Ret [] => Fail (OtherError "no GVK found for list type")
  | Fail e => Fail e
  | Panic => Panic
  end.

(** An object a caller may pass: well formed, and of the type the scheme has
    registered for its GVK ([scheme.New] returns a zero value of it). *)
Definition okObject (o : Object) : Prop :=
  wfObject o = true /\
  forall g, gvkForObject o = Ret g -> SchemeNew scheme g = Ret (RObject (zeroObject (oType o))).

(** The list's element type is the type registered for its GVK. *)
Definition okList (g : GVK) (lst : ObjectList) : Prop :=
  exists t, lItemsField lst = ItemsOf t /\ SchemeNew scheme g = Ret (RObject (zeroObject t)).


(** ** Facts *)

Lemma gvkForObject_type o o' : oType o = oType o' -> gvkForObject o = gvkForObject o'.
Proof. unfold gvkForObject. by intros ->. Qed.

Lemma okObject_type o o' : wfObject o' = true -> oType o' = oType o -> okObject o -> okObject o'.
Proof.
  intros Hw Ht [_ H]. split; [done|]. intros g. rewrite Ht. rewrite (gvkForObject_type o' o Ht). apply H.
Qed.

Lemma okObject_same_type o o' g :
  okObject o -> okObject o' -> gvkForObject o = Ret g -> gvkForObject o' = Ret g ->
  oType o = oType o'.
Proof.
  intros [_ H1] [_ H2] E1 E2. specialize (H1 g E1). specialize (H2 g E2).
  assert (zeroObject (oType o) = zeroObject (oType o')) as E by congruence.
  exact (f_equal oType E).
Qed.

End scheme.

(** [obj] has nothing an update of [st] would write: same labels, annotations
    and fields apart from the status. *)
Record unchanged (obj st : Object) : Prop := {
  un_labels : GetLabels obj = GetLabels st;
  un_annotations : GetAnnotations obj = GetAnnotations st;
  un_fields : forall k, k ∉ map fkey baseFields -> k <> "status" -> rawField k obj = rawField k st;
}.

(** [new] is [st] updated with [obj]: the input's labels, annotations and
    fields, the stored UID and status. *)
Record updates (obj st new : Object) : Prop := {
  upd_key : ObjectKeyFromObject new = ObjectKeyFromObject obj;
  upd_uid : GetUID new = GetUID st;
  upd_labels : GetLabels new = GetLabels obj;
  upd_annotations : GetAnnotations new = GetAnnotations obj;
  upd_fields : forall k, k ∉ map fkey baseFields -> k <> "status" -> rawField k new = rawField k obj;
  upd_status : plainField "status" (oType obj) = true -> rawField "status" new = rawField "status" st;
}.

Lemma copyObject_total src dst :
  wfObject src = true -> wfObject dst = true -> oType src = oType dst ->
  exists o, copyObject src dst = (o, Ret tt) /\ wfObject o = true /\ oType o = oType dst /\
    oMeta o = overMeta (oMeta src) (oMeta dst).
Proof.
  intros H1 H2 Ht. destruct (UnmarshalObject_copy_total src dst H1 H2 Ht) as (o & E & Ho).
  exists o. unfold copyObject. by rewrite E.
Qed.

Lemma copyObject_self o : wfObject o = true -> copyObject o o = (o, Ret tt).
Proof. intros H. unfold copyObject. by rewrite UnmarshalObject_self. Qed.

Lemma listed_spec o k obj :
  listed o k obj = true <->
  (loNamespace o = "" \/ kNamespace k = loNamespace o) /\
  (forall sel, loLabelSelector o = Some sel -> lsMatches sel (GetLabels obj) = true).
Proof.
  unfold listed. destruct (decide (loNamespace o = "")) as [E|E];
    [rewrite (bool_decide_false (loNamespace o <> "")) by naive_solver
    |rewrite (bool_decide_true (loNamespace o <> "")) by done]; simpl.
  - destruct (loLabelSelector o); naive_solver.
  - case_bool_decide; destruct (loLabelSelector o); naive_solver.
Qed.

