(* ===== verification/SpecStatus.v ===== *)
(** * The spec/status split shared by the memory and filesystem backends

    [Update] and [UpdateStatus] marshal the stored and the incoming object,
    take all members of one and the [status] member of the other, and decode
    the merged members over a deep copy of the incoming object. *)

From S2P Require Import Prelude GoStrconv GoJson GoJsonFacts Objects ObjectFacts.

(** All members of [base] but [status], which comes from [other]; without a
    [status] in [other] the merged map has none. *)
Definition mergeStatus (base other : Object) : gmap string json :=
  let baseMap := rawMap (MarshalObject base) in
  match rawMap (MarshalObject other) !! "status" with
  | Some status => <["status" := status]> baseMap
  | None => delete "status" baseMap
  end.

Lemma mergeStatus_lookup base other k :
  mergeStatus base other !! k = if decide (k = "status") then rawField k other else rawField k base.
Proof.
  unfold mergeStatus, rawField. case_decide as E; [subst|].
  - destruct (rawMap (MarshalObject other) !! "status"); [apply lookup_insert_eq|apply lookup_delete_eq].
  - destruct (rawMap (MarshalObject other) !! "status");
      [by rewrite lookup_insert_ne|by rewrite lookup_delete_ne].
Qed.

Section merge.
Context (base other dst : Object).
Hypothesis Hbase : wfObject base = true.
Hypothesis Hother : wfObject other = true.
Hypothesis Hdst : wfObject dst = true.
Hypothesis Htb : oType base = oType dst.
Hypothesis Hto : oType other = oType dst.

(** The result of decoding the merged members, field by field. *)
Lemma unmarshal_mergeStatus_eq :
  exists us, bodyDecoded (fun k => option_list (mergeStatus base other !! k)) (oType dst) (oBody dst) us /\
    UnmarshalObject (mapJson (mergeStatus base other)) dst =
    Some (mkObject (oType dst)
      (mkBase (overTypeMeta (bTypeMeta (oBase base)) (bTypeMeta (oBase dst))) (overMeta (oMeta base) (oMeta dst))) us).
Proof using All.
  destruct (bodyDecoded_exists (fun k => option_list (mergeStatus base other !! k)) dst) as [us Hus]; [done| |].
  { intros k _. rewrite mergeStatus_lookup. case_decide; eauto. }
  exists us. split; [done|]. unfold mapJson. apply UnmarshalObject_members; [done|..].
  1-3: by rewrite named_mapJson, mergeStatus_lookup, decide_False by done.
  eapply Forall3_impl; [exact Hus|]. intros f v u. by rewrite named_mapJson.
Qed.

Lemma unmarshal_mergeStatus_kind m :
  UnmarshalObject (mapJson (mergeStatus base other)) dst = Some m ->
  bTypeMeta (oBase m) = overTypeMeta (bTypeMeta (oBase base)) (bTypeMeta (oBase dst)).
Proof using All. destruct unmarshal_mergeStatus_eq as (us & _ & ->). by intros [= <-]. Qed.

(** Decoding the merged members over [dst] succeeds; the metadata comes from
    [base], every other field from [base] or, for [status], from [other]. *)
Lemma unmarshal_mergeStatus :
  exists merged,
    UnmarshalObject (mapJson (mergeStatus base other)) dst = Some merged /\
    wfObject merged = true /\ oType merged = oType dst /\
    oMeta merged = overMeta (oMeta base) (oMeta dst) /\
    (forall k, k ∉ map fkey baseFields -> k <> "status" ->
       base = dst \/ plainField k (oType dst) = true ->
       rawField k merged = rawField k base) /\
    (other = dst \/ plainField "status" (oType dst) = true ->
       rawField "status" merged = rawField "status" other).
Proof.
  destruct unmarshal_mergeStatus_eq as (us & Hus & E).
  destruct (UnmarshalObject_typed _ _ _ Hdst E) as [Hw _].
  eexists. split; [exact E|]. split_and!; [done|done|done| |].
  - intros k Hk Hs Hor. eapply bodyDecoded_rawField; [done..|exact Hus| |done].
    simpl. by rewrite mergeStatus_lookup, decide_False.
  - intros Hor. eapply bodyDecoded_rawField; [done..| |exact Hus| |done].
    + by apply (bool_decide_unpack _).
    + simpl. by rewrite mergeStatus_lookup, decide_True.
Qed.
End merge.

(** Merging an object with one of the same encoding gives the object. *)
Lemma unmarshal_mergeStatus_same obj st :
  wfObject obj = true -> MarshalObject obj = MarshalObject st ->
  UnmarshalObject (mapJson (mergeStatus obj st)) obj = Some obj.
Proof.
  intros Hw E.
  assert (forall k, mergeStatus obj st !! k = rawField k obj) as Hl.
  { intros k. rewrite mergeStatus_lookup. unfold rawField. rewrite E. by case_decide. }
  unfold mapJson. rewrite (UnmarshalObject_members _ obj obj (oBody obj)); rewrite ?named_mapJson, ?Hl; try done.
  - rewrite overMeta_self. unfold overTypeMeta. rewrite !overStr_self. by destruct obj as [t [[] m] b].
  - pose proof Hw as (_ & Hwt & _ & HT)%wfObject_spec.
    apply Forall3_lookup_build; [by eapply Forall2_length|symmetry; by eapply Forall2_length|].
    intros i f v u Hf Hv Hu. rewrite Hv in Hu. simplify_eq.
    rewrite named_mapJson, Hl, (rawField_at obj Hw (3 + i) f u) by done.
    apply decode_member_self; [|by eapply Forall2_lookup_lr in HT]. rewrite Forall_lookup in Hwt. eauto.
Qed.
