(* ===== verification/NormalForms.v ===== *)
(** * Values that survive an encoding unchanged

    A value is normal when its empty [omitempty] fields are zero values, so that
    encoding it and decoding the text into a zero value gives the value itself.
    Decoding encodings of normal values over normal values gives normal values
    ([unmarshal_normal]), so a backend that keeps objects as JSON returns exactly
    the objects it was given as long as those are normal. *)

From S2P Require Import Prelude GoStrconv GoJson GoJsonFacts Objects ObjectFacts SpecStatus.

Definition normal (t : gty) (v : gval) : Prop := norm t v = v.

(** A struct field that keeps its value. *)
Definition normalField (f : field) (v : gval) : Prop :=
  if fomit f && isEmptyValue v then v = zero (fty f) else normal (fty f) v.

Lemma normal_zero t : normal t (zero t).
Proof.
  unfold normal. induction t as [| | | |e IH|e IH|fs IH] using gty_nested_ind; try done.
  simpl zero. rewrite norm_struct. f_equal. induction IH as [|f fs H _ IHfs]; [done|].
  simpl. f_equal; [|done]. unfold fty in H. rewrite H. by destruct (_ && _).
Qed.

Lemma normal_struct fs vs :
  length fs = length vs -> normal (GStruct fs) (VStruct vs) <-> Forall2 normalField fs vs.
Proof.
  unfold normal. rewrite norm_struct. revert vs. induction fs as [|f fs IH]; intros [|v vs]; try done.
  simpl. intros [= Hl]. rewrite Forall2_cons, <- IH by done. unfold normalField, normal.
  split.
  - intros [= H1 H2]. rewrite H2. split; [|done]. unfold fomit, fty. by destruct (_ && _).
  - intros [H1 H2]. injection H2 as ->. do 2 f_equal. unfold fomit, fty in H1. by destruct (_ && _).
Qed.

(** The field's value after its member has been decoded over the old one. *)
Lemma decode_member_normal f v w u :
  (forall u, normal (fty f) v -> normal (fty f) w -> unmarshal (fty f) (marshal (fty f) v) w = Some u ->
     normal (fty f) u /\ (isEmptyValue v = false -> isEmptyValue u = false)) ->
  normalField f v -> normalField f w ->
  decode_all (unmarshal (fty f)) (member f v) w = Some u -> normalField f u.
Proof.
  intros IH Hv Hw. unfold member, normalField in *. destruct (fomit f && isEmptyValue v) eqn:E.
  - simpl. by intros [= <-].
  - simpl. destruct (unmarshal (fty f) (marshal (fty f) v) w) as [u'|] eqn:Eu; [|done]. intros [= ->].
    assert (normal (fty f) w) as Hw'.
    { destruct (fomit f && isEmptyValue w); [|done]. subst w. apply normal_zero. }
    destruct (IH u Hv Hw' eq_refl) as [Hn He]. destruct (fomit f); [|done]. simpl in *. by rewrite He.
Qed.

Lemma unmarshal_fields_inv kvs fs vs us :
  unmarshal_fields kvs fs vs = Some us ->
  forall i f v, fs !! i = Some f -> vs !! i = Some v ->
  exists u, us !! i = Some u /\ decode_all (unmarshal (fty f)) (named (fkey f) kvs) v = Some u.
Proof.
  revert vs us. induction fs as [|f fs IH]; intros [|v vs] us; try done.
  rewrite unmarshal_fields_cons. destruct (decode_all _ _ v) as [u|] eqn:E; [|done].
  destruct (unmarshal_fields kvs fs vs) as [us'|] eqn:E'; [|done]. intros [= <-] [|i]; simpl.
  - intros f' v' [= <-] [= <-]. eauto.
  - by apply IH.
Qed.

Lemma unmarshal_fields_length kvs fs vs us : unmarshal_fields kvs fs vs = Some us -> length us = length fs.
Proof.
  revert vs us. induction fs as [|f fs IH]; intros vs us; [by intros [= <-]|].
  destruct vs as [|v vs]; [done|]. rewrite unmarshal_fields_cons.
  destruct (decode_all _ _ v); [|done]. destruct (unmarshal_fields kvs fs vs) eqn:E; [|done].
  intros [= <-]. simpl. by erewrite IH.
Qed.

Lemma unmarshal_elems_normal e l ws us :
  (forall v w u, has_type e v = true -> has_type e w = true -> normal e v -> normal e w ->
     unmarshal e (marshal e v) w = Some u -> normal e u) ->
  Forall (fun v => has_type e v = true) l -> Forall (fun v => has_type e v = true) ws ->
  Forall (normal e) l -> Forall (normal e) ws ->
  unmarshal_elems e (map (marshal e) l) ws = Some us -> Forall (normal e) us /\ length us = length l.
Proof.
  intros IH. revert ws us. induction l as [|v l IHl]; intros ws us Hl Hws Nl Nws; [by intros [= <-]|].
  apply Forall_cons in Hl as [Hv Hl], Nl as [Nv Nl]. simpl map. rewrite unmarshal_elems_cons.
  destruct (unmarshal e (marshal e v) _) as [u|] eqn:Eu; [|done].
  destruct (unmarshal_elems e (map (marshal e) l) (tail ws)) as [us'|] eqn:E; [|done]. intros [= <-].
  destruct (IHl (tail ws) us') as [N L]; [done|by destruct Hws|done|by destruct Nws|done|].
  split; [|simpl; by rewrite L]. constructor; [|done]. eapply (IH v _ u); [done| |done| |exact Eu].
  - destruct Hws; simpl; [apply has_type_zero|done].
  - destruct Nws; simpl; [apply normal_zero|done].
Qed.

Lemma normal_slice e l : normal (GSlice e) (VSlice (Some l)) <-> Forall (normal e) l.
Proof.
  unfold normal. simpl. split.
  - intros [= E]. apply Forall_lookup. intros i v Hi. apply (f_equal (fun l => l !! i)) in E.
    rewrite list_lookup_fmap, Hi in E. by injection E.
  - intros H. do 2 f_equal. induction H as [|v l Hv _ IH]; [done|]. simpl. by rewrite Hv, IH.
Qed.

(** Decoding a normal value's encoding over a normal value gives a normal
    value, and never empties a field that is not empty. *)
Lemma unmarshal_normal t v w u :
  wf_type t = true -> has_type t v = true -> has_type t w = true -> normal t v -> normal t w ->
  unmarshal t (marshal t v) w = Some u ->
  normal t u /\ (isEmptyValue v = false -> isEmptyValue u = false).
Proof.
  revert v w u. induction t as [| | | |e IH|e IH|fs IH] using gty_nested_ind; intros v w u Hwf Hv Hw Nv Nw.
  - destruct v, w; try done. simpl. by intros [= <-].
  - destruct v, w; try done. simpl in *. rewrite Hv. by intros [= <-].
  - destruct v, w; try done. simpl. by intros [= <-].
  - destruct v as [| | |[m|]| | |], w as [| | |m'| | |]; try done; simpl; try (by intros [= <-]).
    rewrite decode_strmap_map. intros [= <-]. split; [done|]. simpl. intros Hm.
    apply bool_decide_eq_false_1 in Hm. apply bool_decide_eq_false_2. intros E. apply Hm.
    apply map_eq. intros k. apply (f_equal (.!! k)) in E. simpl in E.
    rewrite lookup_empty, lookup_union_None in E. rewrite lookup_empty. apply E.
  - destruct v as [| | | |[l|]| |], w as [| | | |k| |]; try done; try (by intros [= <-]).
    change (marshal (GSlice e) (VSlice (Some l))) with (JArr (map (marshal e) l)). rewrite unmarshal_slice.
    apply has_type_slice in Hv, Hw. apply normal_slice in Nv. simpl in Hv.
    destruct (unmarshal_elems e (map (marshal e) l) (default [] k)) as [us|] eqn:E; [|done]. intros [= <-].
    apply unmarshal_elems_normal in E as [N L]; try done; [| |by destruct k; [apply normal_slice in Nw|]].
    + split; [by apply normal_slice|]. simpl. intros Hl. apply bool_decide_eq_false_1 in Hl.
      apply bool_decide_eq_false_2. intros ->. by destruct l.
    + intros v w u H1 H2 N1 N2 Eu. by destruct (IH v w u).
  - destruct v as [| | | | |[v|]|], w as [| | | | |p|]; try done; try (by intros [= <-]).
    simpl in Hwf, Hv, Hw. split_bools. change (marshal (GPtr e) (VPtr (Some v))) with (marshal e v).
    rewrite unmarshal_ptr by (by apply marshal_not_null). unfold normal in Nv, Nw. simpl in Nv, Nw.
    destruct (unmarshal e (marshal e v) (default (zero e) p)) as [u'|] eqn:E; [|done]. intros [= <-].
    split; [|done]. unfold normal. simpl. do 2 f_equal.
    destruct (IH v (default (zero e) p) u') as [N _]; try done; [|by injection Nv|].
    + destruct p; [done|apply has_type_zero].
    + destruct p; [by injection Nw|apply normal_zero].
  - apply has_type_struct_inv in Hv as (vs & -> & HT), Hw as (ws & -> & HT').
    apply wf_type_struct in Hwf as [Hnd Hwf]. rewrite marshal_struct, unmarshal_struct.
    destruct (unmarshal_fields _ fs ws) as [us|] eqn:E; [|done]. intros [= <-]. split; [|done].
    pose proof (unmarshal_fields_length _ _ _ _ E) as Hl.
    apply normal_struct; [done|]. apply normal_struct in Nv; [|by eapply Forall2_length].
    apply normal_struct in Nw; [|by eapply Forall2_length].
    apply Forall2_same_length_lookup. split; [done|]. intros i f u Hf Hu.
    destruct (Forall2_lookup_l _ _ _ _ _ HT Hf) as (v & Hv & Tv).
    destruct (Forall2_lookup_l _ _ _ _ _ HT' Hf) as (w & Hw & Tw).
    destruct (unmarshal_fields_inv _ _ _ _ E i f w Hf Hw) as (u' & Hu' & Ed). simplify_eq.
    erewrite struct_members in Ed by eauto. rewrite Forall_lookup in IH, Hwf.
    eapply decode_member_normal; [|by eapply Forall2_lookup_lr in Nv|by eapply Forall2_lookup_lr in Nw|exact Ed].
    intros u1 N1 N2 Eu. eapply IH; eauto.
Qed.

(** ** Objects *)

Definition normalObject (o : Object) : Prop := normal (objectType (oType o)) (objectVal o).

Definition normalMap (m : option (gmap string string)) : Prop := m <> Some ∅.

Lemma normalField_str k b s : normalField ((k, b), GString) (VStr s) <-> True.
Proof. unfold normalField. simpl. case_bool_decide; destruct b; naive_solver. Qed.
Lemma normalField_int k b z : normalField ((k, b), GInt) (VInt z) <-> True.
Proof. unfold normalField. simpl. destruct b, (Z.eqb_spec z 0); naive_solver. Qed.
Lemma normalField_map k m : normalField ((k, true), GStrMap) (VMap m) <-> normalMap m.
Proof.
  unfold normalField, normalMap. simpl. destruct m as [m|]; simpl; [|by rewrite bool_decide_true by done].
  case_bool_decide; naive_solver.
Qed.

Lemma normalObject_spec o :
  wfObject o = true ->
  normalObject o <-> normalMap (mLabels (oMeta o)) /\ normalMap (mAnnotations (oMeta o)) /\
    Forall2 normalField (tFields (oType o)) (oBody o).
Proof.
  intros Hw. unfold normalObject, objectType, objectVal. rewrite normal_struct.
  2: { apply wfObject_spec in Hw as (_ & _ & _ & HT). simpl. by rewrite (Forall2_length _ _ _ HT). }
  unfold baseFields. simpl app. rewrite !Forall2_cons, !normalField_str.
  change (normalField (("metadata", false), metaType) (metaVal (oMeta o))) with (normal metaType (metaVal (oMeta o))).
  unfold metaType, metaVal. rewrite normal_struct by done.
  rewrite !Forall2_cons, Forall2_nil, !normalField_str, normalField_int, !normalField_map. tauto.
Qed.

Lemma normalObject_norm o : normalObject o -> normObject o = o.
Proof. intros H. unfold normObject. rewrite H, valObject_objectVal. done. Qed.

Lemma normalObject_withMeta f o :
  wfObject o = true -> wfObject (withMeta f o) = true ->
  mLabels (f (oMeta o)) = mLabels (oMeta o) -> mAnnotations (f (oMeta o)) = mAnnotations (oMeta o) ->
  normalObject o -> normalObject (withMeta f o).
Proof.
  intros H1 H2 Hl Ha. rewrite !normalObject_spec by done. unfold withMeta, oMeta in *. simpl. by rewrite Hl, Ha.
Qed.

Lemma normalMap_over a b : normalMap a -> normalMap b -> normalMap (overMap a b).
Proof.
  unfold normalMap, overMap. intros Ha Hb. case_bool_decide as E; [done|]. intros [= E']. apply E.
  apply map_eq. intros k. apply (f_equal (.!! k)) in E'. simpl in E'.
  rewrite lookup_empty, lookup_union_None in E'. rewrite lookup_empty. apply E'.
Qed.

Section merge.
Context (base other dst m : Object).
Hypothesis Hbase : wfObject base = true.
Hypothesis Hother : wfObject other = true.
Hypothesis Hdst : wfObject dst = true.
Hypothesis Htb : oType base = oType dst.
Hypothesis Hto : oType other = oType dst.

Lemma unmarshal_mergeStatus_normal :
  UnmarshalObject (mapJson (mergeStatus base other)) dst = Some m ->
  normalObject base -> normalObject other -> normalObject dst -> normalObject m.
Proof using All.
  intros E Nb No Nd. destruct (UnmarshalObject_typed _ _ _ Hdst E) as [Hw Ht].
  set (g := fun k => option_list (mergeStatus base other !! k)).
  destruct (unmarshal_mergeStatus_eq base other dst) as (us & Hus & E'); [done..|].
  rewrite E' in E. injection E as <-. fold g in Hus.
  apply normalObject_spec in Nb as (Nb1 & Nb2 & Nb3), No as (_ & _ & No3), Nd as (Nd1 & Nd2 & Nd3); try done.
  apply normalObject_spec; [done|]. simpl. split_and!; [by apply normalMap_over..|].
  pose proof Hus as Hl. apply Forall3_length_lr in Hl. apply Forall2_same_length_lookup. split; [done|].
  intros i f u Hf Hu.
  destruct (Forall3_lookup_r _ _ _ _ _ _ Hus Hu) as (f' & w & Hf' & Hv & Hdec). simplify_eq.
  assert (exists x v, wfObject x = true /\ oType x = oType dst /\ normalField f v /\ oBody x !! i = Some v /\
    g (fkey f) = option_list (rawField (fkey f) x)) as (x & v & Hx & Htx & Nv & Hxv & Hg).
  { unfold g. rewrite mergeStatus_lookup. rewrite Htb in Nb3. rewrite Hto in No3.
    destruct (Forall2_lookup_l _ _ _ _ _ Nb3 Hf) as (vb & ? & ?).
    destruct (Forall2_lookup_l _ _ _ _ _ No3 Hf) as (vo & ? & ?). case_decide; eauto 10. }
  rewrite Hg, (rawField_at x Hx (3 + i) f v) in Hdec; [|by rewrite Htx|done].
  pose proof Hx as (_ & Hwt & _ & HTx)%wfObject_spec. pose proof Hdst as (_ & _ & _ & HTd)%wfObject_spec.
  rewrite Htx in HTx, Hwt. rewrite Forall_lookup in Hwt.
  eapply decode_member_normal; [|exact Nv|by eapply Forall2_lookup_lr in Nd3|exact Hdec].
  intros u1 N1 N2 Eu. eapply unmarshal_normal; [by eapply Hwt|by eapply Forall2_lookup_lr in HTx|
    by eapply Forall2_lookup_lr in HTd|done..].
Qed.
End merge.
