(* ===== verification/StoreSpec.v ===== *)
(** * What a Store promises: the abstract history

    The contract of [Store] (store.go) is about revisions: every mutation gets
    the next revision, watch events come in revision order, and a watch from a
    revision delivers every later event. Abstractly a store _is_ the list of its
    changes; the objects it holds are what applying the changes gives, and a
    watch from a revision is the part of the list after it. The backends are
    proved to implement this, the cache to follow it. *)

From S2P Require Import Prelude GoStrconv GoJson Objects Backend.

(** A change: its revision, the GVK it belongs to, the event it emitted. *)
Record change : Type := mkChange { cRevision : Z; cGVK : GVK; cEvent : Event }.

(** The effect of an event on the objects of its GVK. *)
Definition applyEvent (m : gmap ObjectKey Object) (e : Event) : gmap ObjectKey Object :=
  let key := ObjectKeyFromObject (evObject e) in
  match evType e with
  | EventAdded | EventModified => <[key := evObject e]> m
  | EventDeleted => delete key m
  | EventBookmark => m
  end.

Definition applyEvents (m : gmap ObjectKey Object) (es : list Event) : gmap ObjectKey Object :=
  foldl applyEvent m es.

(** The events of one GVK in a history, in order. *)
Definition eventsOf (gvk : GVK) (H : list change) : list Event :=
  map cEvent (List.filter (fun c => bool_decide (cGVK c = gvk)) H).

(** The objects of a GVK after a history. *)
Definition view (gvk : GVK) (H : list change) : gmap ObjectKey Object :=
  applyEvents ∅ (eventsOf gvk H).

(** An event makes sense for the objects before it: an object is added when
    its key is free, modified or deleted when it is there. *)
Definition eventFits (m : gmap ObjectKey Object) (e : Event) : Prop :=
  match evType e with
  | EventAdded => m !! ObjectKeyFromObject (evObject e) = None
  | EventModified | EventDeleted => is_Some (m !! ObjectKeyFromObject (evObject e))
  | EventBookmark => False
  end.

(** A history numbers its changes 1, 2, 3, ..., every event's object carries
    the change's revision, and every event makes sense where it happens. *)
Record wfHistory (H : list change) : Prop := {
  wfh_revision : forall i c, H !! i = Some c -> cRevision c = Z.of_nat (S i);
  wfh_object : forall i c, H !! i = Some c -> GetResourceVersion (evObject (cEvent c)) = FormatInt (cRevision c);
  wfh_fits : forall i c, H !! i = Some c -> eventFits (view (cGVK c) (take i H)) (cEvent c);
}.

(** The changes after a revision. *)
Definition changesSince (rev : Z) (H : list change) : list change :=
  List.filter (fun c => (rev <? cRevision c)%Z) H.

(** The events [Watch] replays, of a history. *)
Definition replayOf (opts : list ListOption) (g : GVK) (H : list change) : list Event :=
  match fromRevisionOpt opts with
  | Some from => selectEvents (loLabelSelector (applyOptions opts)) (eventsOf g (changesSince from H))
  | None => []
  end.

(** ** Facts *)

Lemma applyEvents_app m es1 es2 : applyEvents m (es1 ++ es2) = applyEvents (applyEvents m es1) es2.
Proof. apply foldl_app. Qed.

Lemma eventsOf_app gvk H1 H2 : eventsOf gvk (H1 ++ H2) = eventsOf gvk H1 ++ eventsOf gvk H2.
Proof. unfold eventsOf. by rewrite List.filter_app, map_app. Qed.

Lemma eventsOf_single gvk c :
  eventsOf gvk [c] = if bool_decide (cGVK c = gvk) then [cEvent c] else [].
Proof. unfold eventsOf. simpl. by case_bool_decide. Qed.

Lemma view_app gvk H1 H2 : view gvk (H1 ++ H2) = applyEvents (view gvk H1) (eventsOf gvk H2).
Proof. unfold view. by rewrite eventsOf_app, applyEvents_app. Qed.

Lemma wfHistory_nil : wfHistory [].
Proof. by split; intros i c; rewrite lookup_nil. Qed.

Lemma wfHistory_snoc H c :
  wfHistory H -> cRevision c = Z.of_nat (S (length H)) ->
  GetResourceVersion (evObject (cEvent c)) = FormatInt (cRevision c) ->
  eventFits (view (cGVK c) H) (cEvent c) ->
  wfHistory (H ++ [c]).
Proof.
  intros [H1 H2 H3] Hr Ho Hf.
  assert (forall i c', (H ++ [c]) !! i = Some c' ->
            (H !! i = Some c' /\ i < length H) \/ (i = length H /\ c' = c)) as Hcase.
  { intros i c' [Hi|[Hl Hi]]%lookup_app_Some; [left; split; [done|by eapply lookup_lt_Some]|right].
    destruct (i - length H) as [|n] eqn:E; simplify_eq/=. split; [lia|done]. }
  split; intros i c' [[Hi Hlt]|[-> ->]]%Hcase; eauto.
  - rewrite take_app_le by lia. by apply H3.
  - by rewrite take_app_length.
Qed.

Lemma wfHistory_app_l H1 H2 : wfHistory (H1 ++ H2) -> wfHistory H1.
Proof.
  intros [HA HB HC]. split; intros i c Hi; [eapply HA|eapply HB|]; try by apply lookup_app_l_Some.
  rewrite <- (take_app_le H1 H2) by (apply lookup_lt_Some in Hi; lia).
  apply HC. by apply lookup_app_l_Some.
Qed.

Lemma filter_all {A} (f : A -> bool) l : Forall (fun x => f x = true) l -> List.filter f l = l.
Proof. induction 1 as [|x l Hx _ IH]; simpl; [done|]. by rewrite Hx, IH. Qed.

Lemma filter_none {A} (f : A -> bool) l : Forall (fun x => f x = false) l -> List.filter f l = [].
Proof. induction 1 as [|x l Hx _ IH]; simpl; [done|]. by rewrite Hx, IH. Qed.

(** In a well-formed history the changes since the [n]-th revision are the
    history without its first [n] changes. *)
Lemma changesSince_drop n H : wfHistory H -> changesSince (Z.of_nat n) H = drop n H.
Proof.
  intros [Hr _ _]. unfold changesSince. rewrite <- (take_drop n H) at 1. rewrite List.filter_app.
  rewrite filter_none, filter_all; [done| |]; apply Forall_lookup; intros i c Hi.
  - rewrite lookup_drop in Hi. rewrite (Hr _ _ Hi). apply Z.ltb_lt. lia.
  - apply lookup_take_Some in Hi as [Hi Hlt]. rewrite (Hr _ _ Hi). apply Z.ltb_ge. lia.
Qed.

Lemma changesSince_neg r H : wfHistory H -> (r <= 0)%Z -> changesSince r H = H.
Proof.
  intros [Hr _ _] Hle. apply filter_all, Forall_lookup. intros i c Hi.
  rewrite (Hr _ _ Hi). apply Z.ltb_lt. lia.
Qed.

Lemma changesSince_ge r H : wfHistory H -> (Z.of_nat (length H) <= r)%Z -> changesSince r H = [].
Proof.
  intros [Hr _ _] Hle. apply filter_none, Forall_lookup. intros i c Hi.
  rewrite (Hr _ _ Hi). apply Z.ltb_ge. apply lookup_lt_Some in Hi. lia.
Qed.

(** Every object of a view was written by a change of the history and carries
    its revision. *)
Lemma applyEvents_lookup m es k o :
  applyEvents m es !! k = Some o ->
  (m !! k = Some o) \/ (exists e, e ∈ es /\ evObject e = o /\ ObjectKeyFromObject o = k /\
     (evType e = EventAdded \/ evType e = EventModified)).
Proof.
  revert m. induction es as [|e es IH]; intros m; simpl; [by left|].
  intros [H|(e' & ? & ? & ? & ?)]%IH; [|right; exists e'; set_solver].
  unfold applyEvent in H. destruct (evType e) eqn:E;
    try (apply lookup_insert_Some in H as [[<- <-]|[_ H]]; [right; exists e; set_solver|by left]).
  - apply lookup_delete_Some in H as [_ H]. by left.
  - by left.
Qed.

Lemma elem_of_eventsOf gvk H e :
  e ∈ eventsOf gvk H -> exists i c, H !! i = Some c /\ cGVK c = gvk /\ cEvent c = e.
Proof.
  unfold eventsOf. rewrite list_elem_of_In, in_map_iff. intros (c & <- & Hc).
  apply List.filter_In in Hc as [Hc Hg]. split_bools. apply list_elem_of_In in Hc.
  apply list_elem_of_lookup in Hc as [i Hi]. eauto.
Qed.

Lemma view_lookup gvk H k o :
  wfHistory H -> view gvk H !! k = Some o ->
  ObjectKeyFromObject o = k /\
  exists i c, H !! i = Some c /\ cGVK c = gvk /\ evObject (cEvent c) = o /\
    GetResourceVersion o = FormatInt (cRevision c).
Proof.
  intros Hwf [Hn|(e & He & <- & Hk & Ht)]%applyEvents_lookup; [by rewrite lookup_empty in Hn|].
  split; [done|]. destruct (elem_of_eventsOf _ _ _ He) as (i & c & Hi & Hg & <-).
  exists i, c. split_and!; try done. by eapply wfh_object.
Qed.

(** A resource version names one object of its key: an object that still has
    the version it was read at is the object that was read. *)
Lemma view_same_version gvk H H2 k o o2 :
  wfHistory (H ++ H2) -> view gvk H !! k = Some o -> view gvk (H ++ H2) !! k = Some o2 ->
  GetResourceVersion o = GetResourceVersion o2 -> o2 = o.
Proof.
  intros Hwf Hv Hv2 E.
  apply view_lookup in Hv as (_ & i & c & Hi & _ & <- & Er); [|by eapply wfHistory_app_l].
  apply view_lookup in Hv2 as (_ & j & c2 & Hj & _ & <- & Er2); [|done].
  rewrite Er, Er2 in E. apply (inj FormatInt) in E. apply (lookup_app_l_Some _ H2) in Hi.
  rewrite (wfh_revision _ Hwf _ _ Hi), (wfh_revision _ Hwf _ _ Hj) in E.
  assert (i = j) as -> by lia. congruence.
Qed.
