(* ===== verification/StoreInterface.v ===== *)
(** * The Store interface: store.go

    The operations of the [Store] interface as a class, and its contract as a
    class of laws: a store _has_ a history; reads show its view, each successful
    write appends one change, a watch from a revision starts with the changes
    after it. The client, the cache and the lister-watcher are verified against
    the laws; a backend's theorems discharge them. *)

From S2P Require Import Prelude GoStrconv GoJson GoJsonFacts Objects ObjectFacts.
From S2P Require Import StoreSpec Backend.

Class StoreOps (S : Type) := {
  sGet : ObjectKey -> Object -> S -> Object * result unit;
  sList : ObjectList -> list ListOption -> S -> ObjectList * result unit;
  sCreate : Object -> S -> S * Object * result unit;
  sUpdate : Object -> S -> S * Object * result unit;
  sUpdateStatus : Object -> S -> S * Object * result unit;
  sDelete : Object -> S -> S * result unit;
  (** [None] would be a call that never returns. *)
  sWatch : ObjectList -> list ListOption -> S -> option (S * result nat);
  (** The events a watcher's consumer can receive without another write. *)
  sBuffered : nat -> S -> list Event;
}.

(** There is a revision left for another write. *)
Definition hasRoom (H : list change) : Prop := (Z.of_nat (length H) < max_int64)%Z.

(** A successful write of one event: the history grows by it. *)
Definition appends {S : Type} (hist : S -> list change -> Prop) (H : list change) (g : GVK) (ev : Event) (s' : S) : Prop :=
  hist s' (H ++ [mkChange (Z.of_nat (length H) + 1) g ev]).

Class StoreLaws (S : Type) `{StoreOps S} (scheme : Scheme) := {
  hist : S -> list change -> Prop;
  (** The keys and objects the backend can represent. *)
  validKey : ObjectKey -> Prop;
  validObject : Object -> Prop;
  valid_key : forall o, validObject o -> validKey (ObjectKeyFromObject o);
  hist_wf : forall s H, hist s H -> wfHistory H;
  hist_bound : forall s H, hist s H -> (Z.of_nat (length H) <= max_int64)%Z;
  hist_stored : forall s H g k o, hist s H -> view g H !! k = Some o ->
    okObject scheme o /\ gvkForObject scheme o = Ret g /\ validObject o;
  law_Get : forall s H key obj g, hist s H -> validKey key -> okObject scheme obj -> gvkForObject scheme obj = Ret g ->
    match view g H !! key with
    | None => sGet key obj s = (obj, Fail (NotFoundError (keyString key)))
    | Some st => exists o, UnmarshalObject (MarshalObject st) obj = Some o /\ sGet key obj s = (o, Ret tt)
    end;
  law_List : forall s H lst opts g, hist s H -> gvkForList scheme lst = Ret g -> okList scheme g lst ->
    exists items,
      sList lst opts s =
        (mkList (lName lst) (lItemsField lst) (FormatInt (Z.of_nat (length H))) items, Ret tt) /\
      items ≡ₚ (List.filter (fun ko => listed (applyOptions opts) ko.1 ko.2) (map_to_list (view g H))).*2;
  law_Update : forall s H obj g, hist s H -> hasRoom H -> okObject scheme obj -> validObject obj ->
    gvkForObject scheme obj = Ret g ->
    match view g H !! ObjectKeyFromObject obj with
    | None => sUpdate obj s = (s, obj, Fail (NotFoundError (keyString (ObjectKeyFromObject obj))))
    | Some st =>
        if bool_decide (GetResourceVersion obj <> GetResourceVersion st)
        then sUpdate obj s = (s, obj, Fail (ConflictError (keyString (ObjectKeyFromObject obj))))
        else exists s' obj', sUpdate obj s = (s', obj', Ret tt) /\
          ((s' = s /\ unchanged obj st /\ copyObject st obj = (obj', Ret tt)) \/
           exists new, updates obj st new /\ copyObject new obj = (obj', Ret tt) /\
             appends hist H g (mkEvent EventModified new) s')
    end;
  law_Delete : forall s H obj g, hist s H -> hasRoom H -> validKey (ObjectKeyFromObject obj) -> gvkForObject scheme obj = Ret g ->
    match view g H !! ObjectKeyFromObject obj with
    | None => sDelete obj s = (s, Fail (NotFoundError (keyString (ObjectKeyFromObject obj))))
    | Some st =>
        if bool_decide (GetResourceVersion obj <> "") && bool_decide (GetResourceVersion obj <> GetResourceVersion st)
        then sDelete obj s = (s, Fail (ConflictError (keyString (ObjectKeyFromObject obj))))
        else exists s' del, sDelete obj s = (s', Ret tt) /\
          ObjectKeyFromObject del = ObjectKeyFromObject obj /\
          appends hist H g (mkEvent EventDeleted del) s'
    end;
  law_Watch : forall s H lst opts g, hist s H -> hasRoom H -> gvkForList scheme lst = Ret g ->
    (forall from, fromRevisionOpt opts = Some from -> in_int64 from = true) ->
    exists s' r, sWatch lst opts s = Some (s', r) /\ hist s' H /\
      match r with
      | Ret p => sBuffered p s' = replayOf opts g H
      | Fail e => exists from, fromRevisionOpt opts = Some from /\ (from < Z.of_nat (length H))%Z /\
                    exists oldest, e = RevisionTooOldError from oldest
      | Panic => False
      end;
}.
