(* ===== verification/StreamInterface.v ===== *)
(** * Watchers of a Store: watcher.go and store.go

    What a consumer does with a watcher, and what the contract promises about it
    while other clients use the store: the watcher's channel gets the later events
    of its GVK in order, all of them while it is open. [StreamLaws] extends
    [StoreLaws]; the cache running next to other clients is verified against it. *)

From S2P Require Import Prelude GoStrconv GoJson GoJsonFacts Objects ObjectFacts.
From S2P Require Import StoreSpec StoreInterface Backend.

Class StreamOps (S : Type) := {
  (** A receive from [ResultChan()] that does not wait. *)
  sReceive : nat -> S -> S * recvResult Event;
  (** [Stop] takes two locks one after the other: it closes the channel, then
      leaves the store's list of watchers. [None] would be a panic. *)
  sStopClose : nat -> S -> option S;
  sRemoveWatcher : nat -> S -> option S;
}.

(** A watcher: its GVK, what is in its channel, whether the channel is closed. *)
Record watcherState : Type := mkWatcherState { wsGVK : GVK; wsBuffer : list Event; wsClosed : bool }.

Class StreamLaws (S : Type) `{SO : StoreOps S} `{ST : StreamOps S} (scheme : Scheme) {SL : StoreLaws S scheme} := {
  watcherAt : nat -> S -> option watcherState;
  (** A step of other clients of the store: a call, or a step of the consumer of
      another watcher than the given one. *)
  otherStep : option nat -> S -> S -> Prop;
  law_others : forall s H q s', hist s H -> hasRoom H -> otherStep q s s' ->
    exists H', hist s' (H ++ H') /\ length H' <= 1 /\
      forall p w, q = Some p -> watcherAt p s = Some w ->
        exists w', watcherAt p s' = Some w' /\ wsGVK w' = wsGVK w /\ (wsClosed w = true -> wsClosed w' = true) /\
          wsBuffer w' = wsBuffer w ++ (if wsClosed w' then [] else eventsOf (wsGVK w) H');
  law_watching : forall s H lst opts g s' p, hist s H -> hasRoom H -> gvkForList scheme lst = Ret g ->
    (forall from, fromRevisionOpt opts = Some from -> in_int64 from = true) ->
    sWatch lst opts s = Some (s', Ret p) -> watcherAt p s' = Some (mkWatcherState g (replayOf opts g H) false);
  law_receive : forall s H p w, hist s H -> hasRoom H -> watcherAt p s = Some w ->
    match wsBuffer w with
    | [] => sReceive p s = (s, if wsClosed w then RecvClosed else WouldBlock)
    | e :: es => exists s' c, sReceive p s = (s', Received e c) /\ hist s' H /\
        watcherAt p s' = Some (mkWatcherState (wsGVK w) es (wsClosed w))
    end;
  law_stopClose : forall s H p w, hist s H -> hasRoom H -> watcherAt p s = Some w ->
    exists s', sStopClose p s = Some s' /\ hist s' H /\
      watcherAt p s' = Some (mkWatcherState (wsGVK w) (wsBuffer w) true);
  law_removeWatcher : forall s H p w, hist s H -> hasRoom H -> watcherAt p s = Some w -> wsClosed w = true ->
    exists s', sRemoveWatcher p s = Some s' /\ hist s' H /\ watcherAt p s' = Some w;
}.
