(* ===== verification/MemoryStore.v ===== *)
(** * The in-memory backend: memory/store.go and memory/watcher.go

    One definition per method of [MemoryStore] and [memoryWatcher]. Every method
    of the store holds [s.mu] for its whole body, so each is one atomic step on
    the state; [memoryWatcher.Stop] takes two locks one after the other and is
    two steps ([stopClose], then [removeWatcher]). Watchers are heap objects: the
    store keeps pointers to them and the consumer holds the same pointer, so the
    state has a heap of watcher structs addressed by [nat]. *)

From S2P Require Import Prelude GoStrconv GoJson GoJsonFacts Objects ObjectFacts.
From S2P Require Import SpecStatus Backend.

Module Mem.

(** ** Data *)

Definition defaultEventLogSize : Z := 1000.

Record eventLogEntry : Type := mkEntry { eRevision : Z; eGVK : GVK; eEvent : Event }.

Record memoryWatcher : Type := mkWatcher { wGVK : GVK; wCh : chan Event; wClosed : bool }.

Record MemoryStore : Type := mkStore {
  objects : gmap GVK (gmap ObjectKey Object);
  watchers : gmap GVK (list nat);
  uidCounter : Z;
  revision : Z;
  eventLog : list eventLogEntry;
  eventLogMax : Z;
  heap : gmap nat memoryWatcher;
  nextPtr : nat;
}.

Definition setObjects v s := mkStore v (watchers s) (uidCounter s) (revision s) (eventLog s) (eventLogMax s) (heap s) (nextPtr s).
Definition setWatchers v s := mkStore (objects s) v (uidCounter s) (revision s) (eventLog s) (eventLogMax s) (heap s) (nextPtr s).
Definition setUidCounter v s := mkStore (objects s) (watchers s) v (revision s) (eventLog s) (eventLogMax s) (heap s) (nextPtr s).
Definition setRevision v s := mkStore (objects s) (watchers s) (uidCounter s) v (eventLog s) (eventLogMax s) (heap s) (nextPtr s).
Definition setEventLog v s := mkStore (objects s) (watchers s) (uidCounter s) (revision s) v (eventLogMax s) (heap s) (nextPtr s).
Definition setEventLogMax v s := mkStore (objects s) (watchers s) (uidCounter s) (revision s) (eventLog s) v (heap s) (nextPtr s).
Definition setHeap v s := mkStore (objects s) (watchers s) (uidCounter s) (revision s) (eventLog s) (eventLogMax s) v (nextPtr s).
Definition setNextPtr v s := mkStore (objects s) (watchers s) (uidCounter s) (revision s) (eventLog s) (eventLogMax s) (heap s) v.

(** A [StoreOption] is a function on the store. *)
Definition WithEventLogSize (size : Z) : MemoryStore -> MemoryStore := setEventLogMax size.

Definition NewStore (opts : list (MemoryStore -> MemoryStore)) : MemoryStore :=
  foldl (fun s opt => opt s) (mkStore ∅ ∅ 0 0 [] defaultEventLogSize ∅ 0) opts.

(** ** memory/watcher.go *)

Definition newMemoryWatcher (gvk : GVK) (bufSize : nat) : memoryWatcher :=
  mkWatcher gvk (makeChan bufSize) false.

Definition isStopped (w : memoryWatcher) : bool := wClosed w.

(** Deliver an event; a full buffer closes the watcher. [None] is the panic of
    sending on, or closing, a closed channel. *)
Definition send (w : memoryWatcher) (event : Event) : option memoryWatcher :=
  if wClosed w then Some w
  else match trySend (wCh w) event with
       | Sent c => Some (mkWatcher (wGVK w) c (wClosed w))
       | Full => (fun c => mkWatcher (wGVK w) c true) <$> closeChan (wCh w)
       | SendOnClosed => None
       end.

(** The part of [Stop] under [w.mu]. *)
Definition closeWatcher (w : memoryWatcher) : option memoryWatcher :=
  if wClosed w then Some w
  else (fun c => mkWatcher (wGVK w) c true) <$> closeChan (wCh w).

(** ** Event log and notification *)

(** Append to the log and trim it to [eventLogMax]; [false] is the panic of
    [make] with a negative length. *)
Definition logEvent (gvk : GVK) (rev : Z) (event : Event) (s : MemoryStore) : MemoryStore * bool :=
  let s := setEventLog (eventLog s ++ [mkEntry rev gvk event]) s in
  let n := Z.of_nat (length (eventLog s)) in
  if (eventLogMax s <? n)%Z then
    let excess := (n - eventLogMax s)%Z in
    if (eventLogMax s <? 0)%Z then (s, false)
    else (setEventLog (take (Z.to_nat (eventLogMax s)) (drop (Z.to_nat excess) (eventLog s))) s, true)
  else (s, true).

(** The loop of [notifyWatchers]: skip stopped watchers, keep and notify the
    others. [None] is a panic inside [send]. *)
Fixpoint notifyLoop (event : Event) (ws : list nat) (h : gmap nat memoryWatcher) (active : list nat)
    : option (gmap nat memoryWatcher * list nat) :=
  match ws with
  | [] => Some (h, active)
  | p :: ws' =>
      match h !! p with
      | None => None
      | Some w =>
          if isStopped w then notifyLoop event ws' h active
          else match send w event with
               | None => None
               | Some w' => notifyLoop event ws' (<[p := w']> h) (active ++ [p])
               end
      end
  end.

Definition notifyWatchers (gvk : GVK) (event : Event) (s : MemoryStore) : MemoryStore * bool :=
  match notifyLoop event (default [] (watchers s !! gvk)) (heap s) [] with
  | Some (h, active) => (setWatchers (<[gvk := active]> (watchers s)) (setHeap h s), true)
  | None => (s, false)
  end.

(** [s.logEvent(gvk, rv, event); s.notifyWatchers(gvk, event)] *)
Definition publish (gvk : GVK) (rv : Z) (event : Event) (s : MemoryStore) : MemoryStore * bool :=
  let (s, ok) := logEvent gvk rv event s in
  if ok then notifyWatchers gvk event s else (s, false).

Definition removeWatcher (gvk : GVK) (p : nat) (s : MemoryStore) : MemoryStore :=
  let ws := default [] (watchers s !! gvk) in
  setWatchers (<[gvk := List.filter (fun q => negb (bool_decide (q = p))) ws]> (watchers s)) s.

(** [memoryWatcher.Stop]: close under [w.mu], then leave the store's list. *)
Definition stopClose (p : nat) (s : MemoryStore) : option MemoryStore :=
  match heap s !! p with
  | Some w => (fun w' => setHeap (<[p := w']> (heap s)) s) <$> closeWatcher w
  | None => None
  end.

Definition Stop (p : nat) (s : MemoryStore) : option MemoryStore :=
  match heap s !! p with
  | Some w => removeWatcher (wGVK w) p <$> stopClose p s
  | None => None
  end.

(** The consumer's receive from [ResultChan()]. *)
Definition receive (p : nat) (s : MemoryStore) : MemoryStore * recvResult Event :=
  match heap s !! p with
  | Some w =>
      match recv (wCh w) with
      | Received v c => (setHeap (<[p := mkWatcher (wGVK w) c (wClosed w)]> (heap s)) s, Received v c)
      | r => (s, r)
      end
  | None => (s, WouldBlock)
  end.

(** ** Helpers *)

Definition generateUID (s : MemoryStore) : MemoryStore * string :=
  let id := wrap64 (uidCounter s + 1) in
  (setUidCounter id s, "uid-" +:+ FormatInt id).

(** Events for a GVK after a revision, from the log. *)
Definition eventsSince (fromRevision : Z) (gvk : GVK) (s : MemoryStore) : result (list Event) :=
  let currentRevision := revision s in
  if (currentRevision <=? fromRevision)%Z then Ret []
  else match eventLog s with
       | [] => Fail (RevisionTooOldError fromRevision (wrap64 (currentRevision + 1)))
       | e :: _ =>
           let oldest := eRevision e in
           if (wrap64 (fromRevision + 1) <? oldest)%Z
           then Fail (RevisionTooOldError fromRevision oldest)
           else Ret (map eEvent
                  (List.filter (fun e => (fromRevision <? eRevision e)%Z && bool_decide (eGVK e = gvk))
                     (eventLog s)))
       end.

(** [for _, evt := range replay { w.ch <- evt }]; [None] blocks forever. *)
Fixpoint preload (c : chan Event) (replay : list Event) : option (chan Event) :=
  match replay with
  | [] => Some c
  | evt :: replay' =>
      match trySend c evt with Sent c' => preload c' replay' | _ => None end
  end.

Section store.
Context (scheme : Scheme).

(** ** The Store interface *)

Definition Get (key : ObjectKey) (obj : Object) (s : MemoryStore) : Object * result unit :=
  match gvkForObject scheme obj with
  | Ret gvk =>
      match objects s !! gvk with
      | None => (obj, Fail (NotFoundError (keyString key)))
      | Some gvkMap =>
          match gvkMap !! key with
          | None => (obj, Fail (NotFoundError (keyString key)))
          | Some stored => copyObject stored obj
          end
      end
  | Fail e => (obj, Fail e)
  | Panic => (obj, Panic)
  end.

Definition List (lst : ObjectList) (opts : list ListOption) (s : MemoryStore) : ObjectList * result unit :=
  match gvkForList scheme lst with
  | Ret gvk =>
      let listOpts := applyOptions opts in
      let gvkMap := default ∅ (objects s !! gvk) in
      let filtered := (List.filter (fun ko => listed listOpts ko.1 ko.2) (map_to_list gvkMap)).*2 in
      let lst := SetListResourceVersion (FormatInt (revision s)) lst in
      populateListItems lst filtered
  | Fail e => (lst, Fail e)
  | Panic => (lst, Panic)
  end.

Definition Create (obj : Object) (s : MemoryStore) : MemoryStore * Object * result unit :=
  match gvkForObject scheme obj with
  | Fail e => (s, obj, Fail e)
  | Panic => (s, obj, Panic)
  | Ret gvk =>
      let key := ObjectKeyFromObject obj in
      let gvkMap := default ∅ (objects s !! gvk) in
      let s := setObjects (<[gvk := gvkMap]> (objects s)) s in
      match gvkMap !! key with
      | Some _ => (s, obj, Fail (AlreadyExistsError (keyString key)))
      | None =>
          let '(s, obj) :=
            if bool_decide (GetUID obj = "")
            then let (s, uid) := generateUID s in (s, SetUID uid obj)
            else (s, obj) in
          let obj := SetGeneration 1 obj in
          let rv := wrap64 (revision s + 1) in
          let s := setRevision rv s in
          let obj := SetResourceVersion (FormatInt rv) obj in
          let stored := obj in
          let s := setObjects (<[gvk := <[key := stored]> gvkMap]> (objects s)) s in
          let (s, ok) := publish gvk rv (mkEvent EventAdded stored) s in
          if ok then let (obj, r) := copyObject stored obj in (s, obj, r)
          else (s, obj, Panic)
      end
  end.

Definition Update (obj : Object) (s : MemoryStore) : MemoryStore * Object * result unit :=
  match gvkForObject scheme obj with
  | Fail e => (s, obj, Fail e)
  | Panic => (s, obj, Panic)
  | Ret gvk =>
      let key := ObjectKeyFromObject obj in
      match objects s !! gvk with
      | None => (s, obj, Fail (NotFoundError (keyString key)))
      | Some gvkMap =>
          match gvkMap !! key with
          | None => (s, obj, Fail (NotFoundError (keyString key)))
          | Some stored =>
              if bool_decide (GetResourceVersion obj <> GetResourceVersion stored)
              then (s, obj, Fail (ConflictError (keyString key)))
              else
                let storedMap := rawMap (MarshalObject stored) in
                let inputMap := rawMap (MarshalObject obj) in
                let mergedMap := mergeStatus obj stored in
                let specChanged := negb (bool_decide (storedMap !! "spec" = inputMap !! "spec")) in
                match UnmarshalObject (mapJson mergedMap) obj with
                | None => (s, obj, Fail (WrappedError "unmarshalling merged object" (OtherError "json")))
                | Some merged =>
                    let merged := SetResourceVersion (GetResourceVersion stored) merged in
                    let merged := SetUID (GetUID stored) merged in
                    if contentEqual stored merged
                    then let (obj, r) := copyObject stored obj in (s, obj, r)
                    else
                      let merged :=
                        if specChanged then SetGeneration (wrap64 (GetGeneration stored + 1)) merged
                        else SetGeneration (GetGeneration stored) merged in
                      let rv := wrap64 (revision s + 1) in
                      let s := setRevision rv s in
                      let merged := SetResourceVersion (FormatInt rv) merged in
                      let s := setObjects (<[gvk := <[key := merged]> gvkMap]> (objects s)) s in
                      let (s, ok) := publish gvk rv (mkEvent EventModified merged) s in
                      if ok then let (obj, r) := copyObject merged obj in (s, obj, r)
                      else (s, obj, Panic)
                end
          end
      end
  end.

Definition UpdateStatus (obj : Object) (s : MemoryStore) : MemoryStore * Object * result unit :=
  match gvkForObject scheme obj with
  | Fail e => (s, obj, Fail e)
  | Panic => (s, obj, Panic)
  | Ret gvk =>
      let key := ObjectKeyFromObject obj in
      match objects s !! gvk with
      | None => (s, obj, Fail (NotFoundError (keyString key)))
      | Some gvkMap =>
          match gvkMap !! key with
          | None => (s, obj, Fail (NotFoundError (keyString key)))
          | Some stored =>
              if bool_decide (GetResourceVersion obj <> GetResourceVersion stored)
              then (s, obj, Fail (ConflictError (keyString key)))
              else
                let mergedMap := mergeStatus stored obj in
                match UnmarshalObject (mapJson mergedMap) obj with
                | None => (s, obj, Fail (WrappedError "unmarshalling merged object" (OtherError "json")))
                | Some merged =>
                    let merged := SetResourceVersion (GetResourceVersion stored) merged in
                    let merged := SetUID (GetUID stored) merged in
                    let merged := SetGeneration (GetGeneration stored) merged in
                    if contentEqual stored merged
                    then let (obj, r) := copyObject stored obj in (s, obj, r)
                    else
                      let rv := wrap64 (revision s + 1) in
                      let s := setRevision rv s in
                      let merged := SetResourceVersion (FormatInt rv) merged in
                      let s := setObjects (<[gvk := <[key := merged]> gvkMap]> (objects s)) s in
                      let (s, ok) := publish gvk rv (mkEvent EventModified merged) s in
                      if ok then let (obj, r) := copyObject merged obj in (s, obj, r)
                      else (s, obj, Panic)
                end
          end
      end
  end.

Definition Delete (obj : Object) (s : MemoryStore) : MemoryStore * result unit :=
  match gvkForObject scheme obj with
  | Fail e => (s, Fail e)
  | Panic => (s, Panic)
  | Ret gvk =>
      let key := ObjectKeyFromObject obj in
      match objects s !! gvk with
      | None => (s, Fail (NotFoundError (keyString key)))
      | Some gvkMap =>
          match gvkMap !! key with
          | None => (s, Fail (NotFoundError (keyString key)))
          | Some stored =>
              let objRV := GetResourceVersion obj in
              if bool_decide (objRV <> "") && bool_decide (objRV <> GetResourceVersion stored)
              then (s, Fail (ConflictError (keyString key)))
              else
                let s := setObjects (<[gvk := delete key gvkMap]> (objects s)) s in
                let rv := wrap64 (revision s + 1) in
                let s := setRevision rv s in
                let deletedCopy := SetResourceVersion (FormatInt rv) stored in
                let (s, ok) := publish gvk rv (mkEvent EventDeleted deletedCopy) s in
                if ok then (s, Ret tt) else (s, Panic)
          end
      end
  end.

(** [None]: the call blocks forever on a full channel while holding the lock. *)
Definition Watch (lst : ObjectList) (opts : list ListOption) (s : MemoryStore)
    : option (MemoryStore * result nat) :=
  match gvkForList scheme lst with
  | Fail e => Some (s, Fail e)
  | Panic => Some (s, Panic)
  | Ret gvk =>
      let listOpts := applyOptions opts in
      let replayed :=
        match fromRevisionOpt opts with
        | Some fromRevision => eventsSince fromRevision gvk s
        | None => Ret []
        end in
      match replayed with
      | Fail e => Some (s, Fail e)
      | Panic => Some (s, Panic)
      | Ret replay =>
          let replay := selectEvents (loLabelSelector listOpts) replay in
          let bufSize := if bool_decide (100 < length replay) then length replay + 100 else 100 in
          let w := newMemoryWatcher gvk bufSize in
          match preload (wCh w) replay with
          | None => None
          | Some c =>
              let p := nextPtr s in
              let s := setNextPtr (S p) (setHeap (<[p := mkWatcher gvk c (wClosed w)]> (heap s)) s) in
              Some (setWatchers (<[gvk := default [] (watchers s !! gvk) ++ [p]]> (watchers s)) s, Ret p)
          end
      end
  end.

End store.
End Mem.
