(* ===== verification/Fixtures.v ===== *)
(** * The conformance suite's object types: storetest/storetest.go

    The types, scheme and constructor of the Store conformance suite, the
    concrete inputs at which the development evaluates its definitions. *)

From S2P Require Import Prelude GoStrconv GoJson GoJsonFacts Objects ObjectFacts.

Definition widgetGV : string * string := ("widget.storetest.dev", "v1").
Definition gadgetGV : string * string := ("gadget.storetest.dev", "v1").

Definition testWidgetSpec : gty := GStruct [(("color", false), GString); (("size", false), GInt)].
Definition testWidgetStatus : gty := GStruct [(("ready", false), GBool); (("phase", false), GString)].

Definition testWidget : GoType :=
  mkGoType "testWidget" [(("spec", false), testWidgetSpec); (("status", false), testWidgetStatus)].
Definition testWidgetList : ObjectList := mkList "testWidgetList" (ItemsOf testWidget) "" [].

Definition testGadget : GoType := mkGoType "testGadget" [].
Definition testGadgetList : ObjectList := mkList "testGadgetList" (ItemsOf testGadget) "" [].

Definition widgetGVK : GVK := mkGVK widgetGV.1 widgetGV.2 "testWidget".
Definition gadgetGVK : GVK := mkGVK gadgetGV.1 gadgetGV.2 "testGadget".

(** [AddKnownTypes] registers a type under its Go name as kind. *)
Definition testScheme : Scheme := mkScheme
  (fun t =>
     if bool_decide (t = "testWidget") then Ret [widgetGVK]
     else if bool_decide (t = "testWidgetList") then Ret [mkGVK widgetGV.1 widgetGV.2 "testWidgetList"]
     else if bool_decide (t = "testGadget") then Ret [gadgetGVK]
     else if bool_decide (t = "testGadgetList") then Ret [mkGVK gadgetGV.1 gadgetGV.2 "testGadgetList"]
     else Fail (OtherError "no kind is registered for the type"))
  (fun gvk =>
     if bool_decide (gvk = widgetGVK) then Ret (RObject (zeroObject testWidget))
     else if bool_decide (gvk = mkGVK widgetGV.1 widgetGV.2 "testWidgetList") then Ret (RList testWidgetList)
     else if bool_decide (gvk = gadgetGVK) then Ret (RObject (zeroObject testGadget))
     else if bool_decide (gvk = mkGVK gadgetGV.1 gadgetGV.2 "testGadgetList") then Ret (RList testGadgetList)
     else Fail (OtherError "no kind is registered")).

Definition newTestWidget (name color : string) (size : Z) : Object :=
  mkObject testWidget
    (mkBase (mkTypeMeta "Widget" (widgetGV.1 +:+ "/" +:+ widgetGV.2))
            (mkMeta name "default" "" "" 0 None None))
    [VStruct [VStr color; VInt size]; VStruct [VBool false; VStr ""]].

Lemma wf_newTestWidget name color : wfObject (newTestWidget name color 1) = true.
Proof. by vm_compute. Qed.
