(* ===== verification/MemoryStoreFacts.v ===== *)
(** * The in-memory backend implements the Store contract

    [Inv s H] relates a store to the history of its changes; every operation
    preserves it, appending at most one change. *)

From S2P Require Import Prelude GoStrconv GoJson GoJsonFacts Objects ObjectFacts.
From S2P Require Import SpecStatus StoreSpec Backend MemoryStore.

Import Mem.

Definition toChange (e : eventLogEntry) : change := mkChange (eRevision e) (eGVK e) (eEvent e).

(** Watcher structs are consistent: the flag agrees with the channel, the
    channel is within its capacity, the store's lists point to live structs of
    the right GVK, without duplicates, and pointers are fresh. *)
Record wfWatchers (s : MemoryStore) : Prop := {
  wfw_flag : forall p w, heap s !! p = Some w -> wClosed w = chClosed (wCh w);
  wfw_cap : forall p w, heap s !! p = Some w -> length (buf (wCh w)) <= cap (wCh w);
  wfw_live : forall g ws p, watchers s !! g = Some ws -> p ∈ ws ->
    exists w, heap s !! p = Some w /\ wGVK w = g;
  wfw_nodup : forall g ws, watchers s !! g = Some ws -> NoDup ws;
  wfw_fresh : forall p w, heap s !! p = Some w -> p < nextPtr s;
}.

Section facts.
Context (scheme : Scheme).

#[local] Abbreviation okObject := (okObject scheme).

Record Inv (s : MemoryStore) (H : list change) : Prop := {
  inv_revision : revision s = Z.of_nat (length H);
  inv_bound : (Z.of_nat (length H) <= max_int64)%Z;
  inv_history : wfHistory H;
  inv_max : (0 <= eventLogMax s)%Z;
  inv_log : exists start, start <= length H /\
    map toChange (eventLog s) = lastn (Z.to_nat (eventLogMax s)) (drop start H);
  inv_objects : forall g, default ∅ (objects s !! g) = view g H;
  inv_stored : forall g m k o, objects s !! g = Some m -> m !! k = Some o ->
    okObject o /\ gvkForObject scheme o = Ret g;
  inv_watchers : wfWatchers s;
}.

(** The log has recorded the history from its first change on. *)
Definition fullLog (s : MemoryStore) (H : list change) : Prop :=
  map toChange (eventLog s) = lastn (Z.to_nat (eventLogMax s)) H.

(** ** Watchers *)

Lemma send_total w ev :
  wClosed w = chClosed (wCh w) -> length (buf (wCh w)) <= cap (wCh w) ->
  exists w', send w ev = Some w' /\ wGVK w' = wGVK w /\
    wClosed w' = chClosed (wCh w') /\ length (buf (wCh w')) <= cap (wCh w') /\
    (wClosed w = true -> w' = w) /\
    (wClosed w = false ->
       (wClosed w' = false /\ buf (wCh w') = buf (wCh w) ++ [ev]) \/
       (wClosed w' = true /\ buf (wCh w') = buf (wCh w) /\ length (buf (wCh w)) = cap (wCh w))).
Proof.
  intros Hf Hc. unfold send, trySend, closeChan. rewrite <- Hf.
  destruct (wClosed w) eqn:E.
  { exists w. split_and!; try done; by rewrite E. }
  case_bool_decide; eexists; (split; [done|]); simpl; split_and!; try done; try (by left).
  - rewrite length_app. simpl. lia.
  - intros _. right. split_and!; [done|done|lia].
Qed.

(** What the notification loop does to the heap: each listed, open watcher
    gets the event; everything else stays. *)
Lemma notifyLoop_spec ev ws h active :
  NoDup ws ->
  (forall p, p ∈ ws -> exists w, h !! p = Some w) ->
  (forall p w, h !! p = Some w -> wClosed w = chClosed (wCh w) /\ length (buf (wCh w)) <= cap (wCh w)) ->
  exists h', notifyLoop ev ws h active =
      Some (h', active ++ List.filter (fun p => negb (from_option wClosed true (h !! p))) ws) /\
    (forall p, p ∉ ws -> h' !! p = h !! p) /\
    (forall p w, p ∈ ws -> h !! p = Some w -> h' !! p = send w ev).
Proof.
  revert h active. induction ws as [|p ws IH]; intros h active Hnd Hlive Hok.
  { exists h. rewrite app_nil_r. split_and!; try done. set_solver. }
  apply NoDup_cons in Hnd as [Hp Hnd]. destruct (Hlive p) as [w Hw]; [set_solver|].
  simpl. rewrite Hw. simpl. unfold isStopped. destruct (wClosed w) eqn:Ec; simpl.
  - destruct (IH h active Hnd) as (h' & -> & H1 & H2); [set_solver|done|].
    exists h'. split_and!; [done|set_solver|].
    intros q w' Hq Hw'. apply elem_of_cons in Hq as [->|Hq]; [|by apply H2].
    rewrite H1 by done. simplify_eq. unfold send. by rewrite Ec.
  - destruct (Hok p w Hw) as [Hf Hc]. destruct (send_total w ev Hf Hc) as (w' & Hs & _ & Hf' & Hc' & _).
    rewrite Hs.
    destruct (IH (<[p := w']> h) (active ++ [p]) Hnd) as (h' & -> & H1 & H2).
    + intros q Hq. destruct (decide (q = p)) as [->|]; [by rewrite lookup_insert_eq; eauto|].
      rewrite lookup_insert_ne by done. apply Hlive. set_solver.
    + intros q w'' [[<- <-]|[_ Hq]]%lookup_insert_Some; [done|by apply (Hok q)].
    + exists h'. split_and!.
      * do 2 f_equal. rewrite <- (assoc_L (++)). simpl. f_equal. f_equal.
        apply List.filter_ext_in. intros q Hq%list_elem_of_In.
        rewrite lookup_insert_ne; [done|]. by intros ->.
      * intros q Hq. rewrite H1 by set_solver. rewrite lookup_insert_ne; [done|set_solver].
      * intros q w'' Hq Hw''. apply elem_of_cons in Hq as [->|Hq].
        -- rewrite H1 by done. rewrite lookup_insert_eq. by simplify_eq.
        -- apply H2; [done|]. rewrite lookup_insert_ne; [done|]. by intros ->.
Qed.

(** The effect of [publish] on the watcher structs. *)
Definition delivered (gvk : GVK) (ev : Event) (s s' : MemoryStore) : Prop :=
  (forall p, heap s !! p = None -> heap s' !! p = None) /\
  forall p w, heap s !! p = Some w ->
    exists w', heap s' !! p = Some w' /\ wGVK w' = wGVK w /\
      (if bool_decide (p ∈ default [] (watchers s !! gvk)) then send w ev = Some w' else w' = w).

Lemma logEvent_spec g rv ev s :
  (0 <= eventLogMax s)%Z ->
  logEvent g rv ev s =
  (setEventLog (lastn (Z.to_nat (eventLogMax s)) (eventLog s ++ [mkEntry rv g ev])) s, true).
Proof.
  intros Hm. unfold logEvent, setEventLog. simpl.
  destruct (Z.ltb_spec (eventLogMax s) (Z.of_nat (length (eventLog s ++ [mkEntry rv g ev])))) as [Hlt|Hge].
  - destruct (Z.ltb_spec (eventLogMax s) 0); [lia|]. do 2 f_equal. unfold lastn.
    rewrite take_ge.
    + f_equal. lia.
    + rewrite length_drop. lia.
  - do 2 f_equal. symmetry. apply lastn_all. lia.
Qed.

Lemma notifyWatchers_spec g ev s :
  wfWatchers s ->
  exists s', notifyWatchers g ev s = (s', true) /\
    objects s' = objects s /\ uidCounter s' = uidCounter s /\ revision s' = revision s /\
    eventLog s' = eventLog s /\ eventLogMax s' = eventLogMax s /\ nextPtr s' = nextPtr s /\
    wfWatchers s' /\ delivered g ev s s' /\
    watchers s' = <[g := List.filter (fun p => negb (from_option wClosed true (heap s !! p)))
                           (default [] (watchers s !! g))]> (watchers s).
Proof.
  intros [Hf Hc Hl Hn Hfr].
  assert (NoDup (default [] (watchers s !! g))) as Hnd.
  { destruct (watchers s !! g) eqn:E; simpl; [eauto|constructor]. }
  assert (forall p, p ∈ default [] (watchers s !! g) -> exists w, heap s !! p = Some w /\ wGVK w = g) as Hlive.
  { intros p Hp. destruct (watchers s !! g) eqn:E; simpl in Hp; [eauto|set_solver]. }
  destruct (notifyLoop_spec ev (default [] (watchers s !! g)) (heap s) []) as (h & E & H1 & H2);
    [done|intros p Hp; destruct (Hlive p Hp) as (w & ? & _); eauto|naive_solver|].
  unfold notifyWatchers. rewrite E. eexists. split; [done|]. simpl.
  assert (Hheap : forall p w', h !! p = Some w' -> exists w, heap s !! p = Some w /\ wGVK w' = wGVK w /\
            wClosed w' = chClosed (wCh w') /\ length (buf (wCh w')) <= cap (wCh w') /\
            (if bool_decide (p ∈ default [] (watchers s !! g)) then send w ev = Some w' else w' = w)).
  { intros p w' Hp. case_bool_decide as Hin.
    - destruct (Hlive p Hin) as (w & Hw & _). rewrite (H2 p w Hin Hw) in Hp.
      destruct (send_total w ev (Hf _ _ Hw) (Hc _ _ Hw)) as (w'' & Hs & ? & ? & ? & _).
      exists w. naive_solver.
    - rewrite H1 in Hp by done. exists w'. split_and!; eauto. }
  split_and!; try done.
  - split; simpl.
    + intros p w (? & ? & ? & ? & ? & ?)%Hheap. done.
    + intros p w (? & ? & ? & ? & ? & ?)%Hheap. done.
    + intros g' ws p [[<- <-]|[Hne Hws]]%lookup_insert_Some Hp.
      * apply list_elem_of_In, List.filter_In in Hp as [Hp _]. apply list_elem_of_In in Hp.
        destruct (Hlive p Hp) as (w & Hw & Hg). rewrite (H2 p w Hp Hw).
        destruct (send_total w ev (Hf _ _ Hw) (Hc _ _ Hw)) as (w' & -> & Hg' & _). exists w'. naive_solver.
      * destruct (Hl _ _ _ Hws Hp) as (w & Hw & Hg). exists w. split; [|done].
        rewrite H1; [done|]. intros Hin. destruct (Hlive p Hin) as (w' & Hw' & Hg').
        rewrite Hw in Hw'. simplify_eq.
    + intros g' ws [[<- <-]|[Hne Hws]]%lookup_insert_Some; [|eauto].
      by apply NoDup_ListNoDup, List.NoDup_filter, NoDup_ListNoDup.
    + intros p w (w0 & Hw & _)%Hheap. eauto.
  - split.
    { intros p Hp. simpl. destruct (h !! p) eqn:E'; [|done]. apply Hheap in E' as (? & ? & _). congruence. }
    intros p w Hw. case_bool_decide as Hin.
    + destruct (send_total w ev (Hf _ _ Hw) (Hc _ _ Hw)) as (w' & Hs & Hg & _). simpl.
      exists w'. rewrite (H2 p w Hin Hw). done.
    + simpl. exists w. by rewrite H1.
Qed.

(** A step that committed one change: the event [ev] of GVK [g] got the next
    revision, the history grew by it and the open watchers of [g] got it. *)
Record committed (s : MemoryStore) (H : list change) (g : GVK) (ev : Event) (s' : MemoryStore) : Prop := {
  com_inv : Inv s' (H ++ [mkChange (revision s + 1) g ev]);
  com_delivered : delivered g ev s s';
  com_max : eventLogMax s' = eventLogMax s;
  com_next : nextPtr s' = nextPtr s;
  com_watchers : watchers s' =
    <[g := List.filter (fun p => negb (from_option wClosed true (heap s !! p)))
             (default [] (watchers s !! g))]> (watchers s);
  com_log : eventLog s' = lastn (Z.to_nat (eventLogMax s)) (eventLog s ++ [mkEntry (revision s + 1) g ev]);
}.

Lemma log_snoc start max H log e :
  start <= length H -> map toChange log = lastn max (drop start H) ->
  map toChange (lastn max (log ++ [e])) = lastn max (drop start (H ++ [toChange e])).
Proof.
  intros Hs E. rewrite drop_app_le by done. rewrite map_lastn, map_app, E. apply lastn_snoc.
Qed.

Lemma committed_full s H g ev s' : committed s H g ev s' -> fullLog s H ->
  fullLog s' (H ++ [mkChange (revision s + 1) g ev]).
Proof.
  intros Hc Hf. unfold fullLog in *. rewrite (com_log _ _ _ _ _ Hc), (com_max _ _ _ _ _ Hc).
  apply (log_snoc 0); [lia|]. by rewrite drop_0.
Qed.

(** There is room for another revision. *)
Definition room (H : list change) : Prop := (Z.of_nat (length H) < max_int64)%Z.

Lemma next_revision s H : Inv s H -> room H -> wrap64 (revision s + 1) = (revision s + 1)%Z.
Proof. intros HI Hr. apply wrap64_succ. rewrite (inv_revision _ _ HI). unfold room in Hr. lia. Qed.

Lemma publish_spec s s1 H g ev objs uid :
  Inv s H -> room H ->
  s1 = mkStore objs (watchers s) uid (revision s + 1) (eventLog s) (eventLogMax s) (heap s) (nextPtr s) ->
  GetResourceVersion (evObject ev) = FormatInt (revision s + 1) -> eventFits (view g H) ev ->
  (forall g', default ∅ (objs !! g') = if decide (g' = g) then applyEvent (view g H) ev else view g' H) ->
  (forall g' m k o, objs !! g' = Some m -> m !! k = Some o -> okObject o /\ gvkForObject scheme o = Ret g') ->
  exists s', publish g (revision s + 1) ev s1 = (s', true) /\ committed s H g ev s' /\
    objects s' = objs /\ uidCounter s' = uid.
Proof.
  intros HI Hr -> Hrv Hfit Hobjs Hok. destruct HI as [Irev Ib Ih Im Il Io Is Iw].
  unfold publish. rewrite logEvent_spec by done. simpl.
  match goal with |- context [notifyWatchers g ev ?s2] => set (s2' := s2) end.
  destruct (notifyWatchers_spec g ev s2') as (s' & -> & E1 & E2 & E3 & E4 & E5 & E6 & Hw & Hd & Ew).
  { destruct Iw. by split. }
  exists s'. split; [done|]. split_and!; [|by rewrite E1|by rewrite E2].
  split; [|exact Hd|done|done|done|by rewrite E4].
  split.
  - rewrite E3. simpl. rewrite length_app. simpl. lia.
  - rewrite length_app. simpl. unfold room in Hr. lia.
  - apply wfHistory_snoc; [done|simpl; lia|done|done].
  - by rewrite E5.
  - destruct Il as (start & Hs & Il). exists start. rewrite E4, E5, length_app. simpl. split; [lia|].
    by rewrite (log_snoc start _ H).
  - intros g'. rewrite E1. simpl. rewrite Hobjs, view_app, eventsOf_single. simpl.
    case_decide; [subst; by rewrite bool_decide_true|]. by rewrite bool_decide_false.
  - intros g' m k o. rewrite E1. apply Hok.
  - done.
Qed.

(** A stored object, as the invariant knows it. *)
Lemma stored_object s H g m k o :
  Inv s H -> objects s !! g = Some m -> m !! k = Some o ->
  okObject o /\ gvkForObject scheme o = Ret g /\ ObjectKeyFromObject o = k /\ view g H !! k = Some o.
Proof.
  intros HI Hm Hk. destruct (inv_stored _ _ HI _ _ _ _ Hm Hk) as [H1 H2].
  pose proof (inv_objects _ _ HI g) as Hv. rewrite Hm in Hv. simpl in Hv. subst m.
  split_and!; try done. by eapply view_lookup in Hk as [? _]; [|apply HI].
Qed.

(** The object maps after writing one object. *)
Lemma objects_after s H g ev m' :
  Inv s H -> applyEvent (view g H) ev = m' ->
  forall g', default ∅ (<[g := m']> (objects s) !! g') = if decide (g' = g) then applyEvent (view g H) ev else view g' H.
Proof.
  intros HI E g'. case_decide; [subst; by rewrite lookup_insert_eq|].
  rewrite lookup_insert_ne by done. apply HI.
Qed.

Lemma stored_after s H g k o :
  Inv s H -> okObject o -> gvkForObject scheme o = Ret g ->
  forall g' m k' o', <[g := <[k := o]> (view g H)]> (objects s) !! g' = Some m -> m !! k' = Some o' ->
    okObject o' /\ gvkForObject scheme o' = Ret g'.
Proof.
  intros HI Ho Hg g' m k' o' [[<- <-]|[_ Hm]]%lookup_insert_Some Hk'.
  - apply lookup_insert_Some in Hk' as [[<- <-]|[_ Hk']]; [done|].
    pose proof (inv_objects _ _ HI g) as Hv. destruct (objects s !! g) eqn:E; simpl in Hv.
    + subst g0. by eapply inv_stored.
    + by rewrite <- Hv, lookup_empty in Hk'.
  - by eapply inv_stored.
Qed.

(** ** Operations *)

(** The object a successful [Create] stores. *)
Definition created (obj : Object) (s : MemoryStore) : Object :=
  SetResourceVersion (FormatInt (revision s + 1))
    (SetGeneration 1
       (if bool_decide (GetUID obj = "")
        then SetUID ("uid-" +:+ FormatInt (wrap64 (uidCounter s + 1))) obj else obj)).

Lemma okObject_created obj s : okObject obj -> okObject (created obj s).
Proof.
  intros Ho. eapply okObject_type; [| |exact Ho]; unfold created.
  - destruct Ho as [Hw _]. case_bool_decide; auto with sc.
  - by case_bool_decide.
Qed.

Lemma key_created obj s : ObjectKeyFromObject (created obj s) = ObjectKeyFromObject obj.
Proof. unfold created. by case_bool_decide. Qed.

Lemma Create_spec obj s H g :
  Inv s H -> room H -> okObject obj -> gvkForObject scheme obj = Ret g ->
  match view g H !! ObjectKeyFromObject obj with
  | Some _ => Create scheme obj s = (s, obj, Fail (AlreadyExistsError (keyString (ObjectKeyFromObject obj))))
  | None => exists s', Create scheme obj s = (s', created obj s, Ret tt) /\
              committed s H g (mkEvent EventAdded (created obj s)) s'
  end.
Proof.
  intros HI Hr Ho Hg. unfold Create. rewrite Hg. cbv zeta. rewrite (inv_objects _ _ HI g).
  destruct (view g H !! ObjectKeyFromObject obj) as [o|] eqn:Ev.
  - assert (<[g := view g H]> (objects s) = objects s) as E; [|by rewrite E; destruct s].
    apply insert_id. pose proof (inv_objects _ _ HI g) as Hv.
    destruct (objects s !! g); simpl in Hv; [by subst|]. by rewrite <- Hv, lookup_empty in Ev.
  - pose proof (okObject_created obj s Ho) as Hoc.
    pose proof (next_revision s H HI Hr) as Hnr.
    assert (gvkForObject scheme (created obj s) = Ret g) as Hgc.
    { rewrite <- Hg. apply gvkForObject_type. unfold created. by case_bool_decide. }
    destruct (publish_spec s
      (mkStore (<[g := <[ObjectKeyFromObject obj := created obj s]> (view g H)]> (objects s)) (watchers s)
         (if bool_decide (GetUID obj = "") then wrap64 (uidCounter s + 1) else uidCounter s)%Z
         (revision s + 1) (eventLog s) (eventLogMax s) (heap s) (nextPtr s)) H g
      (mkEvent EventAdded (created obj s)) _ _ HI Hr eq_refl) as (s' & Ep & Hc & _).
    + done.
    + unfold eventFits. simpl. by rewrite key_created.
    + apply (objects_after s H); [done|]. unfold applyEvent. simpl. by rewrite key_created.
    + by apply (stored_after s H).
    + exists s'. split; [|done]. revert Ep. unfold created. case_bool_decide; intros Ep;
        cbn; rewrite Hnr; unfold setRevision, setObjects, setUidCounter; simpl;
        rewrite insert_insert_eq, Ep;
        rewrite copyObject_self; try done; destruct Ho; auto with sc.
Qed.

(** Reading the store agrees with the history. *)
Lemma lookup_stored s H g k :
  Inv s H ->
  match objects s !! g with Some m => m !! k | None => None end = view g H !! k.
Proof.
  intros HI. rewrite <- (inv_objects _ _ HI g).
  destruct (objects s !! g); simpl; [done|by rewrite lookup_empty].
Qed.

(** The generation after an update: incremented when the encoded spec changes. *)
Definition specGeneration (obj st : Object) : Z :=
  if decide (rawField "spec" st = rawField "spec" obj) then GetGeneration st
  else wrap64 (GetGeneration st + 1).

(** The object a successful [Update] of [st] with [obj] stores: spec, metadata
    and every other field from the input, the status and the server-managed
    metadata from the stored object, a new resource version and generation. *)
Record updateOf (gen : Z) (obj st new : Object) (rev : Z) : Prop := {
  up_ok : okObject new;
  up_type : oType new = oType obj;
  up_key : ObjectKeyFromObject new = ObjectKeyFromObject obj;
  up_rv : GetResourceVersion new = FormatInt (rev + 1);
  up_uid : GetUID new = GetUID st;
  up_gen : GetGeneration new = gen;
  up_labels : mLabels (oMeta new) = mLabels (oMeta obj);
  up_annotations : mAnnotations (oMeta new) = mAnnotations (oMeta obj);
  up_fields : forall k, k ∉ map fkey baseFields -> k <> "status" -> rawField k new = rawField k obj;
  up_status : plainField "status" (oType obj) = true -> rawField "status" new = rawField "status" st;
  up_kind : bTypeMeta (oBase new) = bTypeMeta (oBase obj);
}.

(** The object a successful [UpdateStatus] stores. *)
Record statusUpdateOf (obj st new : Object) (rev : Z) : Prop := {
  su_ok : okObject new;
  su_type : oType new = oType obj;
  su_key : ObjectKeyFromObject new = ObjectKeyFromObject obj;
  su_rv : GetResourceVersion new = FormatInt (rev + 1);
  su_uid : GetUID new = GetUID st;
  su_gen : GetGeneration new = GetGeneration st;
  su_labels : mLabels (oMeta new) = overMap (mLabels (oMeta st)) (mLabels (oMeta obj));
  su_annotations : mAnnotations (oMeta new) = overMap (mAnnotations (oMeta st)) (mAnnotations (oMeta obj));
  su_fields : forall k, k ∉ map fkey baseFields -> k <> "status" ->
    plainField k (oType obj) = true -> rawField k new = rawField k st;
  su_status : rawField "status" new = rawField "status" obj;
  su_kind : bTypeMeta (oBase new) = overTypeMeta (bTypeMeta (oBase st)) (bTypeMeta (oBase obj));
}.

Lemma updateOf_updates gen obj st new rev : updateOf gen obj st new rev -> updates obj st new.
Proof.
  intros [_ _ Hk _ Hu _ Hl Ha Hf Hs _]. split; try done;
    unfold GetLabels, GetAnnotations; by rewrite ?Hl, ?Ha.
Qed.

Lemma not_metadata k : k ∉ map fkey baseFields -> k <> "metadata".
Proof. intros H ->. by apply H, (bool_decide_unpack _). Qed.

Lemma rawField_Set k rv uid gen o :
  wfObject o = true -> in_int64 gen = true -> k <> "metadata" ->
  rawField k (SetResourceVersion rv (SetGeneration gen (SetUID uid o))) = rawField k o.
Proof.
  intros Hw Hg Hk.
  pose proof (wfObject_SetUID uid o Hw) as H1.
  pose proof (wfObject_SetGeneration gen _ Hg H1) as H2.
  pose proof (wfObject_SetResourceVersion rv _ H2) as H3.
  unfold SetResourceVersion at 1. rewrite rawField_withMeta by done.
  unfold SetGeneration at 1. rewrite rawField_withMeta by done.
  unfold SetUID. by rewrite rawField_withMeta.
Qed.

Lemma in_int64_generation o : wfObject o = true -> in_int64 (GetGeneration o) = true.
Proof. by intros (_ & _ & H & _)%wfObject_spec. Qed.

Lemma updateOf_merged gen obj st merged rev :
  okObject obj -> okObject st -> oType st = oType obj -> in_int64 gen = true ->
  UnmarshalObject (mapJson (mergeStatus obj st)) obj = Some merged ->
  updateOf gen obj st
    (SetResourceVersion (FormatInt (rev + 1))
      (SetGeneration gen
        (SetUID (GetUID st) (SetResourceVersion (GetResourceVersion st) merged)))) rev.
Proof.
  intros Ho Hs Ht Hg E.
  destruct (unmarshal_mergeStatus obj st obj) as (m & E' & Hw & Htm & Hm & Hf & Hst);
    try done; [apply Ho|apply Hs|apply Ho|].
  rewrite E in E'. simplify_eq. rewrite overMeta_self in Hm.
  assert (forall k, k <> "metadata" -> rawField k
    (SetResourceVersion (FormatInt (rev + 1))
      (SetGeneration gen
        (SetUID (GetUID st) (SetResourceVersion (GetResourceVersion st) m)))) = rawField k m) as Hraw.
  { intros k Hk. rewrite rawField_Set by auto with sc.
    unfold SetResourceVersion. rewrite rawField_withMeta; auto with sc. }
  assert (oMeta m = oMeta obj) as Hmm by done.
  split; try done.
  - eapply okObject_type; [|exact Htm|exact Ho]. auto 10 with sc.
  - autorewrite with sc_rw. unfold ObjectKeyFromObject, GetName, GetNamespace. by rewrite Hmm.
  - simpl. by rewrite Hmm.
  - simpl. by rewrite Hmm.
  - intros k Hk Hs'. rewrite Hraw by (by apply not_metadata). apply Hf; auto.
  - intros Hp. rewrite Hraw by done. apply Hst. by right.
  - simpl. rewrite (unmarshal_mergeStatus_kind obj st obj) by (done || apply Ho || apply Hs). apply overTypeMeta_self.
Qed.

Lemma specGeneration_range obj st : wfObject st = true -> in_int64 (specGeneration obj st) = true.
Proof. intros H. unfold specGeneration. case_decide; [by apply in_int64_generation|apply wrap64_range]. Qed.

Lemma statusUpdateOf_merged obj st merged rev :
  okObject obj -> okObject st -> oType st = oType obj ->
  ObjectKeyFromObject st = ObjectKeyFromObject obj ->
  UnmarshalObject (mapJson (mergeStatus st obj)) obj = Some merged ->
  statusUpdateOf obj st
    (SetResourceVersion (FormatInt (rev + 1))
      (SetGeneration (GetGeneration st)
        (SetUID (GetUID st) (SetResourceVersion (GetResourceVersion st) merged)))) rev.
Proof.
  intros Ho Hs Ht Hk E.
  destruct (unmarshal_mergeStatus st obj obj) as (m & E' & Hw & Htm & Hm & Hf & Hst);
    try done; [apply Hs|apply Ho|apply Ho|].
  rewrite E in E'. injection E' as <-. rename merged into m.
  assert (in_int64 (GetGeneration st) = true) as Hg by apply in_int64_generation, Hs.
  assert (forall k, k <> "metadata" -> rawField k
    (SetResourceVersion (FormatInt (rev + 1))
      (SetGeneration (GetGeneration st)
        (SetUID (GetUID st) (SetResourceVersion (GetResourceVersion st) m)))) = rawField k m) as Hraw.
  { intros k Hk'. rewrite rawField_Set by auto with sc.
    unfold SetResourceVersion. rewrite rawField_withMeta; auto with sc. }
  split; try done.
  - eapply okObject_type; [|exact Htm|exact Ho]. auto 10 with sc.
  - autorewrite with sc_rw. 
    pose proof (f_equal kName Hk) as Hn. pose proof (f_equal kNamespace Hk) as Hns.
    unfold ObjectKeyFromObject, GetName, GetNamespace in *. simpl in Hn, Hns.
    rewrite Hm. simpl. rewrite Hn, Hns. by rewrite !overStr_self.
  - simpl. by rewrite Hm.
  - simpl. by rewrite Hm.
  - intros k Hk' Hs' Hp. rewrite Hraw by (by apply not_metadata). apply Hf; auto.
  - rewrite Hraw by done. apply Hst. by left.
  - simpl. by rewrite (unmarshal_mergeStatus_kind st obj obj) by (done || apply Ho || apply Hs).
Qed.

(** Storing [new] over the stored object of its key commits a change. *)
Lemma commit_modified s H g new :
  Inv s H -> room H -> okObject new -> gvkForObject scheme new = Ret g ->
  GetResourceVersion new = FormatInt (revision s + 1) ->
  is_Some (view g H !! ObjectKeyFromObject new) ->
  exists s',
    publish g (revision s + 1) (mkEvent EventModified new)
      (mkStore (<[g := <[ObjectKeyFromObject new := new]> (view g H)]> (objects s)) (watchers s)
         (uidCounter s) (revision s + 1) (eventLog s) (eventLogMax s) (heap s) (nextPtr s)) = (s', true) /\
    committed s H g (mkEvent EventModified new) s'.
Proof.
  intros HI Hr Ho Hg Hrv Hex.
  destruct (publish_spec s _ H g (mkEvent EventModified new)
    (<[g := <[ObjectKeyFromObject new := new]> (view g H)]> (objects s)) (uidCounter s)
    HI Hr eq_refl Hrv Hex) as (s' & E & Hc & _); eauto.
  - by apply (objects_after s H).
  - by apply (stored_after s H).
Qed.

Lemma objects_lookup_Some s H g k st :
  Inv s H -> view g H !! k = Some st -> objects s !! g = Some (view g H).
Proof.
  intros HI Hk. pose proof (inv_objects _ _ HI g) as Hv.
  destruct (objects s !! g) eqn:E; simpl in Hv; [by subst|]. by rewrite <- Hv, lookup_empty in Hk.
Qed.

Lemma specGeneration_if obj st o :
  (if negb (bool_decide (rawMap (MarshalObject st) !! "spec" = rawMap (MarshalObject obj) !! "spec"))
   then SetGeneration (wrap64 (GetGeneration st + 1)) o else SetGeneration (GetGeneration st) o) =
  SetGeneration (specGeneration obj st) o.
Proof. unfold specGeneration, rawField. case_bool_decide; by case_decide. Qed.

(** The object the merge of an update is compared with, for the no-op check. *)
Definition mergedStored (base other dst st : Object) : option Object :=
  (fun m => SetUID (GetUID st) (SetResourceVersion (GetResourceVersion st) m))
    <$> UnmarshalObject (mapJson (mergeStatus base other)) dst.

(** A write that changes nothing returns the stored object to the caller and
    leaves the store alone; any other write commits one change. *)
Definition wrote (s : MemoryStore) (H : list change) (g : GVK) (st obj new : Object)
    (noop : bool) (r : MemoryStore * Object * result unit) : Prop :=
  if noop then exists o, copyObject st obj = (o, Ret tt) /\ r = (s, o, Ret tt)
  else exists s' o, committed s H g (mkEvent EventModified new) s' /\
         copyObject new obj = (o, Ret tt) /\ r = (s', o, Ret tt).

Lemma Update_spec obj s H g :
  Inv s H -> room H -> okObject obj -> gvkForObject scheme obj = Ret g ->
  let key := ObjectKeyFromObject obj in
  match view g H !! key with
  | None => Update scheme obj s = (s, obj, Fail (NotFoundError (keyString key)))
  | Some st =>
      if bool_decide (GetResourceVersion obj <> GetResourceVersion st)
      then Update scheme obj s = (s, obj, Fail (ConflictError (keyString key)))
      else exists m new, mergedStored obj st obj st = Some m /\ updateOf (specGeneration obj st) obj st new (revision s) /\
             wrote s H g st obj new (contentEqual st m) (Update scheme obj s)
  end.
Proof.
  intros HI Hr Ho Hg key. unfold Update. rewrite Hg.
  pose proof (lookup_stored s H g key HI) as Hl. fold key.
  destruct (view g H !! key) as [st|] eqn:Ev.
  2: { destruct (objects s !! g); [by rewrite Hl|done]. }
  rewrite (objects_lookup_Some s H g key st HI Ev), Ev. case_bool_decide as Hrv; [done|].
  destruct (stored_object s H g _ key st HI (objects_lookup_Some s H g key st HI Ev) Ev) as (Hs & Hgs & Hks & _).
  assert (oType st = oType obj) as Ht by (by eapply okObject_same_type).
  destruct (unmarshal_mergeStatus obj st obj) as (m & E & Hw & Htm & _);
    [apply Ho|apply Hs|apply Ho|done|done|].
  pose proof (updateOf_merged (specGeneration obj st) obj st m (revision s) Ho Hs Ht (specGeneration_range _ _ (proj1 Hs)) E) as Hup.
  unfold mergedStored. rewrite E. eexists _, _. split; [done|]. split; [exact Hup|].
  unfold wrote. cbv zeta. destruct (contentEqual st _).
  - destruct (copyObject_total st obj) as (o & Ec & _); [apply Hs|apply Ho|done|].
    exists o. by rewrite Ec.
  - rewrite specGeneration_if, (next_revision s H HI Hr).
    match type of Hup with updateOf _ _ _ ?n _ => set (new := n) in * end.
    destruct (commit_modified s H g new HI Hr (up_ok _ _ _ _ _ Hup)) as (s' & Ep & Hc).
    { rewrite <- Hg. apply gvkForObject_type, Hup. }
    { apply Hup. }
    { rewrite (up_key _ _ _ _ _ Hup). fold key. by rewrite Ev. }
    rewrite (up_key _ _ _ _ _ Hup) in Ep. fold key in Ep.
    unfold setRevision, setObjects. simpl. fold new. rewrite Ep.
    destruct (copyObject_total new obj) as (o & Ec & _); [apply Hup|apply Ho|apply Hup|].
    rewrite Ec. eauto 10.
Qed.

Lemma UpdateStatus_spec obj s H g :
  Inv s H -> room H -> okObject obj -> gvkForObject scheme obj = Ret g ->
  let key := ObjectKeyFromObject obj in
  match view g H !! key with
  | None => UpdateStatus scheme obj s = (s, obj, Fail (NotFoundError (keyString key)))
  | Some st =>
      if bool_decide (GetResourceVersion obj <> GetResourceVersion st)
      then UpdateStatus scheme obj s = (s, obj, Fail (ConflictError (keyString key)))
      else exists m new, mergedStored st obj obj st = Some m /\ statusUpdateOf obj st new (revision s) /\
             wrote s H g st obj new (contentEqual st (SetGeneration (GetGeneration st) m))
               (UpdateStatus scheme obj s)
  end.
Proof.
  intros HI Hr Ho Hg key. unfold UpdateStatus. rewrite Hg.
  pose proof (lookup_stored s H g key HI) as Hl. fold key.
  destruct (view g H !! key) as [st|] eqn:Ev.
  2: { destruct (objects s !! g); [by rewrite Hl|done]. }
  rewrite (objects_lookup_Some s H g key st HI Ev), Ev. case_bool_decide as Hrv; [done|].
  destruct (stored_object s H g _ key st HI (objects_lookup_Some s H g key st HI Ev) Ev) as (Hs & Hgs & Hks & _).
  assert (oType st = oType obj) as Ht by (by eapply okObject_same_type).
  destruct (unmarshal_mergeStatus st obj obj) as (m & E & Hw & Htm & _);
    [apply Hs|apply Ho|apply Ho|done|done|].
  pose proof (statusUpdateOf_merged obj st m (revision s) Ho Hs Ht Hks E) as Hup.
  unfold mergedStored. rewrite E. eexists _, _. split; [done|]. split; [exact Hup|].
  unfold wrote. cbv zeta. destruct (contentEqual st _).
  - destruct (copyObject_total st obj) as (o & Ec & _); [apply Hs|apply Ho|done|].
    exists o. by rewrite Ec.
  - rewrite (next_revision s H HI Hr).
    match type of Hup with statusUpdateOf _ _ ?n _ => set (new := n) in * end.
    destruct (commit_modified s H g new HI Hr (su_ok _ _ _ _ Hup)) as (s' & Ep & Hc).
    { rewrite <- Hg. apply gvkForObject_type, Hup. }
    { apply Hup. }
    { rewrite (su_key _ _ _ _ Hup). fold key. by rewrite Ev. }
    rewrite (su_key _ _ _ _ Hup) in Ep. fold key in Ep.
    unfold setRevision, setObjects. simpl. fold new. rewrite Ep.
    destruct (copyObject_total new obj) as (o & Ec & _); [apply Hup|apply Ho|apply Hup|].
    rewrite Ec. eauto 10.
Qed.

Lemma Delete_spec obj s H g :
  Inv s H -> room H -> gvkForObject scheme obj = Ret g ->
  let key := ObjectKeyFromObject obj in
  match view g H !! key with
  | None => Delete scheme obj s = (s, Fail (NotFoundError (keyString key)))
  | Some st =>
      if bool_decide (GetResourceVersion obj <> "") && bool_decide (GetResourceVersion obj <> GetResourceVersion st)
      then Delete scheme obj s = (s, Fail (ConflictError (keyString key)))
      else exists s', Delete scheme obj s = (s', Ret tt) /\
             committed s H g (mkEvent EventDeleted (SetResourceVersion (FormatInt (revision s + 1)) st)) s'
  end.
Proof.
  intros HI Hr Hg key. unfold Delete. rewrite Hg.
  pose proof (lookup_stored s H g key HI) as Hl. fold key.
  destruct (view g H !! key) as [st|] eqn:Ev.
  2: { destruct (objects s !! g); [by rewrite Hl|done]. }
  rewrite (objects_lookup_Some s H g key st HI Ev), Ev. cbv zeta. destruct (_ && _); [done|].
  destruct (stored_object s H g _ key st HI (objects_lookup_Some s H g key st HI Ev) Ev) as (Hs & Hgs & Hks & _).
  unfold setObjects at 1 3. simpl revision. rewrite (next_revision s H HI Hr).
  destruct (publish_spec s _ H g
    (mkEvent EventDeleted (SetResourceVersion (FormatInt (revision s + 1)) st))
    (<[g := delete key (view g H)]> (objects s)) (uidCounter s) HI Hr eq_refl eq_refl) as (s' & E & Hc & _).
  - unfold eventFits. simpl. autorewrite with sc_rw. by rewrite Hks, Ev.
  - apply (objects_after s H); [done|]. unfold applyEvent. simpl. autorewrite with sc_rw. by rewrite Hks.
  - intros g' m k o [[<- <-]|[_ Hm]]%lookup_insert_Some Hk; [|by eapply inv_stored].
    apply lookup_delete_Some in Hk as [_ Hk].
    by eapply inv_stored; [|eapply objects_lookup_Some|].
  - exists s'. split; [|done]. unfold setRevision, setObjects. simpl. by rewrite E.
Qed.

(** ** Writes that change nothing *)

Lemma same_encoding_meta o1 o2 :
  wfObject o1 = true -> wfObject o2 = true -> MarshalObject o1 = MarshalObject o2 ->
  GetUID o1 = GetUID o2 /\ GetResourceVersion o1 = GetResourceVersion o2 /\
  ObjectKeyFromObject o1 = ObjectKeyFromObject o2.
Proof.
  intros H1 H2 E. pose proof (overMeta_inj_encoding o1 o2 H1 H2 E) as Em.
  assert (forall a, overStr a "" = a) as Ho by (intros a; unfold overStr; by case_bool_decide).
  unfold overMeta, zeroMeta in Em. simpl in Em. rewrite !Ho in Em.
  unfold GetUID, GetResourceVersion, ObjectKeyFromObject, GetName, GetNamespace. split_and!; congruence.
Qed.

Lemma Set_same o : SetUID (GetUID o) (SetResourceVersion (GetResourceVersion o) o) = o.
Proof. by destruct o as [t [tm []] b]. Qed.

Lemma contentEqual_same st obj :
  wfObject st = true -> wfObject obj = true -> MarshalObject obj = MarshalObject st ->
  contentEqual st (SetUID (GetUID st) (SetResourceVersion (GetResourceVersion st) obj)) = true.
Proof.
  intros H1 H2 E. destruct (same_encoding_meta obj st H2 H1 E) as (Hu & Hr & _).
  unfold contentEqual. rewrite <- Hu, <- Hr, !Set_same. by apply bool_decide_eq_true_2.
Qed.

(** Objects that [contentEqual] identifies agree on labels, annotations and
    every field beyond the metadata. *)
Lemma contentEqual_content st x :
  wfObject st = true -> wfObject x = true -> contentEqual st x = true ->
  (forall k, k <> "metadata" -> rawField k st = rawField k x) /\
  GetLabels st = GetLabels x /\ GetAnnotations st = GetAnnotations x.
Proof.
  intros H1 H2 E. unfold contentEqual in E. split_bools.
  pose proof (wfObject_SetResourceVersion (GetResourceVersion st) x H2) as H3.
  pose proof (wfObject_SetUID (GetUID st) _ H3) as H4. split.
  - intros k Hk. unfold rawField at 1. rewrite E. fold (rawField k (SetUID (GetUID st) (SetResourceVersion (GetResourceVersion st) x))).
    unfold SetUID at 1. rewrite rawField_withMeta by done.
    unfold SetResourceVersion. by rewrite rawField_withMeta.
  - pose proof (overMeta_inj_encoding _ _ H1 H4 E) as Em.
    assert (forall a, default ∅ (overMap a None) = default ∅ a) as Hm.
    { intros a. unfold overMap. case_bool_decide as Ed; simpl; [by rewrite Ed|]. apply (right_id_L ∅ (∪)). }
    unfold GetLabels, GetAnnotations.
    rewrite <- (Hm (mLabels (oMeta st))), <- (Hm (mLabels (oMeta x))), <- (Hm (mAnnotations (oMeta st))),
      <- (Hm (mAnnotations (oMeta x))).
    unfold overMeta, zeroMeta in Em. simpl in Em. split; congruence.
Qed.

Lemma content_unchanged obj st x :
  wfObject st = true -> wfObject x = true -> contentEqual st x = true ->
  (forall k, k ∉ map fkey baseFields -> k <> "status" -> rawField k x = rawField k obj) ->
  GetLabels x = GetLabels obj -> GetAnnotations x = GetAnnotations obj -> unchanged obj st.
Proof.
  intros Hs Hx Ec Hf Hl Ha. destruct (contentEqual_content st x Hs Hx Ec) as (Hc & Hl' & Ha').
  split; [congruence..|]. intros k Hk Hst. rewrite Hc by (by apply not_metadata). by rewrite Hf.
Qed.

(** The merge of an update, before the server-managed metadata is restored. *)
Lemma merged_fields obj st m gen :
  wfObject obj = true -> wfObject st = true -> oType st = oType obj -> in_int64 gen = true ->
  UnmarshalObject (mapJson (mergeStatus obj st)) obj = Some m ->
  let x := SetGeneration gen (SetUID (GetUID st) (SetResourceVersion (GetResourceVersion st) m)) in
  wfObject m = true /\ wfObject x = true /\ GetLabels m = GetLabels obj /\ GetAnnotations m = GetAnnotations obj /\
  (forall k, k ∉ map fkey baseFields -> k <> "status" -> rawField k m = rawField k obj) /\
  (forall k, k <> "metadata" -> rawField k x = rawField k m).
Proof.
  intros Ho Hs Ht Hg E x.
  destruct (unmarshal_mergeStatus obj st obj) as (m0 & E' & Hw & _ & Hm & Hf & _); [done..|].
  rewrite E in E'. injection E' as <-. rewrite overMeta_self in Hm.
  pose proof (wfObject_SetResourceVersion (GetResourceVersion st) _ Hw) as H1.
  pose proof (wfObject_SetUID (GetUID st) _ H1) as H2. pose proof (wfObject_SetGeneration gen _ Hg H2) as H3.
  split_and!; [done|done|unfold GetLabels; by rewrite Hm|unfold GetAnnotations; by rewrite Hm|auto|].
  intros k Hk. unfold x, SetGeneration. rewrite rawField_withMeta by done.
  unfold SetUID. rewrite rawField_withMeta by done. unfold SetResourceVersion. by rewrite rawField_withMeta.
Qed.

Lemma contentEqual_SetGeneration_same st m : contentEqual st (SetGeneration (GetGeneration m) m) = contentEqual st m.
Proof. by destruct m as [? [? []] ?]. Qed.

Lemma noop_unchanged obj st m :
  wfObject obj = true -> wfObject st = true -> oType st = oType obj ->
  mergedStored obj st obj st = Some m -> contentEqual st m = true -> unchanged obj st.
Proof.
  intros Ho Hs Ht Em Ec. unfold mergedStored in Em.
  destruct (UnmarshalObject (mapJson (mergeStatus obj st)) obj) as [m0|] eqn:E; [|done]. injection Em as <-.
  destruct (UnmarshalObject_typed _ _ _ Ho E) as [Hw _].
  destruct (merged_fields obj st m0 (GetGeneration m0) Ho Hs Ht) as (_ & Hx & Hl & Ha & Hf & Hr);
    [by apply in_int64_generation|done|].
  eapply (content_unchanged obj st); [done|exact Hx|exact (eq_trans (contentEqual_SetGeneration_same st _) Ec)| |done|done].
  intros k Hk Hst. rewrite Hr by (by apply not_metadata). auto.
Qed.

(** A status update that finds nothing to change: the stored status is the
    input's. *)
Lemma status_noop_unchanged obj st m :
  wfObject obj = true -> wfObject st = true -> oType st = oType obj ->
  mergedStored st obj obj st = Some m ->
  contentEqual st (SetGeneration (GetGeneration st) m) = true ->
  rawField "status" obj = rawField "status" st.
Proof.
  intros Ho Hs Ht Em Ec. unfold mergedStored in Em.
  destruct (unmarshal_mergeStatus st obj obj) as (m0 & E & Hw & _ & _ & _ & Hf); [done..|].
  rewrite E in Em. injection Em as <-.
  assert (in_int64 (GetGeneration st) = true) as Hg by (by apply wfObject_spec in Hs as (_ & _ & ? & _)).
  pose proof (wfObject_SetResourceVersion (GetResourceVersion st) _ Hw) as H3.
  pose proof (wfObject_SetUID (GetUID st) _ H3) as H4.
  pose proof (wfObject_SetGeneration (GetGeneration st) _ Hg H4) as H5.
  destruct (contentEqual_content st _ Hs H5 Ec) as (Hc & _).
  rewrite Hc, <- Hf by auto. unfold SetGeneration. rewrite rawField_withMeta by done.
  unfold SetUID. rewrite rawField_withMeta by done. unfold SetResourceVersion. by rewrite rawField_withMeta.
Qed.

Lemma Update_noop obj st s H g :
  Inv s H -> room H -> okObject obj -> gvkForObject scheme obj = Ret g ->
  view g H !! ObjectKeyFromObject obj = Some st -> MarshalObject obj = MarshalObject st ->
  Update scheme obj s = (s, obj, Ret tt).
Proof.
  intros HI Hr Ho Hg Hv E. pose proof (Update_spec obj s H g HI Hr Ho Hg) as Hs. cbv zeta in Hs.
  rewrite Hv in Hs.
  assert (wfObject st = true) as Hst.
  { eapply (stored_object s H g _ _ st); [done|by eapply objects_lookup_Some|exact Hv]. }
  destruct (same_encoding_meta obj st) as (_ & Erv & _); [apply Ho|done|done|].
  rewrite bool_decide_false in Hs by (by intros []).
  destruct Hs as (m & new & Em & _ & Hw). unfold mergedStored in Em.
  rewrite unmarshal_mergeStatus_same in Em by (done || apply Ho). apply (inj Some) in Em. subst m.
  unfold wrote in Hw. rewrite contentEqual_same in Hw by (done || apply Ho).
  destruct Hw as (o & Ec & ->). unfold copyObject in Ec. rewrite <- E, UnmarshalObject_self in Ec by apply Ho.
  by injection Ec as <-.
Qed.

End facts.
