(* ===== verification/MemoryStoreRuns.v ===== *)
(** * Runs of the in-memory backend

    Replay from the event log, [Watch], and the transition system whose steps
    are the calls of concurrent clients and watch consumers. The store's lock
    makes each call atomic, so an interleaving is a sequence of steps. *)

From S2P Require Import Prelude GoStrconv GoJson GoJsonFacts Objects ObjectFacts.
From S2P Require Import SpecStatus StoreSpec Backend MemoryStore MemoryStoreFacts.

Import Mem.

(** How many changes of the history the log has dropped. *)
Definition trimmed (s : MemoryStore) : Z := (revision s - Z.of_nat (length (eventLog s)))%Z.

(** An open watcher is in the store's list, so notifications reach it. *)
Definition registered (s : MemoryStore) : Prop :=
  forall p w, heap s !! p = Some w -> wClosed w = false -> p ∈ default [] (watchers s !! wGVK w).

(** The events a step made the consumer of watcher [p] receive. *)
Definition receivedBy (p : nat) (l : option (nat * Event)) : list Event :=
  match l with Some (q, ev) => if decide (q = p) then [ev] else [] | None => [] end.

(** What a step that added the changes [H'] does to one watcher: the consumer
    takes events from the front of the buffer; an open watcher gets the new
    events of its GVK; a closed one gets nothing more. *)
Definition streamStep (p : nat) (w : memoryWatcher) (l : option (nat * Event)) (H' : list change)
    (w' : memoryWatcher) : Prop :=
  wGVK w' = wGVK w /\
  (wClosed w = true -> wClosed w' = true) /\
  receivedBy p l ++ buf (wCh w') =
    buf (wCh w) ++ (if wClosed w' then [] else eventsOf (wGVK w) H').

Section runs.
Context (scheme : Scheme).

(** One call by a client, a receive by a watch consumer, or one of the two
    critical sections of [memoryWatcher.Stop]. The label is the received event. *)
Inductive step : MemoryStore -> option (nat * Event) -> MemoryStore -> Prop :=
| step_Create s obj s' obj' r :
    okObject scheme obj -> Create scheme obj s = (s', obj', r) -> step s None s'
| step_Update s obj s' obj' r :
    okObject scheme obj -> Update scheme obj s = (s', obj', r) -> step s None s'
| step_UpdateStatus s obj s' obj' r :
    okObject scheme obj -> UpdateStatus scheme obj s = (s', obj', r) -> step s None s'
| step_Delete s obj s' r : Delete scheme obj s = (s', r) -> step s None s'
| step_Watch s lst opts s' r :
    (forall from, fromRevisionOpt opts = Some from -> in_int64 from = true) ->
    Watch scheme lst opts s = Some (s', r) -> step s None s'
| step_stopClose s p s' : stopClose p s = Some s' -> step s None s'
| step_removeWatcher s p w :
    heap s !! p = Some w -> wClosed w = true -> step s None (removeWatcher (wGVK w) p s)
| step_receive s p ev c s' : receive p s = (s', Received ev c) -> step s (Some (p, ev)) s'.

(** A run, with the labels of its steps. *)
Inductive run : MemoryStore -> list (option (nat * Event)) -> MemoryStore -> Prop :=
| run_nil s : run s [] s
| run_snoc s tr s' l s'' : run s tr s' -> step s' l s'' -> run s (tr ++ [l]) s''.

(** ** Replay *)

Lemma changesSince_app r H1 H2 : changesSince r (H1 ++ H2) = changesSince r H1 ++ changesSince r H2.
Proof. apply List.filter_app. Qed.

Lemma map_eEvent g from log :
  map eEvent (List.filter (fun e => (from <? eRevision e)%Z && bool_decide (eGVK e = g)) log) =
  eventsOf g (changesSince from (map toChange log)).
Proof.
  induction log as [|e log IH]; [done|]. simpl.
  unfold changesSince, eventsOf in *. simpl. destruct (from <? eRevision e)%Z; simpl; [|done].
  case_bool_decide; simpl; by rewrite IH.
Qed.

Lemma eventLog_split s H :
  Inv scheme s H ->
  exists old, H = old ++ map toChange (eventLog s) /\ Z.of_nat (length old) = trimmed s.
Proof.
  intros HI. destruct (inv_log _ _ _ HI) as (start & _ & El).
  destruct (lastn_suffix (Z.to_nat (eventLogMax s)) (drop start H)) as [old E].
  rewrite <- El in E. exists (take start H ++ old). rewrite <- (assoc_L (++)), <- E, take_drop. split; [done|].
  unfold trimmed. assert (H = (take start H ++ old) ++ map toChange (eventLog s)) as E'
    by (by rewrite <- (assoc_L (++)), <- E, take_drop). clear E. rename E' into E.
  rewrite (inv_revision _ _ _ HI). pose proof (f_equal length E) as Elen.
  rewrite length_app, length_map in Elen. lia.
Qed.

(** The replay is exactly the changes after the revision, unless one of them
    has been trimmed. *)
Lemma eventsSince_spec s H from g :
  Inv scheme s H -> room H -> in_int64 from = true ->
  eventsSince from g s =
  if (from <? trimmed s)%Z then Fail (RevisionTooOldError from (trimmed s + 1))
  else Ret (eventsOf g (changesSince from H)).
Proof.
  intros HI Hroom Hi. destruct (eventLog_split s H HI) as (old & E & Hold).
  pose proof (inv_revision _ _ _ HI) as Hr. pose proof (inv_history _ _ _ HI) as Hh.
  unfold room in Hroom. apply in_int64_spec in Hi.
  assert (Z.of_nat (length H) = Z.of_nat (length old) + Z.of_nat (length (eventLog s)))%Z as Hlen.
  { rewrite E, length_app, length_map. lia. }
  unfold eventsSince. destruct (Z.leb_spec (revision s) from) as [Hle|Hlt].
  { destruct (Z.ltb_spec from (trimmed s)); [unfold trimmed in *; lia|].
    rewrite changesSince_ge by (done || lia). done. }
  destruct (eventLog s) as [|e log] eqn:El.
  - simpl in Hlen. destruct (Z.ltb_spec from (trimmed s)) as [|Hge]; [|lia].
    do 2 f_equal. rewrite wrap64_succ by lia.
    unfold trimmed. rewrite El. simpl. lia.
  - assert (eRevision e = trimmed s + 1)%Z as He.
    { assert (H !! length old = Some (toChange e)) as Hlk by (rewrite E, lookup_app_r, Nat.sub_diag; [done|lia]).
      pose proof (wfh_revision _ Hh _ _ Hlk) as Hc. simpl in Hc. lia. }
    rewrite wrap64_id by (apply in_int64_spec; unfold min_int64, max_int64 in *; lia).
    rewrite He. destruct (Z.ltb_spec (from + 1) (trimmed s + 1)), (Z.ltb_spec from (trimmed s)); try lia; [done|].
    f_equal. rewrite map_eEvent, E, changesSince_app, (changesSince_ge _ old); [done| |lia].
    rewrite E in Hh. by eapply wfHistory_app_l.
Qed.

(** ** Watch *)

Lemma preload_spec c replay :
  chClosed c = false -> length (buf c) + length replay <= cap c ->
  preload c replay = Some (Chan (buf c ++ replay) (cap c) false).
Proof.
  revert c. induction replay as [|e replay IH]; intros c Hc Hl; simpl.
  - rewrite app_nil_r. destruct c; simpl in *. by rewrite Hc.
  - unfold trySend. rewrite Hc. simpl in Hl. rewrite bool_decide_true by lia.
    rewrite IH; simpl; [by rewrite <- (assoc_L (++))|done|].
    rewrite length_app. simpl. lia.
Qed.

(** The room in a new watcher's buffer: 100 events, more behind a long replay. *)
Definition bufferFor (replay : list Event) : nat :=
  if bool_decide (100 < length replay) then length replay + 100 else 100.

(** The watcher [Watch] registers: open, its buffer preloaded with the replay. *)
Definition watching (s : MemoryStore) (g : GVK) (replay : list Event) (s' : MemoryStore) : Prop :=
  exists n,
    heap s' = <[nextPtr s := mkWatcher g (Chan replay n false) false]> (heap s) /\
    n = bufferFor replay /\ length replay <= n /\
    watchers s' = <[g := default [] (watchers s !! g) ++ [nextPtr s]]> (watchers s) /\
    nextPtr s' = S (nextPtr s) /\
    objects s' = objects s /\ uidCounter s' = uidCounter s /\ revision s' = revision s /\
    eventLog s' = eventLog s /\ eventLogMax s' = eventLogMax s.

Lemma watching_inv s H g replay s' :
  Inv scheme s H -> watching s g replay s' -> Inv scheme s' H.
Proof.
  intros [Hrev Hb Hh Hm Hlog Hob Hst Hw] (n & Eh & _ & Hn & Ew & Ep & Eo & _ & Er & El & Em).
  split; rewrite ?Er, ?El, ?Em, ?Eo; try done. destruct Hw as [Hf Hc Hl Hnd Hfr].
  assert (heap s !! nextPtr s = None) as Hnew.
  { destruct (heap s !! nextPtr s) eqn:E; [|done]. apply Hfr in E. lia. }
  split; rewrite ?Eh, ?Ew, ?Ep.
  - intros p w [[<- <-]|[_ Hp]]%lookup_insert_Some; [done|eauto].
  - intros p w [[<- <-]|[_ Hp]]%lookup_insert_Some; [done|eauto].
  - intros g' ws p Hg' Hp.
    assert ((p = nextPtr s /\ g' = g) \/ exists ws', watchers s !! g' = Some ws' /\ p ∈ ws') as Hcase.
    { apply lookup_insert_Some in Hg' as [[<- <-]|[_ ?]]; [|eauto].
      apply elem_of_app in Hp as [Hp|Hp%list_elem_of_singleton]; [|by left].
      right. destruct (watchers s !! g); simpl in Hp; [eauto|set_solver]. }
    destruct Hcase as [[-> ->]|(ws' & Hws & Hin)]; [rewrite lookup_insert_eq; eauto|].
    destruct (Hl _ _ _ Hws Hin) as (w & Hw & Hg). exists w. split; [|done].
    rewrite lookup_insert_ne; [done|]. intros <-. congruence.
  - intros g' ws [[<- <-]|[_ Hws]]%lookup_insert_Some; [|eauto].
    apply NoDup_app. split_and!; [destruct (watchers s !! g) eqn:E; simpl; [eauto|constructor]| |apply NoDup_singleton].
    intros p Hp ->%list_elem_of_singleton. destruct (watchers s !! g) as [ws|] eqn:E; simpl in Hp; [|set_solver].
    destruct (Hl _ _ _ E Hp) as (w & Hw & _). congruence.
  - intros p w [[<- <-]|[_ Hp]]%lookup_insert_Some; [lia|]. apply Hfr in Hp. lia.
Qed.

Lemma Watch_spec lst opts s H g :
  Inv scheme s H -> room H -> gvkForList scheme lst = Ret g ->
  (forall from, fromRevisionOpt opts = Some from -> in_int64 from = true) ->
  let watch := exists s', Watch scheme lst opts s = Some (s', Ret (nextPtr s)) /\
                          watching s g (replayOf opts g H) s' in
  match fromRevisionOpt opts with
  | Some from =>
      if (from <? trimmed s)%Z
      then Watch scheme lst opts s = Some (s, Fail (RevisionTooOldError from (trimmed s + 1)))
      else watch
  | None => watch
  end.
Proof.
  intros HI Hroom Hg Hfrom. unfold Watch, replayOf. rewrite Hg. cbv zeta.
  assert (forall replay, exists s',
    match preload (wCh (newMemoryWatcher g
        (if bool_decide (100 < length replay) then length replay + 100 else 100))) replay with
    | Some c =>
        let p := nextPtr s in
        let s1 := setNextPtr (S p) (setHeap (<[p:=mkWatcher g c false]> (heap s)) s) in
        Some (setWatchers (<[g:=default [] (watchers s1 !! g) ++ [p]]> (watchers s1)) s1, Ret p)
    | None => None
    end = Some (s', Ret (nextPtr s) : result nat) /\ watching s g replay s') as Hw.
  { intros replay. rewrite preload_spec; [|done|simpl; case_bool_decide; lia].
    eexists. split; [done|]. eexists. split; [done|]. simpl. split_and!; try done. case_bool_decide; lia. }
  destruct (fromRevisionOpt opts) as [from|].
  - rewrite (eventsSince_spec s H) by auto. destruct (from <? trimmed s)%Z; [done|]. apply Hw.
  - destruct (loLabelSelector (applyOptions opts)); apply (Hw []).
Qed.

(** ** Steps preserve the invariant and the watch streams *)

Definition streamsStep (s : MemoryStore) (l : option (nat * Event)) (H' : list change) (s' : MemoryStore) : Prop :=
  forall p w, heap s !! p = Some w -> exists w', heap s' !! p = Some w' /\ streamStep p w l H' w'.

Lemma streamStep_refl p w : streamStep p w None [] w.
Proof. split_and!; try done. simpl. destruct (wClosed w); by rewrite app_nil_r. Qed.

Lemma streamsStep_refl s : streamsStep s None [] s.
Proof. intros p w Hw. exists w. split; [done|]. apply streamStep_refl. Qed.

Lemma streamStep_send p w ev c w' :
  cEvent c = ev -> wClosed w = chClosed (wCh w) -> length (buf (wCh w)) <= cap (wCh w) ->
  send w ev = Some w' -> cGVK c = wGVK w -> streamStep p w None [c] w'.
Proof.
  intros <- Hf Hc Hs Hg. destruct (send_total w (cEvent c) Hf Hc) as (w2 & Hs2 & Hg2 & _ & _ & Hcl & Hop).
  rewrite Hs in Hs2. simplify_eq. unfold streamStep. simpl.
  rewrite eventsOf_single, bool_decide_true by done.
  destruct (wClosed w) eqn:E.
  - rewrite (Hcl eq_refl), E. split_and!; try done. by rewrite app_nil_r.
  - destruct (Hop eq_refl) as [[E' Hb]|(E' & Hb & _)]; rewrite E'; split_and!; try done.
    by rewrite app_nil_r.
Qed.

Lemma committed_streams s H g ev s' :
  Inv scheme s H -> registered s -> committed scheme s H g ev s' ->
  registered s' /\ streamsStep s None [mkChange (revision s + 1) g ev] s'.
Proof.
  intros HI Hreg [Hi [Hd0 Hd] _ Hn Hw]. destruct (inv_watchers _ _ _ HI) as [Hf Hc Hl Hnd Hfr].
  assert (forall p w w', heap s !! p = Some w -> heap s' !! p = Some w' ->
            wGVK w' = wGVK w /\ (wClosed w = true -> wClosed w' = true)) as Hmono.
  { intros p w w' Hp Hp'. destruct (Hd p w Hp) as (w2 & E & Hg & Hs).
    rewrite Hp' in E. simplify_eq. split; [done|]. case_bool_decide; [|by subst].
    unfold send in Hs. intros Hcl. rewrite Hcl in Hs. by simplify_eq. }
  split.
  - intros p w' Hp' Hop. destruct (heap s !! p) as [w|] eqn:Hp.
    2: { by rewrite Hd0 in Hp'. }
    destruct (Hmono _ _ _ Hp Hp') as [Hg Hcl]. rewrite Hw, Hg.
    assert (wClosed w = false) as Hop1 by (destruct (wClosed w); naive_solver).
    pose proof (Hreg p w Hp Hop1) as Hin.
    destruct (decide (g = wGVK w)) as [->|Hne]; [rewrite lookup_insert_eq|by rewrite lookup_insert_ne].
    simpl. apply list_elem_of_In, List.filter_In. split; [by apply list_elem_of_In|]. rewrite Hp. simpl. by rewrite Hop1.
  - intros p w Hp. destruct (Hd p w Hp) as (w' & Hp' & Hg & Hs). exists w'. split; [done|].
    case_bool_decide as Hin.
    + assert (wGVK w = g) as Hgw.
      { destruct (watchers s !! g) eqn:E; simpl in Hin; [|set_solver].
        destruct (Hl _ _ _ E Hin) as (w2 & Hw2 & ?). congruence. }
      eapply streamStep_send; eauto.
    + subst w'. destruct (wClosed w) eqn:Ecl.
      * split_and!; try done. simpl. rewrite Ecl. by rewrite app_nil_r.
      * assert (g <> wGVK w) as Hne by (intros ->; by apply Hin, Hreg).
        split_and!; try done. rewrite Ecl. simpl.
        rewrite eventsOf_single, bool_decide_false by done. by rewrite app_nil_r.
Qed.

(** What every step guarantees. *)
Record stepOk (s : MemoryStore) (H : list change) (l : option (nat * Event)) (H' : list change)
    (s' : MemoryStore) : Prop := {
  so_inv : Inv scheme s' (H ++ H');
  so_one : length H' <= 1;
  so_max : eventLogMax s' = eventLogMax s;
  so_registered : registered s';
  so_streams : streamsStep s l H' s';
  so_full : fullLog s H -> fullLog s' (H ++ H');
}.

Lemma stepOk_refl s H : Inv scheme s H -> registered s -> stepOk s H None [] s.
Proof. intros HI Hr. split; rewrite ?app_nil_r; [done|simpl; lia|done|done|apply streamsStep_refl|done]. Qed.

Lemma stepOk_committed s H g ev s' :
  Inv scheme s H -> registered s -> committed scheme s H g ev s' ->
  stepOk s H None [mkChange (revision s + 1) g ev] s'.
Proof.
  intros HI Hr Hc. destruct (committed_streams s H g ev s' HI Hr Hc) as [H1 H2].
  split; [apply Hc|done|apply Hc|done|done|by eapply committed_full].
Qed.

Lemma stepOk_wrote s H g st obj new noop s' obj' r :
  Inv scheme s H -> registered s -> wrote scheme s H g st obj new noop (s', obj', r) ->
  r <> Panic /\ exists H', stepOk s H None H' s'.
Proof.
  intros HI Hr. unfold wrote. destruct noop.
  - intros (o & _ & E). simplify_eq. split; [done|]. exists []. by apply stepOk_refl.
  - intros (s2 & o & Hc & _ & E). simplify_eq. split; [done|]. eexists. by eapply stepOk_committed.
Qed.

Hypothesis scheme_total : forall t, ObjectKinds scheme t <> Panic.

Lemma gvkForObject_total obj : gvkForObject scheme obj <> Panic.
Proof using scheme_total.
  unfold gvkForObject. specialize (scheme_total (tName (oType obj))). by destruct (ObjectKinds _ _) as [[]| |].
Qed.

Lemma gvkForList_total lst : gvkForList scheme lst <> Panic.
Proof using scheme_total.
  unfold gvkForList. specialize (scheme_total (lName lst)). by destruct (ObjectKinds _ _) as [[]| |].
Qed.

Section step_facts.
Context (s : MemoryStore) (H : list change).
Hypothesis HI : Inv scheme s H.
Hypothesis Hroom : room H.
Hypothesis Hreg : registered s.

Lemma Create_step obj s' obj' r :
  okObject scheme obj -> Create scheme obj s = (s', obj', r) ->
  r <> Panic /\ exists H', stepOk s H None H' s'.
Proof using All.
  intros Ho. destruct (gvkForObject scheme obj) as [g|e|] eqn:Hg.
  - pose proof (Create_spec scheme obj s H g HI Hroom Ho Hg) as Hs. destruct (view g H !! _).
    + rewrite Hs. intros E. simplify_eq. split; [done|]. exists []. by apply stepOk_refl.
    + destruct Hs as (s2 & -> & Hc). intros E. simplify_eq. split; [done|]. eexists. by eapply stepOk_committed.
  - unfold Create. rewrite Hg. intros E. simplify_eq. split; [done|]. exists []. by apply stepOk_refl.
  - by apply gvkForObject_total in Hg.
Qed.

Lemma Update_step obj s' obj' r :
  okObject scheme obj -> Update scheme obj s = (s', obj', r) ->
  r <> Panic /\ exists H', stepOk s H None H' s'.
Proof using All.
  intros Ho. destruct (gvkForObject scheme obj) as [g|e|] eqn:Hg.
  - pose proof (Update_spec scheme obj s H g HI Hroom Ho Hg) as Hs. cbv zeta in Hs.
    destruct (view g H !! _) as [st|].
    1: case_bool_decide.
    2: { destruct Hs as (m & new & _ & _ & Hw). intros E. rewrite E in Hw. by eapply stepOk_wrote. }
    all: rewrite Hs; intros E; simplify_eq; (split; [done|]); exists []; by apply stepOk_refl.
  - unfold Update. rewrite Hg. intros E. simplify_eq. split; [done|]. exists []. by apply stepOk_refl.
  - by apply gvkForObject_total in Hg.
Qed.

Lemma UpdateStatus_step obj s' obj' r :
  okObject scheme obj -> UpdateStatus scheme obj s = (s', obj', r) ->
  r <> Panic /\ exists H', stepOk s H None H' s'.
Proof using All.
  intros Ho. destruct (gvkForObject scheme obj) as [g|e|] eqn:Hg.
  - pose proof (UpdateStatus_spec scheme obj s H g HI Hroom Ho Hg) as Hs. cbv zeta in Hs.
    destruct (view g H !! _) as [st|].
    1: case_bool_decide.
    2: { destruct Hs as (m & new & _ & _ & Hw). intros E. rewrite E in Hw. by eapply stepOk_wrote. }
    all: rewrite Hs; intros E; simplify_eq; (split; [done|]); exists []; by apply stepOk_refl.
  - unfold UpdateStatus. rewrite Hg. intros E. simplify_eq. split; [done|]. exists []. by apply stepOk_refl.
  - by apply gvkForObject_total in Hg.
Qed.

Lemma Delete_step obj s' r :
  Delete scheme obj s = (s', r) -> r <> Panic /\ exists H', stepOk s H None H' s'.
Proof using All.
  destruct (gvkForObject scheme obj) as [g|e|] eqn:Hg.
  - pose proof (Delete_spec scheme obj s H g HI Hroom Hg) as Hs. cbv zeta in Hs.
    destruct (view g H !! _) as [st|].
    1: destruct (_ && _).
    2: { destruct Hs as (s2 & -> & Hc). intros E. simplify_eq. split; [done|]. eexists. by eapply stepOk_committed. }
    all: rewrite Hs; intros E; simplify_eq; (split; [done|]); exists []; by apply stepOk_refl.
  - unfold Delete. rewrite Hg. intros E. simplify_eq. split; [done|]. exists []. by apply stepOk_refl.
  - by apply gvkForObject_total in Hg.
Qed.

Lemma watching_step g replay s' : watching s g replay s' -> stepOk s H None [] s'.
Proof using All.
  intros Hw. pose proof (watching_inv s H g replay s' HI Hw) as Hi.
  destruct Hw as (n & Eh & _ & _ & Ew & Ep & _ & _ & _ & El & Em).
  destruct (inv_watchers _ _ _ HI) as [_ _ _ _ Hfr].
  split; rewrite ?app_nil_r; [done|simpl; lia|done| | |unfold fullLog; by rewrite El, Em].
  - intros p w. rewrite Eh, Ew. intros [[<- <-]|[Hne Hp]]%lookup_insert_Some Hop.
    + simpl. rewrite lookup_insert_eq. set_solver.
    + pose proof (Hreg p w Hp Hop). destruct (decide (g = wGVK w)) as [->|].
      * rewrite lookup_insert_eq. set_solver.
      * by rewrite lookup_insert_ne.
  - intros p w Hp. exists w. split; [|apply streamStep_refl].
    rewrite Eh, lookup_insert_ne; [done|]. intros <-. apply Hfr in Hp. lia.
Qed.

Lemma Watch_step lst opts :
  (forall from, fromRevisionOpt opts = Some from -> in_int64 from = true) ->
  exists s' r, Watch scheme lst opts s = Some (s', r) /\ r <> Panic /\ stepOk s H None [] s'.
Proof using All.
  intros Hfrom. destruct (gvkForList scheme lst) as [g|e|] eqn:Hg.
  - pose proof (Watch_spec lst opts s H g HI Hroom Hg Hfrom) as Hs. cbv zeta in Hs.
    assert ((exists s', Watch scheme lst opts s = Some (s', Ret (nextPtr s)) /\ watching s g (replayOf opts g H) s') ->
      exists s' r, Watch scheme lst opts s = Some (s', r) /\ r <> Panic /\ stepOk s H None [] s') as Hgo.
    { intros (s' & E & Hw). exists s', (Ret (nextPtr s)). split_and!; [done|done|]. by eapply watching_step. }
    destruct (fromRevisionOpt opts); [|by apply Hgo]. destruct (_ <? _)%Z; [|by apply Hgo].
    eexists s, _. split_and!; [done|done|]. by apply stepOk_refl.
  - unfold Watch. rewrite Hg. eexists s, _. split_and!; [done|done|]. by apply stepOk_refl.
  - by apply gvkForList_total in Hg.
Qed.

(** Replacing one watcher struct by a consistent one. *)
Lemma setHeap_step p w w' l :
  heap s !! p = Some w -> wGVK w' = wGVK w -> wClosed w' = chClosed (wCh w') ->
  length (buf (wCh w')) <= cap (wCh w') -> (wClosed w = true -> wClosed w' = true) ->
  receivedBy p l ++ buf (wCh w') = buf (wCh w) -> (forall q, q <> p -> receivedBy q l = []) ->
  stepOk s H l [] (setHeap (<[p := w']> (heap s)) s).
Proof using All.
  intros Hp Hg Hf Hc Hcl Hb Hl. destruct HI as [Hrev Hbd Hh Hm Hlog Hob Hst [Wf Wc Wl Wn Wfr]].
  split; [|simpl; lia|done| | |by rewrite app_nil_r].
  - rewrite app_nil_r. split; try done. split; simpl; try done.
    + intros q w2 [[<- <-]|[_ Hq]]%lookup_insert_Some; eauto.
    + intros q w2 [[<- <-]|[_ Hq]]%lookup_insert_Some; eauto.
    + intros g ws q Hws Hq. destruct (Wl g ws q Hws Hq) as (w2 & Hw2 & Hg2).
      destruct (decide (q = p)) as [->|]; [rewrite lookup_insert_eq|rewrite lookup_insert_ne by done; eauto].
      exists w'. rewrite Hp in Hw2. simplify_eq. by rewrite Hg.
    + intros q w2 [[<- <-]|[_ Hq]]%lookup_insert_Some; eauto.
  - intros q w2. simpl. intros [[<- <-]|[_ Hq]]%lookup_insert_Some Hop; [|by apply Hreg].
    rewrite Hg. apply Hreg; [done|]. destruct (wClosed w); [|done]. by rewrite Hcl in Hop.
  - intros q w2 Hq. simpl. destruct (decide (q = p)) as [->|Hne].
    + rewrite lookup_insert_eq. rewrite Hp in Hq. simplify_eq. exists w'. split; [done|].
      split_and!; try done. rewrite Hb. destruct (wClosed w'); by rewrite app_nil_r.
    + rewrite lookup_insert_ne by done. exists w2. split; [done|]. split_and!; try done.
      rewrite (Hl q Hne). destruct (wClosed w2); by rewrite app_nil_r.
Qed.

Lemma stopClose_step p w :
  heap s !! p = Some w -> exists s', stopClose p s = Some s' /\ stepOk s H None [] s'.
Proof using All.
  intros Hp. unfold stopClose, closeWatcher. rewrite Hp.
  pose proof (wfw_flag _ (inv_watchers _ _ _ HI) _ _ Hp) as Hf.
  pose proof (wfw_cap _ (inv_watchers _ _ _ HI) _ _ Hp) as Hc.
  destruct (wClosed w) eqn:Ec; simpl.
  - eexists. split; [done|]. eapply setHeap_step; try done. by rewrite Ec.
  - unfold closeChan. rewrite <- Hf. simpl. eexists. split; [done|]. by eapply setHeap_step.
Qed.

Lemma receive_step p ev c s' :
  receive p s = (s', Received ev c) -> stepOk s H (Some (p, ev)) [] s'.
Proof using All.
  unfold receive. destruct (heap s !! p) as [w|] eqn:Hp; [|done].
  pose proof (wfw_flag _ (inv_watchers _ _ _ HI) _ _ Hp) as Hf.
  pose proof (wfw_cap _ (inv_watchers _ _ _ HI) _ _ Hp) as Hc.
  unfold recv. destruct (buf (wCh w)) as [|v vs] eqn:Eb; [by destruct (chClosed _)|].
  intros E. simplify_eq. eapply setHeap_step; try done; simpl in *.
  - lia.
  - by rewrite decide_True, Eb.
  - intros q Hq. by rewrite decide_False.
Qed.

Lemma removeWatcher_step p w :
  heap s !! p = Some w -> wClosed w = true -> stepOk s H None [] (removeWatcher (wGVK w) p s).
Proof using All.
  intros Hp Hcl. destruct HI as [Hrev Hbd Hh Hm Hlog Hob Hst [Wf Wc Wl Wn Wfr]].
  assert (forall g, default [] (watchers (removeWatcher (wGVK w) p s) !! g) =
    if decide (g = wGVK w) then List.filter (fun q => negb (bool_decide (q = p))) (default [] (watchers s !! g))
    else default [] (watchers s !! g)) as Hws.
  { intros g. unfold removeWatcher. simpl. case_decide as E; [subst; by rewrite lookup_insert_eq|].
    by rewrite lookup_insert_ne. }
  split; [|simpl; lia|done| |exact (streamsStep_refl s)|by rewrite app_nil_r].
  - rewrite app_nil_r. split; try done. split; simpl; try done.
    + intros g ws q [[<- <-]|[_ Hq]]%lookup_insert_Some Hin; [|eauto].
      apply list_elem_of_In, List.filter_In in Hin as [Hin _]. apply list_elem_of_In in Hin.
      destruct (watchers s !! wGVK w) eqn:E; simpl in Hin; [eauto|set_solver].
    + intros g ws [[<- <-]|[_ Hq]]%lookup_insert_Some; [|eauto].
      apply NoDup_ListNoDup, List.NoDup_filter, NoDup_ListNoDup.
      destruct (watchers s !! wGVK w) eqn:E; simpl; [eauto|constructor].
  - intros q w2 Hq Hop. rewrite Hws. pose proof (Hreg q w2 Hq Hop) as Hin.
    case_decide; [|done]. apply list_elem_of_In, List.filter_In. split; [by apply list_elem_of_In|].
    rewrite bool_decide_false; [done|]. intros ->. change (heap s !! p = Some w2) in Hq. congruence.
Qed.

Lemma step_ok l s' : step s l s' -> exists H', stepOk s H l H' s'.
Proof using All.
  inversion 1 as [? ? ? ? ? Ho E|? ? ? ? ? Ho E|? ? ? ? ? Ho E|? ? ? ? E|? ? ? ? ? Hf E|? p ? E|? p w Hp Hc|? ? ? ? ? E];
    simplify_eq.
  - by eapply Create_step.
  - by eapply Update_step.
  - by eapply UpdateStatus_step.
  - by eapply Delete_step.
  - destruct (Watch_step lst opts Hf) as (s2 & r2 & E2 & _ & Hk). rewrite E in E2. simplify_eq. eauto.
  - destruct (heap s !! p) as [w|] eqn:Hp.
    + destruct (stopClose_step p w Hp) as (s2 & E2 & Hk). rewrite E in E2. simplify_eq. eauto.
    + unfold stopClose in E. by rewrite Hp in E.
  - eexists. by apply removeWatcher_step.
  - eexists. by eapply receive_step.
Qed.
End step_facts.

(** ** Runs *)

Lemma streamStep_trans p w0 w w' tr l H1 H2 :
  (wGVK w = wGVK w0 /\ (wClosed w0 = true -> wClosed w = true) /\
   exists n, concat (map (receivedBy p) tr) ++ buf (wCh w) = buf (wCh w0) ++ take n (eventsOf (wGVK w0) H1) /\
     (wClosed w = false -> length (eventsOf (wGVK w0) H1) <= n)) ->
  streamStep p w l H2 w' ->
  (wGVK w' = wGVK w0 /\ (wClosed w0 = true -> wClosed w' = true) /\
   exists n, concat (map (receivedBy p) (tr ++ [l])) ++ buf (wCh w') =
       buf (wCh w0) ++ take n (eventsOf (wGVK w0) (H1 ++ H2)) /\
     (wClosed w' = false -> length (eventsOf (wGVK w0) (H1 ++ H2)) <= n)).
Proof.
  intros (Hg & Hc & n & E & Hn) (Hg' & Hc' & E'). split_and!; [congruence|auto|].
  rewrite map_app, concat_app. simpl. rewrite app_nil_r, <- (assoc_L (++)), E', (assoc_L (++)), E, eventsOf_app.
  destruct (wClosed w') eqn:Ec.
  - exists (Nat.min n (length (eventsOf (wGVK w0) H1))). split; [|done].
    rewrite app_nil_r, take_app_le by lia. f_equal.
    destruct (decide (n <= length (eventsOf (wGVK w0) H1))); [by rewrite Nat.min_l|].
    rewrite Nat.min_r, !take_ge by lia. done.
  - exists (length (eventsOf (wGVK w0) H1 ++ eventsOf (wGVK w0) H2)). split; [|done].
    assert (wClosed w = false) as Hw by (destruct (wClosed w); naive_solver).
    rewrite take_ge by (by apply Hn). rewrite take_ge by done. rewrite Hg. by rewrite (assoc_L (++)).
Qed.

(** A run of fewer steps than there are revisions left keeps the invariant;
    every watcher's stream (what its consumer received, then what is buffered)
    is its start followed by a prefix of the new events, all of them while it
    is open. *)
Lemma run_ok s H tr s' :
  Inv scheme s H -> registered s -> run s tr s' ->
  (Z.of_nat (length H) + Z.of_nat (length tr) <= max_int64)%Z ->
  exists H', Inv scheme s' (H ++ H') /\ registered s' /\ length H' <= length tr /\ eventLogMax s' = eventLogMax s /\
    (fullLog s H -> fullLog s' (H ++ H')) /\
    forall p w, heap s !! p = Some w -> exists w', heap s' !! p = Some w' /\
      wGVK w' = wGVK w /\ (wClosed w = true -> wClosed w' = true) /\
      exists n, concat (map (receivedBy p) tr) ++ buf (wCh w') = buf (wCh w) ++ take n (eventsOf (wGVK w) H') /\
        (wClosed w' = false -> length (eventsOf (wGVK w) H') <= n).
Proof using scheme_total.
  intros HI Hreg Hrun. induction Hrun as [s|s tr s1 l s2 Hrun IH Hstep]; intros Hlen.
  - exists []. rewrite app_nil_r. split_and!; [done|done|simpl; lia|done|done|]. intros p w Hw. exists w.
    split_and!; try done. exists 0. simpl. rewrite app_nil_r. split; [done|]. unfold eventsOf. simpl. lia.
  - rewrite length_app in Hlen. simpl in Hlen.
    destruct IH as (H1 & HI1 & Hr1 & Hl1 & Hm1 & Hfl1 & Hs1); [done|done|lia|].
    destruct (step_ok s1 (H ++ H1)) with (l := l) (s' := s2) as (H2 & [Hi2 Hl2 Hm2 Hr2 Hs2 Hfl2]);
      [done|unfold room; rewrite length_app; lia|done|done|].
    exists (H1 ++ H2). rewrite (assoc_L (++)), !length_app. simpl. split_and!; [done|done|lia|congruence|auto|].
    intros p w Hw. destruct (Hs1 p w Hw) as (w1 & Hw1 & Hrest). destruct (Hs2 p w1 Hw1) as (w2 & Hw2 & Hst).
    exists w2. split; [done|]. by eapply streamStep_trans.
Qed.

Lemma Inv_NewStore size :
  (0 <= size)%Z -> Inv scheme (NewStore [WithEventLogSize size]) [] /\ registered (NewStore [WithEventLogSize size]).
Proof.
  intros Hs. split; [|intros p w Hp; simpl in Hp; by rewrite lookup_empty in Hp].
  split; try done. by exists 0.
Qed.

(** ** Reachable stores *)

(** Reached from a new store by fewer steps than there are revisions. *)
Definition reachable (size : Z) (s : MemoryStore) : Prop :=
  exists tr, run (NewStore [WithEventLogSize size]) tr s /\ (Z.of_nat (length tr) < max_int64)%Z.

Lemma reachable_inv size s :
  (0 <= size)%Z -> reachable size s ->
  exists H, Inv scheme s H /\ registered s /\ room H /\ eventLogMax s = size /\ fullLog s H.
Proof using scheme_total.
  intros Hs (tr & Hrun & Hl). destruct (Inv_NewStore size Hs) as [HI Hr].
  destruct (run_ok _ [] tr s HI Hr Hrun) as (H & HI' & Hr' & Hl' & Hm & Hfl & _); [simpl; lia|].
  exists H. split_and!; [done|done|unfold room; lia|done|]. apply Hfl. done.
Qed.

End runs.
