(* ===== verification/MemoryStoreTheorems.v ===== *)
(** * Theorems about the in-memory backend

    The statements are about stores reached from [NewStore] by any sequence of
    calls of concurrent clients and watch consumers ([reachable], [run]). *)

From S2P Require Import Prelude GoStrconv GoJson GoJsonFacts Objects ObjectFacts.
From S2P Require Import SpecStatus StoreSpec Backend MemoryStore Fixtures MemoryStoreFacts.
From S2P Require Import MemoryStoreRuns.

Import Mem.

(** ** Observations *)

Definition objectsOf (s : MemoryStore) (g : GVK) : gmap ObjectKey Object := default ∅ (objects s !! g).

(** A call had the one effect [ev] on GVK [g]: the objects are those after the
    event, the revision moved by one and the event went to the open watchers. *)
Record emitted (s : MemoryStore) (g : GVK) (ev : Event) (s' : MemoryStore) : Prop := {
  em_objects : forall g', objectsOf s' g' = if decide (g' = g) then applyEvent (objectsOf s g) ev else objectsOf s g';
  em_revision : revision s' = (revision s + 1)%Z;
  em_log : forall e, last (eventLog s') = Some e -> e = mkEntry (revision s + 1) g ev;
  em_delivered : delivered g ev s s';
}.

(** The objects of a list by key. *)
Definition byKey (items : list Object) : gmap ObjectKey Object :=
  list_to_map (map (fun o => (ObjectKeyFromObject o, o)) items).

(** ** Auxiliary facts *)

Section aux.
Context (scheme : Scheme).

Lemma objectsOf_view s H g : Inv scheme s H -> objectsOf s g = view g H.
Proof. intros HI. apply HI. Qed.

Lemma toChange_inj e e' : toChange e = toChange e' -> e = e'.
Proof. destruct e, e'. unfold toChange. simpl. congruence. Qed.

Lemma last_map {A B} (f : A -> B) l : last (map f l) = f <$> last l.
Proof. induction l as [|x [|y l] IH]; [done|done|]. simpl in *. exact IH. Qed.

Lemma committed_emitted s H g ev s' :
  Inv scheme s H -> committed scheme s H g ev s' -> emitted s g ev s'.
Proof.
  intros HI Hc. pose proof Hc as [Hi Hd _ _ _ Hlog]. split; [| | |done].
  - intros g'. rewrite (objectsOf_view _ _ _ Hi), !(objectsOf_view _ _ _ HI), view_app, eventsOf_single. simpl.
    case_decide; [subst; by rewrite bool_decide_true|]. by rewrite bool_decide_false.
  - rewrite (inv_revision _ _ _ Hi), (inv_revision _ _ _ HI), length_app. simpl. lia.
  - intros e He. rewrite Hlog in He. apply last_lastn in He. rewrite last_app in He. by injection He.
Qed.

Lemma stored_ok s H g k o :
  Inv scheme s H -> objectsOf s g !! k = Some o ->
  okObject scheme o /\ gvkForObject scheme o = Ret g /\ ObjectKeyFromObject o = k.
Proof.
  intros HI Hk. rewrite (objectsOf_view _ _ _ HI) in Hk.
  destruct (stored_object scheme s H g _ k o HI (objects_lookup_Some _ _ _ _ _ _ HI Hk) Hk) as (? & ? & ? & _). done.
Qed.

Lemma stored_type s H g k o lst t :
  Inv scheme s H -> objectsOf s g !! k = Some o ->
  lItemsField lst = ItemsOf t -> SchemeNew scheme g = Ret (RObject (zeroObject t)) -> oType o = t.
Proof.
  intros HI Hk _ Ht. destruct (stored_ok s H g k o HI Hk) as ([_ Ho] & Hg & _). specialize (Ho g Hg).
  rewrite Ht in Ho. injection Ho as E. symmetry. exact E.
Qed.

(** [List] returns the matching objects and the store's revision. *)
Lemma List_items s H g lst opts :
  Inv scheme s H -> gvkForList scheme lst = Ret g -> okList scheme g lst ->
  List scheme lst opts s =
  (mkList (lName lst) (lItemsField lst) (FormatInt (revision s))
     (List.filter (fun ko => listed (applyOptions opts) ko.1 ko.2) (map_to_list (objectsOf s g))).*2, Ret tt).
Proof.
  intros HI Hg (t & Ht & Hn). unfold List. rewrite Hg. unfold populateListItems. simpl. rewrite Ht.
  fold (objectsOf s g).
  assert (forallb (fun o => bool_decide (tName (oType o) = tName t))
    (List.filter (fun ko => listed (applyOptions opts) ko.1 ko.2) (map_to_list (objectsOf s g))).*2 = true) as ->.
  { apply forallb_forall. intros o Ho. apply in_map_iff in Ho as ([k o'] & <- & Ho).
    apply List.filter_In in Ho as [Ho _]. apply list_elem_of_In, elem_of_map_to_list in Ho.
    apply bool_decide_eq_true_2. simpl. by rewrite (stored_type s H g k o' lst t). }
  unfold SetItems, SetListResourceVersion. simpl. by rewrite ?Ht.
Qed.

Lemma byKey_map_to_list (m : gmap ObjectKey Object) :
  (forall k o, m !! k = Some o -> ObjectKeyFromObject o = k) -> byKey (map_to_list m).*2 = m.
Proof.
  intros Hk. unfold byKey. rewrite map_map. rewrite <- (list_to_map_to_list m) at 2. f_equal.
  rewrite <- (map_id (map_to_list m)) at 2. apply map_ext_in. intros [k o] Hin. simpl.
  apply list_elem_of_In, elem_of_map_to_list in Hin. by rewrite (Hk k o).
Qed.

(** After a write of key [k], the stored object carries that write's revision
    or a later one. *)
Lemma view_lookup_after H g ev r H' k o :
  wfHistory (H ++ [mkChange r g ev] ++ H') -> ObjectKeyFromObject (evObject ev) = k ->
  evType ev <> EventBookmark ->
  view g (H ++ [mkChange r g ev] ++ H') !! k = Some o ->
  exists r', GetResourceVersion o = FormatInt r' /\ (Z.of_nat (length H) < r')%Z /\
    (r' <= Z.of_nat (S (length H + length H')))%Z.
Proof.
  intros Hwf Hk Hb Hv. rewrite (assoc_L (++)), view_app in Hv.
  apply applyEvents_lookup in Hv as [Hv|(e & He & <- & _ & _)].
  - rewrite view_app, eventsOf_single, bool_decide_true in Hv by done. simpl in Hv.
    assert ((H ++ [mkChange r g ev] ++ H') !! length H = Some (mkChange r g ev)) as Hl
      by (by rewrite lookup_app_r, Nat.sub_diag by lia).
    pose proof (wfh_revision _ Hwf _ _ Hl) as Hr. pose proof (wfh_object _ Hwf _ _ Hl) as Ho. simpl in Hr, Ho.
    exists r. unfold applyEvent in Hv. rewrite Hk in Hv.
    destruct (evType ev); try done; try (rewrite lookup_insert_eq in Hv; simplify_eq; split_and!; [done|lia|lia]).
    by rewrite lookup_delete_eq in Hv.
  - destruct (elem_of_eventsOf _ _ _ He) as (i & c & Hi & _ & <-).
    assert ((H ++ [mkChange r g ev] ++ H') !! (length H + S i) = Some c) as Hl.
    { rewrite lookup_app_r by lia. replace (length H + S i - length H) with (S i) by lia. done. }
    pose proof (wfh_revision _ Hwf _ _ Hl) as Hr. pose proof (wfh_object _ Hwf _ _ Hl) as Ho.
    apply lookup_lt_Some in Hi. exists (cRevision c). split_and!; [done|lia|lia].
Qed.

(** An update that moved the revision committed one change. *)
Lemma Update_commits s H g obj s' obj' :
  Inv scheme s H -> room H -> okObject scheme obj -> gvkForObject scheme obj = Ret g ->
  Update scheme obj s = (s', obj', Ret tt) -> revision s' <> revision s ->
  exists new, ObjectKeyFromObject new = ObjectKeyFromObject obj /\
    committed scheme s H g (mkEvent EventModified new) s'.
Proof.
  intros HI Hr Ho Hg HU Hne. pose proof (Update_spec scheme obj s H g HI Hr Ho Hg) as Hs. cbv zeta in Hs.
  destruct (view g H !! _) as [st|]; [|congruence]. case_bool_decide; [congruence|].
  destruct Hs as (m & new & _ & Hup & Hw). unfold wrote in Hw. rewrite HU in Hw.
  destruct (contentEqual st m).
  - destruct Hw as (o & _ & E). congruence.
  - destruct Hw as (s2 & o & Hc & _ & E). injection E as <- <-. exists new. split; [apply Hup|done].
Qed.

(** A resource version from before a change is never the one it wrote. *)
Lemma stale_rv s H g k st r :
  Inv scheme s H -> objectsOf s g !! k = Some st -> (Z.of_nat (length H) < r)%Z -> (r <= max_int64)%Z ->
  GetResourceVersion st <> FormatInt r.
Proof.
  intros HI Hst Hlt Hle. rewrite (objectsOf_view _ _ _ HI) in Hst.
  apply view_lookup in Hst as (_ & i & c & Hi & _ & _ & ->); [|apply HI].
  pose proof (wfh_revision _ (inv_history _ _ _ HI) _ _ Hi) as Hc. apply lookup_lt_Some in Hi.
  intros E. apply FormatInt_inj in E; [lia|apply in_int64_spec; unfold min_int64; lia..].
Qed.
End aux.

(** ** The theorems *)

Section theorems.
Context (scheme : Scheme) (size : Z).
Hypothesis scheme_total : forall t, ObjectKinds scheme t <> Panic.
Hypothesis size_nonneg : (0 <= size)%Z.

(** C1: a reachable in-memory store implements the abstract history. There is a
    well-formed history (changes numbered 1, 2, 3, ..., each object carrying its change's revision) such
    that the store's revision is its length, the stored objects of every GVK are what the history's
    events build, and the event log is the last [size] changes. *)
Theorem mem_refines_history s :
  reachable scheme size s ->
  exists H, wfHistory H /\ revision s = Z.of_nat (length H) /\
    (forall g, objectsOf s g = view g H) /\
    map toChange (eventLog s) = lastn (Z.to_nat size) H.
Proof using scheme_total size_nonneg.
  intros Hr. destruct (reachable_inv scheme scheme_total size s size_nonneg Hr) as (H & HI & _ & _ & Hm & Hfl).
  exists H. split_and!; try apply HI. by rewrite <- Hm.
Qed.

Lemma Get_returns key obj s : (Get scheme key obj s).2 <> Panic.
Proof using scheme_total.
  unfold Get, copyObject. pose proof (gvkForObject_total scheme scheme_total obj).
  destruct (gvkForObject scheme obj) as [g|e|]; try done. destruct (objects s !! g) as [m|]; [|done].
  destruct (m !! key) as [o|]; [|done]. by destruct (UnmarshalObject _ obj).
Qed.

Lemma List_returns s H lst opts :
  Inv scheme s H -> (forall g t, gvkForList scheme lst = Ret g -> lItemsField lst = ItemsOf t -> okList scheme g lst) ->
  (List scheme lst opts s).2 <> Panic.
Proof using scheme_total.
  intros HI Hl. pose proof (gvkForList_total scheme scheme_total lst) as Hp.
  destruct (gvkForList scheme lst) as [g|e|] eqn:Eg; [|unfold List; by rewrite Eg|done].
  destruct (lItemsField lst) as [|t|t] eqn:Ei; [unfold List; rewrite Eg; unfold populateListItems; simpl; by rewrite Ei..|].
  by rewrite (List_items scheme s H g lst opts HI Eg (Hl g t eq_refl eq_refl)).
Qed.

(** C11: no call on a reachable store of a log size that is not negative panics or blocks: writes with
    well-formed objects of their registered type and reads into any object return a value or an error, and
    so do lists whose items field, if the list has one that can be set, holds the kind's type; preloading a
    new watcher's replay never fills its channel, and stopping a watcher never closes a channel twice. *)
Theorem mem_calls_return s :
  reachable scheme size s ->
  (forall obj, okObject scheme obj ->
     (Create scheme obj s).2 <> Panic /\ (Update scheme obj s).2 <> Panic /\
     (UpdateStatus scheme obj s).2 <> Panic /\ (Delete scheme obj s).2 <> Panic) /\
  (forall key obj, (Get scheme key obj s).2 <> Panic) /\
  (forall lst opts, (forall g t, gvkForList scheme lst = Ret g -> lItemsField lst = ItemsOf t -> okList scheme g lst) ->
     (List scheme lst opts s).2 <> Panic) /\
  (forall lst opts, (forall from, fromRevisionOpt opts = Some from -> in_int64 from = true) ->
     exists s' r, Watch scheme lst opts s = Some (s', r) /\ r <> Panic) /\
  (forall p w, heap s !! p = Some w -> is_Some (Stop p s)).
Proof using scheme_total size_nonneg.
  intros Hr. destruct (reachable_inv scheme scheme_total size s size_nonneg Hr) as (H & HI & Hreg & Hroom & _).
  split_and!.
  - intros obj Ho. destruct (Create scheme obj s) as [[s1 o1] r1] eqn:E1.
    destruct (Update scheme obj s) as [[s2 o2] r2] eqn:E2.
    destruct (UpdateStatus scheme obj s) as [[s3 o3] r3] eqn:E3.
    destruct (Delete scheme obj s) as [s4 r4] eqn:E4.
    split_and!; [by eapply Create_step|by eapply Update_step|by eapply UpdateStatus_step|by eapply Delete_step].
  - intros key obj. apply Get_returns.
  - intros lst opts. by apply (List_returns s H lst opts).
  - intros lst opts Hf.
    destruct (Watch_step scheme scheme_total s H HI Hroom Hreg lst opts Hf) as (s' & r & E & Hp & _). eauto.
  - intros p w Hp. unfold Stop. rewrite Hp.
    destruct (stopClose_step scheme scheme_total s H HI Hroom Hreg p w Hp) as (s' & -> & _). by eexists.
Qed.

(** C2: a watcher's consumer sees, in order and without gaps or duplicates, the replay
    and then every event of the watched GVK committed after the [Watch] call: what it has received
    followed by what is buffered is exactly that sequence while the watcher is open, and a prefix of it
    once the watcher was stopped or evicted for being slow. *)
Theorem mem_watch_stream s1 lst opts s2 p tr s3 :
  reachable scheme size s1 ->
  (forall from, fromRevisionOpt opts = Some from -> in_int64 from = true) ->
  Watch scheme lst opts s1 = Some (s2, Ret p) ->
  run scheme s2 tr s3 -> (revision s1 + Z.of_nat (length tr) <= max_int64)%Z ->
  exists g H1 H2 w,
    gvkForList scheme lst = Ret g /\ Inv scheme s1 H1 /\ Inv scheme s3 (H1 ++ H2) /\
    heap s3 !! p = Some w /\
    let seen := concat (map (receivedBy p) tr) ++ buf (wCh w) in
    let expected := replayOf opts g H1 ++ eventsOf g H2 in
    seen `prefix_of` expected /\ (wClosed w = false -> seen = expected).
Proof using scheme_total size_nonneg.
  intros Hr Hf Hw Hrun Hlen.
  destruct (reachable_inv scheme scheme_total size s1 size_nonneg Hr) as (H & HI & Hreg & Hroom & _).
  destruct (gvkForList scheme lst) as [g|e|] eqn:Hg; [|by unfold Watch in Hw; rewrite Hg in Hw..].
  assert (p = nextPtr s1 /\ watching s1 g (replayOf opts g H) s2) as [-> Hwt].
  { pose proof (Watch_spec scheme lst opts s1 H g HI Hroom Hg Hf) as Hs. cbv zeta in Hs.
    destruct (fromRevisionOpt opts); [destruct (_ <? _)%Z; [congruence|]|];
      destruct Hs as (s' & E & ?); by simplify_eq. }
  destruct (watching_step scheme scheme_total s1 H HI Hroom Hreg g _ s2 Hwt) as [HI2 _ _ Hreg2 _ _].
  rewrite app_nil_r in HI2. destruct Hwt as (n & Eh & _).
  destruct (run_ok scheme scheme_total s2 H tr s3 HI2 Hreg2 Hrun) as (H2 & HI3 & _ & _ & _ & _ & Hs).
  { rewrite <- (inv_revision _ _ _ HI). done. }
  destruct (Hs (nextPtr s1) _ ltac:(rewrite Eh; apply lookup_insert_eq)) as (w & Hp & _ & _ & k & E & Hk).
  simpl in E, Hk. exists g, H, H2, w. split_and!; try done. cbv zeta. rewrite E. split.
  - apply prefix_app. apply prefix_take.
  - intros Ho. by rewrite take_ge by auto.
Qed.

(** C3: listing and then watching from the list's resource version misses nothing:
    for any calls in between, if the watch is accepted, applying its replay to the listed objects gives
    exactly the objects the store holds when the watch starts. *)
Theorem mem_list_then_watch s1 lst l tr s2 lst' rv g s3 p :
  reachable scheme size s1 -> gvkForList scheme lst = Ret g -> okList scheme g lst ->
  List scheme lst [] s1 = (l, Ret tt) ->
  run scheme s1 tr s2 -> (revision s1 + Z.of_nat (length tr) < max_int64)%Z ->
  ParseInt (lResourceVersion l) = (rv, None) -> gvkForList scheme lst' = Ret g ->
  Watch scheme lst' [WatchFromRevision rv] s2 = Some (s3, Ret p) ->
  exists w, heap s3 !! p = Some w /\
    applyEvents (byKey (lItems l)) (buf (wCh w)) = objectsOf s3 g.
Proof using scheme_total size_nonneg.
  intros Hr Hg Hl EL Hrun Hlen Hrv Hg' Hw.
  destruct (reachable_inv scheme scheme_total size s1 size_nonneg Hr) as (H & HI & Hreg & Hroom & _).
  rewrite (List_items scheme s1 H g lst [] HI Hg Hl) in EL. simplify_eq/=.
  pose proof (inv_revision _ _ _ HI) as Erev. unfold room in Hroom.
  rewrite ParseInt_FormatInt in Hrv by (apply in_int64_spec; unfold min_int64; lia). simplify_eq.
  destruct (run_ok scheme scheme_total s1 H tr s2 HI Hreg Hrun) as (H2 & HI2 & Hreg2 & Hl2 & _ & _); [lia|].
  assert (room (H ++ H2)) as Hroom2 by (unfold room; rewrite length_app; lia).
  pose proof (Watch_spec scheme lst' [WatchFromRevision (revision s1)] s2 (H ++ H2) g HI2 Hroom2 Hg') as Hs.
  cbn [fromRevisionOpt foldl] in Hs. cbv zeta in Hs.
  assert (exists s', Watch scheme lst' [WatchFromRevision (revision s1)] s2 = Some (s', Ret (nextPtr s2)) /\
    watching s2 g (replayOf [WatchFromRevision (revision s1)] g (H ++ H2)) s') as (s' & Ew & Hwt).
  { destruct (_ <? _)%Z; [|apply Hs]; [|intros ? [= <-]; apply in_int64_spec; unfold min_int64; lia].
    rewrite Hs in Hw; [done|]. intros ? [= <-]; apply in_int64_spec; unfold min_int64; lia. }
  rewrite Hw in Ew. injection Ew as <- ->. destruct Hwt as (n & Eh & _ & _ & _ & _ & Eo & _).
  eexists. rewrite Eh, lookup_insert_eq. split; [done|]. simpl.
  assert (objectsOf s3 g = view g (H ++ H2)) as -> by (unfold objectsOf; rewrite Eo; apply HI2).
  rewrite filter_all by (by apply Forall_true).
  rewrite byKey_map_to_list by (intros k o Hk; by apply (stored_ok scheme s1 H g k o HI) in Hk as (_ & _ & ?)).
  rewrite (objectsOf_view scheme s1 H g HI), Erev. unfold replayOf. simpl.
  rewrite changesSince_drop by apply HI2. rewrite drop_app_length. by rewrite view_app.
Qed.

(** C12: a watch from a revision is refused with [RevisionTooOldError] exactly
    when a change after that revision has been trimmed from the log, and the error names the oldest
    revision that can still be replayed; otherwise the watcher starts open, with the later changes of
    the GVK, filtered by the label selector, in its buffer. *)
Theorem mem_watch_replay_or_gone s lst opts from g :
  reachable scheme size s -> gvkForList scheme lst = Ret g ->
  fromRevisionOpt opts = Some from -> in_int64 from = true ->
  exists H, Inv scheme s H /\
    let lost := (revision s - Z.min size (revision s))%Z in
    if (from <? lost)%Z
    then Watch scheme lst opts s = Some (s, Fail (RevisionTooOldError from (lost + 1)))
    else exists s' n, Watch scheme lst opts s = Some (s', Ret (nextPtr s)) /\
      heap s' !! nextPtr s = Some (mkWatcher g (Chan
        (selectEvents (loLabelSelector (applyOptions opts)) (eventsOf g (changesSince from H))) n false) false).
Proof using scheme_total size_nonneg.
  intros Hr Hg Hf Hi.
  destruct (reachable_inv scheme scheme_total size s size_nonneg Hr) as (H & HI & Hreg & Hroom & Hm & Hfl).
  exists H. split; [done|]. cbv zeta.
  assert (trimmed s = revision s - Z.min size (revision s))%Z as <-.
  { unfold trimmed. pose proof Hfl as Hlog. apply (f_equal length) in Hlog.
    rewrite length_map, lastn_length, Hm in Hlog. rewrite (inv_revision _ _ _ HI). lia. }
  pose proof (Watch_spec scheme lst opts s H g HI Hroom Hg) as Hs. cbv zeta in Hs. rewrite Hf in Hs.
  specialize (Hs ltac:(by intros ? [= <-])). destruct (_ <? _)%Z; [done|].
  destruct Hs as (s' & E & n & Eh & _). exists s', n. split; [done|]. rewrite Eh, lookup_insert_eq.
  unfold replayOf. by rewrite Hf.
Qed.

(** [List] returns exactly the stored objects of the GVK that are in the requested
    namespace and match the label selector, each once, with the store's revision as the list's resource
    version. *)
Theorem mem_List_exact s lst opts g :
  reachable scheme size s -> gvkForList scheme lst = Ret g -> okList scheme g lst ->
  exists l, List scheme lst opts s = (l, Ret tt) /\
    ParseInt (lResourceVersion l) = (revision s, None) /\
    NoDup (map ObjectKeyFromObject (lItems l)) /\
    forall o, o ∈ lItems l <->
      objectsOf s g !! ObjectKeyFromObject o = Some o /\
      (loNamespace (applyOptions opts) = "" \/ GetNamespace o = loNamespace (applyOptions opts)) /\
      (forall sel, loLabelSelector (applyOptions opts) = Some sel -> lsMatches sel (GetLabels o) = true).
Proof using scheme_total size_nonneg.
  intros Hr Hg Hl.
  destruct (reachable_inv scheme scheme_total size s size_nonneg Hr) as (H & HI & Hreg & Hroom & Hm).
  rewrite (List_items scheme s H g lst opts HI Hg Hl). eexists. split; [done|]. simpl.
  pose proof (inv_revision _ _ _ HI) as Erev. unfold room in Hroom.
  rewrite ParseInt_FormatInt by (apply in_int64_spec; unfold min_int64; lia). split; [done|].
  assert (Hkey : forall k o, (k, o) ∈ map_to_list (objectsOf s g) -> ObjectKeyFromObject o = k).
  { intros k o Hk%elem_of_map_to_list. by apply (stored_ok scheme s H g k o HI) in Hk as (_ & _ & ?). }
  split.
  - rewrite map_map. erewrite map_ext_in.
    + apply NoDup_map_filter, NoDup_fst_map_to_list.
    + intros [k o] Hin. apply List.filter_In in Hin as [Hin _]. apply list_elem_of_In in Hin. by apply Hkey.
  - intros o. rewrite list_elem_of_In, in_map_iff. split.
    + intros ([k o'] & <- & Hin). apply List.filter_In in Hin as [Hin Hb]. apply list_elem_of_In in Hin. simpl in *.
      apply listed_spec in Hb. rewrite (Hkey _ _ Hin). apply Hkey in Hin as Hk. subst k.
      apply elem_of_map_to_list in Hin. done.
    + intros (Hk & Hb). exists (ObjectKeyFromObject o, o). split; [done|].
      apply List.filter_In. split; [by apply list_elem_of_In, elem_of_map_to_list|]. by apply listed_spec.
Qed.

(** [Create] fails with [AlreadyExistsError] and changes nothing when the key is taken;
    otherwise it stores the object with generation 1, the next revision as resource version and a
    generated UID if it had none, returns that object to the caller and emits one ADDED event. *)
Theorem mem_Create s obj g :
  reachable scheme size s -> okObject scheme obj -> gvkForObject scheme obj = Ret g ->
  match objectsOf s g !! ObjectKeyFromObject obj with
  | Some _ => Create scheme obj s = (s, obj, Fail (AlreadyExistsError (keyString (ObjectKeyFromObject obj))))
  | None => exists s', Create scheme obj s = (s', created obj s, Ret tt) /\
              emitted s g (mkEvent EventAdded (created obj s)) s'
  end.
Proof using scheme_total size_nonneg.
  intros Hr Ho Hg.
  destruct (reachable_inv scheme scheme_total size s size_nonneg Hr) as (H & HI & Hreg & Hroom & Hm).
  pose proof (Create_spec scheme obj s H g HI Hroom Ho Hg) as Hs.
  rewrite (objectsOf_view scheme s H g HI). destruct (view g H !! _); [done|].
  destruct Hs as (s' & E & Hc). exists s'. split; [done|]. by eapply committed_emitted.
Qed.

(** What [Create] stored, [Get] into a fresh object returns: the caller's object with
    the server-managed metadata, up to the reset of empty [omitempty] fields that JSON cannot tell
    apart. *)
Theorem mem_Create_Get s obj g s' obj' :
  reachable scheme size s -> okObject scheme obj -> gvkForObject scheme obj = Ret g ->
  Create scheme obj s = (s', obj', Ret tt) ->
  Get scheme (ObjectKeyFromObject obj) (zeroObject (oType obj)) s' = (normObject obj', Ret tt) /\
  MarshalObject (normObject obj') = MarshalObject obj'.
Proof using scheme_total size_nonneg.
  intros Hr Ho Hg HC.
  destruct (reachable_inv scheme scheme_total size s size_nonneg Hr) as (H & HI & Hreg & Hroom & Hm).
  pose proof (Create_spec scheme obj s H g HI Hroom Ho Hg) as Hs.
  destruct (view g H !! _); [congruence|]. destruct Hs as (s2 & E & Hc). rewrite HC in E.
  injection E as <- ->. destruct (okObject_created scheme obj s Ho) as [Hw _].
  split; [|by apply MarshalObject_norm].
  assert (objectsOf s' g !! ObjectKeyFromObject obj = Some (created obj s)) as Hl.
  { rewrite (em_objects _ _ _ _ (committed_emitted scheme s H g _ s' HI Hc) g), decide_True by done.
    unfold applyEvent. simpl. rewrite key_created. apply lookup_insert_eq. }
  unfold Get. rewrite <- (gvkForObject_type scheme obj) by done. rewrite Hg. unfold objectsOf in Hl.
  destruct (objects s' !! g) as [m|]; simpl in Hl; [|by rewrite lookup_empty in Hl]. rewrite Hl.
  unfold copyObject. assert (oType obj = oType (created obj s)) as -> by (unfold created; by case_bool_decide).
  by rewrite UnmarshalObject_zero.
Qed.

(** C34: [Update] fails with [NotFoundError] or, when the resource version differs from the
    stored one, with [ConflictError], and then changes nothing. Otherwise either the input has
    nothing to write (the stored labels, annotations and fields) and the store stays as it is, or it
    stores an object with the input's spec, labels and annotations, the stored status (for a status that is always encoded) and UID, a generation
    incremented exactly when the encoded spec differs, and the next revision, and emits one MODIFIED
    event. *)
Theorem mem_Update s obj g :
  reachable scheme size s -> okObject scheme obj -> gvkForObject scheme obj = Ret g ->
  let key := ObjectKeyFromObject obj in
  match objectsOf s g !! key with
  | None => Update scheme obj s = (s, obj, Fail (NotFoundError (keyString key)))
  | Some st =>
      if bool_decide (GetResourceVersion obj <> GetResourceVersion st)
      then Update scheme obj s = (s, obj, Fail (ConflictError (keyString key)))
      else exists s' obj', Update scheme obj s = (s', obj', Ret tt) /\
        ((s' = s /\ unchanged obj st /\ copyObject st obj = (obj', Ret tt)) \/
         exists new, updateOf scheme (specGeneration obj st) obj st new (revision s) /\ copyObject new obj = (obj', Ret tt) /\
                     emitted s g (mkEvent EventModified new) s')
  end.
Proof using scheme_total size_nonneg.
  intros Hr Ho Hg key.
  destruct (reachable_inv scheme scheme_total size s size_nonneg Hr) as (H & HI & Hreg & Hroom & Hm).
  pose proof (Update_spec scheme obj s H g HI Hroom Ho Hg) as Hs. cbv zeta in Hs. fold key in Hs.
  destruct (objectsOf s g !! key) as [st|] eqn:El; pose proof El as El';
    rewrite (objectsOf_view scheme s H g HI) in El'; rewrite El' in Hs; [|done].
  destruct (stored_ok scheme s H g key st HI El) as (Hst & Hgs & _).
  case_bool_decide; [done|]. destruct Hs as (m & new & Em & Hup & Hw). unfold wrote in Hw.
  destruct (contentEqual st m) eqn:Ec.
  - destruct Hw as (o & Eo & E). exists s, o. split; [done|]. left. split_and!; try done.
    by eapply noop_unchanged; [apply Ho|apply Hst|eapply okObject_same_type|..].
  - destruct Hw as (s' & o & Hc & Eo & E). exists s', o. split; [done|]. right. exists new.
    split_and!; [done..|]. by eapply committed_emitted.
Qed.

(** C35: [UpdateStatus] has the same error cases; a successful one stores the input's
    status, keeps the stored UID, generation and every other always-encoded field, and emits one
    MODIFIED event; nothing is written only when the stored status is the input's. Labels and
    annotations of the input are merged into the stored ones. (The documented contract has the metadata
    of the input ignored.) *)
Theorem mem_UpdateStatus s obj g :
  reachable scheme size s -> okObject scheme obj -> gvkForObject scheme obj = Ret g ->
  let key := ObjectKeyFromObject obj in
  match objectsOf s g !! key with
  | None => UpdateStatus scheme obj s = (s, obj, Fail (NotFoundError (keyString key)))
  | Some st =>
      if bool_decide (GetResourceVersion obj <> GetResourceVersion st)
      then UpdateStatus scheme obj s = (s, obj, Fail (ConflictError (keyString key)))
      else exists s' obj', UpdateStatus scheme obj s = (s', obj', Ret tt) /\
        ((s' = s /\ rawField "status" obj = rawField "status" st /\ copyObject st obj = (obj', Ret tt)) \/
         exists new, statusUpdateOf scheme obj st new (revision s) /\ copyObject new obj = (obj', Ret tt) /\
                     emitted s g (mkEvent EventModified new) s')
  end.
Proof using scheme_total size_nonneg.
  intros Hr Ho Hg key.
  destruct (reachable_inv scheme scheme_total size s size_nonneg Hr) as (H & HI & Hreg & Hroom & Hm).
  pose proof (UpdateStatus_spec scheme obj s H g HI Hroom Ho Hg) as Hs. cbv zeta in Hs. fold key in Hs.
  destruct (objectsOf s g !! key) as [st|] eqn:El; pose proof El as El';
    rewrite (objectsOf_view scheme s H g HI) in El'; rewrite El' in Hs; [|done].
  destruct (stored_ok scheme s H g key st HI El) as (Hst & Hgs & _).
  case_bool_decide; [done|]. destruct Hs as (m & new & Em & Hup & Hw). unfold wrote in Hw.
  destruct (contentEqual st _) eqn:Ec.
  - destruct Hw as (o & Eo & E). exists s, o. split; [done|]. left. split_and!; try done.
    by eapply status_noop_unchanged; [apply Ho|apply Hst|eapply okObject_same_type|..].
  - destruct Hw as (s' & o & Hc & Eo & E). exists s', o. split; [done|]. right. exists new.
    split_and!; [done..|]. by eapply committed_emitted.
Qed.

(** [Delete] fails with [NotFoundError], or with [ConflictError] for a stale non-empty
    resource version, and then changes nothing; otherwise it removes the object and emits one DELETED
    event carrying the last stored object at the deletion's revision. *)
Theorem mem_Delete s obj g :
  reachable scheme size s -> gvkForObject scheme obj = Ret g ->
  let key := ObjectKeyFromObject obj in
  match objectsOf s g !! key with
  | None => Delete scheme obj s = (s, Fail (NotFoundError (keyString key)))
  | Some st =>
      if bool_decide (GetResourceVersion obj <> "") && bool_decide (GetResourceVersion obj <> GetResourceVersion st)
      then Delete scheme obj s = (s, Fail (ConflictError (keyString key)))
      else exists s', Delete scheme obj s = (s', Ret tt) /\ objectsOf s' g !! key = None /\
             emitted s g (mkEvent EventDeleted (SetResourceVersion (FormatInt (revision s + 1)) st)) s'
  end.
Proof using scheme_total size_nonneg.
  intros Hr Hg key.
  destruct (reachable_inv scheme scheme_total size s size_nonneg Hr) as (H & HI & Hreg & Hroom & Hm).
  pose proof (Delete_spec scheme obj s H g HI Hroom Hg) as Hs. cbv zeta in Hs. fold key in Hs.
  destruct (objectsOf s g !! key) as [st|] eqn:El; rewrite (objectsOf_view scheme s H g HI) in El; rewrite El in Hs;
    [|done].
  destruct (_ && _); [done|]. destruct Hs as (s' & E & Hc). exists s'.
  pose proof (committed_emitted scheme s H g _ s' HI Hc) as Hem. split_and!; [done| |done].
  rewrite (em_objects _ _ _ _ Hem), decide_True by done. unfold applyEvent. simpl.
  rewrite <- (objectsOf_view scheme s H g HI) in El. apply (stored_ok scheme s H g key st HI) in El as (_ & _ & Hk).
  autorewrite with sc_rw. rewrite Hk. apply lookup_delete_eq.
Qed.

(** C36: when the key is free, [Delete] fails with [NotFoundError] and [Create] stores the object with generation
    1, the next revision and a generated UID if it had none, returns that object and emits one ADDED event. When
    it is taken, [Create] fails with [AlreadyExistsError], and [Delete] fails with [ConflictError] for a stale
    non-empty resource version or removes the object and emits one DELETED event with the last stored object at
    the deletion's revision. A failed call changes nothing. *)
Theorem mem_Create_Delete s obj g :
  reachable scheme size s -> okObject scheme obj -> gvkForObject scheme obj = Ret g ->
  let key := ObjectKeyFromObject obj in
  match objectsOf s g !! key with
  | None =>
      Delete scheme obj s = (s, Fail (NotFoundError (keyString key))) /\
      exists s', Create scheme obj s = (s', created obj s, Ret tt) /\ emitted s g (mkEvent EventAdded (created obj s)) s'
  | Some st =>
      Create scheme obj s = (s, obj, Fail (AlreadyExistsError (keyString key))) /\
      if bool_decide (GetResourceVersion obj <> "") && bool_decide (GetResourceVersion obj <> GetResourceVersion st)
      then Delete scheme obj s = (s, Fail (ConflictError (keyString key)))
      else exists s', Delete scheme obj s = (s', Ret tt) /\ objectsOf s' g !! key = None /\
             emitted s g (mkEvent EventDeleted (SetResourceVersion (FormatInt (revision s + 1)) st)) s'
  end.
Proof using scheme_total size_nonneg.
  intros Hr Ho Hg key. pose proof (mem_Create s obj g Hr Ho Hg) as Hc. pose proof (mem_Delete s obj g Hr Hg) as Hd.
  cbv zeta in Hd. fold key in Hc, Hd. by destruct (objectsOf s g !! key).
Qed.

(** C10: no lost updates. Once an update of an object has been committed, a
    writer that still holds the resource version from before it can never overwrite the object, however
    many calls of other clients run in between: its [Update] or [UpdateStatus] fails with a conflict, or
    with not-found if the object is gone, and changes nothing. *)
Theorem mem_stale_write_conflicts s1 obj1 g st s2 obj1' tr s3 obj2 :
  reachable scheme size s1 -> okObject scheme obj1 -> gvkForObject scheme obj1 = Ret g ->
  objectsOf s1 g !! ObjectKeyFromObject obj1 = Some st ->
  Update scheme obj1 s1 = (s2, obj1', Ret tt) -> revision s2 <> revision s1 ->
  run scheme s2 tr s3 -> (revision s2 + Z.of_nat (length tr) < max_int64)%Z ->
  okObject scheme obj2 -> gvkForObject scheme obj2 = Ret g ->
  ObjectKeyFromObject obj2 = ObjectKeyFromObject obj1 ->
  GetResourceVersion obj2 = GetResourceVersion st ->
  exists e, (e = ConflictError (keyString (ObjectKeyFromObject obj1)) \/
             e = NotFoundError (keyString (ObjectKeyFromObject obj1))) /\
    Update scheme obj2 s3 = (s3, obj2, Fail e) /\ UpdateStatus scheme obj2 s3 = (s3, obj2, Fail e).
Proof using scheme_total size_nonneg.
  intros Hr Ho1 Hg1 Hst HU Hne Hrun Hlen Ho2 Hg2 Hkey Hrv.
  destruct (reachable_inv scheme scheme_total size s1 size_nonneg Hr) as (H & HI & Hreg & Hroom & Hm).
  destruct (Update_commits scheme s1 H g obj1 s2 obj1' HI Hroom Ho1 Hg1 HU Hne) as (new & Hup & Hc).
  destruct (stepOk_committed scheme s1 H g _ s2 HI Hreg Hc) as [HI2 _ _ Hreg2 _].
  destruct (run_ok scheme scheme_total s2 _ tr s3 HI2 Hreg2 Hrun) as (H3 & HI3 & _ & Hl3 & _ & _).
  { rewrite <- (inv_revision _ _ _ HI2). lia. }
  assert (room ((H ++ [mkChange (revision s1 + 1) g (mkEvent EventModified new)]) ++ H3)) as Hroom3.
  { rewrite (inv_revision _ _ _ HI2) in Hlen. unfold room. rewrite length_app. lia. }
  pose proof (Update_spec scheme obj2 s3 _ g HI3 Hroom3 Ho2 Hg2) as HU2.
  pose proof (UpdateStatus_spec scheme obj2 s3 _ g HI3 Hroom3 Ho2 Hg2) as HS2. cbv zeta in HU2, HS2.
  rewrite Hkey in HU2, HS2.
  destruct (view g _ !! ObjectKeyFromObject obj1) as [o|] eqn:Ev; [|by eauto].
  rewrite <- (assoc_L (++)) in Ev. apply view_lookup_after in Ev as (r' & Hr' & Hlt & Hle);
    [|rewrite (assoc_L (++)); apply HI3|apply Hup|done].
  rewrite bool_decide_true in HU2, HS2; [by eauto|..].
  all: rewrite Hrv, Hr'; eapply stale_rv; [exact HI|exact Hst|lia|];
    revert Hle; unfold room in Hroom3; rewrite !length_app in Hroom3; simpl in Hroom3; lia.
Qed.

(** Updating an object with what [Get] returned for it, unchanged, succeeds
    without a new revision, without an event and without touching the store. *)
Theorem mem_noop_update_silent s g key st :
  reachable scheme size s -> objectsOf s g !! key = Some st ->
  exists obj, Get scheme key (zeroObject (oType st)) s = (obj, Ret tt) /\
    Update scheme obj s = (s, obj, Ret tt).
Proof using scheme_total size_nonneg.
  intros Hr Hst.
  destruct (reachable_inv scheme scheme_total size s size_nonneg Hr) as (H & HI & Hreg & Hroom & Hm).
  destruct (stored_ok scheme s H g key st HI Hst) as (Ho & Hg & Hk).
  exists (normObject st). destruct (normObject_typed st) as [Hw Ht]; [apply Ho|].
  split.
  - unfold Get. rewrite <- (gvkForObject_type scheme st), Hg by done. unfold objectsOf in Hst.
    destruct (objects s !! g); simpl in Hst; [|by rewrite lookup_empty in Hst]. rewrite Hst.
    unfold copyObject. rewrite UnmarshalObject_zero by apply Ho. done.
  - assert (MarshalObject (normObject st) = MarshalObject st) as E by (apply MarshalObject_norm, Ho).
    destruct (same_encoding_meta (normObject st) st) as (_ & _ & Ek); [done|apply Ho|done|].
    apply (Update_noop scheme _ st s H g HI Hroom); [by apply (okObject_type scheme st)| | |done].
    + by rewrite (gvkForObject_type scheme _ st).
    + by rewrite <- (objectsOf_view scheme s H g HI), Ek, Hk.
Qed.
End theorems.
