(* ===== verification/MemoryInterface.v ===== *)
(** * The in-memory backend is a Store

    The laws of the Store interface, discharged by the theorems about the
    in-memory backend. *)

From S2P Require Import Prelude GoStrconv GoJson GoJsonFacts Objects ObjectFacts.
From S2P Require Import SpecStatus StoreSpec StoreInterface Backend MemoryStore MemoryStoreFacts.
From S2P Require Import MemoryStoreRuns MemoryStoreTheorems.

Import Mem.

#[export] Instance Mem_StoreOps (scheme : Scheme) : StoreOps MemoryStore := {
  sGet := Get scheme;
  sList := List scheme;
  sCreate := Create scheme;
  sUpdate := Update scheme;
  sUpdateStatus := UpdateStatus scheme;
  sDelete := Delete scheme;
  sWatch := Watch scheme;
  sBuffered p s := from_option (fun w => buf (wCh w)) [] (heap s !! p);
}.

Section laws.
Context (scheme : Scheme).
Hypothesis scheme_total : forall t, ObjectKinds scheme t <> Panic.

Definition memHist (s : MemoryStore) (H : list change) : Prop := Inv scheme s H /\ registered s.

Lemma committed_appends s H g ev s' :
  memHist s H -> committed scheme s H g ev s' -> appends memHist H g ev s'.
Proof using scheme_total.
  intros [HI Hr] Hc. destruct (stepOk_committed scheme s H g ev s' HI Hr Hc) as [HI' _ _ Hr' _ _].
  unfold appends. by rewrite <- (inv_revision _ _ _ HI).
Qed.

Lemma mem_law_Update s H obj g :
  memHist s H -> hasRoom H -> okObject scheme obj -> True -> gvkForObject scheme obj = Ret g ->
  match view g H !! ObjectKeyFromObject obj with
  | None => Update scheme obj s = (s, obj, Fail (NotFoundError (keyString (ObjectKeyFromObject obj))))
  | Some st =>
      if bool_decide (GetResourceVersion obj <> GetResourceVersion st)
      then Update scheme obj s = (s, obj, Fail (ConflictError (keyString (ObjectKeyFromObject obj))))
      else exists s' obj', Update scheme obj s = (s', obj', Ret tt) /\
        ((s' = s /\ unchanged obj st /\ copyObject st obj = (obj', Ret tt)) \/
         exists new, updates obj st new /\ copyObject new obj = (obj', Ret tt) /\
           appends memHist H g (mkEvent EventModified new) s')
  end.
Proof using scheme_total.
  intros Hh Hr Ho _ Hg. pose proof (Update_spec scheme obj s H g (proj1 Hh) Hr Ho Hg) as Hs. cbv zeta in Hs.
  destruct (view g H !! _) as [st|] eqn:Ev; [|done]. case_bool_decide; [done|].
  destruct Hs as (m & new & Em & Hup & Hw). unfold wrote in Hw. destruct (contentEqual st m) eqn:Ec.
  - destruct Hw as (o & Eo & ->). exists s, o. split; [done|]. left. split_and!; [done| |done].
    rewrite <- (objectsOf_view scheme s H g (proj1 Hh)) in Ev.
    destruct (stored_ok scheme s H g _ st (proj1 Hh) Ev) as (Hst & Hgs & _).
    by eapply noop_unchanged; [apply Ho|apply Hst|eapply okObject_same_type|..].
  - destruct Hw as (s' & o & Hc & Eo & ->). exists s', o. split; [done|]. right. exists new.
    split_and!; [by eapply updateOf_updates|done|]. by apply (committed_appends s).
Qed.

Lemma mem_law_Watch s H lst opts g :
  memHist s H -> hasRoom H -> gvkForList scheme lst = Ret g ->
  (forall from, fromRevisionOpt opts = Some from -> in_int64 from = true) ->
  exists s' r, Watch scheme lst opts s = Some (s', r) /\ memHist s' H /\
    match r with
    | Ret p => from_option (fun w => buf (wCh w)) [] (heap s' !! p) = replayOf opts g H
    | Fail e => exists from, fromRevisionOpt opts = Some from /\ (from < Z.of_nat (length H))%Z /\
                  exists oldest, e = RevisionTooOldError from oldest
    | Panic => False
    end.
Proof using scheme_total.
  intros [HI Hreg] Hroom Hg Hf. pose proof (Watch_spec scheme lst opts s H g HI Hroom Hg Hf) as Hs. cbv zeta in Hs.
  assert ((exists s', Watch scheme lst opts s = Some (s', Ret (nextPtr s)) /\ watching s g (replayOf opts g H) s') ->
    exists s' r, Watch scheme lst opts s = Some (s', r) /\ memHist s' H /\
    match r with
    | Ret p => from_option (fun w => buf (wCh w)) [] (heap s' !! p) = replayOf opts g H
    | Fail e => exists from, fromRevisionOpt opts = Some from /\ (from < Z.of_nat (length H))%Z /\
                  exists oldest, e = RevisionTooOldError from oldest
    | Panic => False
    end) as Hok.
  { intros (s' & E & Hw). exists s', (Ret (nextPtr s)).
    destruct (watching_step scheme scheme_total s H HI Hroom Hreg g _ s' Hw) as [HI' _ _ Hr' _ _].
    rewrite app_nil_r in HI'. destruct Hw as (n & Eh & _). split_and!; [done|done|].
    by rewrite Eh, lookup_insert_eq. }
  destruct (fromRevisionOpt opts) as [from|] eqn:Ef; [|by apply Hok].
  destruct (Z.ltb_spec from (trimmed s)) as [Hlt|]; [|by apply Hok].
  eexists s, _. split_and!; [done|done|]. exists from. split_and!; [done| |by eexists].
  unfold trimmed in Hlt. rewrite (inv_revision _ _ _ HI) in Hlt. lia.
Qed.

#[refine, export] Instance Mem_StoreLaws : StoreLaws (H := Mem_StoreOps scheme) MemoryStore scheme := {
  hist := memHist;
  validKey _ := True;
  validObject _ := True;
  valid_key _ _ := I;
  hist_wf := _;
  hist_bound := _;
  hist_stored := _;
  law_Get := _;
  law_List := _;
  law_Update := mem_law_Update;
  law_Delete := _;
  law_Watch := mem_law_Watch;
}.
Proof using scheme_total.
  - intros s H [HI _]. apply HI.
  - intros s H [HI _]. apply HI.
  - intros s H g k o [HI _] Hk. rewrite <- (objectsOf_view scheme s H g HI) in Hk.
    by destruct (stored_ok scheme s H g k o HI Hk) as (? & ? & _).
  - intros s H key obj g [HI _] _ Ho Hg. simpl. unfold Get. rewrite Hg.
    pose proof (lookup_stored scheme s H g key HI) as Hl.
    destruct (view g H !! key) as [st|] eqn:Ev.
    + destruct (objects s !! g) as [m|]; [|done]. rewrite Hl.
      assert (objectsOf s g !! key = Some st) as Hs by (by rewrite (objectsOf_view scheme s H g HI)).
      destruct (stored_ok scheme s H g key st HI Hs) as (Hst & Hgs & _).
      destruct (copyObject_total st obj) as (o & Ec & _); [apply Hst|apply Ho|by eapply okObject_same_type|].
      exists o. unfold copyObject in *. destruct (UnmarshalObject (MarshalObject st) obj) as [o'|]; [|done].
      by injection Ec as ->.
    + destruct (objects s !! g); [by rewrite Hl|done].
  - intros s H lst opts g [HI _] Hg Hl. simpl. rewrite (List_items scheme s H g lst opts HI Hg Hl).
    eexists. rewrite (inv_revision _ _ _ HI). split; [done|]. by rewrite (objectsOf_view scheme s H g HI).
  - intros s H obj g Hh Hr _ Hg. simpl. pose proof (Delete_spec scheme obj s H g (proj1 Hh) Hr Hg) as Hs. cbv zeta in Hs.
    destruct (view g H !! _) as [st|] eqn:Ev; [|done]. destruct (_ && _); [done|].
    destruct Hs as (s' & -> & Hc). eexists s', _. split; [done|]. split; [|by apply (committed_appends s)].
    rewrite <- (objectsOf_view scheme s H g (proj1 Hh)) in Ev.
    destruct (stored_ok scheme s H g _ st (proj1 Hh) Ev) as (_ & _ & Hk). by autorewrite with sc_rw.
Defined.
End laws.
