(* ===== verification/MemoryStreams.v ===== *)
(** * The in-memory backend's watchers

    The laws of watchers, discharged for the in-memory backend: other clients
    make the steps of MemoryStoreRuns. *)

From S2P Require Import Prelude GoStrconv GoJson GoJsonFacts Objects ObjectFacts.
From S2P Require Import SpecStatus StoreSpec StoreInterface StreamInterface Backend MemoryStore MemoryStoreFacts.
From S2P Require Import MemoryStoreRuns MemoryStoreTheorems MemoryInterface.

Import Mem.

#[export] Instance Mem_StreamOps : StreamOps MemoryStore := {
  sReceive := receive;
  sStopClose := stopClose;
  sRemoveWatcher p s := (fun w => removeWatcher (wGVK w) p s) <$> heap s !! p;
}.

Definition memWatcherState (w : memoryWatcher) : watcherState := mkWatcherState (wGVK w) (buf (wCh w)) (wClosed w).

Section laws.
Context (scheme : Scheme).
Hypothesis scheme_total : forall t, ObjectKinds scheme t <> Panic.

(** Somebody else's step: nothing is received from the watcher. *)
Definition memOthers (q : option nat) (s s' : MemoryStore) : Prop :=
  exists l, step scheme s l s' /\ forall p, q = Some p -> receivedBy p l = [].

#[refine, export] Instance Mem_StreamLaws :
  StreamLaws (SO := Mem_StoreOps scheme) (SL := Mem_StoreLaws scheme scheme_total) MemoryStore scheme := {
  watcherAt p s := memWatcherState <$> heap s !! p;
  otherStep := memOthers;
}.
Proof using scheme_total.
  - intros s H q s' [HI Hr] Hroom (l & Hs & Hl).
    destruct (step_ok scheme scheme_total s H HI Hroom Hr l s' Hs) as (H' & [HI' Ho _ Hr' Hst _]).
    exists H'. split_and!; [done|done|]. intros p w -> (w0 & Hp & ->)%fmap_Some.
    destruct (Hst p w0 Hp) as (w' & Hp' & Hg & Hc & Hb). rewrite (Hl p eq_refl) in Hb.
    exists (memWatcherState w'). rewrite Hp'. by split_and!.
  - intros s H lst opts g s' p [HI Hreg] Hroom Hg Hf E. simpl in *.
    pose proof (Watch_spec scheme lst opts s H g HI Hroom Hg Hf) as Hs. cbv zeta in Hs.
    assert ((exists s', Watch scheme lst opts s = Some (s', Ret (nextPtr s)) /\ watching s g (replayOf opts g H) s') ->
      memWatcherState <$> heap s' !! p = Some (mkWatcherState g (replayOf opts g H) false)) as Hok.
    { intros (s2 & E2 & n & Eh & _). rewrite E in E2. simplify_eq. by rewrite Eh, lookup_insert_eq. }
    destruct (fromRevisionOpt opts); [|by apply Hok]. destruct (_ <? _)%Z; [congruence|by apply Hok].
  - intros s H p w [HI Hreg] Hroom (w0 & Hp & ->)%fmap_Some. simpl. unfold receive. rewrite Hp. unfold recv.
    destruct (buf (wCh w0)) as [|e es] eqn:Eb.
    + rewrite <- (wfw_flag _ (inv_watchers _ _ _ HI) _ _ Hp). by destruct (wClosed w0).
    + eexists _, _. split; [done|].
      destruct (receive_step scheme scheme_total s H HI Hroom Hreg p e
        (Chan es (cap (wCh w0)) (chClosed (wCh w0))) (setHeap (<[p := mkWatcher (wGVK w0) (Chan es (cap (wCh w0)) (chClosed (wCh w0))) (wClosed w0)]> (heap s)) s)) as [HI' _ _ Hr' _ _].
      { unfold receive, recv. by rewrite Hp, Eb. }
      rewrite app_nil_r in HI'. split; [done|]. simpl. by rewrite lookup_insert_eq.
  - intros s H p w [HI Hreg] Hroom (w0 & Hp & ->)%fmap_Some. simpl.
    destruct (stopClose_step scheme scheme_total s H HI Hroom Hreg p w0 Hp) as (s' & E & [HI' _ _ Hr' _ _]).
    rewrite app_nil_r in HI'. exists s'. split; [done|]. split; [done|].
    unfold stopClose, closeWatcher in E. rewrite Hp in E. destruct (wClosed w0) eqn:Ec; simpl in E.
    + simplify_eq. simpl. rewrite lookup_insert_eq. unfold memWatcherState. simpl. by rewrite Ec.
    + unfold closeChan in E. destruct (chClosed (wCh w0)); [done|]. simpl in E. simplify_eq. simpl. by rewrite lookup_insert_eq.
  - intros s H p w [HI Hreg] Hroom (w0 & Hp & ->)%fmap_Some Hc. simpl in *. rewrite Hp. simpl.
    destruct (removeWatcher_step scheme scheme_total s H HI Hroom Hreg p w0 Hp Hc) as [HI' _ _ Hr' _ _].
    rewrite app_nil_r in HI'. eexists. split; [done|]. split; [done|]. simpl. by rewrite Hp.
Defined.
End laws.
