(* ===== verification/MemoryStoreWitnesses.v ===== *)
(** * The in-memory theorems at concrete stores

    Stores built by a few calls with the conformance suite's widgets, at which
    the theorems of MemoryStoreTheorems apply, and two executions that show
    where the code departs from its comments. *)

From S2P Require Import Prelude GoStrconv GoJson GoJsonFacts Objects ObjectFacts.
From S2P Require Import SpecStatus StoreSpec Backend MemoryStore Fixtures MemoryStoreFacts.
From S2P Require Import MemoryStoreRuns MemoryStoreTheorems.

Import Mem.

Lemma testScheme_total t : ObjectKinds testScheme t <> Panic.
Proof. simpl. repeat case_bool_decide; done. Qed.

Lemma okWidget o : wfObject o = true -> oType o = testWidget -> okObject testScheme o.
Proof.
  intros Hw Ht. split; [done|]. intros g. unfold gvkForObject. rewrite Ht. vm_compute. by intros [= <-].
Qed.

Lemma okWidgetList : okList testScheme widgetGVK testWidgetList.
Proof. exists testWidget. by split. Qed.

(** A store with one widget, then recoloured. *)
Definition w1 : Object := newTestWidget "w1" "red" 1.
Definition store0 : MemoryStore := NewStore [WithEventLogSize 10].
Definition store1 : MemoryStore := (Create testScheme w1 store0).1.1.
Definition w1c : Object := (Create testScheme w1 store0).1.2.
Definition recolour (c : string) (o : Object) : Object :=
  mkObject (oType o) (oBase o) [VStruct [VStr c; VInt 1]; VStruct [VBool true; VStr ""]].
Definition store2 : MemoryStore := (Update testScheme (recolour "blue" w1c) store1).1.1.
Definition watch1 : list ListOption := [WatchFromRevision 1].
Definition store2w : MemoryStore := default store2 (fst <$> Watch testScheme testWidgetList watch1 store2).
Definition store1w : MemoryStore := default store1 (fst <$> Watch testScheme testWidgetList watch1 store1).

Lemma run_store1 : run testScheme store0 [None] store1.
Proof.
  apply (run_snoc _ _ [] _ _ _ (run_nil _ _)). apply (step_Create _ _ w1 _ w1c (Ret tt)).
  - apply okWidget; computed.
  - computed.
Qed.

Lemma step_store2 : step testScheme store1 None store2.
Proof.
  apply (step_Update _ _ (recolour "blue" w1c) _ (Update testScheme (recolour "blue" w1c) store1).1.2 (Ret tt)).
  - apply okWidget; computed.
  - computed.
Qed.

Lemma run_store2 : run testScheme store0 [None; None] store2.
Proof. apply (run_snoc _ _ [None] _ _ _ run_store1 step_store2). Qed.

Lemma reachable_store1 : reachable testScheme 10 store1.
Proof. exists [None]. split; [apply run_store1|done]. Qed.

Lemma reachable_store2 : reachable testScheme 10 store2.
Proof. exists [None; None]. split; [apply run_store2|done]. Qed.

Lemma from1 from : fromRevisionOpt watch1 = Some from -> in_int64 from = true.
Proof. by intros [= <-]. Qed.

Lemma mem_refines_history_witness :
  exists H, wfHistory H /\ revision store2 = Z.of_nat (length H) /\
    (forall g, objectsOf store2 g = view g H) /\ map toChange (eventLog store2) = lastn (Z.to_nat 10) H.
Proof. apply (mem_refines_history testScheme 10 testScheme_total); [done|apply reachable_store2]. Defined.

Lemma mem_calls_return_witness :
  (Create testScheme w1 store2).2 <> Panic /\
  (List testScheme testWidgetList [InNamespace "default"] store2).2 <> Panic /\
  (exists s' r, Watch testScheme testWidgetList watch1 store2 = Some (s', r) /\ r <> Panic).
Proof.
  destruct (mem_calls_return testScheme 10 testScheme_total ltac:(done) store2 reachable_store2) as (Hw & _ & Hl & Hwt & _).
  split_and!.
  - destruct (Hw w1) as (H1 & _); [apply okWidget; computed|exact H1].
  - apply Hl. intros g t Hg _. assert (g = widgetGVK) as -> by (injection Hg as <-; computed). apply okWidgetList.
  - apply Hwt, from1.
Defined.

Lemma mem_watch_stream_witness :
  exists g H1 H2 w,
    gvkForList testScheme testWidgetList = Ret g /\ Inv testScheme store1 H1 /\
    Inv testScheme (Update testScheme (recolour "blue" w1c) store1w).1.1 (H1 ++ H2) /\
    heap (Update testScheme (recolour "blue" w1c) store1w).1.1 !! 0 = Some w /\
    let seen := concat (map (receivedBy 0) [None]) ++ buf (wCh w) in
    let expected := replayOf watch1 g H1 ++ eventsOf g H2 in
    seen `prefix_of` expected /\ (wClosed w = false -> seen = expected).
Proof.
  apply (mem_watch_stream testScheme 10 testScheme_total ltac:(done) store1 testWidgetList watch1 store1w 0).
  - apply reachable_store1.
  - apply from1.
  - computed.
  - apply (run_snoc _ _ [] _ _ _ (run_nil _ _)).
    apply (step_Update _ _ (recolour "blue" w1c) _
             (Update testScheme (recolour "blue" w1c) store1w).1.2 (Ret tt)); [|computed].
    apply okWidget; computed.
  - by vm_compute.
Defined.

Lemma mem_list_then_watch_witness :
  exists w, heap store2w !! 0 = Some w /\
    applyEvents (byKey (lItems (List testScheme testWidgetList [] store1).1)) (buf (wCh w)) =
    objectsOf store2w widgetGVK.
Proof.
  apply (mem_list_then_watch testScheme 10 testScheme_total ltac:(done) store1 testWidgetList
           (List testScheme testWidgetList [] store1).1 [None] store2 testWidgetList 1).
  - apply reachable_store1.
  - computed.
  - apply okWidgetList.
  - computed.
  - apply (run_snoc _ _ [] _ _ _ (run_nil _ _) step_store2).
  - by vm_compute.
  - computed.
  - computed.
  - computed.
Defined.

Lemma mem_watch_replay_or_gone_witness :
  exists H, Inv testScheme store2 H /\
    let lost := (revision store2 - Z.min 10 (revision store2))%Z in
    if (1 <? lost)%Z
    then Watch testScheme testWidgetList watch1 store2 =
         Some (store2, Fail (RevisionTooOldError 1 (lost + 1)))
    else exists s' n, Watch testScheme testWidgetList watch1 store2 = Some (s', Ret (nextPtr store2)) /\
      heap s' !! nextPtr store2 = Some (mkWatcher widgetGVK (Chan
        (selectEvents (loLabelSelector (applyOptions watch1)) (eventsOf widgetGVK (changesSince 1 H))) n false) false).
Proof.
  apply (mem_watch_replay_or_gone testScheme 10 testScheme_total ltac:(done) store2 testWidgetList watch1 1 widgetGVK).
  - apply reachable_store2.
  - computed.
  - done.
  - done.
Defined.

Lemma mem_List_exact_witness :
  exists l, List testScheme testWidgetList [InNamespace "default"] store2 = (l, Ret tt) /\
    ParseInt (lResourceVersion l) = (revision store2, None).
Proof.
  destruct (mem_List_exact testScheme 10 testScheme_total ltac:(done) store2 testWidgetList
    [InNamespace "default"] widgetGVK reachable_store2 ltac:(computed) okWidgetList) as (l & H1 & H2 & _).
  exists l. by split.
Defined.

Definition w2 : Object := newTestWidget "w2" "green" 1.

Lemma mem_Create_Get_witness :
  Get testScheme (ObjectKeyFromObject w1) (zeroObject testWidget) store1 = (normObject w1c, Ret tt) /\
  MarshalObject (normObject w1c) = MarshalObject w1c.
Proof.
  apply (mem_Create_Get testScheme 10 testScheme_total ltac:(done) store0 w1 widgetGVK store1 w1c).
  - exists []. split; [apply run_nil|done].
  - apply okWidget; computed.
  - computed.
  - computed.
Defined.

Lemma mem_Update_witness :
  exists s' obj' new, Update testScheme (recolour "blue" w1c) store1 = (s', obj', Ret tt) /\
    updateOf testScheme (specGeneration (recolour "blue" w1c) w1c) (recolour "blue" w1c) w1c new (revision store1) /\
    copyObject new (recolour "blue" w1c) = (obj', Ret tt) /\
    emitted store1 widgetGVK (mkEvent EventModified new) s'.
Proof.
  pose proof (mem_Update testScheme 10 testScheme_total ltac:(done) store1 (recolour "blue" w1c) widgetGVK
    reachable_store1 ltac:(apply okWidget; computed) ltac:(computed)) as H.
  cbv zeta in H.
  replace (objectsOf store1 widgetGVK !! ObjectKeyFromObject (recolour "blue" w1c)) with (Some w1c) in H by computed.
  rewrite bool_decide_false in H by (intros E; apply E; computed).
  destruct H as (s' & obj' & E & [(_ & Hu & _)|(new & Hn)]); [|exists s', obj', new; split; [exact E|exact Hn]].
  clear E. assert (rawField "spec" (recolour "blue" w1c) = rawField "spec" w1c) as Es.
  { apply (un_fields _ _ Hu); [|discriminate]. apply (bool_decide_unpack _). exact I. }
  vm_compute in Es. discriminate Es.
Defined.

Lemma mem_UpdateStatus_witness :
  exists s' obj', UpdateStatus testScheme (recolour "blue" w1c) store1 = (s', obj', Ret tt) /\
    ((s' = store1 /\ rawField "status" (recolour "blue" w1c) = rawField "status" w1c /\
        copyObject w1c (recolour "blue" w1c) = (obj', Ret tt)) \/
     exists new, statusUpdateOf testScheme (recolour "blue" w1c) w1c new (revision store1) /\
       copyObject new (recolour "blue" w1c) = (obj', Ret tt) /\
       emitted store1 widgetGVK (mkEvent EventModified new) s').
Proof.
  pose proof (mem_UpdateStatus testScheme 10 testScheme_total ltac:(done) store1 (recolour "blue" w1c) widgetGVK
    reachable_store1 ltac:(apply okWidget; computed) ltac:(computed)) as H.
  cbv zeta in H.
  replace (objectsOf store1 widgetGVK !! ObjectKeyFromObject (recolour "blue" w1c)) with (Some w1c) in H by computed.
  rewrite bool_decide_false in H; [exact H|]. intros E. apply E. computed.
Defined.

Lemma mem_Create_Delete_witness :
  Create testScheme w1 store1 = (store1, w1, Fail (AlreadyExistsError (keyString (ObjectKeyFromObject w1)))) /\
  exists s', Delete testScheme w1 store1 = (s', Ret tt) /\ objectsOf s' widgetGVK !! ObjectKeyFromObject w1 = None /\
    emitted store1 widgetGVK (mkEvent EventDeleted (SetResourceVersion (FormatInt (revision store1 + 1)) w1c)) s'.
Proof.
  pose proof (mem_Create_Delete testScheme 10 testScheme_total ltac:(done) store1 w1 widgetGVK
    reachable_store1 ltac:(apply okWidget; computed) ltac:(computed)) as H.
  cbv zeta in H.
  replace (objectsOf store1 widgetGVK !! ObjectKeyFromObject w1) with (Some w1c) in H by computed.
  exact H.
Defined.

Lemma mem_stale_write_conflicts_witness :
  exists e, (e = ConflictError (keyString (ObjectKeyFromObject (recolour "blue" w1c))) \/
             e = NotFoundError (keyString (ObjectKeyFromObject (recolour "blue" w1c)))) /\
    Update testScheme (recolour "green" w1c) store2 = (store2, recolour "green" w1c, Fail e) /\
    UpdateStatus testScheme (recolour "green" w1c) store2 = (store2, recolour "green" w1c, Fail e).
Proof.
  apply (mem_stale_write_conflicts testScheme 10 testScheme_total ltac:(done) store1 (recolour "blue" w1c) widgetGVK
           w1c store2 (Update testScheme (recolour "blue" w1c) store1).1.2 [] store2 (recolour "green" w1c)).
  - apply reachable_store1.
  - apply okWidget; computed.
  - computed.
  - computed.
  - computed.
  - by vm_compute.
  - apply run_nil.
  - by vm_compute.
  - apply okWidget; computed.
  - computed.
  - computed.
  - computed.
Defined.

Lemma mem_noop_update_silent_witness :
  exists obj, Get testScheme (ObjectKeyFromObject w1) (zeroObject testWidget) store1 = (obj, Ret tt) /\
    Update testScheme obj store1 = (store1, obj, Ret tt).
Proof.
  apply (mem_noop_update_silent testScheme 10 testScheme_total ltac:(done) store1 widgetGVK
           (ObjectKeyFromObject w1) w1c).
  - apply reachable_store1.
  - computed.
Defined.

(** ** Where the code departs from its comments *)

Definition labelled (o : Object) : Object :=
  withMeta (fun m => mkMeta (mName m) (mNamespace m) (mUID m) (mResourceVersion m) (mGeneration m)
    (Some {[ "stray" := "x" ]}) (mAnnotations m)) o.

(** [UpdateStatus] stores labels of its input, although only the status
    should be written: the merged JSON is decoded over a deep copy of the input. *)
Theorem UpdateStatus_leaks_labels :
  let s' := (UpdateStatus testScheme (labelled (recolour "red" w1c)) store1).1.1 in
  GetLabels w1c = ∅ /\
  (GetLabels <$> objectsOf s' widgetGVK !! ObjectKeyFromObject w1) = Some {[ "stray" := "x" ]}.
Proof. split; computed. Qed.

(** An [Update] that only lacks the generation is not recognised as a no-op:
    it takes a revision and emits an event, and the stored object is unchanged
    but for its resource version. *)
Theorem Update_without_generation_not_noop :
  let s' := (Update testScheme (SetGeneration 0 w1c) store1).1.1 in
  revision s' = (revision store1 + 1)%Z /\
  (SetResourceVersion (GetResourceVersion w1c) <$> objectsOf s' widgetGVK !! ObjectKeyFromObject w1) = Some w1c.
Proof. split; computed. Qed.
