(* ===== verification/FileTree.v ===== *)
(** * Files and directories: what filesystem/store.go uses of os and path/filepath

    A path is its list of components from the root directory. The disk is a
    finite map of paths to directories and files; every call of [os] may also
    fail for reasons of its own (permissions, a full disk), which is given by a
    list of faults, one entry consumed per call, no more faults once it is empty.
    A file holds a JSON text, or some other text. *)

From S2P Require Import Prelude GoStrconv GoJson JsonText.

Abbreviation path := (list string).

(** ** path/filepath *)

(** The character [/]. *)
Definition slash : Ascii.ascii := Ascii.ascii_of_nat 47.

Fixpoint splitSlash (s : string) : list string :=
  match s with
  | EmptyString => [""]
  | String c s' =>
      if Ascii.eqb c slash then "" :: splitSlash s'
      else match splitSlash s' with
           | x :: xs => String c x :: xs
           | [] => [String c ""]
           end
  end.

(** One component for [filepath.Clean] of a rooted path. *)
Definition cleanStep (p : path) (c : string) : path :=
  if bool_decide (c = "") || bool_decide (c = ".") then p
  else if bool_decide (c = "..") then removelast p
  else p ++ [c].

Definition Join (p : path) (elems : list string) : path :=
  foldl cleanStep p (concat (map splitSlash elems)).

(** [filepath.Dir] of a clean path. *)
Definition Dir (p : path) : path := removelast p.

(** ** The disk *)

Inductive content : Type :=
| Json (t : text)
| Plain (s : string).

#[export] Instance content_eq_dec : EqDecision content.
Proof. solve_decision. Defined.

Inductive node : Type :=
| Directory
| File (c : content).

(** A call that works, or one that breaks; a broken write may have created or
    truncated the file and written the first [n] tokens or bytes. *)
Inductive fault : Type :=
| Works
| Breaks (written : option nat).

Record disk : Type := mkDisk { tree : gmap path node; faults : list fault }.

(** [os.IsNotExist] tells the first from every other error. *)
Inductive osError : Type :=
| ErrNotExist
| ErrOther (msg : string).

Abbreviation osResult := (outcome osError).

Definition isFile (t : gmap path node) (p : path) : bool :=
  match t !! p with Some (File _) => true | _ => false end.
Definition isDir (t : gmap path node) (p : path) : bool :=
  match t !! p with Some Directory => true | _ => false end.

(** All prefixes of a path, the path included, shortest first. *)
Definition prefixes (p : path) : list path := map (fun n => take n p) (seq 0 (S (length p))).

(** The error for a path that is not there: ENOENT, or ENOTDIR below a file. *)
Definition missing (t : gmap path node) (p : path) : osError :=
  if existsb (isFile t) (prefixes (Dir p)) then ErrOther "not a directory" else ErrNotExist.

Definition nextFault (d : disk) : fault * disk :=
  match faults d with
  | [] => (Works, d)
  | f :: fs => (f, mkDisk (tree d) fs)
  end.

Definition setTree (t : gmap path node) (d : disk) : disk := mkDisk t (faults d).

Definition truncate (n : nat) (c : content) : content :=
  match c with
  | Json ts => Json (take n ts)
  | Plain s => Plain (String.substring 0 n s)
  end.

(** ** os *)

Definition ReadFile (p : path) (d : disk) : disk * osResult content :=
  let (f, d) := nextFault d in
  match f with
  | Breaks _ => (d, Fail (ErrOther "input/output error"))
  | Works =>
      (d, match tree d !! p with
          | Some (File c) => Ret c
          | Some Directory => Fail (ErrOther "is a directory")
          | None => Fail (missing (tree d) p)
          end)
  end.

Definition Stat (p : path) (d : disk) : disk * osResult unit :=
  let (f, d) := nextFault d in
  match f with
  | Breaks _ => (d, Fail (ErrOther "input/output error"))
  | Works =>
      (d, match tree d !! p with Some _ => Ret tt | None => Fail (missing (tree d) p) end)
  end.

Definition mkdirs (ps : list path) (t : gmap path node) : gmap path node :=
  foldl (fun t p => <[p := Directory]> t) t ps.

Definition MkdirAll (p : path) (d : disk) : disk * osResult unit :=
  let (f, d) := nextFault d in
  if existsb (isFile (tree d)) (prefixes p) then (d, Fail (ErrOther "not a directory"))
  else match f with
       | Breaks n => (setTree (mkdirs (take (default 0 n) (prefixes p)) (tree d)) d, Fail (ErrOther "input/output error"))
       | Works => (setTree (mkdirs (prefixes p) (tree d)) d, Ret tt)
       end.

Definition WriteFile (p : path) (c : content) (d : disk) : disk * osResult unit :=
  let (f, d) := nextFault d in
  if isDir (tree d) p then (d, Fail (ErrOther "is a directory"))
  else if isDir (tree d) (Dir p) then
    match f with
    | Breaks None => (d, Fail (ErrOther "input/output error"))
    | Breaks (Some n) => (setTree (<[p := File (truncate n c)]> (tree d)) d, Fail (ErrOther "input/output error"))
    | Works => (setTree (<[p := File c]> (tree d)) d, Ret tt)
    end
  else (d, Fail (missing (tree d) p)).

(** The entries of a directory: names with whether they are directories,
    sorted by name. *)
Definition entryOf (p : path) (qn : path * node) : option (string * bool) :=
  match last qn.1 with
  | Some c => if decide (qn.1 = p ++ [c])
              then Some (c, match qn.2 with Directory => true | File _ => false end) else None
  | None => None
  end.

Definition entryLe (a b : string * bool) : Prop := String.le a.1 b.1.

#[export] Instance entryLe_dec : RelDecision entryLe := fun a b => decide (String.le a.1 b.1).

Definition entries (t : gmap path node) (p : path) : list (string * bool) :=
  merge_sort entryLe (omap (entryOf p) (map_to_list t)).

Definition Remove (p : path) (d : disk) : disk * osResult unit :=
  let (f, d) := nextFault d in
  match f with
  | Breaks _ => (d, Fail (ErrOther "input/output error"))
  | Works =>
      match tree d !! p with
      | Some (File _) => (setTree (delete p (tree d)) d, Ret tt)
      | Some Directory =>
          if bool_decide (entries (tree d) p = []) then (setTree (delete p (tree d)) d, Ret tt)
          else (d, Fail (ErrOther "directory not empty"))
      | None => (d, Fail (missing (tree d) p))
      end
  end.

Definition ReadDir (p : path) (d : disk) : disk * osResult (list (string * bool)) :=
  let (f, d) := nextFault d in
  match f with
  | Breaks _ => (d, Fail (ErrOther "input/output error"))
  | Works =>
      (d, match tree d !! p with
          | Some Directory => Ret (entries (tree d) p)
          | Some (File _) => Fail (ErrOther "not a directory")
          | None => Fail (missing (tree d) p)
          end)
  end.

(** ** Facts *)

(** A component that [Clean] keeps. *)
Definition plain (c : string) : bool :=
  bool_decide (splitSlash c = [c]) && negb (bool_decide (c = "") || bool_decide (c = ".") || bool_decide (c = "..")).

Lemma Join_plain p cs : forallb plain cs = true -> Join p cs = p ++ cs.
Proof.
  unfold Join. revert p. induction cs as [|c cs IH]; intros p; simpl; [by rewrite app_nil_r|].
  intros [Hc Hcs]%andb_true_iff. unfold plain in Hc. apply andb_true_iff in Hc as [Hs Hc].
  apply bool_decide_eq_true_1 in Hs. rewrite Hs. simpl.
  apply negb_true_iff, orb_false_iff in Hc as [Hc1 Hc2]. unfold cleanStep at 2. rewrite Hc1, Hc2.
  rewrite IH by done. by rewrite <- (assoc_L (++)).
Qed.

Lemma splitSlash_app_dot c :
  splitSlash c = [c] -> splitSlash (c +:+ ".json") = [c +:+ ".json"].
Proof.
  induction c as [|a c IH]; [done|]. simpl. destruct (Ascii.eqb a slash).
  - done.
  - destruct (splitSlash c) as [|x xs]; [by intros [= <-]|]. intros [= -> ->]. by rewrite IH.
Qed.

Lemma elem_of_prefixes q p : q ∈ prefixes p <-> q `prefix_of` p.
Proof.
  unfold prefixes. rewrite list_elem_of_fmap. split.
  - intros (n & -> & _). exists (drop n p). by rewrite take_drop.
  - intros [k ->]. exists (length q). rewrite take_app_length. split; [done|].
    apply elem_of_seq. rewrite length_app. lia.
Qed.

Lemma mkdirs_lookup ps t q :
  mkdirs ps t !! q = if decide (q ∈ ps) then Some Directory else t !! q.
Proof.
  unfold mkdirs. revert t. induction ps as [|p ps IH]; intros t; cbn [foldl]; [by rewrite decide_False by set_solver|].
  rewrite IH. destruct (decide (q ∈ ps)); [by rewrite decide_True by set_solver|].
  destruct (decide (q = p)) as [->|Hne].
  - by rewrite lookup_insert_eq, decide_True by set_solver.
  - rewrite lookup_insert_ne by done. by rewrite decide_False by set_solver.
Qed.

Lemma elem_of_entries t p c b :
  (c, b) ∈ entries t p <-> exists n, t !! (p ++ [c]) = Some n /\ b = match n with Directory => true | File _ => false end.
Proof.
  unfold entries. rewrite merge_sort_Permutation, list_elem_of_omap. split.
  - intros ([q n] & Hq & E). unfold entryOf in E. simpl in E. apply elem_of_map_to_list in Hq.
    destruct (last q); [|done]. case_decide; [|done]. injection E as <- <-. subst q. eauto.
  - intros (n & Hn & ->). exists (p ++ [c], n). split; [by apply elem_of_map_to_list|].
    unfold entryOf. simpl. by rewrite last_snoc, decide_True.
Qed.

Lemma entries_NoDup t p : NoDup (entries t p).*1.
Proof.
  unfold entries. rewrite merge_sort_Permutation.
  assert (forall l : list (path * node), NoDup l.*1 -> NoDup (omap (entryOf p) l).*1) as Hl.
  { induction l as [|[q n] l IH]; intros Hnd; simpl; [constructor|]. apply NoDup_cons in Hnd as [Hq Hnd].
    destruct (entryOf p (q, n)) as [[c b]|] eqn:E; simpl; [|by apply IH]. constructor; [|by apply IH].
    unfold entryOf in E. simpl in E. destruct (last q); [|done]. case_decide; [|done]. simplify_eq/=.
    intros ([c' b'] & -> & Hin)%list_elem_of_fmap. simpl in *.
    apply list_elem_of_omap in Hin as ([q' n'] & Hin & E'). unfold entryOf in E'. simpl in E'.
    destruct (last q'); [|done]. case_decide; [|done]. simplify_eq/=.
    apply Hq, list_elem_of_fmap. by exists (p ++ [c'], n'). }
  apply Hl, NoDup_fst_map_to_list.
Qed.

(** ** Calls that work *)

Lemma MkdirAll_works p t :
  existsb (isFile t) (prefixes p) = false ->
  MkdirAll p (mkDisk t []) = (mkDisk (mkdirs (prefixes p) t) [], Ret tt).
Proof. intros H. unfold MkdirAll, nextFault. cbn [faults tree]. by rewrite H. Qed.

Lemma WriteFile_works q x c t :
  t !! q = Some Directory -> t !! (q ++ [x]) <> Some Directory ->
  WriteFile (q ++ [x]) c (mkDisk t []) = (mkDisk (<[q ++ [x] := File c]> t) [], Ret tt).
Proof.
  intros Hq Hx. unfold WriteFile, nextFault. cbn [faults tree]. unfold isDir, Dir. rewrite removelast_last, Hq.
  destruct (t !! (q ++ [x])) as [[]|]; done.
Qed.

Lemma Remove_works p c t :
  t !! p = Some (File c) -> Remove p (mkDisk t []) = (mkDisk (delete p t) [], Ret tt).
Proof. intros H. unfold Remove, nextFault. cbn [faults tree]. by rewrite H. Qed.

Lemma ReadDir_works p t :
  t !! p = Some Directory -> ReadDir p (mkDisk t []) = (mkDisk t [], Ret (entries t p)).
Proof. intros H. unfold ReadDir, nextFault. cbn [faults tree]. by rewrite H. Qed.

Lemma ReadFile_works p c t :
  t !! p = Some (File c) -> ReadFile p (mkDisk t []) = (mkDisk t [], Ret c).
Proof. intros H. unfold ReadFile, nextFault. cbn [faults tree]. by rewrite H. Qed.
