(* ===== verification/Filesystem.v ===== *)
(** * The filesystem backend: filesystem/store.go and filesystem/watcher.go

    One definition per method of [FileStore]. Objects live on disk; the watchers,
    the event log and the counters are in memory, the counters also in files.
    Methods are written in a state and error monad whose state is the store
    together with the object (or list) of the caller: like the code, they return
    at the first error and keep what was changed before it, on disk, in memory
    and in the caller's object. [fileWatcher] and [eventLogEntry] are the same
    structs as in the memory package, so their model types are shared. *)

From S2P Require Import Prelude GoStrconv GoJson GoJsonFacts Objects ObjectFacts.
From S2P Require Import Backend JsonText FileTree MemoryStore.

Module FS.

(** ** State and errors *)

Definition St (S A : Type) : Type := S -> S * result A.

Definition ret {S A} (a : A) : St S A := fun s => (s, Ret a).
Definition throw {S A} (e : error) : St S A := fun s => (s, Fail e).
Definition bind {S A B} (m : St S A) (k : A -> St S B) : St S B := fun s =>
  match m s with
  | (s, Ret a) => k a s
  | (s, Fail e) => (s, Fail e)
  | (s, Panic) => (s, Panic)
  end.
Definition lift {S A} (r : result A) : St S A := fun s => (s, r).
Definition read {S} : St S S := fun s => (s, Ret s).

Notation "'let!' x := m 'in' k" := (bind m (fun x => k))
  (at level 10, x name, m at level 100, k at level 200).
Notation "m ';!' k" := (bind m (fun _ => k)) (at level 100, k at level 200, right associativity).

(** ** Data *)

Definition defaultEventLogSize : Z := 1000.

Definition eventLogEntry : Type := Mem.eventLogEntry.
Definition fileWatcher : Type := Mem.memoryWatcher.

Record FileStore : Type := mkStore {
  root : path;
  fsDisk : disk;
  watchers : gmap GVK (list nat);
  uidCounter : Z;
  revision : Z;
  eventLog : list eventLogEntry;
  eventLogMax : Z;
  heap : gmap nat fileWatcher;
  nextPtr : nat;
}.

Definition setDisk v s := mkStore (root s) v (watchers s) (uidCounter s) (revision s) (eventLog s) (eventLogMax s) (heap s) (nextPtr s).
Definition setWatchers v s := mkStore (root s) (fsDisk s) v (uidCounter s) (revision s) (eventLog s) (eventLogMax s) (heap s) (nextPtr s).
Definition setUidCounter v s := mkStore (root s) (fsDisk s) (watchers s) v (revision s) (eventLog s) (eventLogMax s) (heap s) (nextPtr s).
Definition setRevision v s := mkStore (root s) (fsDisk s) (watchers s) (uidCounter s) v (eventLog s) (eventLogMax s) (heap s) (nextPtr s).
Definition setEventLog v s := mkStore (root s) (fsDisk s) (watchers s) (uidCounter s) (revision s) v (eventLogMax s) (heap s) (nextPtr s).
Definition setEventLogMax v s := mkStore (root s) (fsDisk s) (watchers s) (uidCounter s) (revision s) (eventLog s) v (heap s) (nextPtr s).
Definition setHeap v s := mkStore (root s) (fsDisk s) (watchers s) (uidCounter s) (revision s) (eventLog s) (eventLogMax s) v (nextPtr s).
Definition setNextPtr v s := mkStore (root s) (fsDisk s) (watchers s) (uidCounter s) (revision s) (eventLog s) (eventLogMax s) (heap s) v.

(** A call of [os] on the store's disk, its outcome left to the caller, or
    its error returned. *)
Definition sys {A} (op : disk -> disk * osResult A) : St FileStore (osResult A) := fun s =>
  let (d, r) := op (fsDisk s) in (setDisk d s, Ret r).

Definition osErr (e : osError) : error :=
  match e with ErrNotExist => OtherError "no such file or directory" | ErrOther m => OtherError m end.

Definition must {A} (op : disk -> disk * osResult A) : St FileStore A :=
  let! r := sys op in
  match r with
  | Ret a => ret a
  | Fail e => throw (osErr e)
  | Panic => lift Panic
  end.

(** The error of [os.ReadFile(path)] for an object that may not exist. *)
Definition readObject (key : ObjectKey) (p : path) : St FileStore content :=
  let! r := sys (ReadFile p) in
  match r with
  | Ret c => ret c
  | Fail ErrNotExist => throw (NotFoundError (keyString key))
  | Fail e => throw (osErr e)
  | Panic => lift Panic
  end.

(** [json.Unmarshal(data, obj)] of a file's content. *)
Definition decodeContent (c : content) (o : Object) : result Object :=
  match c with
  | Json ts =>
      match parseText ts ≫= (fun j => UnmarshalObject j o) with
      | Some o => Ret o
      | None => Fail (OtherError "json: cannot unmarshal")
      end
  | Plain _ => Fail (OtherError "json: invalid character")
  end.

(** [json.Unmarshal(data, &m)] for a map of raw messages. *)
Definition decodeRaw (c : content) : result (gmap string text) :=
  match c with
  | Json ts =>
      match rawTexts ts with
      | Some m => Ret m
      | None => Fail (OtherError "json: cannot unmarshal")
      end
  | Plain _ => Fail (OtherError "json: invalid character")
  end.

(** [json.MarshalIndent(obj, "", "  ")] *)
Definition MarshalIndent (o : Object) : content := Json (indentText (MarshalObject o)).

(** [json.Marshal(mergedMap)]: raw messages are compacted, keys sorted. *)
Definition mapText (m : gmap string text) : option json :=
  (fun kvs => JObj kvs) <$> mapM (fun kt => pair kt.1 <$> parseText kt.2) (map_to_list m).

(** ** Paths *)

Definition gvkDir (rootDir : path) (gvk : GVK) : path :=
  let group := if bool_decide (gGroup gvk = "") then "core" else gGroup gvk in
  Join rootDir [group; gVersion gvk; gKind gvk].

Definition objectPath (rootDir : path) (gvk : GVK) (key : ObjectKey) : path :=
  let ns := if bool_decide (kNamespace key = "") then "_cluster" else kNamespace key in
  Join (gvkDir rootDir gvk) [ns; kName key +:+ ".json"].

Definition revisionPath (s : FileStore) : path := Join (root s) [".revision"].
Definition uidPath (s : FileStore) : path := Join (root s) [".uid-counter"].

(** ** Counters *)

(** [strings.TrimSpace]: white space of ASCII at both ends. *)
Definition isSpaceChar (c : Ascii.ascii) : bool :=
  let n := Ascii.nat_of_ascii c in bool_decide (n = 32 \/ 9 <= n <= 13).

Fixpoint trimLeft (s : string) : string :=
  match s with
  | String c s' => if isSpaceChar c then trimLeft s' else s
  | EmptyString => s
  end.

Fixpoint trimRight (s : string) : string :=
  match s with
  | String c s' =>
      match trimRight s' with
      | EmptyString => if isSpaceChar c then EmptyString else String c EmptyString
      | t => String c t
      end
  | EmptyString => EmptyString
  end.

Definition TrimSpace (s : string) : string := trimRight (trimLeft s).

(** The number in a counter file. *)
Definition counterOf (c : content) : option Z :=
  match c with
  | Plain s => match ParseInt (TrimSpace s) with (z, None) => Some z | _ => None end
  | Json _ => None
  end.

Definition loadRevision (s : FileStore) : FileStore :=
  let (d, r) := ReadFile (revisionPath s) (fsDisk s) in
  let s := setDisk d s in
  match r with
  | Ret c => match counterOf c with Some rv => setRevision rv s | None => s end
  | _ => s
  end.

Definition loadUIDCounter (s : FileStore) : FileStore :=
  let (d, r) := ReadFile (uidPath s) (fsDisk s) in
  let s := setDisk d s in
  match r with
  | Ret c => match counterOf c with Some uid => setUidCounter uid s | None => s end
  | _ => s
  end.

Definition persistRevision (rv : Z) : St FileStore unit :=
  let! s := read in
  must (MkdirAll (root s)) ;!
  must (WriteFile (revisionPath s) (Plain (FormatInt rv))).

Definition generateUID : St FileStore string :=
  let! s := read in
  let id := wrap64 (uidCounter s + 1) in
  (fun s => (setUidCounter id s, Ret tt)) ;!
  must (MkdirAll (root s)) ;!
  must (WriteFile (uidPath s) (Plain (FormatInt id))) ;!
  ret ("uid-" +:+ FormatInt id).

Definition nextRevision : St FileStore Z := fun s =>
  let rv := wrap64 (revision s + 1) in (setRevision rv s, Ret rv).

Definition WithEventLogSize (size : Z) : FileStore -> FileStore := setEventLogMax size.

Definition NewStore (rootDir : path) (d : disk) (opts : list (FileStore -> FileStore)) : FileStore :=
  let s := mkStore rootDir d ∅ 0 0 [] defaultEventLogSize ∅ 0 in
  let s := foldl (fun s opt => opt s) s opts in
  let s := loadRevision s in
  loadUIDCounter s.

(** ** filesystem/watcher.go *)

Definition newFileWatcher (gvk : GVK) (bufSize : nat) : fileWatcher :=
  Mem.mkWatcher gvk (makeChan bufSize) false.

Definition isStopped (w : fileWatcher) : bool := Mem.wClosed w.

Definition send (w : fileWatcher) (event : Event) : option fileWatcher :=
  if Mem.wClosed w then Some w
  else match trySend (Mem.wCh w) event with
       | Sent c => Some (Mem.mkWatcher (Mem.wGVK w) c (Mem.wClosed w))
       | Full => (fun c => Mem.mkWatcher (Mem.wGVK w) c true) <$> closeChan (Mem.wCh w)
       | SendOnClosed => None
       end.

(** The part of [Stop] under [w.mu]. *)
Definition closeWatcher (w : fileWatcher) : option fileWatcher :=
  if Mem.wClosed w then Some w
  else (fun c => Mem.mkWatcher (Mem.wGVK w) c true) <$> closeChan (Mem.wCh w).

Definition removeWatcher (gvk : GVK) (p : nat) (s : FileStore) : FileStore :=
  let ws := default [] (watchers s !! gvk) in
  setWatchers (<[gvk := List.filter (fun q => negb (bool_decide (q = p))) ws]> (watchers s)) s.

(** [fileWatcher.Stop]: close under [w.mu], then leave the store's list. *)
Definition stopClose (p : nat) (s : FileStore) : option FileStore :=
  match heap s !! p with
  | Some w => (fun w' => setHeap (<[p := w']> (heap s)) s) <$> closeWatcher w
  | None => None
  end.

Definition Stop (p : nat) (s : FileStore) : option FileStore :=
  match heap s !! p with
  | Some w => removeWatcher (Mem.wGVK w) p <$> stopClose p s
  | None => None
  end.

(** The consumer's receive from [ResultChan()]. *)
Definition receive (p : nat) (s : FileStore) : FileStore * recvResult Event :=
  match heap s !! p with
  | Some w =>
      match recv (Mem.wCh w) with
      | Received v c => (setHeap (<[p := Mem.mkWatcher (Mem.wGVK w) c (Mem.wClosed w)]> (heap s)) s, Received v c)
      | r => (s, r)
      end
  | None => (s, WouldBlock)
  end.

(** ** Event log and notification *)

(** [false]: [make] with a negative length panics. *)
Definition logEvent (gvk : GVK) (rev : Z) (event : Event) (s : FileStore) : FileStore * bool :=
  let s := setEventLog (eventLog s ++ [Mem.mkEntry rev gvk event]) s in
  let n := Z.of_nat (length (eventLog s)) in
  if (eventLogMax s <? n)%Z then
    let excess := (n - eventLogMax s)%Z in
    if (eventLogMax s <? 0)%Z then (s, false)
    else (setEventLog (take (Z.to_nat (eventLogMax s)) (drop (Z.to_nat excess) (eventLog s))) s, true)
  else (s, true).

Definition eventsSince (fromRevision : Z) (gvk : GVK) (s : FileStore) : result (list Event) :=
  let currentRevision := revision s in
  if (currentRevision <=? fromRevision)%Z then Ret []
  else match eventLog s with
       | [] => Fail (RevisionTooOldError fromRevision (wrap64 (currentRevision + 1)))
       | e :: _ =>
           let oldest := Mem.eRevision e in
           if (wrap64 (fromRevision + 1) <? oldest)%Z
           then Fail (RevisionTooOldError fromRevision oldest)
           else Ret (map Mem.eEvent
                  (List.filter (fun e => (fromRevision <? Mem.eRevision e)%Z && bool_decide (Mem.eGVK e = gvk))
                     (eventLog s)))
       end.

Fixpoint notifyLoop (event : Event) (ws : list nat) (h : gmap nat fileWatcher) (active : list nat)
    : option (gmap nat fileWatcher * list nat) :=
  match ws with
  | [] => Some (h, active)
  | p :: ws' =>
      match h !! p with
      | None => None
      | Some w =>
          if isStopped w then notifyLoop event ws' h active
          else match send w event with
               | None => None
               | Some w' => notifyLoop event ws' (<[p := w']> h) (active ++ [p])
               end
      end
  end.

Definition notifyWatchers (gvk : GVK) (event : Event) (s : FileStore) : FileStore * bool :=
  match notifyLoop event (default [] (watchers s !! gvk)) (heap s) [] with
  | Some (h, active) => (setWatchers (<[gvk := active]> (watchers s)) (setHeap h s), true)
  | None => (s, false)
  end.

(** [s.logEvent(gvk, rv, event); s.notifyWatchers(gvk, event)] *)
Definition publish (gvk : GVK) (rv : Z) (event : Event) : St FileStore unit := fun s =>
  let (s, ok) := logEvent gvk rv event s in
  if ok then
    let (s, ok) := notifyWatchers gvk event s in
    (s, if ok then Ret tt else Panic)
  else (s, Panic).

Fixpoint preload (c : chan Event) (replay : list Event) : option (chan Event) :=
  match replay with
  | [] => Some c
  | evt :: replay' =>
      match trySend c evt with Sent c' => preload c' replay' | _ => None end
  end.

(** ** The Store interface *)

Section store.
Context (scheme : Scheme).

(** A step of the store inside a method that also has the caller's value. *)
Definition onStore {X A} (m : St FileStore A) : St (FileStore * X) A := fun sx =>
  let (s, r) := m sx.1 in ((s, sx.2), r).

Definition getObj {X} : St (FileStore * X) X := fun sx => (sx, Ret sx.2).
Definition getStore {X} : St (FileStore * X) FileStore := fun sx => (sx, Ret sx.1).
Definition setObj {X} (o : X) : St (FileStore * X) unit := fun sx => ((sx.1, o), Ret tt).

(** [s.scheme.New(gvk)] as an object to decode into. *)
Definition newObject (gvk : GVK) : result Object :=
  match SchemeNew scheme gvk with
  | Ret (RObject o) => Ret o
  | Ret _ => Fail (OtherError "type does not implement client.Object")
  | Fail e => Fail e
  | Panic => Panic
  end.

(** The stored object: [scheme.New] and [json.Unmarshal] into it. *)
Definition decodeStored (gvk : GVK) (c : content) : result Object :=
  match newObject gvk with
  | Ret o => decodeContent c o
  | r => r
  end.

Definition Get (key : ObjectKey) : St (FileStore * Object) unit :=
  let! obj := getObj in
  let! gvk := lift (gvkForObject scheme obj) in
  let! s := getStore in
  let! data := onStore (readObject key (objectPath (root s) gvk key)) in
  let! o := lift (decodeContent data obj) in
  setObj o.

(** One file of a namespace directory: the object, if it is selected. *)
Definition listFile (gvk : GVK) (dir : path) (listOpts : ListOptions) (f : string * bool)
    : St FileStore (list Object) :=
  if f.2 || negb (bool_decide (String.substring (String.length f.1 - 5) 5 f.1 = ".json")) then ret []
  else
    let! data := must (ReadFile (Join dir [f.1])) in
    let! clientObj := lift (decodeStored gvk data) in
    match loLabelSelector listOpts with
    | Some sel => if lsMatches sel (GetLabels clientObj) then ret [clientObj] else ret []
    | None => ret [clientObj]
    end.

(** One entry of the GVK's directory. *)
Definition listNamespace (gvk : GVK) (dir : path) (listOpts : ListOptions) (nsDir : string * bool)
    : St FileStore (list Object) :=
  if negb nsDir.2 then ret []
  else
    let ns := if bool_decide (nsDir.1 = "_cluster") then "" else nsDir.1 in
    if bool_decide (loNamespace listOpts <> "") && bool_decide (ns <> loNamespace listOpts) then ret []
    else
      let! files := must (ReadDir (Join dir [nsDir.1])) in
      foldr (fun f m => let! x := listFile gvk (Join dir [nsDir.1]) listOpts f in
                        let! xs := m in ret (x ++ xs)) (ret []) files.

Definition List (opts : list ListOption) : St (FileStore * ObjectList) unit :=
  let! lst := getObj in
  let! gvk := lift (gvkForList scheme lst) in
  let listOpts := applyOptions opts in
  let! s := getStore in
  setObj (SetListResourceVersion (FormatInt (revision s)) lst) ;!
  let dir := gvkDir (root s) gvk in
  let! r := onStore (sys (ReadDir dir)) in
  let! items :=
    match r with
    | Ret nsDirs =>
        onStore (foldr (fun d m => let! x := listNamespace gvk dir listOpts d in
                                   let! xs := m in ret (x ++ xs)) (ret []) nsDirs)
    | Fail ErrNotExist => ret []
    | Fail e => throw (osErr e)
    | Panic => lift Panic
    end in
  let! lst := getObj in
  let (lst, r) := populateListItems lst items in
  setObj lst ;! lift r.

Definition Create : St (FileStore * Object) unit :=
  let! obj := getObj in
  let! gvk := lift (gvkForObject scheme obj) in
  let key := ObjectKeyFromObject obj in
  let! s := getStore in
  let p := objectPath (root s) gvk key in
  let! st := onStore (sys (Stat p)) in
  if is_ret st then throw (AlreadyExistsError (keyString key))
  else
    (if bool_decide (GetUID obj = "")
     then let! uid := onStore generateUID in setObj (SetUID uid obj)
     else ret tt) ;!
    let! rv := onStore nextRevision in
    let! obj := getObj in
    let obj := SetGeneration 1 (SetResourceVersion (FormatInt rv) obj) in
    setObj obj ;!
    onStore (must (MkdirAll (Dir p))) ;!
    onStore (must (WriteFile p (MarshalIndent obj))) ;!
    onStore (persistRevision rv) ;!
    onStore (publish gvk rv (mkEvent EventAdded obj)).

(** All members of one text but [status], which comes from another. *)
Definition mergeRaw (baseMap other : gmap string text) : gmap string text :=
  match other !! "status" with
  | Some status => <["status" := status]> baseMap
  | None => delete "status" baseMap
  end.

(** [json.Unmarshal(mergedJSON, merged)] with [merged] a deep copy of [obj]. *)
Definition decodeMerged (m : gmap string text) (obj : Object) : result Object :=
  match mapText m ≫= (fun j => UnmarshalObject j obj) with
  | Some o => Ret o
  | None => Fail (OtherError "json: cannot unmarshal")
  end.

(** The tail of [Update] and [UpdateStatus]: write the merged object, persist
    the revision, copy the result to the caller, publish. *)
Definition writeMerged (gvk : GVK) (p : path) (merged : Object) : St (FileStore * Object) unit :=
  let! rv := onStore nextRevision in
  let merged := SetResourceVersion (FormatInt rv) merged in
  let data := MarshalIndent merged in
  onStore (must (WriteFile p data)) ;!
  onStore (persistRevision rv) ;!
  let! obj := getObj in
  let! obj := lift (decodeContent data obj) in
  setObj obj ;!
  onStore (publish gvk rv (mkEvent EventModified merged)).

Definition Update : St (FileStore * Object) unit :=
  let! obj := getObj in
  let! gvk := lift (gvkForObject scheme obj) in
  let key := ObjectKeyFromObject obj in
  let! s := getStore in
  let p := objectPath (root s) gvk key in
  let! existing := onStore (readObject key p) in
  let! storedObj := lift (decodeStored gvk existing) in
  if bool_decide (GetResourceVersion obj <> GetResourceVersion storedObj)
  then throw (ConflictError (keyString key))
  else
    let! storedMap := lift (decodeRaw existing) in
    let! inputMap := lift (decodeRaw (Json (compactText (MarshalObject obj)))) in
    let mergedMap := mergeRaw inputMap storedMap in
    let specChanged := negb (bool_decide (storedMap !! "spec" = inputMap !! "spec")) in
    let! merged := lift (decodeMerged mergedMap obj) in
    let merged := SetResourceVersion (GetResourceVersion storedObj) merged in
    let merged := SetUID (GetUID storedObj) merged in
    let merged := SetGeneration (GetGeneration storedObj) merged in
    if bool_decide (existing = MarshalIndent merged)
    then let! obj := lift (decodeContent existing obj) in setObj obj
    else
      let merged := if specChanged then SetGeneration (wrap64 (GetGeneration storedObj + 1)) merged else merged in
      writeMerged gvk p merged.

Definition UpdateStatus : St (FileStore * Object) unit :=
  let! obj := getObj in
  let! gvk := lift (gvkForObject scheme obj) in
  let key := ObjectKeyFromObject obj in
  let! s := getStore in
  let p := objectPath (root s) gvk key in
  let! existing := onStore (readObject key p) in
  let! storedObj := lift (decodeStored gvk existing) in
  if bool_decide (GetResourceVersion obj <> GetResourceVersion storedObj)
  then throw (ConflictError (keyString key))
  else
    let! storedMap := lift (decodeRaw existing) in
    let! inputMap := lift (decodeRaw (Json (compactText (MarshalObject obj)))) in
    let mergedMap := mergeRaw storedMap inputMap in
    let! merged := lift (decodeMerged mergedMap obj) in
    let merged := SetResourceVersion (GetResourceVersion storedObj) merged in
    let merged := SetUID (GetUID storedObj) merged in
    let merged := SetGeneration (GetGeneration storedObj) merged in
    if bool_decide (existing = MarshalIndent merged)
    then let! obj := lift (decodeContent existing obj) in setObj obj
    else writeMerged gvk p merged.

Definition Delete : St (FileStore * Object) unit :=
  let! obj := getObj in
  let! gvk := lift (gvkForObject scheme obj) in
  let key := ObjectKeyFromObject obj in
  let! s := getStore in
  let p := objectPath (root s) gvk key in
  let! data := onStore (readObject key p) in
  let! storedObj := lift (decodeStored gvk data) in
  if bool_decide (GetResourceVersion obj <> "") && bool_decide (GetResourceVersion obj <> GetResourceVersion storedObj)
  then throw (ConflictError (keyString key))
  else
    onStore (must (Remove p)) ;!
    let! rv := onStore nextRevision in
    onStore (persistRevision rv) ;!
    let deletedObj := SetResourceVersion (FormatInt rv) storedObj in
    onStore (publish gvk rv (mkEvent EventDeleted deletedObj)).

(** [None]: the call blocks forever on a full channel while holding the lock. *)
Definition Watch (lst : ObjectList) (opts : list ListOption) (s : FileStore) : option (FileStore * result nat) :=
  match gvkForList scheme lst with
  | Fail e => Some (s, Fail e)
  | Panic => Some (s, Panic)
  | Ret gvk =>
      let listOpts := applyOptions opts in
      match match fromRevisionOpt opts with
            | Some fromRevision => eventsSince fromRevision gvk s
            | None => Ret []
            end with
      | Fail e => Some (s, Fail e)
      | Panic => Some (s, Panic)
      | Ret replay =>
          let replay := selectEvents (loLabelSelector listOpts) replay in
          let bufSize := if bool_decide (100 < length replay) then length replay + 100 else 100 in
          let w := newFileWatcher gvk bufSize in
          match preload (Mem.wCh w) replay with
          | None => None
          | Some c =>
              let p := nextPtr s in
              let s := setNextPtr (S p) (setHeap (<[p := Mem.mkWatcher gvk c (Mem.wClosed w)]> (heap s)) s) in
              Some (setWatchers (<[gvk := default [] (watchers s !! gvk) ++ [p]]> (watchers s)) s, Ret p)
          end
      end
  end.

End store.
End FS.
