(* ===== verification/FilesystemDisk.v ===== *)
(** * The filesystem backend's files

    Where objects are stored, which names the layout can represent, what a stored
    text reads back as, and the invariant of the directory tree with the effect
    of each file operation of the backend on it. *)

From S2P Require Import Prelude GoStrconv GoJson GoJsonFacts Objects ObjectFacts.
From Stdlib Require Import DecimalString.
From S2P Require Import SpecStatus NormalForms Backend JsonText JsonTextFacts FileTree Filesystem.

Import FS.

(** ** Names *)

Definition groupName (g : GVK) : string := if bool_decide (gGroup g = "") then "core" else gGroup g.
Definition nsName (k : ObjectKey) : string := if bool_decide (kNamespace k = "") then "_cluster" else kNamespace k.
Definition fileName (k : ObjectKey) : string := kName k +:+ ".json".

(** Keys and GVKs the layout represents: components are plain file names, and
    the names standing for the empty group and namespace are not used otherwise. *)
Definition okKey (k : ObjectKey) : bool :=
  bool_decide (splitSlash (kName k) = [kName k]) && plain (nsName k) && negb (bool_decide (kNamespace k = "_cluster")).

Definition okGVK (g : GVK) : bool :=
  plain (groupName g) && plain (gVersion g) && plain (gKind g) && negb (bool_decide (gGroup g = "core")) &&
  negb (bool_decide (gGroup g = ".revision")) && negb (bool_decide (gGroup g = ".uid-counter")).

(** The directory of a GVK and the file of an object, as components. *)
Definition dirOf (r : path) (g : GVK) : path := r ++ [groupName g; gVersion g; gKind g].
Definition fileOf (r : path) (g : GVK) (k : ObjectKey) : path := dirOf r g ++ [nsName k; fileName k].

Lemma string_app_inj_r s1 s2 t : s1 +:+ t = s2 +:+ t -> s1 = s2.
Proof.
  assert (forall s : string, String.length (s +:+ t) = String.length s + String.length t) as Hl.
  { intros s. induction s as [|c s IH]; simpl; [done|]. by rewrite IH. }
  revert s2. induction s1 as [|c1 s1 IH]; intros [|c2 s2] E; try done.
  - apply (f_equal String.length) in E. rewrite !Hl in E. simpl in E. lia.
  - apply (f_equal String.length) in E. rewrite !Hl in E. simpl in E. lia.
  - simpl in E. injection E as -> E. f_equal. by apply IH.
Qed.

Lemma plain_fileName k : okKey k = true -> plain (fileName k) = true.
Proof.
  unfold okKey, plain. intros H. split_bools. unfold fileName.
  rewrite splitSlash_app_dot by done. rewrite bool_decide_true by done.
  simpl. rewrite negb_true_iff, !orb_false_iff. split_and!; apply bool_decide_eq_false_2;
    by destruct (kName k) as [|c [|c2 [|]]].
Qed.

Lemma plain_nsName k : okKey k = true -> plain (nsName k) = true.
Proof. unfold okKey. intros H. by split_bools. Qed.

Lemma gvkDir_eq r g : okGVK g = true -> gvkDir r g = dirOf r g.
Proof.
  intros H. unfold gvkDir. unfold okGVK in H. apply Join_plain. unfold groupName in *. simpl. split_bools.
  repeat match goal with H : plain _ = true |- _ => rewrite H; clear H end. done.
Qed.

Lemma objectPath_eq r g k : okGVK g = true -> okKey k = true -> objectPath r g k = fileOf r g k.
Proof.
  intros Hg Hk. unfold objectPath. rewrite gvkDir_eq by done. unfold fileOf.
  apply Join_plain. simpl. pose proof (plain_fileName k Hk) as Hf. unfold okKey in Hk. split_bools.
  unfold nsName, fileName in *. rewrite Hf, ?andb_true_r. done.
Qed.

Lemma groupName_inj g g' :
  okGVK g = true -> okGVK g' = true -> groupName g = groupName g' -> gGroup g = gGroup g'.
Proof.
  unfold okGVK, groupName. intros H H'. split_bools. repeat case_bool_decide; congruence.
Qed.

Lemma nsName_inj k k' : okKey k = true -> okKey k' = true -> nsName k = nsName k' -> kNamespace k = kNamespace k'.
Proof. unfold okKey, nsName. intros H H'. split_bools. repeat case_bool_decide; congruence. Qed.

Lemma dirOf_inj r g g' : okGVK g = true -> okGVK g' = true -> dirOf r g = dirOf r g' -> g = g'.
Proof.
  intros H H' E. apply app_inv_head in E. injection E as Eg Ev Ek. apply groupName_inj in Eg; [|done..].
  destruct g, g'. simpl in *. congruence.
Qed.

Lemma fileOf_inj r g g' k k' :
  okGVK g = true -> okGVK g' = true -> okKey k = true -> okKey k' = true ->
  fileOf r g k = fileOf r g' k' -> g = g' /\ k = k'.
Proof.
  intros Hg Hg' Hk Hk' E. unfold fileOf in E. apply app_inj_2 in E as [E1 E2]; [|done].
  apply dirOf_inj in E1; [|done..]. split; [done|]. injection E2 as E2 E3.
  apply nsName_inj in E2; [|done..]. apply string_app_inj_r in E3. destruct k, k'. simpl in *. congruence.
Qed.

(** ** Counters *)

Lemma trimRight_id s : Forall (fun c => isSpaceChar c = false) (String.list_ascii_of_string s) -> trimRight s = s.
Proof.
  induction s as [|c s IH]; [done|]. simpl. intros [Hc Hs]%Forall_cons. rewrite IH by done.
  destruct s; [by rewrite Hc|done].
Qed.

Lemma TrimSpace_id s : Forall (fun c => isSpaceChar c = false) (String.list_ascii_of_string s) -> TrimSpace s = s.
Proof.
  intros H. unfold TrimSpace. destruct s as [|c s]; [done|]. pose proof H as H'.
  simpl in H'. apply Forall_cons in H' as [Hc _]. cbn [trimLeft]. rewrite Hc. by apply trimRight_id.
Qed.

Lemma digits_no_space d : Forall (fun c => isSpaceChar c = false) (String.list_ascii_of_string (NilEmpty.string_of_uint d)).
Proof. induction d; simpl; constructor; done. Qed.

Lemma FormatInt_no_space z : Forall (fun c => isSpaceChar c = false) (String.list_ascii_of_string (FormatInt z)).
Proof.
  unfold FormatInt. assert (forall d, Forall (fun c => isSpaceChar c = false)
    (String.list_ascii_of_string (NilZero.string_of_uint d))) as H.
  { intros [|d|d|d|d|d|d|d|d|d|d]; try (constructor; done); exact (digits_no_space _). }
  destruct (Z.to_int z) as [d|d]; simpl; [apply H|]. constructor; [done|apply H].
Qed.

Lemma counterOf_FormatInt z : in_int64 z = true -> counterOf (Plain (FormatInt z)) = Some z.
Proof.
  intros H. unfold counterOf. rewrite TrimSpace_id by apply FormatInt_no_space. by rewrite ParseInt_FormatInt.
Qed.

(** ** Stored texts *)

Lemma decodeContent_indent o dst :
  decodeContent (MarshalIndent o) dst =
  match UnmarshalObject (MarshalObject o) dst with
  | Some o => Ret o
  | None => Fail (OtherError "json: cannot unmarshal")
  end.
Proof. unfold decodeContent, MarshalIndent. by rewrite parseText_indent. Qed.

Lemma decodeRaw_indent o : decodeRaw (MarshalIndent o) = Ret (memberText <$> rawMap (MarshalObject o)).
Proof. unfold decodeRaw, MarshalIndent. rewrite MarshalObject_fields, rawTexts_indent. done. Qed.

Lemma decodeRaw_compact o :
  decodeRaw (Json (compactText (MarshalObject o))) = Ret (compactText <$> rawMap (MarshalObject o)).
Proof. unfold decodeRaw. rewrite MarshalObject_fields, rawTexts_compact. done. Qed.

#[export] Instance MarshalIndent_content_inj : Inj (=) (=) (fun j => Json (indentText j)).
Proof. intros j1 j2 [= E]. by apply (inj indentText). Qed.

(** Re-encoding a map of raw texts gives the object with the members they spell. *)
Lemma mapText_spec (m : gmap string text) (M : gmap string json) :
  (forall k, m !! k ≫= parseText = M !! k) -> (forall k t, m !! k = Some t -> is_Some (parseText t)) ->
  mapText m = Some (mapJson M).
Proof.
  intros HM Hp. set (f := fun t => default JNull (parseText t)).
  assert (M = f <$> m) as ->.
  { apply map_eq. intros k. rewrite <- HM, lookup_fmap. destruct (m !! k) as [t|] eqn:E; [|done].
    destruct (Hp k t E) as [j Hj]. simpl. unfold f. by rewrite Hj. }
  unfold mapText, mapJson. rewrite map_to_list_fmap.
  assert (forall l : list (string * text), (forall k t, (k, t) ∈ l -> is_Some (parseText t)) ->
    mapM (fun kt => pair kt.1 <$> parseText kt.2) l = Some (prod_map id f <$> l)) as Hl.
  { induction l as [|[k t] l IH]; intros Hin; [done|]. simpl. destruct (Hin k t) as [j Hj]; [set_solver|].
    rewrite Hj. simpl. rewrite IH by (intros k0 t0 ?; apply (Hin k0); set_solver). simpl. unfold prod_map at 2, f at 2. simpl. by rewrite Hj. }
  rewrite Hl; [done|]. intros k t Hin. apply elem_of_map_to_list in Hin. by apply (Hp k).
Qed.

(** The merge of [Update] and [UpdateStatus] on texts is the merge on values,
    whatever layout the two texts have. *)
Lemma decodeMerged_spec (f1 f2 : json -> text) base other obj :
  (forall j, parseText (f1 j) = Some j) -> (forall j, parseText (f2 j) = Some j) ->
  decodeMerged (mergeRaw (f1 <$> rawMap (MarshalObject base)) (f2 <$> rawMap (MarshalObject other))) obj =
  match UnmarshalObject (mapJson (mergeStatus base other)) obj with
  | Some o => Ret o
  | None => Fail (OtherError "json: cannot unmarshal")
  end.
Proof.
  intros H1 H2. unfold decodeMerged.
  assert (forall k, mergeRaw (f1 <$> rawMap (MarshalObject base)) (f2 <$> rawMap (MarshalObject other)) !! k =
    if decide (k = "status") then f2 <$> rawField k other else f1 <$> rawField k base) as Hl.
  { intros k. unfold mergeRaw, rawField. rewrite lookup_fmap. case_decide as E; [subst|].
    - destruct (rawMap (MarshalObject other) !! "status"); simpl; [apply lookup_insert_eq|apply lookup_delete_eq].
    - destruct (rawMap (MarshalObject other) !! "status"); simpl;
        [rewrite lookup_insert_ne by done|rewrite lookup_delete_ne by done]; by rewrite lookup_fmap. }
  rewrite (mapText_spec _ (mergeStatus base other)); [done| |].
  - intros k. rewrite Hl, mergeStatus_lookup. case_decide; [destruct (rawField k other)|destruct (rawField k base)]; simpl; auto.
  - intros k t. rewrite Hl. case_decide; intros (j & _ & ->)%fmap_Some_1; eauto.
Qed.

(** When the backend takes the spec for unchanged: both absent, or equal and
    printed on one line. *)
Definition sameSpecText (obj st : Object) : Prop :=
  rawField "spec" st = rawField "spec" obj /\ forall j, rawField "spec" st = Some j -> flat j = true.

#[export] Instance sameSpecText_dec obj st : Decision (sameSpecText obj st).
Proof.
  refine (cast_if (decide (rawField "spec" st = rawField "spec" obj /\ from_option flat true (rawField "spec" st) = true)));
    unfold sameSpecText; destruct (rawField "spec" st); naive_solver.
Defined.

Lemma specChanged_spec obj st :
  bool_decide ((memberText <$> rawMap (MarshalObject st)) !! "spec" = (compactText <$> rawMap (MarshalObject obj)) !! "spec")
  = bool_decide (sameSpecText obj st).
Proof.
  apply bool_decide_ext. rewrite !lookup_fmap. unfold sameSpecText, rawField.
  destruct (rawMap (MarshalObject st) !! "spec") as [j|], (rawMap (MarshalObject obj) !! "spec") as [j'|]; simpl; try naive_solver.
  split.
  - intros [= [-> Hf]%memberText_compact]. naive_solver.
  - intros [[= ->] Hf]. f_equal. apply memberText_compact. naive_solver.
Qed.

(** The generation after an update by this backend. *)
Definition textGeneration (obj st : Object) : Z :=
  if decide (sameSpecText obj st) then GetGeneration st else wrap64 (GetGeneration st + 1).

(** ** The directory tree *)

(** A counter file: absent as long as the counter is 0. *)
Definition counterFile (t : gmap path node) (p : path) (z : Z) : Prop :=
  (t !! p = None /\ z = 0%Z) \/ t !! p = Some (File (Plain (FormatInt z))).

Definition revisionFile (r : path) : path := r ++ [".revision"].
Definition uidFile (r : path) : path := r ++ [".uid-counter"].

(** The tree holds exactly the objects [V], one file each in its place, and the
    two counters; nothing is in the way of the directories. *)
Record diskOk (r : path) (t : gmap path node) (V : GVK -> gmap ObjectKey Object) (rev uid : Z) : Prop := {
  do_closed : forall p c n, t !! (p ++ [c]) = Some n -> t !! p = Some Directory;
  do_dirs : forall g ns p, okGVK g = true -> p `prefix_of` dirOf r g ++ [ns] -> isFile t p = false;
  do_names : forall g ns n, okGVK g = true -> t !! (dirOf r g ++ [ns]) = Some n -> plain ns = true;
  do_known : forall g ns f n, okGVK g = true -> t !! (dirOf r g ++ [ns; f]) = Some n ->
    exists k, okKey k = true /\ ns = nsName k /\ f = fileName k;
  do_objects : forall g k, okGVK g = true -> okKey k = true ->
    t !! fileOf r g k = (fun o => File (MarshalIndent o)) <$> V g !! k;
  do_revision : counterFile t (revisionFile r) rev;
  do_uid : counterFile t (uidFile r) uid;
}.

Section disk.
Context (r : path).

Lemma prefix_counter x g ns : r ++ [x] `prefix_of` dirOf r g ++ [ns] -> x = groupName g.
Proof. unfold dirOf. rewrite <- (assoc_L (++)). intros H%prefix_app_inv. by apply prefix_cons_inv_1 in H. Qed.

Lemma counter_not_dir g ns x :
  okGVK g = true -> x = ".revision" \/ x = ".uid-counter" -> ~ (r ++ [x] `prefix_of` dirOf r g ++ [ns]).
Proof.
  intros Hg Hx H%prefix_counter. unfold okGVK, groupName in *. split_bools.
  destruct Hx as [->| ->]; case_bool_decide; congruence.
Qed.

Lemma prefix_root p : p `prefix_of` r -> exists g, okGVK g = true /\ p `prefix_of` dirOf r g ++ ["n"].
Proof.
  intros H. exists (mkGVK "g" "v" "k"). split; [done|]. unfold dirOf. rewrite <- (assoc_L (++)). by apply prefix_app_r.
Qed.

(** Paths of different kinds are different. *)
Lemma fileOf_length g k : length (fileOf r g k) = length r + 5.
Proof. unfold fileOf, dirOf. rewrite !length_app. simpl. lia. Qed.

Lemma dir_prefix_length g ns p : p `prefix_of` dirOf r g ++ [ns] -> length p <= length r + 4.
Proof. intros H%prefix_length. unfold dirOf in H. rewrite !length_app in H. simpl in H. lia. Qed.

Lemma counterFile_insert (t : gmap path node) (p q : path) n z : q <> p -> counterFile t p z -> counterFile (<[q := n]> t) p z.
Proof. intros Hne. unfold counterFile. by rewrite lookup_insert_ne. Qed.

Lemma counterFile_delete (t : gmap path node) (p q : path) z : q <> p -> counterFile t p z -> counterFile (delete q t) p z.
Proof. intros Hne. unfold counterFile. by rewrite lookup_delete_ne. Qed.

Lemma isFile_insert_ne (t : gmap path node) (p q : path) n : q <> p -> isFile (<[q := n]> t) p = isFile t p.
Proof. intros H. unfold isFile. by rewrite lookup_insert_ne. Qed.

(** A file in an existing directory, where no directory is, keeps the tree closed. *)
Lemma closed_insert (t : gmap path node) (q : path) (c : string) (n : node) :
  (forall p c n, t !! (p ++ [c]) = Some n -> t !! p = Some Directory) ->
  t !! q = Some Directory -> t !! (q ++ [c]) <> Some Directory ->
  forall p c' n', <[q ++ [c] := n]> t !! (p ++ [c']) = Some n' -> <[q ++ [c] := n]> t !! p = Some Directory.
Proof.
  intros Hc Hq Hn p c' n' H. rewrite lookup_insert_ne.
  - apply lookup_insert_Some in H as [[E _]|[_ H]]; [|by eapply Hc].
    by apply app_inj_2 in E as [-> _].
  - intros <-. apply lookup_insert_Some in H as [[E _]|[_ H]]; [|by apply Hc in H].
    apply (f_equal length) in E. rewrite !length_app in E. simpl in E. lia.
Qed.

Section ops.
Context (t : gmap path node) (V : GVK -> gmap ObjectKey Object) (rev uid : Z).
Hypothesis Hd : diskOk r t V rev uid.

Lemma file_parent g k : fileOf r g k = (dirOf r g ++ [nsName k]) ++ [fileName k].
Proof. unfold fileOf. by rewrite <- (assoc_L (++)). Qed.

Lemma Dir_fileOf g k : Dir (fileOf r g k) = dirOf r g ++ [nsName k].
Proof. unfold Dir. rewrite file_parent. apply removelast_last. Qed.

Lemma no_file_above g ns : okGVK g = true -> existsb (isFile t) (prefixes (dirOf r g ++ [ns])) = false.
Proof using Hd.
  intros Hg. apply not_true_is_false. intros (p & Hp & Hf)%existsb_exists.
  apply list_elem_of_In, elem_of_prefixes in Hp. by rewrite (do_dirs _ _ _ _ _ Hd g ns p) in Hf.
Qed.

Lemma no_file_prefix p : p `prefix_of` r -> existsb (isFile t) (prefixes p) = false.
Proof using Hd.
  intros Hp. apply not_true_is_false. intros (q & Hq & Hf)%existsb_exists.
  apply list_elem_of_In, elem_of_prefixes in Hq.
  destruct (prefix_root q) as (g & Hg & Hqg); [by transitivity p|].
  by rewrite (do_dirs _ _ _ _ _ Hd g "n" q) in Hf.
Qed.

Lemma ReadFile_object g k :
  okGVK g = true -> okKey k = true ->
  ReadFile (fileOf r g k) (mkDisk t []) =
  (mkDisk t [], match V g !! k with Some o => Ret (MarshalIndent o) | None => Fail ErrNotExist end).
Proof using Hd.
  intros Hg Hk. unfold ReadFile. simpl. rewrite (do_objects _ _ _ _ _ Hd g k Hg Hk).
  destruct (V g !! k); simpl; [done|]. do 2 f_equal. unfold missing.
  by rewrite Dir_fileOf, no_file_above.
Qed.

Lemma Stat_object g k :
  okGVK g = true -> okKey k = true ->
  Stat (fileOf r g k) (mkDisk t []) =
  (mkDisk t [], match V g !! k with Some _ => Ret tt | None => Fail ErrNotExist end).
Proof using Hd.
  intros Hg Hk. unfold Stat. simpl. rewrite (do_objects _ _ _ _ _ Hd g k Hg Hk).
  destruct (V g !! k); simpl; [done|]. do 2 f_equal. unfold missing.
  by rewrite Dir_fileOf, no_file_above.
Qed.

(** [MkdirAll] of a namespace directory, or of the root. *)
Lemma mkdirs_ok g ns D :
  okGVK g = true -> plain ns = true -> D `prefix_of` dirOf r g ++ [ns] -> diskOk r (mkdirs (prefixes D) t) V rev uid.
Proof using Hd.
  intros Hg Hns HD.
  assert (forall p, p ∈ prefixes D -> p `prefix_of` dirOf r g ++ [ns]) as Hpre.
  { intros p Hp%elem_of_prefixes. by transitivity D. }
  assert (forall p, length r + 4 < length p -> mkdirs (prefixes D) t !! p = t !! p) as Hlong.
  { intros p Hl. rewrite mkdirs_lookup, decide_False; [done|]. intros Hp%Hpre%dir_prefix_length. lia. }
  assert (forall x, x = ".revision" \/ x = ".uid-counter" -> mkdirs (prefixes D) t !! (r ++ [x]) = t !! (r ++ [x])) as Hcnt.
  { intros x Hx. rewrite mkdirs_lookup, decide_False; [done|]. intros Hp%Hpre. by eapply counter_not_dir. }
  destruct Hd as [H1 H2 Hnm H3 H4 H5 H6]. split.
  - intros p c n. rewrite !mkdirs_lookup. destruct (decide (p ++ [c] ∈ prefixes D)) as [Hp|Hp].
    + intros _. rewrite decide_True; [done|]. apply elem_of_prefixes in Hp. apply elem_of_prefixes.
      transitivity (p ++ [c]); [by apply prefix_app_r|done].
    + intros Hn%H1. rewrite Hn. by case_decide.
  - intros g' ns' p Hg' Hp. unfold isFile. rewrite mkdirs_lookup. case_decide; [done|]. exact (H2 g' ns' p Hg' Hp).
  - intros g' ns' n Hg'. rewrite mkdirs_lookup. destruct (decide (_ ∈ _)) as [Hp%Hpre|]; [|by apply Hnm].
    intros _. assert (length (dirOf r g' ++ [ns']) = length (dirOf r g ++ [ns])) as El
      by (unfold dirOf; rewrite !length_app; simpl; lia).
    destruct Hp as [q Hq]. rewrite Hq, !length_app in El. destruct q; [|simpl in El; lia].
    rewrite app_nil_r in Hq. apply app_inj_2 in Hq as [_ [= ->]]; done.
  - intros g' ns' f n Hg'. rewrite Hlong; [by apply H3|]. unfold dirOf. rewrite !length_app. simpl. lia.
  - intros g' k Hg' Hk. rewrite Hlong; [by apply H4|]. rewrite fileOf_length. lia.
  - unfold counterFile, revisionFile. rewrite Hcnt by auto. exact H5.
  - unfold counterFile, uidFile. rewrite Hcnt by auto. exact H6.
Qed.

(** Writing an object's file in its existing directory. *)
Lemma write_object g k o V' :
  okGVK g = true -> okKey k = true -> t !! (dirOf r g ++ [nsName k]) = Some Directory ->
  (forall g', V' g' = if decide (g' = g) then <[k := o]> (V g) else V g') ->
  diskOk r (<[fileOf r g k := File (MarshalIndent o)]> t) V' rev uid.
Proof using Hd.
  intros Hg Hk Hdir HV. assert (t !! fileOf r g k <> Some Directory) as Hnd.
  { rewrite (do_objects _ _ _ _ _ Hd g k Hg Hk). by destruct (V g !! k). }
  assert (forall x, fileOf r g k <> r ++ [x]) as Hx.
  { intros x E. apply (f_equal length) in E. rewrite fileOf_length, length_app in E. simpl in E. lia. }
  destruct Hd as [H1 H2 Hnm H3 H4 H5 H6]. split.
  - rewrite file_parent in Hnd |- *. by apply closed_insert.
  - intros g' ns p Hg' Hp. rewrite isFile_insert_ne; [by eapply H2|]. intros <-.
    apply dir_prefix_length in Hp. rewrite fileOf_length in Hp. lia.
  - intros g' ns n Hg' [[E _]|[_ Hn]]%lookup_insert_Some; [|by eapply Hnm].
    apply (f_equal length) in E. rewrite fileOf_length, length_app in E. unfold dirOf in E. rewrite length_app in E. simpl in E. lia.
  - intros g' ns f n Hg' [[E _]|[_ Hn]]%lookup_insert_Some; [|by eapply H3].
    unfold fileOf in E. apply app_inj_2 in E as [_ E]; [|done]. injection E as <- <-. eauto.
  - intros g' k' Hg' Hk'. rewrite HV. destruct (decide (fileOf r g k = fileOf r g' k')) as [E|E].
    + rewrite <- E, lookup_insert_eq. apply fileOf_inj in E as [<- <-]; [|done..].
      by rewrite decide_True, lookup_insert_eq by done.
    + rewrite lookup_insert_ne by done. rewrite H4 by done. case_decide; [subst|done].
      rewrite lookup_insert_ne; [done|]. by intros <-.
  - apply counterFile_insert; [apply Hx|done].
  - apply counterFile_insert; [apply Hx|done].
Qed.

Lemma remove_object g k V' :
  okGVK g = true -> okKey k = true -> is_Some (V g !! k) ->
  (forall g', V' g' = if decide (g' = g) then delete k (V g) else V g') ->
  diskOk r (delete (fileOf r g k) t) V' rev uid.
Proof using Hd.
  intros Hg Hk [o Ho] HV.
  assert (t !! fileOf r g k = Some (File (MarshalIndent o))) as Hf by (by rewrite (do_objects _ _ _ _ _ Hd g k Hg Hk), Ho).
  assert (forall x, fileOf r g k <> r ++ [x]) as Hx.
  { intros x E. apply (f_equal length) in E. rewrite fileOf_length, length_app in E. simpl in E. lia. }
  destruct Hd as [H1 H2 Hnm H3 H4 H5 H6]. split.
  - intros p c n [_ Hn]%lookup_delete_Some. apply H1 in Hn. rewrite lookup_delete_ne; [done|]. intros <-. congruence.
  - intros g' ns p Hg' Hp. unfold isFile. destruct (decide (fileOf r g k = p)) as [<-|Hne];
      [by rewrite lookup_delete_eq|rewrite lookup_delete_ne by done; by eapply (H2 g' ns)].
  - intros g' ns n Hg' [_ Hn]%lookup_delete_Some. by eapply Hnm.
  - intros g' ns f n Hg' [_ Hn]%lookup_delete_Some. by eapply H3.
  - intros g' k' Hg' Hk'. rewrite HV. destruct (decide (fileOf r g k = fileOf r g' k')) as [E|E].
    + rewrite <- E, lookup_delete_eq. apply fileOf_inj in E as [<- <-]; [|done..].
      by rewrite decide_True, lookup_delete_eq by done.
    + rewrite lookup_delete_ne by done. rewrite H4 by done. case_decide; [subst|done].
      rewrite lookup_delete_ne; [done|]. by intros <-.
  - apply counterFile_delete; [apply Hx|done].
  - apply counterFile_delete; [apply Hx|done].
Qed.

Lemma write_counter x z rev' uid' :
  t !! r = Some Directory ->
  (x = ".revision" /\ rev' = z /\ uid' = uid \/ x = ".uid-counter" /\ rev' = rev /\ uid' = z) ->
  diskOk r (<[r ++ [x] := File (Plain (FormatInt z))]> t) V rev' uid'.
Proof using Hd.
  intros Hr Hx. assert (x = ".revision" \/ x = ".uid-counter") as Hx' by naive_solver.
  assert (t !! (r ++ [x]) <> Some Directory) as Hnd.
  { destruct Hx' as [->| ->]; [destruct (do_revision _ _ _ _ _ Hd) as [[E _]|E]|destruct (do_uid _ _ _ _ _ Hd) as [[E _]|E]];
      unfold revisionFile, uidFile in E; by rewrite E. }
  destruct Hd as [H1 H2 Hnm H3 H4 H5 H6]. split.
  - by apply closed_insert.
  - intros g' ns p Hg' Hp. rewrite isFile_insert_ne; [by eapply H2|]. intros <-. by eapply counter_not_dir.
  - intros g' ns n Hg' [[E _]|[_ Hn]]%lookup_insert_Some; [|by eapply Hnm].
    apply (f_equal length) in E. unfold dirOf in E. rewrite !length_app in E. simpl in E. lia.
  - intros g' ns f n Hg' [[E _]|[_ Hn]]%lookup_insert_Some; [|by eapply H3].
    apply (f_equal length) in E. unfold dirOf in E. rewrite !length_app in E. simpl in E. lia.
  - intros g' k' Hg' Hk'. rewrite lookup_insert_ne; [by apply H4|]. intros E.
    apply (f_equal length) in E. rewrite fileOf_length, length_app in E. simpl in E. lia.
  - destruct Hx as [(-> & -> & ->)|(-> & -> & ->)]; [right; apply lookup_insert_eq|].
    apply counterFile_insert; [|done]. intros [=]%app_inv_head.
  - destruct Hx as [(-> & -> & ->)|(-> & -> & ->)]; [|right; apply lookup_insert_eq].
    apply counterFile_insert; [|done]. intros [=]%app_inv_head.
Qed.
End ops.
End disk.
