(* ===== verification/FilesystemFacts.v ===== *)
(** * The filesystem backend implements the Store contract

    [FSInv s H]: the disk holds the objects of the history [H], and the watchers,
    log and counters in memory are those of an in-memory store with that history.
    While the calls of [os] work, every operation preserves it, appending at most
    one change. *)

From S2P Require Import Prelude GoStrconv GoJson GoJsonFacts Objects ObjectFacts.
From S2P Require Import SpecStatus NormalForms StoreSpec Backend JsonText JsonTextFacts.
From S2P Require Import MemoryStore MemoryStoreFacts MemoryStoreRuns.
From S2P Require Import FileTree Filesystem FilesystemDisk.

Import FS.

(** ** The part shared with the in-memory backend *)

(** The store's memory, seen as an in-memory store with objects [objs]. *)
Definition toMem (objs : gmap GVK (gmap ObjectKey Object)) (s : FileStore) : Mem.MemoryStore :=
  Mem.mkStore objs (watchers s) (uidCounter s) (revision s) (eventLog s) (eventLogMax s) (heap s) (nextPtr s).

Definition withMem (m : Mem.MemoryStore) (s : FileStore) : FileStore :=
  mkStore (root s) (fsDisk s) (Mem.watchers m) (Mem.uidCounter m) (Mem.revision m) (Mem.eventLog m)
    (Mem.eventLogMax m) (Mem.heap m) (Mem.nextPtr m).

Lemma toMem_withMem m s : toMem (Mem.objects m) (withMem m s) = m.
Proof. by destruct m. Qed.

Lemma logEvent_toMem objs g rv ev s :
  logEvent g rv ev s = let (m, ok) := Mem.logEvent g rv ev (toMem objs s) in (withMem m s, ok).
Proof.
  unfold logEvent, Mem.logEvent. cbn. destruct (eventLogMax s <? _)%Z; [by destruct (eventLogMax s <? 0)%Z|done].
Qed.

Lemma notifyWatchers_toMem objs g ev s :
  notifyWatchers g ev s = let (m, ok) := Mem.notifyWatchers g ev (toMem objs s) in (withMem m s, ok).
Proof.
  unfold notifyWatchers, Mem.notifyWatchers. cbn.
  change (notifyLoop ev (default [] (watchers s !! g)) (heap s) []) with
    (Mem.notifyLoop ev (default [] (watchers s !! g)) (heap s) []).
  destruct (Mem.notifyLoop _ _ _ _) as [[h a]|]; [done|by destruct s].
Qed.

Lemma publish_toMem objs g rv ev s :
  publish g rv ev s =
  let (m, ok) := Mem.publish g rv ev (toMem objs s) in (withMem m s, if ok then Ret tt else Panic).
Proof.
  unfold publish, Mem.publish. rewrite (logEvent_toMem objs).
  destruct (Mem.logEvent g rv ev (toMem objs s)) as [m ok] eqn:E.
  assert (Mem.objects m = objs) as Hm.
  { revert E. unfold Mem.logEvent. cbn. by repeat case_match; intros [= <- <-]. }
  destruct ok; [|done]. rewrite (notifyWatchers_toMem objs). rewrite <- Hm at 1. rewrite toMem_withMem.
  by destruct (Mem.notifyWatchers g ev m).
Qed.

Lemma Watch_toMem objs scheme lst opts s :
  Watch scheme lst opts s =
  (fun mr => (withMem mr.1 s, mr.2)) <$> Mem.Watch scheme lst opts (toMem objs s).
Proof.
  unfold Watch, Mem.Watch. destruct (gvkForList scheme lst) as [g|e|]; [|by destruct s..].
  change (match fromRevisionOpt opts with Some from => eventsSince from g s | None => Ret [] end)
    with (match fromRevisionOpt opts with Some from => Mem.eventsSince from g (toMem objs s) | None => Ret [] end).
  cbv zeta. destruct (match fromRevisionOpt opts with Some _ => _ | None => _ end) as [replay|e|]; [|by destruct s..].
  change (preload ?c ?l) with (Mem.preload c l).
  change (Mem.newMemoryWatcher g) with (newFileWatcher g). by destruct (Mem.preload _ _).
Qed.

(** The calls that touch only the watchers are those of the in-memory store. *)
Lemma stopClose_toMem objs p s : stopClose p s = (fun m => withMem m s) <$> Mem.stopClose p (toMem objs s).
Proof.
  unfold stopClose, Mem.stopClose. change (heap s !! p) with (Mem.heap (toMem objs s) !! p).
  destruct (Mem.heap (toMem objs s) !! p) as [w|]; [|done].
  change (closeWatcher w) with (Mem.closeWatcher w). by destruct (Mem.closeWatcher w).
Qed.

Lemma receive_toMem objs p s :
  receive p s = let (m, r) := Mem.receive p (toMem objs s) in (withMem m s, r).
Proof.
  unfold receive, Mem.receive. change (heap s !! p) with (Mem.heap (toMem objs s) !! p).
  destruct (Mem.heap (toMem objs s) !! p) as [w|]; [|by destruct s].
  destruct (recv (Mem.wCh w)); [done|by destruct s..].
Qed.

Lemma stopClose_kept p m m' :
  Mem.stopClose p m = Some m' -> Mem.revision m' = Mem.revision m /\ Mem.uidCounter m' = Mem.uidCounter m.
Proof.
  unfold Mem.stopClose. destruct (Mem.heap m !! p) as [w|]; [|done]. destruct (Mem.closeWatcher w); [|done].
  by intros [= <-].
Qed.

Lemma receive_kept p m m' r :
  Mem.receive p m = (m', r) -> Mem.revision m' = Mem.revision m /\ Mem.uidCounter m' = Mem.uidCounter m.
Proof.
  unfold Mem.receive. destruct (Mem.heap m !! p) as [w|]; [|by intros [= <- _]].
  destruct (recv (Mem.wCh w)); by intros [= <- _].
Qed.

(** ** Running methods *)

Lemma bind_run {S A B} (m : St S A) (k : A -> St S B) s s' a : m s = (s', Ret a) -> bind m k s = k a s'.
Proof. unfold bind. by intros ->. Qed.

Lemma bind_fail {S A B} (m : St S A) (k : A -> St S B) s s' e : m s = (s', Fail e) -> bind m k s = (s', Fail e).
Proof. unfold bind. by intros ->. Qed.

Lemma onStore_run {X A} (m : St FileStore A) s s' (x : X) r : m s = (s', r) -> onStore m (s, x) = ((s', x), r).
Proof. unfold onStore. simpl. by intros ->. Qed.

Lemma must_run {A} (op : disk -> disk * osResult A) s d a :
  op (fsDisk s) = (d, Ret a) -> must op s = (setDisk d s, Ret a).
Proof. unfold must, sys, bind. by intros ->. Qed.

Lemma sys_run {A} (op : disk -> disk * osResult A) s d r :
  op (fsDisk s) = (d, r) -> sys op s = (setDisk d s, Ret r).
Proof. unfold sys. by intros ->. Qed.

Lemma setDisk_same s : setDisk (fsDisk s) s = s.
Proof. by destruct s. Qed.

(** ** The invariant *)

Section facts.
Context (scheme : Scheme).

#[local] Abbreviation okObject := (okObject scheme).
#[local] Abbreviation Inv := (Inv scheme).

(** The objects the backend represents exactly: a key the layout represents
    and no empty [omitempty] value other than the zero value. *)
Definition fsObject (o : Object) : Prop := okKey (ObjectKeyFromObject o) = true /\ normalObject o.

Record FSInv (s : FileStore) (H : list change) : Prop := {
  fi_mem : exists objs, Inv (toMem objs s) H;
  fi_disk : diskOk (root s) (tree (fsDisk s)) (fun g => view g H) (revision s) (uidCounter s);
  fi_faults : faults (fsDisk s) = [];
  fi_stored : forall g k o, view g H !! k = Some o -> okGVK g = true /\ fsObject o;
  fi_uid : in_int64 (uidCounter s) = true;
}.

(** The event [ev] was committed as the next change. *)
Record fsCommitted (s : FileStore) (H : list change) (g : GVK) (ev : Event) (s' : FileStore) : Prop := {
  fc_inv : FSInv s' (H ++ [mkChange (revision s + 1) g ev]);
  fc_mem : exists objs objs', Inv (toMem objs s) H /\ committed scheme (toMem objs s) H g ev (toMem objs' s');
  fc_root : root s' = root s;
}.

Lemma view_snoc g H c :
  view g (H ++ [c]) = if decide (g = cGVK c) then applyEvent (view g H) (cEvent c) else view g H.
Proof.
  rewrite view_app, eventsOf_single. case_bool_decide as E; case_decide; try congruence; done.
Qed.

Lemma applyEvent_lookup m ev k o :
  applyEvent m ev !! k = Some o ->
  (o = evObject ev /\ ObjectKeyFromObject o = k /\ evType ev <> EventDeleted) \/ m !! k = Some o.
Proof.
  unfold applyEvent. destruct (evType ev); try (intros [[<- <-]|[_ ?]]%lookup_insert_Some; [by left|by right]).
  - intros [_ ?]%lookup_delete_Some. by right.
  - by right.
Qed.

Lemma fs_next_revision s H : FSInv s H -> room H -> wrap64 (revision s + 1) = (revision s + 1)%Z.
Proof. intros HI Hr. destruct (fi_mem _ _ HI) as [objs Hm]. exact (next_revision scheme _ H Hm Hr). Qed.

Lemma fs_revision s H : FSInv s H -> revision s = Z.of_nat (length H).
Proof. intros HI. destruct (fi_mem _ _ HI) as [objs Hm]. exact (inv_revision _ _ _ Hm). Qed.

Lemma fs_stored s H g k o :
  FSInv s H -> view g H !! k = Some o ->
  okObject o /\ gvkForObject scheme o = Ret g /\ ObjectKeyFromObject o = k /\ fsObject o.
Proof.
  intros HI Hv. destruct (fi_mem _ _ HI) as [objs Hm].
  pose proof (objects_lookup_Some scheme _ H g k o Hm Hv) as Ho.
  destruct (stored_object scheme _ H g _ k o Hm Ho Hv) as (? & ? & ? & _).
  destruct (fi_stored _ _ HI _ _ _ Hv). done.
Qed.

(** Publishing an event once the disk already shows it. *)
Lemma fs_publish s H g ev d uid :
  FSInv s H -> room H -> okGVK g = true -> faults d = [] -> in_int64 uid = true ->
  GetResourceVersion (evObject ev) = FormatInt (revision s + 1) -> eventFits (view g H) ev ->
  (evType ev <> EventDeleted ->
     okObject (evObject ev) /\ gvkForObject scheme (evObject ev) = Ret g /\ fsObject (evObject ev)) ->
  diskOk (root s) (tree d) (fun g' => view g' (H ++ [mkChange (revision s + 1) g ev])) (revision s + 1) uid ->
  exists s', publish g (revision s + 1) ev
      (mkStore (root s) d (watchers s) uid (revision s + 1) (eventLog s) (eventLogMax s) (heap s) (nextPtr s)) = (s', Ret tt) /\
    fsCommitted s H g ev s'.
Proof.
  intros HI Hr Hg Hf Hu Hrv Hfit Hobj Hdisk. destruct (fi_mem _ _ HI) as [objs Hm].
  set (objs' := <[g := applyEvent (view g H) ev]> objs).
  destruct (publish_spec scheme (toMem objs s) _ H g ev objs' uid Hm Hr eq_refl Hrv Hfit) as (m & Ep & Hc & Eo & Eu).
  - intros g'. unfold objs'. case_decide; [subst; by rewrite lookup_insert_eq|].
    rewrite lookup_insert_ne by done. apply Hm.
  - intros g' m' k o [[<- <-]|[_ Hm']]%lookup_insert_Some Hk; [|by eapply (inv_stored _ _ _ Hm)].
    apply applyEvent_lookup in Hk as [(-> & _ & Hne)|Hk]; [destruct (Hobj Hne) as (? & ? & _); done|].
    by destruct (fs_stored s H g k o HI Hk) as (? & ? & _).
  - set (s1 := mkStore (root s) d (watchers s) uid (revision s + 1) (eventLog s) (eventLogMax s) (heap s) (nextPtr s)).
    exists (withMem m s1). rewrite (publish_toMem objs'). simpl in Ep. unfold toMem in *. simpl in *. rewrite Ep.
    split; [done|].
    pose proof (toMem_withMem m s1) as Em.
    split; [split|exists objs, (Mem.objects m); by rewrite Em|done].
    + exists (Mem.objects m). rewrite Em. apply Hc.
    + simpl. rewrite Eu. pose proof (inv_revision _ _ _ (com_inv _ _ _ _ _ _ Hc)) as E.
      rewrite length_app in E. simpl in E. rewrite E. pose proof (fs_revision s H HI).
      replace (Z.of_nat (length H + 1)) with (revision s + 1)%Z by lia. exact Hdisk.
    + done.
    + intros g' k o. rewrite view_snoc. simpl. case_decide; [subst|apply HI].
      intros [(-> & _ & Hne)|Hk]%applyEvent_lookup; [|by eapply (fi_stored _ _ HI)].
      destruct (Hobj Hne) as (_ & _ & ?). done.
    + simpl. by rewrite Eu.
Qed.

(** Writing a counter file: the root directory, then the file. *)
Lemma counter_run s V rev uid x z rev' uid' :
  faults (fsDisk s) = [] -> diskOk (root s) (tree (fsDisk s)) V rev uid ->
  (x = ".revision" /\ rev' = z /\ uid' = uid \/ x = ".uid-counter" /\ rev' = rev /\ uid' = z) ->
  exists t, (must (MkdirAll (root s)) ;! must (WriteFile (Join (root s) [x]) (Plain (FormatInt z)))) s =
      (setDisk (mkDisk t []) s, Ret tt) /\ diskOk (root s) t V rev' uid'.
Proof.
  intros Hf Hd Hx. destruct s as [r [t fs] ws u rv0 log mx h np]. simpl in *. subst fs.
  destruct (prefix_root r r) as (g & Hg & Hp); [done|].
  pose proof (mkdirs_ok r t V rev uid Hd g "n" r Hg eq_refl Hp) as Hd1.
  set (t1 := mkdirs (prefixes r) t) in *.
  assert (t1 !! r = Some Directory) as Hr.
  { unfold t1. rewrite mkdirs_lookup, decide_True; [done|]. by apply elem_of_prefixes. }
  pose proof (write_counter r t1 V rev uid Hd1 x z rev' uid' Hr Hx) as Hd2.
  eexists. split; [|exact Hd2].
  erewrite bind_run by (apply must_run, MkdirAll_works; by eapply no_file_prefix).
  rewrite Join_plain by (destruct Hx as [(-> & _)|(-> & _)]; done).
  erewrite must_run; [done|]. apply WriteFile_works; [done|].
  destruct Hx as [(-> & _)|(-> & _)];
    [destruct (do_revision _ _ _ _ _ Hd1) as [[E _]|E]|destruct (do_uid _ _ _ _ _ Hd1) as [[E _]|E]];
    unfold revisionFile, uidFile in E; by rewrite E.
Qed.

Lemma persistRevision_run s V rev uid rv :
  faults (fsDisk s) = [] -> diskOk (root s) (tree (fsDisk s)) V rev uid ->
  exists t, persistRevision rv s = (setDisk (mkDisk t []) s, Ret tt) /\ diskOk (root s) t V rv uid.
Proof. intros Hf Hd. apply (counter_run s V rev uid ".revision"); auto. Qed.

Lemma generateUID_run s V rev uid :
  faults (fsDisk s) = [] -> diskOk (root s) (tree (fsDisk s)) V rev uid ->
  let id := wrap64 (uidCounter s + 1) in
  exists t, generateUID s = (setDisk (mkDisk t []) (setUidCounter id s), Ret ("uid-" +:+ FormatInt id)) /\
    diskOk (root s) t V rev id.
Proof.
  intros Hf Hd id. destruct (counter_run (setUidCounter id s) V rev uid ".uid-counter" id rev id) as (t & E & Hd'); auto.
  exists t. split; [|done]. unfold generateUID, read. unfold bind at 1 2. fold id.
  change (must (MkdirAll (root s)) ;! (must (WriteFile (uidPath s) (Plain (FormatInt id))) ;! ret ("uid-" +:+ FormatInt id)))
    with (must (MkdirAll (root (setUidCounter id s))) ;!
          (must (WriteFile (Join (root (setUidCounter id s)) [".uid-counter"]) (Plain (FormatInt id))) ;!
           ret ("uid-" +:+ FormatInt id))).
  revert E. unfold bind. destruct (must (MkdirAll _) _) as [s1 [[]| |]]; try done. intros ->. done.
Qed.
(** ** Operations *)

Section ops.
Context (s : FileStore) (H : list change) (g : GVK).
Hypothesis HI : FSInv s H.
Hypothesis Hroom : room H.
Hypothesis Hg : okGVK g = true.

Lemma fsDisk_nofault : fsDisk s = mkDisk (tree (fsDisk s)) [].
Proof using HI. pose proof (fi_faults _ _ HI) as E. destruct (fsDisk s). simpl in *. by rewrite E. Qed.

(** The directory of a stored object exists. *)
Lemma stored_dir k o :
  view g H !! k = Some o -> okKey k = true -> tree (fsDisk s) !! (dirOf (root s) g ++ [nsName k]) = Some Directory.
Proof using HI Hg.
  intros Hv Hk. apply (do_closed _ _ _ _ _ (fi_disk _ _ HI) _ (fileName k) (File (MarshalIndent o))).
  rewrite <- file_parent, (do_objects _ _ _ _ _ (fi_disk _ _ HI)) by done. by rewrite Hv.
Qed.

Lemma created_object obj uid :
  okObject obj -> fsObject obj ->
  let new := SetResourceVersion (FormatInt (revision s + 1)) (SetGeneration 1 (SetUID uid obj)) in
  okObject new /\ fsObject new.
Proof.
  intros Ho [Hk Hn] new.
  assert (wfObject (SetUID uid obj) = true) as H1 by (apply wfObject_SetUID, Ho).
  assert (wfObject (SetGeneration 1 (SetUID uid obj)) = true) as H2 by (by apply wfObject_SetGeneration).
  assert (wfObject new = true) as H3 by (by apply wfObject_SetResourceVersion).
  split; [by eapply okObject_type; [| |exact Ho]|]. split; [done|].
  apply normalObject_withMeta; [done..|]. apply normalObject_withMeta; [done..|].
  apply normalObject_withMeta; [apply Ho|done..].
Qed.

Definition fsCreated (obj : Object) : Object := created obj (toMem ∅ s).

(** The objects after an added or modified one. *)
Lemma view_written ty new :
  ty = EventAdded \/ ty = EventModified ->
  forall g', view g' (H ++ [mkChange (revision s + 1) g (mkEvent ty new)]) =
    if decide (g' = g) then <[ObjectKeyFromObject new := new]> (view g H) else view g' H.
Proof.
  intros Hty g'. rewrite view_snoc. cbn [cGVK cEvent]. case_decide; [subst|done]. by destruct Hty as [->| ->].
Qed.

(** The UID part of [Create]: the counter moves when the object has none. *)
Lemma assignUID_run obj :
  let uid := if bool_decide (GetUID obj = "") then "uid-" +:+ FormatInt (wrap64 (uidCounter s + 1)) else GetUID obj in
  let cnt := if bool_decide (GetUID obj = "") then wrap64 (uidCounter s + 1) else uidCounter s in
  exists t, (if bool_decide (GetUID obj = "")
      then let! uid := onStore generateUID in setObj (SetUID uid obj) else ret tt) (s, obj) =
      ((setDisk (mkDisk t []) (setUidCounter cnt s), SetUID uid obj), Ret tt) /\
    diskOk (root s) t (fun g => view g H) (revision s) cnt /\ in_int64 cnt = true.
Proof using HI.
  pose proof (fi_disk _ _ HI) as Hd. case_bool_decide; cbv zeta.
  - destruct (generateUID_run s _ _ _ (fi_faults _ _ HI) Hd) as (t1 & E & Hd1). exists t1.
    split_and!; [|done|apply wrap64_range]. by erewrite bind_run by (by apply onStore_run).
  - exists (tree (fsDisk s)). split_and!; [|done|apply HI]. unfold ret. rewrite <- fsDisk_nofault.
    destruct s; simpl. by destruct obj as [? [? []] ?].
Qed.

(** The file of a new object: its directory, then the file. *)
Lemma placeObject_run s1 k o V rev uid V' :
  root s1 = root s -> faults (fsDisk s1) = [] -> diskOk (root s) (tree (fsDisk s1)) V rev uid -> okKey k = true ->
  (forall g', V' g' = if decide (g' = g) then <[k := o]> (V g) else V g') ->
  exists t2 t3,
    must (MkdirAll (Dir (fileOf (root s) g k))) s1 = (setDisk (mkDisk t2 []) s1, Ret tt) /\
    must (WriteFile (fileOf (root s) g k) (MarshalIndent o)) (setDisk (mkDisk t2 []) s1) =
      (setDisk (mkDisk t3 []) s1, Ret tt) /\
    diskOk (root s) t3 V' rev uid.
Proof using Hg.
  intros Hr Hf Hd Hk HV. set (D := dirOf (root s) g ++ [nsName k]).
  pose proof (mkdirs_ok (root s) _ _ _ _ Hd g (nsName k) D Hg (plain_nsName k Hk) (reflexivity _)) as Hd2.
  set (t2 := mkdirs (prefixes D) (tree (fsDisk s1))) in *.
  assert (t2 !! D = Some Directory) as Hdir.
  { unfold t2. rewrite mkdirs_lookup, decide_True; [done|]. by apply elem_of_prefixes. }
  exists t2. eexists. split_and!; [| |exact (write_object (root s) t2 _ _ _ Hd2 g k o V' Hg Hk Hdir HV)].
  - rewrite Dir_fileOf. apply must_run. destruct (fsDisk s1) as [t1 fs]. simpl in *. subst fs.
    apply MkdirAll_works. by eapply no_file_above.
  - rewrite file_parent. erewrite must_run; [done|]. apply WriteFile_works; [done|].
    rewrite <- file_parent, (do_objects _ _ _ _ _ Hd2) by done. by destruct (V g !! k).
Qed.

Lemma Create_run obj :
  okObject obj -> fsObject obj -> gvkForObject scheme obj = Ret g ->
  match view g H !! ObjectKeyFromObject obj with
  | Some _ => Create scheme (s, obj) = (s, obj, Fail (AlreadyExistsError (keyString (ObjectKeyFromObject obj))))
  | None => exists s', Create scheme (s, obj) = (s', fsCreated obj, Ret tt) /\
              fsCommitted s H g (mkEvent EventAdded (fsCreated obj)) s'
  end.
Proof using All.
  intros Ho Hfs Hgo. set (key := ObjectKeyFromObject obj). pose proof (proj1 Hfs) as Hk.
  pose proof (fi_disk _ _ HI) as Hd. pose proof fsDisk_nofault as Ed.
  unfold Create. erewrite bind_run by done. cbn [snd]. rewrite Hgo. erewrite bind_run by done.
  erewrite bind_run by done. cbn [fst]. fold key. rewrite (objectPath_eq (root s) g key) by done.
  assert (sys (Stat (fileOf (root s) g key)) s =
    (s, Ret match view g H !! key with Some _ => Ret tt | None => Fail ErrNotExist end)) as Est.
  { erewrite sys_run; [|rewrite Ed; by apply (Stat_object _ _ _ _ _ Hd)]. by rewrite <- Ed, setDisk_same. }
  erewrite bind_run by (by apply onStore_run). destruct (view g H !! key) as [o|] eqn:Ev; cbn [is_ret]; [done|].
  destruct (assignUID_run obj) as (t1 & E1 & Hd1 & Hcnt). erewrite bind_run by exact E1. clear E1.
  set (uid := if bool_decide (GetUID obj = "") then _ else GetUID obj).
  set (cnt := if bool_decide (GetUID obj = "") then _ else uidCounter s) in *.
  erewrite bind_run by done. erewrite bind_run by done.
  cbn [snd fst revision setUidCounter setDisk]. rewrite (fs_next_revision s H HI Hroom).
  set (new := SetResourceVersion (FormatInt (revision s + 1)) (SetGeneration 1 (SetUID uid obj))).
  change (SetGeneration 1 (SetResourceVersion (FormatInt (revision s + 1)) (SetUID uid obj))) with new.
  destruct (created_object obj uid Ho Hfs) as [Hno Hnf]. fold new in Hno, Hnf.
  assert (fsCreated obj = new) as ->.
  { unfold fsCreated, created, new, uid. simpl. case_bool_decide; [done|]. by destruct obj as [? [? []] ?]. }
  erewrite bind_run by done. cbn [fst].
  match goal with |- context [(?st, new)] => set (s1 := st) end.
  destruct (placeObject_run s1 key new _ _ _ _ eq_refl eq_refl Hd1 Hk (view_written EventAdded new (or_introl eq_refl)))
    as (t2 & t3 & E2 & E3 & Hd3).
  erewrite bind_run by (by apply onStore_run). erewrite bind_run by (by apply onStore_run).
  destruct (persistRevision_run (setDisk (mkDisk t3 []) s1) _ _ _ (revision s + 1) eq_refl Hd3) as (t4 & E4 & Hd4).
  erewrite bind_run by (by apply onStore_run).
  destruct (fs_publish s H g (mkEvent EventAdded new) (mkDisk t4 []) cnt) as (s' & Ep & Hc); try done.
  exists s'. split; [|done]. by erewrite onStore_run by exact Ep.
Qed.

(** Reading the stored object at the start of [Update], [UpdateStatus] and [Delete]. *)
Lemma readObject_run k :
  okKey k = true ->
  readObject k (fileOf (root s) g k) s =
  (s, match view g H !! k with Some o => Ret (MarshalIndent o) | None => Fail (NotFoundError (keyString k)) end).
Proof using HI Hg.
  intros Hk. pose proof fsDisk_nofault as Ed. unfold readObject.
  erewrite bind_run by (eapply sys_run; rewrite Ed; by apply (ReadFile_object _ _ _ _ _ (fi_disk _ _ HI))).
  rewrite <- Ed, setDisk_same. by destruct (view g H !! k).
Qed.

Lemma decodeStored_run k o : view g H !! k = Some o -> decodeStored scheme g (MarshalIndent o) = Ret o.
Proof using HI.
  intros Hv. destruct (fs_stored s H g k o HI Hv) as ([Hw Hn] & Hgo & _ & _ & Hno).
  unfold decodeStored, newObject. rewrite (Hn g Hgo), decodeContent_indent, UnmarshalObject_zero by done.
  by rewrite normalObject_norm.
Qed.

(** The write at the end of an update that changes something. *)
Lemma writeMerged_run obj merged k st :
  okKey k = true -> view g H !! k = Some st ->
  let new := SetResourceVersion (FormatInt (revision s + 1)) merged in
  okObject new -> fsObject new -> gvkForObject scheme new = Ret g -> ObjectKeyFromObject new = k ->
  okObject obj -> oType obj = oType new ->
  exists s' obj', writeMerged g (fileOf (root s) g k) merged (s, obj) = (s', obj', Ret tt) /\
    copyObject new obj = (obj', Ret tt) /\ fsCommitted s H g (mkEvent EventModified new) s'.
Proof using All.
  intros Hk Hv new Hno Hnf Hgn Hkn Ho Ht. pose proof (fi_disk _ _ HI) as Hd. pose proof fsDisk_nofault as Ed.
  unfold writeMerged. erewrite bind_run by done. cbn [fst snd]. rewrite (fs_next_revision s H HI Hroom). fold new.
  pose proof (stored_dir k st Hv Hk) as Hdir.
  assert (forall g', view g' (H ++ [mkChange (revision s + 1) g (mkEvent EventModified new)]) =
    if decide (g' = g) then <[k := new]> (view g H) else view g' H) as HV
    by (rewrite <- Hkn; apply view_written; auto).
  pose proof (write_object (root s) _ _ _ _ Hd g k new _ Hg Hk Hdir HV) as Hd1.
  erewrite bind_run.
  2: { apply onStore_run, must_run. cbn [setRevision fsDisk]. rewrite Ed, file_parent. apply WriteFile_works; [done|].
       rewrite <- file_parent, (do_objects _ _ _ _ _ Hd) by done. by rewrite Hv. }
  rewrite <- file_parent. match goal with |- context [(?st, obj)] => set (s1 := st) end.
  destruct (persistRevision_run s1 _ _ _ (revision s + 1) eq_refl Hd1) as (t2 & E2 & Hd2).
  erewrite bind_run by (by apply onStore_run). erewrite bind_run by done. cbn [snd fst].
  destruct (copyObject_total new obj) as (o & Ec & _); [apply Hno|apply Ho|done|].
  rewrite decodeContent_indent. unfold copyObject in Ec.
  destruct (UnmarshalObject (MarshalObject new) obj) as [o'|] eqn:Eu; [|done]. injection Ec as <-.
  erewrite bind_run by done. erewrite bind_run by done.
  destruct (fs_publish s H g (mkEvent EventModified new) (mkDisk t2 []) (uidCounter s)) as (s' & Ep & Hc);
    try done; [apply HI|unfold eventFits; simpl; by rewrite Hkn, Hv|].
  exists s', o'. split_and!; [|unfold copyObject; by rewrite Eu|done]. by erewrite onStore_run by exact Ep.
Qed.
(** What the object read back from its file compares as. *)
Lemma same_text st m : bool_decide (MarshalIndent st = MarshalIndent m) = bool_decide (MarshalObject st = MarshalObject m).
Proof.
  apply bool_decide_ext. unfold MarshalIndent. split; [by intros [= ?%(inj indentText)]|by intros ->].
Qed.

(** The merged object, once the server-managed metadata is restored, is the
    stored one exactly when the contents are equal. *)
Lemma same_text_content st m gen :
  let x := SetGeneration gen (SetUID (GetUID st) (SetResourceVersion (GetResourceVersion st) m)) in
  bool_decide (MarshalObject st = MarshalObject x) = contentEqual st x.
Proof. done. Qed.

Lemma fsObject_new o rv gen uid rv' m :
  wfObject m = true -> in_int64 gen = true -> normalObject m -> okKey (ObjectKeyFromObject m) = true ->
  o = SetResourceVersion rv (SetGeneration gen (SetUID uid (SetResourceVersion rv' m))) -> fsObject o.
Proof.
  intros Hw Hgen Hn Hk ->. pose proof (wfObject_SetResourceVersion rv' _ Hw) as H1.
  pose proof (wfObject_SetUID uid _ H1) as H2. pose proof (wfObject_SetGeneration gen _ Hgen H2) as H3.
  pose proof (wfObject_SetResourceVersion rv _ H3) as H4. split; [done|].
  by repeat (apply normalObject_withMeta; [done..|]).
Qed.

(** The merge has something the stored object does not. *)
Definition differs (base other dst st : Object) : Prop :=
  exists m, mergedStored base other dst st = Some m /\ contentEqual st (SetGeneration (GetGeneration st) m) = false.

Lemma Update_run obj :
  okObject obj -> fsObject obj -> gvkForObject scheme obj = Ret g ->
  let key := ObjectKeyFromObject obj in
  match view g H !! key with
  | None => Update scheme (s, obj) = (s, obj, Fail (NotFoundError (keyString key)))
  | Some st =>
      if bool_decide (GetResourceVersion obj <> GetResourceVersion st)
      then Update scheme (s, obj) = (s, obj, Fail (ConflictError (keyString key)))
      else exists s' obj', Update scheme (s, obj) = (s', obj', Ret tt) /\
        ((s' = s /\ unchanged obj st /\ copyObject st obj = (obj', Ret tt)) \/
         exists new, updateOf scheme (textGeneration obj st) obj st new (revision s) /\
           (fsObject new /\ differs obj st obj st) /\
           copyObject new obj = (obj', Ret tt) /\ fsCommitted s H g (mkEvent EventModified new) s')
  end.
Proof using All.
  intros Ho Hfs Hgo key. pose proof (proj1 Hfs) as Hk. fold key in Hk.
  unfold Update. erewrite bind_run by done. cbn [snd]. rewrite Hgo. erewrite bind_run by done.
  erewrite bind_run by done. cbn [fst]. fold key. rewrite (objectPath_eq (root s) g key) by done.
  pose proof (readObject_run key Hk) as Er.
  destruct (view g H !! key) as [st|] eqn:Ev; [|by erewrite bind_fail by (by apply onStore_run)].
  destruct (fs_stored s H g key st HI Ev) as (Hst & Hgs & _ & _ & Hns).
  assert (oType st = oType obj) as Ht by (by eapply okObject_same_type).
  erewrite bind_run by (by apply onStore_run). rewrite (decodeStored_run key st Ev). erewrite bind_run by done.
  case_bool_decide as Hrv; [done|].
  rewrite decodeRaw_indent, decodeRaw_compact. do 2 (erewrite bind_run by done).
  rewrite specChanged_spec, decodeMerged_spec by (apply parseText_compact || apply parseText_member).
  destruct (unmarshal_mergeStatus obj st obj) as (m & Em & Hw & Htm & Hmm & _); [apply Ho|apply Hst|apply Ho|done|done|].
  rewrite Em. erewrite bind_run by done. rewrite same_text, same_text_content.
  pose proof (in_int64_generation st (proj1 Hst)) as Hgen.
  destruct (contentEqual st _) eqn:Ec.
  - destruct (copyObject_total st obj) as (o & Eo & _); [apply Hst|apply Ho|done|].
    exists s, o. split; [|left; split_and!; try done].
    + rewrite decodeContent_indent. unfold copyObject in Eo.
      destruct (UnmarshalObject (MarshalObject st) obj); [|done]. injection Eo as <-. by erewrite bind_run by done.
    + destruct (merged_fields obj st m _ (proj1 Ho) (proj1 Hst) Ht Hgen Em) as (_ & Hx & Hl & Ha & Hf & Hr).
      eapply content_unchanged; [apply Hst|exact Hx|exact Ec| |exact Hl|exact Ha].
      intros k Hk' Hs'. rewrite Hr by (by apply not_metadata). auto.
  - assert (in_int64 (textGeneration obj st) = true) as Hg' by (unfold textGeneration; case_decide; [done|apply wrap64_range]).
    pose proof (updateOf_merged scheme (textGeneration obj st) obj st m (revision s) Ho Hst Ht Hg' Em) as Hup.
    set (new := SetResourceVersion (FormatInt (revision s + 1)) _) in Hup.
    assert (fsObject new) as Hnf.
    { rewrite overMeta_self in Hmm. eapply (fsObject_new new); [exact Hw|exact Hg'| | |reflexivity].
      - eapply unmarshal_mergeStatus_normal; [| | | | |exact Em|..]; try done; [apply Ho|apply Hst|apply Ho|apply Hfs|apply Hfs].
      - unfold ObjectKeyFromObject, GetNamespace, GetName. rewrite Hmm. exact Hk. }
    match goal with |- context [writeMerged g _ ?merged] => set (mg := merged) end.
    assert (SetResourceVersion (FormatInt (revision s + 1)) mg = new) as Emg.
    { unfold mg, new, textGeneration. case_bool_decide; case_decide; done. }
    pose proof (writeMerged_run obj mg key st Hk Ev) as Hwr. rewrite Emg in Hwr.
    destruct Hwr as (s' & obj' & E & Eo & Hc); try done; [apply Hup|rewrite <- Hgo; apply gvkForObject_type, Hup|apply Hup|].
    exists s', obj'. split; [done|]. right. exists new. split_and!; try done. eexists. unfold mergedStored. by rewrite Em.
Qed.

Lemma UpdateStatus_run obj :
  okObject obj -> fsObject obj -> gvkForObject scheme obj = Ret g ->
  let key := ObjectKeyFromObject obj in
  match view g H !! key with
  | None => UpdateStatus scheme (s, obj) = (s, obj, Fail (NotFoundError (keyString key)))
  | Some st =>
      if bool_decide (GetResourceVersion obj <> GetResourceVersion st)
      then UpdateStatus scheme (s, obj) = (s, obj, Fail (ConflictError (keyString key)))
      else exists s' obj', UpdateStatus scheme (s, obj) = (s', obj', Ret tt) /\
        ((s' = s /\ rawField "status" obj = rawField "status" st /\ copyObject st obj = (obj', Ret tt)) \/
         exists new, statusUpdateOf scheme obj st new (revision s) /\ (fsObject new /\ differs st obj obj st) /\
           copyObject new obj = (obj', Ret tt) /\ fsCommitted s H g (mkEvent EventModified new) s')
  end.
Proof using All.
  intros Ho Hfs Hgo key. pose proof (proj1 Hfs) as Hk. fold key in Hk.
  unfold UpdateStatus. erewrite bind_run by done. cbn [snd]. rewrite Hgo. erewrite bind_run by done.
  erewrite bind_run by done. cbn [fst]. fold key. rewrite (objectPath_eq (root s) g key) by done.
  pose proof (readObject_run key Hk) as Er.
  destruct (view g H !! key) as [st|] eqn:Ev; [|by erewrite bind_fail by (by apply onStore_run)].
  destruct (fs_stored s H g key st HI Ev) as (Hst & Hgs & Hks & _ & Hns).
  assert (oType st = oType obj) as Ht by (by eapply okObject_same_type).
  erewrite bind_run by (by apply onStore_run). rewrite (decodeStored_run key st Ev). erewrite bind_run by done.
  case_bool_decide as Hrv; [done|].
  rewrite decodeRaw_indent, decodeRaw_compact. do 2 (erewrite bind_run by done).
  rewrite decodeMerged_spec by (apply parseText_compact || apply parseText_member).
  destruct (unmarshal_mergeStatus st obj obj) as (m & Em & Hw & Htm & Hmm & _); [apply Hst|apply Ho|apply Ho|done|done|].
  rewrite Em. erewrite bind_run by done. rewrite same_text, same_text_content.
  pose proof (in_int64_generation st (proj1 Hst)) as Hgen.
  destruct (contentEqual st _) eqn:Ec.
  - destruct (copyObject_total st obj) as (o & Eo & _); [apply Hst|apply Ho|done|].
    exists s, o. split; [|left; split_and!; try done].
    + rewrite decodeContent_indent. unfold copyObject in Eo.
      destruct (UnmarshalObject (MarshalObject st) obj); [|done]. injection Eo as <-. by erewrite bind_run by done.
    + eapply (status_noop_unchanged obj st); [apply Ho|apply Hst|done|unfold mergedStored; by rewrite Em|exact Ec].
  - pose proof (statusUpdateOf_merged scheme obj st m (revision s) Ho Hst Ht Hks Em) as Hup.
    set (new := SetResourceVersion (FormatInt (revision s + 1)) _) in Hup.
    assert (fsObject new) as Hnf.
    { assert (ObjectKeyFromObject m = key) as Hkm.
      { change (ObjectKeyFromObject new = key). apply Hup. }
      eapply (fsObject_new new); [exact Hw|exact Hgen| |by rewrite Hkm|reflexivity].
      eapply unmarshal_mergeStatus_normal; [| | | | |exact Em|..]; try done; [apply Hst|apply Ho|apply Ho|apply Hfs|apply Hfs]. }
    pose proof (writeMerged_run obj _ key st Hk Ev (su_ok _ _ _ _ _ Hup)) as Hwr.
    destruct Hwr as (s' & obj' & E & Eo & Hc); try done; [rewrite <- Hgo; apply gvkForObject_type, Hup|apply Hup|].
    exists s', obj'. split; [exact E|]. right. exists new. split_and!; try done. eexists. unfold mergedStored. by rewrite Em.
Qed.

Lemma Delete_run obj :
  okKey (ObjectKeyFromObject obj) = true -> gvkForObject scheme obj = Ret g ->
  let key := ObjectKeyFromObject obj in
  match view g H !! key with
  | None => Delete scheme (s, obj) = (s, obj, Fail (NotFoundError (keyString key)))
  | Some st =>
      if bool_decide (GetResourceVersion obj <> "") && bool_decide (GetResourceVersion obj <> GetResourceVersion st)
      then Delete scheme (s, obj) = (s, obj, Fail (ConflictError (keyString key)))
      else exists s', Delete scheme (s, obj) = (s', obj, Ret tt) /\
        fsCommitted s H g (mkEvent EventDeleted (SetResourceVersion (FormatInt (revision s + 1)) st)) s'
  end.
Proof using All.
  intros Hk Hgo key. fold key in Hk. pose proof (fi_disk _ _ HI) as Hd. pose proof fsDisk_nofault as Ed.
  unfold Delete. erewrite bind_run by done. cbn [snd]. rewrite Hgo. erewrite bind_run by done.
  erewrite bind_run by done. cbn [fst]. fold key. rewrite (objectPath_eq (root s) g key) by done.
  pose proof (readObject_run key Hk) as Er.
  destruct (view g H !! key) as [st|] eqn:Ev; [|by erewrite bind_fail by (by apply onStore_run)].
  destruct (fs_stored s H g key st HI Ev) as (_ & _ & Hks & _).
  erewrite bind_run by (by apply onStore_run). rewrite (decodeStored_run key st Ev). erewrite bind_run by done.
  destruct (_ && _); [done|].
  assert (must (Remove (fileOf (root s) g key)) s = (setDisk (mkDisk (delete (fileOf (root s) g key) (tree (fsDisk s))) []) s, Ret tt)) as Erm.
  { apply must_run. rewrite Ed at 1. eapply Remove_works. by rewrite (do_objects _ _ _ _ _ Hd), Ev by done. }
  erewrite bind_run by (by apply onStore_run). erewrite bind_run by done.
  cbn [fst snd revision setDisk]. rewrite (fs_next_revision s H HI Hroom).
  set (ev := mkEvent EventDeleted (SetResourceVersion (FormatInt (revision s + 1)) st)).
  assert (forall g', view g' (H ++ [mkChange (revision s + 1) g ev]) =
    if decide (g' = g) then delete key (view g H) else view g' H) as HV.
  { intros g'. rewrite view_snoc. cbn [cGVK cEvent]. case_decide; [subst g'|done]. unfold applyEvent, ev. cbn [evType evObject].
    autorewrite with sc_rw. by rewrite Hks. }
  pose proof (remove_object (root s) _ _ _ _ Hd g key _ Hg Hk (mk_is_Some _ _ Ev) HV) as Hd1.
  match goal with |- context [(?st, obj)] => set (s1 := st) end.
  destruct (persistRevision_run s1 _ _ _ (revision s + 1) eq_refl Hd1) as (t2 & E2 & Hd2).
  erewrite bind_run by (by apply onStore_run).
  destruct (fs_publish s H g ev (mkDisk t2 []) (uidCounter s)) as (s' & Ep & Hc); try done; [apply HI| |].
  { unfold eventFits, ev. simpl. autorewrite with sc_rw. by rewrite Hks, Ev. }
  exists s'. split; [|done]. by erewrite onStore_run by exact Ep.
Qed.
End ops.
End facts.
