(* ===== verification/FilesystemList.v ===== *)
(** * Listing the filesystem backend

    [FileStore.List] walks the GVK's directory: namespaces, then files. It
    returns exactly the matching objects, each once. *)

From S2P Require Import Prelude GoStrconv GoJson GoJsonFacts Objects ObjectFacts.
From S2P Require Import NormalForms StoreSpec Backend FileTree MemoryStoreFacts.
From S2P Require Import Filesystem FilesystemDisk FilesystemFacts.

Import FS.

Lemma suffix_json s : String.substring (String.length (s +:+ ".json") - 5) 5 (s +:+ ".json") = ".json".
Proof.
  assert (String.length (s +:+ ".json") = String.length s + 5) as ->.
  { induction s as [|c s IH]; [done|]. simpl. by f_equal. }
  replace (String.length s + 5 - 5) with (String.length s) by lia.
  induction s as [|c s IH]; [done|]. exact IH.
Qed.

(** Visiting the entries of a directory one after the other. *)
Lemma foldr_run {A} (visit : A -> St FileStore (list Object)) (G : A -> list Object) l s :
  (forall x, x ∈ l -> visit x s = (s, Ret (G x))) ->
  foldr (fun x m => let! y := visit x in let! ys := m in ret (y ++ ys)) (ret []) l s = (s, Ret (l ≫= G)).
Proof.
  induction l as [|x l IH]; intros Hl; [done|]. cbn [foldr].
  erewrite bind_run by (apply Hl; set_solver). erewrite bind_run by (apply IH; intros; apply Hl; set_solver). done.
Qed.

Section list.
Context (scheme : Scheme) (s : FileStore) (H : list change) (g : GVK).
Hypothesis HI : FSInv scheme s H.
Hypothesis Hg : okGVK g = true.
Context (lo : ListOptions).

#[local] Abbreviation t := (tree (fsDisk s)).
#[local] Abbreviation dir := (dirOf (root s) g).

(** A file of a namespace directory belongs to one object of the history. *)
Lemma entry_known ns f b :
  (f, b) ∈ entries t (dir ++ [ns]) ->
  exists k o, okKey k = true /\ ns = nsName k /\ f = fileName k /\ b = false /\ view g H !! k = Some o /\
    t !! (dir ++ [ns; f]) = Some (File (MarshalIndent o)).
Proof using HI Hg.
  intros (n & Hn & ->)%elem_of_entries. rewrite <- (assoc_L (++)) in Hn. simpl in Hn.
  pose proof (fi_disk _ _ _ HI) as Hd.
  destruct (do_known _ _ _ _ _ Hd g ns f n Hg Hn) as (k & Hk & -> & ->). fold (fileOf (root s) g k) in Hn.
  pose proof Hn as Hn'. rewrite (do_objects _ _ _ _ _ Hd g k Hg Hk) in Hn'.
  apply fmap_Some_1 in Hn' as (o & Hv & ->). exists k, o. by rewrite <- Hn.
Qed.

Definition fileItems (ns f : string) : list Object :=
  match t !! (dir ++ [ns; f]) with
  | Some (File c) =>
      match decodeStored scheme g c with
      | Ret o => if match loLabelSelector lo with Some sel => lsMatches sel (GetLabels o) | None => true end
                 then [o] else []
      | _ => []
      end
  | _ => []
  end.

Lemma fileItems_known k o :
  okKey k = true -> view g H !! k = Some o ->
  fileItems (nsName k) (fileName k) =
  if match loLabelSelector lo with Some sel => lsMatches sel (GetLabels o) | None => true end then [o] else [].
Proof using HI Hg.
  intros Hk Hv. unfold fileItems. fold (fileOf (root s) g k).
  rewrite (do_objects _ _ _ _ _ (fi_disk _ _ _ HI) g k Hg Hk), Hv. simpl.
  by rewrite (decodeStored_run scheme s H g HI k o Hv).
Qed.

Lemma listFile_run ns f b :
  plain ns = true -> (f, b) ∈ entries t (dir ++ [ns]) ->
  listFile scheme g (dir ++ [ns]) lo (f, b) s = (s, Ret (fileItems ns f)).
Proof using HI Hg.
  intros Hns Hin. destruct (entry_known ns f b Hin) as (k & o & Hk & -> & -> & -> & Hv & Ht).
  rewrite (fileItems_known k o Hk Hv). unfold listFile. cbn [fst snd orb].
  unfold fileName. rewrite suffix_json, bool_decide_true by done. cbn [negb].
  pose proof (plain_fileName k Hk) as Hpf. fold (fileName k).
  rewrite Join_plain, <- (assoc_L (++)) by (simpl; by rewrite Hpf). simpl.
  pose proof (fsDisk_nofault scheme s H HI) as Ed.
  erewrite bind_run by (apply must_run; rewrite Ed; by apply ReadFile_works).
  rewrite <- Ed, setDisk_same, (decodeStored_run scheme s H g HI k o Hv). erewrite bind_run by done.
  destruct (loLabelSelector lo) as [sel|]; [by destruct (lsMatches sel _)|done].
Qed.

Definition dirItems (ns : string) : list Object :=
  if bool_decide (loNamespace lo <> "") &&
     bool_decide ((if bool_decide (ns = "_cluster") then "" else ns) <> loNamespace lo) then []
  else (entries t (dir ++ [ns])) ≫= (fun fb => fileItems ns fb.1).

Lemma listNamespace_run ns b :
  (ns, b) ∈ entries t dir -> listNamespace scheme g dir lo (ns, b) s = (s, Ret (dirItems ns)).
Proof using HI Hg.
  intros (n & Hn & ->)%elem_of_entries. pose proof (fi_disk _ _ _ HI) as Hd.
  pose proof (do_names _ _ _ _ _ Hd g ns n Hg Hn) as Hns.
  pose proof (do_dirs _ _ _ _ _ Hd g ns (dir ++ [ns]) Hg (reflexivity _)) as Hf. unfold isFile in Hf. rewrite Hn in Hf.
  destruct n as [|c]; [|done]. unfold listNamespace, dirItems. cbn [fst snd negb].
  destruct (_ && _); [done|]. rewrite Join_plain by (simpl; by rewrite Hns).
  pose proof (fsDisk_nofault scheme s H HI) as Ed.
  erewrite bind_run by (apply must_run; rewrite Ed; by apply ReadDir_works).
  rewrite <- Ed, setDisk_same. apply foldr_run. intros [f b] Hin. by apply listFile_run.
Qed.

(** All items, as the walk finds them. *)
Definition walkItems : list Object :=
  match t !! dir with Some Directory => entries t dir ≫= (fun nb => dirItems nb.1) | _ => [] end.

Lemma elem_of_dirItems ns o :
  o ∈ dirItems ns <-> exists k, view g H !! k = Some o /\ nsName k = ns /\ listed lo k o = true.
Proof using HI Hg.
  assert (forall k, okKey k = true -> (if bool_decide (nsName k = "_cluster") then "" else nsName k) = kNamespace k) as Hback.
  { intros k Hk. unfold okKey, nsName in *. split_bools. repeat case_bool_decide; congruence. }
  unfold dirItems. split.
  - case_match eqn:En; [set_solver|]. rewrite list_elem_of_bind. intros ([f b] & Ho & Hin). simpl in Ho.
    destruct (entry_known ns f b Hin) as (k & o' & Hk & -> & -> & -> & Hv & _).
    rewrite (fileItems_known k o' Hk Hv) in Ho. destruct (if loLabelSelector lo is Some sel then lsMatches sel (GetLabels o') else true) eqn:El; [|set_solver].
    apply list_elem_of_singleton in Ho as ->. exists k. split_and!; try done. unfold listed.
    rewrite <- (Hback k Hk), En. exact El.
  - intros (k & Hv & <- & Hl). destruct (fs_stored scheme s H g k o HI Hv) as (_ & _ & Hks & Hk & _). rewrite Hks in Hk.
    unfold listed in Hl. rewrite (Hback k Hk). destruct (_ && _); [done|]. apply list_elem_of_bind.
    exists (fileName k, false). simpl. split.
    + rewrite (fileItems_known k o Hk Hv), Hl. set_solver.
    + apply elem_of_entries. eexists. rewrite <- (assoc_L (++)). simpl. fold (fileOf (root s) g k).
      rewrite (do_objects _ _ _ _ _ (fi_disk _ _ _ HI) g k Hg Hk), Hv. done.
Qed.

Lemma elem_of_walkItems o : o ∈ walkItems <-> exists k, view g H !! k = Some o /\ listed lo k o = true.
Proof using HI Hg.
  unfold walkItems. pose proof (fi_disk _ _ _ HI) as Hd. split.
  - destruct (t !! dir) as [[]|]; [|set_solver..]. rewrite list_elem_of_bind.
    intros ([ns b] & (k & Hv & _ & Hl)%elem_of_dirItems & _). eauto.
  - intros (k & Hv & Hl). destruct (fs_stored scheme s H g k o HI Hv) as (_ & _ & Hks & Hk & _). rewrite Hks in Hk.
    pose proof (stored_dir scheme s H g HI Hg k o Hv Hk) as Hns. rewrite (do_closed _ _ _ _ _ Hd _ _ _ Hns).
    apply list_elem_of_bind. exists (nsName k, true). split; [apply elem_of_dirItems; eauto|].
    apply elem_of_entries. eauto.
Qed.

Lemma walkItems_NoDup : NoDup walkItems.
Proof using HI Hg.
  assert (forall k k' o, view g H !! k = Some o -> view g H !! k' = Some o -> k = k') as Hkey.
  { intros k k' o Hv Hv'. destruct (fs_stored scheme s H g k o HI Hv) as (_ & _ & <- & _).
    by destruct (fs_stored scheme s H g k' o HI Hv') as (_ & _ & <- & _). }
  unfold walkItems. destruct (t !! dir) as [[]|]; [|constructor..].
  apply NoDup_bind; [| |by eapply NoDup_fmap_1, entries_NoDup].
  - intros [ns b] [ns' b'] o (n & Hn & ->)%elem_of_entries (n' & Hn' & ->)%elem_of_entries
      (k & Hv & Ek & _)%elem_of_dirItems (k' & Hv' & Ek' & _)%elem_of_dirItems. simpl in *.
    rewrite (Hkey _ _ _ Hv' Hv) in Ek'. subst ns ns'. by simplify_eq.
  - intros [ns b] _. unfold dirItems. destruct (_ && _); [constructor|].
    apply NoDup_bind; [| |by eapply NoDup_fmap_1, entries_NoDup].
    + intros [f1 b1] [f2 b2] o Hin1 Hin2 Ho1 Ho2. simpl in *.
      destruct (entry_known _ _ _ Hin1) as (k1 & o1 & Hk1 & E1 & -> & -> & Hv1 & _).
      destruct (entry_known _ _ _ Hin2) as (k2 & o2 & Hk2 & E2 & -> & -> & Hv2 & _).
      rewrite E1, (fileItems_known k1 o1 Hk1 Hv1) in Ho1. rewrite E2, (fileItems_known k2 o2 Hk2 Hv2) in Ho2.
      repeat case_match; try set_solver;
        apply list_elem_of_singleton in Ho1, Ho2; subst; by rewrite (Hkey k1 k2 o2).
    + intros [f b'] _. unfold fileItems. repeat case_match; try apply NoDup_nil_2; apply NoDup_singleton.
Qed.

(** The walk finds the selected objects of the history. *)
Lemma walkItems_perm :
  walkItems ≡ₚ (List.filter (fun ko => listed lo ko.1 ko.2) (map_to_list (view g H))).*2.
Proof using HI Hg.
  apply NoDup_Permutation; [apply walkItems_NoDup| |].
  - apply (NoDup_fmap_1 ObjectKeyFromObject). rewrite <- list_fmap_compose.
    erewrite list_fmap_ext; [apply (NoDup_map_filter fst), NoDup_fst_map_to_list|].
    intros i [k o] Hi. simpl. apply list_elem_of_lookup_2, list_elem_of_In, List.filter_In in Hi as [Hi _].
    apply list_elem_of_In, elem_of_map_to_list in Hi. by destruct (fs_stored scheme s H g k o HI Hi) as (_ & _ & ? & _).
  - intros o. rewrite elem_of_walkItems, list_elem_of_fmap. split.
    + intros (k & Hv & Hl). exists (k, o). split; [done|]. apply list_elem_of_In, List.filter_In. split; [|done].
      by apply list_elem_of_In, elem_of_map_to_list.
    + intros ([k o'] & -> & [Hi Hl]%list_elem_of_In%List.filter_In).
      apply list_elem_of_In, elem_of_map_to_list in Hi. eauto.
Qed.
End list.

(** Nothing is in the way of a GVK's directory. *)
Lemma missing_dir r t V rev uid g : diskOk r t V rev uid -> okGVK g = true -> missing t (dirOf r g) = ErrNotExist.
Proof.
  intros Hd Hg. unfold missing.
  destruct (existsb _ _) eqn:E; [|done]. apply existsb_exists in E as (p & Hp & Hf).
  apply list_elem_of_In, elem_of_prefixes in Hp. rewrite (do_dirs _ _ _ _ _ Hd g "n" p Hg) in Hf; [done|].
  etrans; [exact Hp|]. unfold Dir, dirOf. rewrite (removelast_app r) by done. simpl. 
  exists [gKind g; "n"]. by rewrite <- !(assoc_L (++)).
Qed.

(** Filling a list whose items all have the element type. *)
Lemma populate_run rv lst items ty :
  lItemsField lst = ItemsOf ty -> (forall o, o ∈ items -> oType o = ty) ->
  populateListItems (SetListResourceVersion rv lst) items = (mkList (lName lst) (lItemsField lst) rv items, Ret tt).
Proof.
  intros Hty Hi. unfold populateListItems. cbn [lItemsField SetListResourceVersion]. rewrite Hty.
  assert (forallb (fun o => bool_decide (tName (oType o) = tName ty)) items = true) as ->; [|by unfold SetItems; simpl; rewrite Hty].
  apply forallb_forall. intros o Ho%list_elem_of_In. rewrite (Hi o Ho). by apply bool_decide_eq_true_2.
Qed.

Lemma List_run scheme s H g lst opts :
  FSInv scheme s H -> okGVK g = true -> gvkForList scheme lst = Ret g -> okList scheme g lst ->
  exists items, List scheme opts (s, lst) =
    (s, mkList (lName lst) (lItemsField lst) (FormatInt (revision s)) items, Ret tt) /\
    items ≡ₚ (List.filter (fun ko => listed (applyOptions opts) ko.1 ko.2) (map_to_list (view g H))).*2.
Proof.
  intros HI Hg Hgl (ty & Hty & Hn). exists (walkItems scheme s g (applyOptions opts)).
  split; [|by apply walkItems_perm].
  pose proof (fi_disk _ _ _ HI) as Hd. pose proof (fsDisk_nofault scheme s H HI) as Ed.
  unfold List. erewrite bind_run by done. cbn [snd]. rewrite Hgl. erewrite bind_run by done.
  erewrite bind_run by done. cbn [fst snd]. erewrite bind_run by done. cbn [fst snd].
  rewrite gvkDir_eq by done.
  assert (missing (tree (fsDisk s)) (dirOf (root s) g) = ErrNotExist) as Hmiss by (by eapply missing_dir).
  assert (sys (ReadDir (dirOf (root s) g)) s = (s, Ret match tree (fsDisk s) !! dirOf (root s) g with
    | Some Directory => Ret (entries (tree (fsDisk s)) (dirOf (root s) g)) | _ => Fail ErrNotExist end)) as Er.
  { erewrite sys_run; [|rewrite Ed; unfold ReadDir, nextFault; cbn [faults tree]; reflexivity].
    rewrite <- Ed, setDisk_same. do 2 f_equal. destruct (tree (fsDisk s) !! dirOf (root s) g) as [[]|] eqn:E; [done| |].
    - pose proof (do_dirs _ _ _ _ _ Hd g "n" (dirOf (root s) g) Hg ltac:(by apply prefix_app_r)) as Hf.
      unfold isFile in Hf. by rewrite E in Hf.
    - by rewrite Hmiss. }
  erewrite bind_run by (by apply onStore_run).
  erewrite (bind_run _ _ _ (s, SetListResourceVersion (FormatInt (revision s)) lst) (walkItems scheme s g (applyOptions opts))).
  2: { unfold walkItems. destruct (tree (fsDisk s) !! dirOf (root s) g) as [[]|]; try done.
       apply onStore_run, foldr_run. intros [ns b] Hin. by eapply listNamespace_run. }
  erewrite bind_run by done. cbn [snd]. rewrite (populate_run _ _ _ ty); [|done|].
  { by erewrite bind_run by done. }
  intros o Ho. eapply elem_of_walkItems in Ho as (k & Hv & _); [|done..].
  destruct (fs_stored scheme s H g k o HI Hv) as ([_ Ho] & Hgo & _). specialize (Ho g Hgo). rewrite Hn in Ho.
  by injection Ho as ->.
Qed.
