(* ===== verification/FilesystemRuns.v ===== *)
(** * Runs of the filesystem backend

    The transition system of a filesystem store: the calls of its clients and
    watch consumers, as for the in-memory store, and restarts of the process,
    after which a new store is opened on the same disk. Every reachable store
    has a history, and the disk holds it. *)

From S2P Require Import Prelude GoStrconv GoJson GoJsonFacts Objects ObjectFacts.
From S2P Require Import SpecStatus NormalForms StoreSpec Backend JsonText.
From S2P Require Import MemoryStore MemoryStoreFacts MemoryStoreRuns.
From S2P Require Import FileTree Filesystem FilesystemDisk FilesystemFacts.

Import FS.

(** ** Opening a store *)

Lemma loadRevision_run s V rev uid :
  faults (fsDisk s) = [] -> diskOk (root s) (tree (fsDisk s)) V rev uid -> in_int64 rev = true ->
  revision s = 0%Z -> loadRevision s = setRevision rev s.
Proof.
  intros Hf Hd Hi H0. destruct s as [r [t fs] ws u rv0 log mx h np]. simpl in *. subst fs rv0.
  unfold loadRevision, revisionPath, ReadFile, nextFault. cbn [fsDisk faults tree root]. rewrite Join_plain by done.
  destruct (do_revision _ _ _ _ _ Hd) as [[E ->]|E]; unfold revisionFile in E; rewrite E; cbn [setDisk]; [done|].
  by rewrite counterOf_FormatInt.
Qed.

Lemma loadUIDCounter_run s V rev uid :
  faults (fsDisk s) = [] -> diskOk (root s) (tree (fsDisk s)) V rev uid -> in_int64 uid = true ->
  uidCounter s = 0%Z -> loadUIDCounter s = setUidCounter uid s.
Proof.
  intros Hf Hd Hi H0. destruct s as [r [t fs] ws u rv0 log mx h np]. simpl in *. subst fs u.
  unfold loadUIDCounter, uidPath, ReadFile, nextFault. cbn [fsDisk faults tree root]. rewrite Join_plain by done.
  destruct (do_uid _ _ _ _ _ Hd) as [[E ->]|E]; unfold uidFile in E; rewrite E; cbn [setDisk]; [done|].
  by rewrite counterOf_FormatInt.
Qed.

(** A store opened on a disk with known counters. *)
Lemma NewStore_run r t size V rev uid :
  diskOk r t V rev uid -> in_int64 rev = true -> in_int64 uid = true ->
  NewStore r (mkDisk t []) [WithEventLogSize size] = mkStore r (mkDisk t []) ∅ uid rev [] size ∅ 0.
Proof.
  intros Hd Hr Hu. unfold NewStore. cbn [foldl]. erewrite loadRevision_run by done. by erewrite loadUIDCounter_run.
Qed.

(** A directory to start in: nothing below it, directories above it. *)
Record freshDisk (r : path) (t : gmap path node) : Prop := {
  fd_closed : forall p c n, t !! (p ++ [c]) = Some n -> t !! p = Some Directory;
  fd_above : forall p, p `prefix_of` r -> isFile t p = false;
  fd_below : forall p x, t !! (r ++ x :: p) = None;
}.

Lemma freshDisk_ok r t : freshDisk r t -> diskOk r t (fun _ => ∅) 0 0.
Proof.
  intros [Hc Ha Hb].
  assert (forall g ns, t !! (dirOf r g ++ ns) = None) as Hg by (intros; unfold dirOf; rewrite <- (assoc_L (++)); apply Hb).
  split.
  - exact Hc.
  - intros g ns p _ Hp. unfold isFile. destruct (prefix_weak_total p r (dirOf r g ++ [ns])) as [Hpr|[q ->]]; [done| |by apply Ha|].
    { unfold dirOf. rewrite <- (assoc_L (++)). by apply prefix_app_r. }
    destruct q as [|x q]; [|by rewrite Hb]. rewrite app_nil_r. by apply Ha.
  - intros g ns n _. by rewrite Hg.
  - intros g ns f n _. by rewrite Hg.
  - intros g k _ _. unfold fileOf. by rewrite Hg.
  - left. split; [|done]. apply Hb.
  - left. split; [|done]. apply Hb.
Qed.

(** ** Steps *)

Section runs.
Context (scheme : Scheme).

Definition fsHist (s : FileStore) (H : list change) : Prop := FSInv scheme s H /\ registered (toMem ∅ s).

(** What a call, a receive or a part of [Stop] guarantees. *)
Record fsStepOk (s : FileStore) (H : list change) (l : option (nat * Event)) (H' : list change) (s' : FileStore) : Prop := {
  fso_hist : fsHist s' (H ++ H');
  fso_one : length H' <= 1;
  fso_streams : streamsStep (toMem ∅ s) l H' (toMem ∅ s');
  fso_root : root s' = root s;
}.

Lemma fsStepOk_refl s H : fsHist s H -> fsStepOk s H None [] s.
Proof. intros Hh. split; rewrite ?app_nil_r; [done|simpl; lia|apply streamsStep_refl|done]. Qed.

Lemma fsStepOk_committed s H g ev s' :
  fsHist s H -> fsCommitted scheme s H g ev s' -> fsStepOk s H None [mkChange (revision s + 1) g ev] s'.
Proof.
  intros [HI Hr] [HI' (objs & objs' & Hm & Hc) Hroot].
  destruct (stepOk_committed scheme (toMem objs s) H g ev _ Hm Hr Hc) as [_ _ _ Hr' Hs _]. by split.
Qed.

(** A step of the memory part alone. *)
Lemma fsStepOk_mem s H objs l m :
  FSInv scheme s H -> stepOk scheme (toMem objs s) H l [] m ->
  Mem.revision m = revision s -> Mem.uidCounter m = uidCounter s ->
  fsStepOk s H l [] (withMem m s).
Proof.
  intros [_ Hd Hf Hst Hu] [Hi Ho _ Hr Hs _] Erev Euid. split; [split|done|exact Hs|done].
  - rewrite app_nil_r in *. split; [exists (Mem.objects m); by rewrite toMem_withMem| |done|done|].
    + simpl. by rewrite Erev, Euid.
    + simpl. by rewrite Euid.
  - exact Hr.
Qed.

(** The names of the registered kinds make different, plain directories. *)
Record schemeOk : Prop := {
  sch_total : forall t, ObjectKinds scheme t <> Panic;
  sch_object : forall o g, gvkForObject scheme o = Ret g -> okGVK g = true;
  sch_list : forall l g, gvkForList scheme l = Ret g -> okGVK g = true;
}.

Hypothesis Hscheme : schemeOk.

(** One call by a client, a receive by a watch consumer, or one of the two
    critical sections of [fileWatcher.Stop]. *)
Inductive fsStep : FileStore -> option (nat * Event) -> FileStore -> Prop :=
| fs_step_Create s obj s' obj' r :
    okObject scheme obj -> fsObject obj -> Create scheme (s, obj) = (s', obj', r) -> fsStep s None s'
| fs_step_Update s obj s' obj' r :
    okObject scheme obj -> fsObject obj -> Update scheme (s, obj) = (s', obj', r) -> fsStep s None s'
| fs_step_UpdateStatus s obj s' obj' r :
    okObject scheme obj -> fsObject obj -> UpdateStatus scheme (s, obj) = (s', obj', r) -> fsStep s None s'
| fs_step_Delete s obj s' obj' r :
    okKey (ObjectKeyFromObject obj) = true -> Delete scheme (s, obj) = (s', obj', r) -> fsStep s None s'
| fs_step_Watch s lst opts s' r :
    (forall from, fromRevisionOpt opts = Some from -> in_int64 from = true) ->
    Watch scheme lst opts s = Some (s', r) -> fsStep s None s'
| fs_step_stopClose s p s' : stopClose p s = Some s' -> fsStep s None s'
| fs_step_removeWatcher s p w :
    heap s !! p = Some w -> Mem.wClosed w = true -> fsStep s None (removeWatcher (Mem.wGVK w) p s)
| fs_step_receive s p ev c s' : receive p s = (s', Received ev c) -> fsStep s (Some (p, ev)) s'.

Section step_facts.
Context (s : FileStore) (H : list change).
Hypothesis Hh : fsHist s H.
Hypothesis Hroom : room H.

(** A call on an object of an unregistered type does nothing. *)
Lemma unregistered_run obj e :
  gvkForObject scheme obj = Fail e ->
  Create scheme (s, obj) = (s, obj, Fail e) /\ Update scheme (s, obj) = (s, obj, Fail e) /\
  UpdateStatus scheme (s, obj) = (s, obj, Fail e) /\ Delete scheme (s, obj) = (s, obj, Fail e).
Proof. intros E. by split_and!; unfold Create, Update, UpdateStatus, Delete, bind, getObj, lift; cbn; rewrite E. Qed.

#[local] Ltac by_kind obj :=
  destruct (gvkForObject scheme obj) as [g|e|] eqn:Hg;
  [pose proof (sch_object Hscheme _ _ Hg) as Hok
  |destruct (unregistered_run obj e Hg) as (E1 & E2 & E3 & E4); rewrite ?E1, ?E2, ?E3, ?E4;
   intros E; simplify_eq; split; [done|]; exists []; by apply fsStepOk_refl
  |by apply (gvkForObject_total scheme (sch_total Hscheme)) in Hg].

#[local] Ltac no_change Hs := rewrite Hs; intros E; simplify_eq; (split; [done|]); exists []; by apply fsStepOk_refl.
#[local] Ltac one_change := intros E; simplify_eq; (split; [done|]); eexists; by eapply fsStepOk_committed.

Lemma Create_fsStep obj s' obj' r :
  okObject scheme obj -> fsObject obj -> Create scheme (s, obj) = (s', obj', r) ->
  r <> Panic /\ exists H', fsStepOk s H None H' s'.
Proof using All.
  intros Ho Hf. by_kind obj. pose proof (Create_run scheme s H g (proj1 Hh) Hroom Hok obj Ho Hf Hg) as Hs.
  destruct (view g H !! _); [no_change Hs|]. destruct Hs as (s2 & -> & Hc). one_change.
Qed.

Lemma Update_fsStep obj s' obj' r :
  okObject scheme obj -> fsObject obj -> Update scheme (s, obj) = (s', obj', r) ->
  r <> Panic /\ exists H', fsStepOk s H None H' s'.
Proof using All.
  intros Ho Hf. by_kind obj. pose proof (Update_run scheme s H g (proj1 Hh) Hroom Hok obj Ho Hf Hg) as Hs. cbv zeta in Hs.
  destruct (view g H !! _) as [st|]; [|no_change Hs]. case_bool_decide; [no_change Hs|].
  destruct Hs as (s2 & o & -> & [(-> & _)|(new & _ & _ & _ & Hc)]); [|one_change].
  intros E. simplify_eq. split; [done|]. exists []. by apply fsStepOk_refl.
Qed.

Lemma UpdateStatus_fsStep obj s' obj' r :
  okObject scheme obj -> fsObject obj -> UpdateStatus scheme (s, obj) = (s', obj', r) ->
  r <> Panic /\ exists H', fsStepOk s H None H' s'.
Proof using All.
  intros Ho Hf. by_kind obj. pose proof (UpdateStatus_run scheme s H g (proj1 Hh) Hroom Hok obj Ho Hf Hg) as Hs. cbv zeta in Hs.
  destruct (view g H !! _) as [st|]; [|no_change Hs]. case_bool_decide; [no_change Hs|].
  destruct Hs as (s2 & o & -> & [(-> & _)|(new & _ & _ & _ & Hc)]); [|one_change].
  intros E. simplify_eq. split; [done|]. exists []. by apply fsStepOk_refl.
Qed.

Lemma Delete_fsStep obj s' obj' r :
  okKey (ObjectKeyFromObject obj) = true -> Delete scheme (s, obj) = (s', obj', r) ->
  r <> Panic /\ exists H', fsStepOk s H None H' s'.
Proof using All.
  intros Hk. by_kind obj. pose proof (Delete_run scheme s H g (proj1 Hh) Hroom Hok obj Hk Hg) as Hs. cbv zeta in Hs.
  destruct (view g H !! _) as [st|]; [|no_change Hs]. destruct (_ && _); [no_change Hs|].
  destruct Hs as (s2 & -> & Hc). one_change.
Qed.

(** [Watch] opens a watcher with the replay, unless the revision is too old. *)
Definition watchedAs (opts : list ListOption) (g : GVK) (s' : FileStore) (r : result nat) : Prop :=
  match r with
  | Ret p => p = nextPtr s /\ from_option (fun w => buf (Mem.wCh w)) [] (heap s' !! p) = replayOf opts g H
  | Fail e => exists from, fromRevisionOpt opts = Some from /\ (from < trimmed (toMem ∅ s))%Z /\
                e = RevisionTooOldError from (trimmed (toMem ∅ s) + 1)
  | Panic => False
  end.

Lemma Watch_run lst opts g :
  gvkForList scheme lst = Ret g ->
  (forall from, fromRevisionOpt opts = Some from -> in_int64 from = true) ->
  exists s' r, Watch scheme lst opts s = Some (s', r) /\ fsStepOk s H None [] s' /\ watchedAs opts g s' r.
Proof using All.
  intros Hg Hf. destruct (fi_mem _ _ _ (proj1 Hh)) as [objs Hm]. rewrite (Watch_toMem objs).
  pose proof (Watch_spec scheme lst opts _ H g Hm Hroom Hg Hf) as Hs. cbv zeta in Hs.
  assert ((exists m, Mem.Watch scheme lst opts (toMem objs s) = Some (m, Ret (nextPtr s)) /\
      watching (toMem objs s) g (replayOf opts g H) m) ->
    exists s' r, (fun mr => (withMem mr.1 s, mr.2)) <$> Mem.Watch scheme lst opts (toMem objs s) = Some (s', r) /\
      fsStepOk s H None [] s' /\ watchedAs opts g s' r) as Hok.
  { intros (m & -> & Hw). exists (withMem m s), (Ret (nextPtr s)). split; [done|].
    pose proof (watching_step scheme (sch_total Hscheme) _ H Hm Hroom (proj2 Hh) g _ m Hw) as Hst.
    destruct Hw as (n & Eh & _ & _ & _ & _ & _ & Eu & Er & _). split; [|split; [done|]].
    - by apply (fsStepOk_mem s H objs); [apply Hh|..].
    - cbn [heap withMem]. rewrite Eh. cbn [Mem.nextPtr toMem]. by rewrite lookup_insert_eq. }
  destruct (fromRevisionOpt opts) as [from|] eqn:Ef; [|by apply Hok].
  destruct (Z.ltb_spec from (trimmed (toMem objs s))) as [Hlt|]; [|by apply Hok].
  rewrite Hs. eexists _, _. split; [done|]. split; [|by exists from]. simpl.
  replace (withMem (toMem objs s) s) with s by (by destruct s). by apply fsStepOk_refl.
Qed.

Lemma fsStep_ok l s' : fsStep s l s' -> exists H', fsStepOk s H l H' s'.
Proof using All.
  destruct (fi_mem _ _ _ (proj1 Hh)) as [objs Hm]. pose proof (sch_total Hscheme) as Ht.
  inversion 1 as [? ? ? ? ? Ho Hf E|? ? ? ? ? Ho Hf E|? ? ? ? ? Ho Hf E|? ? ? ? ? Hk E|? ? ? ? ? Hf E|? p ? E|? p w Hp Hc|? p ? c ? E];
    simplify_eq.
  - by eapply Create_fsStep.
  - by eapply Update_fsStep.
  - by eapply UpdateStatus_fsStep.
  - by eapply Delete_fsStep.
  - destruct (gvkForList scheme lst) as [g|e|] eqn:Hg.
    + destruct (Watch_run lst opts g Hg Hf) as (s2 & r2 & E2 & Hk & _). rewrite E in E2. simplify_eq. eauto.
    + unfold Watch in E. rewrite Hg in E. simplify_eq. exists []. by apply fsStepOk_refl.
    + by apply (gvkForList_total scheme Ht) in Hg.
  - rewrite (stopClose_toMem objs) in E. destruct (heap s !! p) as [w|] eqn:Hp.
    + destruct (stopClose_step scheme Ht _ H Hm Hroom (proj2 Hh) p w Hp) as (m & Em & Hk). rewrite Em in E.
      injection E as <-. destruct (stopClose_kept _ _ _ Em). exists []. by apply (fsStepOk_mem s H objs); [apply Hh|..].
    + unfold Mem.stopClose in E. change (Mem.heap (toMem objs s) !! p = None) in Hp. by rewrite Hp in E.
  - exists []. pose proof (removeWatcher_step scheme Ht _ H Hm Hroom (proj2 Hh) p w Hp Hc) as Hk.
    exact (fsStepOk_mem s H objs _ _ (proj1 Hh) Hk eq_refl eq_refl).
  - rewrite (receive_toMem objs) in E. destruct (Mem.receive p (toMem objs s)) as [m r] eqn:Er. injection E as <- ->.
    pose proof (receive_step scheme Ht _ H Hm Hroom (proj2 Hh) p _ _ _ Er) as Hk. destruct (receive_kept _ _ _ _ Er).
    exists []. by apply (fsStepOk_mem s H objs); [apply Hh|..].
Qed.
End step_facts.

(** ** Restarts and reachable stores *)

(** A process that opens the directory again: watchers and log are gone. *)
Definition reopen (size : Z) (s : FileStore) : FileStore := NewStore (root s) (fsDisk s) [WithEventLogSize size].

Lemma reopen_run size s H :
  FSInv scheme s H -> reopen size s = mkStore (root s) (fsDisk s) ∅ (uidCounter s) (revision s) [] size ∅ 0.
Proof.
  intros HI. unfold reopen. rewrite (fsDisk_nofault scheme s H HI). erewrite NewStore_run; [done|apply HI| |apply HI].
  rewrite (fs_revision scheme s H HI). destruct (fi_mem _ _ _ HI) as [objs Hm].
  apply in_int64_spec. pose proof (inv_bound _ _ _ Hm). unfold min_int64. lia.
Qed.

(** The restarted store has the whole history behind it, its log starts now. *)
Lemma reopen_hist size s H : (0 <= size)%Z -> FSInv scheme s H -> fsHist (reopen size s) H.
Proof.
  intros Hs HI. rewrite (reopen_run size s H HI). destruct HI as [[objs Hm] Hd Hf Hst Hu]. split; [|by intros p w Hp].
  split; try done. exists objs. destruct Hm as [Hrev Hb Hh _ _ Hob Hso _].
  split; try done. exists (length H). split; [done|]. cbn. by rewrite drop_all.
Qed.

(** Reached from a fresh directory in [n] calls, with any number of restarts. *)
Inductive fsReachable (r : path) : nat -> FileStore -> Prop :=
| fsr_open t size : freshDisk r t -> (0 <= size)%Z -> fsReachable r 0 (NewStore r (mkDisk t []) [WithEventLogSize size])
| fsr_step n s l s' : fsReachable r n s -> fsStep s l s' -> fsReachable r (S n) s'
| fsr_restart n s size : fsReachable r n s -> (0 <= size)%Z -> fsReachable r n (reopen size s).

Lemma NewStore_hist r t size :
  freshDisk r t -> (0 <= size)%Z -> fsHist (NewStore r (mkDisk t []) [WithEventLogSize size]) [].
Proof.
  intros Hf Hs. pose proof (freshDisk_ok r t Hf) as Hd. rewrite (NewStore_run r t size _ _ _ Hd) by done.
  split; [|by intros p w Hp]. split; try done. exists ∅. split; try done. by exists 0.
Qed.

Lemma fsReachable_hist r n s :
  fsReachable r n s -> (Z.of_nat n < max_int64)%Z ->
  exists H, fsHist s H /\ length H <= n /\ root s = r.
Proof using Hscheme.
  induction 1 as [t size Hf Hs|n s l s' _ IH Hst|n s size _ IH Hs]; intros Hn.
  - exists []. split_and!; [by apply NewStore_hist|done|]. pose proof (freshDisk_ok r t Hf) as Hd.
    by rewrite (NewStore_run r t size _ _ _ Hd).
  - destruct IH as (H & Hh & Hl & Hr); [lia|].
    destruct (fsStep_ok s H Hh) with (l := l) (s' := s') as (H' & [Hh' Ho _ Hr']); [unfold room; lia|done|].
    exists (H ++ H'). rewrite length_app. split_and!; [done|lia|congruence].
  - destruct (IH Hn) as (H & Hh & Hl & Hr). exists H. split_and!; [by apply reopen_hist, Hh|done|].
    by rewrite (reopen_run size s H (proj1 Hh)).
Qed.
End runs.
