(* ===== verification/FilesystemInterface.v ===== *)
(** * The filesystem backend is a Store

    The laws of the Store interface for the filesystem backend, on a disk whose
    calls work: whatever is proved of the client and the cache against the
    interface holds for this backend too. *)

From S2P Require Import Prelude GoStrconv GoJson GoJsonFacts Objects ObjectFacts.
From S2P Require Import SpecStatus NormalForms StoreSpec StoreInterface Backend JsonText.
From S2P Require Import MemoryStore MemoryStoreFacts MemoryStoreRuns.
From S2P Require Import FileTree Filesystem FilesystemDisk FilesystemFacts FilesystemList FilesystemRuns.

Import FS.

(** Reads change nothing on a disk without faults. *)
#[export] Instance FS_StoreOps (scheme : Scheme) : StoreOps FileStore := {
  sGet key obj s := let '(_, o, r) := Get scheme key (s, obj) in (o, r);
  sList lst opts s := let '(_, l, r) := List scheme opts (s, lst) in (l, r);
  sCreate obj s := Create scheme (s, obj);
  sUpdate obj s := Update scheme (s, obj);
  sUpdateStatus obj s := UpdateStatus scheme (s, obj);
  sDelete obj s := let '(s', _, r) := Delete scheme (s, obj) in (s', r);
  sWatch := Watch scheme;
  sBuffered p s := from_option (fun w => buf (Mem.wCh w)) [] (heap s !! p);
}.

Lemma Get_run scheme s H key obj g :
  FSInv scheme s H -> okKey key = true -> okGVK g = true -> okObject scheme obj -> gvkForObject scheme obj = Ret g ->
  match view g H !! key with
  | None => Get scheme key (s, obj) = (s, obj, Fail (NotFoundError (keyString key)))
  | Some st => exists o, UnmarshalObject (MarshalObject st) obj = Some o /\ Get scheme key (s, obj) = (s, o, Ret tt)
  end.
Proof.
  intros HI Hk Hok Ho Hg. unfold Get. erewrite bind_run by done. cbn [snd]. rewrite Hg.
  do 2 (erewrite bind_run by done). cbn [fst]. rewrite objectPath_eq by done.
  pose proof (readObject_run scheme s H g HI Hok key Hk) as Er.
  destruct (view g H !! key) as [st|] eqn:Ev; [|by erewrite bind_fail by (by apply onStore_run)].
  destruct (fs_stored scheme s H g key st HI Ev) as (Hst & Hgs & _).
  destruct (copyObject_total st obj) as (o & Ec & _); [apply Hst|apply Ho|by eapply okObject_same_type|].
  unfold copyObject in Ec. destruct (UnmarshalObject (MarshalObject st) obj) as [o'|] eqn:Eu; [|done].
  exists o'. split; [done|]. erewrite bind_run by (by apply onStore_run).
  rewrite decodeContent_indent, Eu. by erewrite bind_run by done.
Qed.

Section laws.
Context (scheme : Scheme).
Hypothesis Hscheme : schemeOk scheme.

#[local] Abbreviation fsHist := (fsHist scheme).

Lemma fsCommitted_appends s H g ev s' :
  fsHist s H -> fsCommitted scheme s H g ev s' -> appends fsHist H g ev s'.
Proof.
  intros Hh Hc. pose proof (fso_hist _ _ _ _ _ _ (fsStepOk_committed scheme s H g ev s' Hh Hc)) as Hh'.
  unfold appends. by rewrite <- (fs_revision scheme s H (proj1 Hh)).
Qed.

Lemma fs_law_Update s H obj g :
  fsHist s H -> hasRoom H -> okObject scheme obj -> fsObject obj -> gvkForObject scheme obj = Ret g ->
  match view g H !! ObjectKeyFromObject obj with
  | None => Update scheme (s, obj) = (s, obj, Fail (NotFoundError (keyString (ObjectKeyFromObject obj))))
  | Some st =>
      if bool_decide (GetResourceVersion obj <> GetResourceVersion st)
      then Update scheme (s, obj) = (s, obj, Fail (ConflictError (keyString (ObjectKeyFromObject obj))))
      else exists s' obj', Update scheme (s, obj) = (s', obj', Ret tt) /\
        ((s' = s /\ unchanged obj st /\ copyObject st obj = (obj', Ret tt)) \/
         exists new, updates obj st new /\ copyObject new obj = (obj', Ret tt) /\
           appends fsHist H g (mkEvent EventModified new) s')
  end.
Proof using Hscheme.
  intros Hh Hr Ho Hf Hg.
  pose proof (Update_run scheme s H g (proj1 Hh) Hr (sch_object _ Hscheme _ _ Hg) obj Ho Hf Hg) as Hs. cbv zeta in Hs.
  destruct (view g H !! _) as [st|]; [|done]. case_bool_decide; [done|].
  destruct Hs as (s' & obj' & E & [Hn|(new & Hup & _ & Eo & Hc)]);
    exists s', obj'; (split; [done|]); [by left|].
  right. exists new. split_and!; [by eapply updateOf_updates|done|]. by apply (fsCommitted_appends s).
Qed.

#[refine, export] Instance FS_StoreLaws : StoreLaws (H := FS_StoreOps scheme) FileStore scheme := {
  hist := fsHist;
  validKey k := okKey k = true;
  validObject := fsObject;
  valid_key _ H := proj1 H;
  hist_wf := _;
  hist_bound := _;
  hist_stored := _;
  law_Get := _;
  law_List := _;
  law_Update := fs_law_Update;
  law_Delete := _;
  law_Watch := _;
}.
Proof using Hscheme.
  - intros s H [[[objs Hm] _ _ _ _] _]. apply Hm.
  - intros s H [[[objs Hm] _ _ _ _] _]. apply Hm.
  - intros s H g k o [HI _] Hv. destruct (fs_stored scheme s H g k o HI Hv) as (? & ? & _ & ?). done.
  - intros s H key obj g [HI _] Hk Ho Hg.
    pose proof (Get_run scheme s H key obj g HI Hk (sch_object _ Hscheme _ _ Hg) Ho Hg) as Hs. simpl.
    destruct (view g H !! key); [destruct Hs as (o2 & Eo & ->); eauto|by rewrite Hs].
  - intros s H lst opts g [HI _] Hg Hl.
    destruct (List_run scheme s H g lst opts HI (sch_list _ Hscheme _ _ Hg) Hg Hl) as (items & E & Hp).
    exists items. simpl. by rewrite E, (fs_revision scheme s H HI).
  - intros s H obj g Hh Hr Hk Hg. simpl.
    pose proof (Delete_run scheme s H g (proj1 Hh) Hr (sch_object _ Hscheme _ _ Hg) obj Hk Hg) as Hs. cbv zeta in Hs.
    destruct (view g H !! _) as [st|] eqn:Ev; [|by rewrite Hs]. destruct (_ && _); [by rewrite Hs|].
    destruct Hs as (s' & -> & Hc). eexists s', _. split; [done|]. split; [|by apply (fsCommitted_appends s)].
    destruct (fs_stored scheme s H g _ st (proj1 Hh) Ev) as (_ & _ & Ek & _). by autorewrite with sc_rw.
  - intros s H lst opts g Hh Hr Hg Hf.
    destruct (Watch_run scheme Hscheme s H Hh Hr lst opts g Hg Hf) as (s' & r & E & Hst & Hw).
    exists s', r. split; [done|]. pose proof (fso_hist _ _ _ _ _ _ Hst) as Hh'. rewrite app_nil_r in Hh'. split; [done|].
    destruct r as [p|e|]; [by destruct Hw|..|done]. destruct Hw as (from & Ef & Hlt & ->). exists from.
    split_and!; [done| |by eexists]. unfold trimmed in Hlt. cbn in Hlt. rewrite (fs_revision scheme s H (proj1 Hh)) in Hlt. lia.
Defined.
End laws.
