(* ===== verification/FilesystemStreams.v ===== *)
(** * The filesystem backend's watchers

    The laws of watchers, discharged for the filesystem backend on a disk whose
    calls work: other clients make the steps of FilesystemRuns. *)

From S2P Require Import Prelude GoStrconv GoJson GoJsonFacts Objects ObjectFacts.
From S2P Require Import SpecStatus NormalForms StoreSpec StoreInterface StreamInterface Backend JsonText.
From S2P Require Import MemoryStore MemoryStoreFacts MemoryStoreRuns MemoryStreams.
From S2P Require Import FileTree Filesystem FilesystemDisk FilesystemFacts FilesystemList FilesystemRuns FilesystemInterface.

Import FS.

#[export] Instance FS_StreamOps : StreamOps FileStore := {
  sReceive := receive;
  sStopClose := stopClose;
  sRemoveWatcher p s := (fun w => removeWatcher (Mem.wGVK w) p s) <$> heap s !! p;
}.

Section laws.
Context (scheme : Scheme).
Hypothesis Hscheme : schemeOk scheme.

Definition fsOthers (q : option nat) (s s' : FileStore) : Prop :=
  exists l, fsStep scheme s l s' /\ forall p, q = Some p -> receivedBy p l = [].

(** A step of a consumer keeps the history. *)
Lemma fsStep_hist s H l s' :
  fsHist scheme s H -> hasRoom H -> fsStep scheme s l s' -> revision s' = revision s -> fsHist scheme s' H.
Proof using Hscheme.
  intros Hh Hroom Hs Er. destruct (fsStep_ok scheme Hscheme s H Hh Hroom l s' Hs) as (H' & [Hh' _ _ _]).
  rewrite (fs_revision scheme s H (proj1 Hh)), (fs_revision scheme s' _ (proj1 Hh')), length_app in Er.
  destruct H'; [by rewrite app_nil_r in Hh'|simpl in Er; lia].
Qed.

#[refine, export] Instance FS_StreamLaws :
  StreamLaws (SO := FS_StoreOps scheme) (SL := FS_StoreLaws scheme Hscheme) FileStore scheme := {
  watcherAt p s := memWatcherState <$> heap s !! p;
  otherStep := fsOthers;
}.
Proof using Hscheme.
  - intros s H q s' Hh Hroom (l & Hs & Hl).
    destruct (fsStep_ok scheme Hscheme s H Hh Hroom l s' Hs) as (H' & [Hh' Ho Hst _]).
    exists H'. split_and!; [done|done|]. intros p w -> (w0 & Hp & ->)%fmap_Some.
    destruct (Hst p w0 Hp) as (w' & Hp' & Hg & Hc & Hb). rewrite (Hl p eq_refl) in Hb.
    change (heap s' !! p = Some w') in Hp'. exists (memWatcherState w'). rewrite Hp'. by split_and!.
  - intros s H lst opts g s' p Hh Hroom Hg Hf E. simpl in *. destruct (fi_mem _ _ _ (proj1 Hh)) as [objs Hm].
    rewrite (Watch_toMem objs) in E. apply fmap_Some in E as ([m r] & E & [= -> <-]).
    pose proof (Watch_spec scheme lst opts _ H g Hm Hroom Hg Hf) as Hs. cbv zeta in Hs.
    assert ((exists m', Mem.Watch scheme lst opts (toMem objs s) = Some (m', Ret (nextPtr s)) /\
        watching (toMem objs s) g (replayOf opts g H) m') ->
      memWatcherState <$> Mem.heap m !! p = Some (mkWatcherState g (replayOf opts g H) false)) as Hok.
    { intros (m' & E2 & n & Eh & _). rewrite E in E2. simplify_eq. rewrite Eh. cbn. by rewrite lookup_insert_eq. }
    destruct (fromRevisionOpt opts); [|by apply Hok]. destruct (_ <? _)%Z; [congruence|by apply Hok].
  - intros s H p w Hh Hroom (w0 & Hp & ->)%fmap_Some. destruct (fi_mem _ _ _ (proj1 Hh)) as [objs Hm].
    pose proof (wfw_flag _ (inv_watchers _ _ _ Hm) p w0 Hp) as Hfl.
    assert (Hr : forall r s', receive p s = (s', r) -> revision s' = revision s).
    { unfold receive. rewrite Hp. destruct (recv (Mem.wCh w0)); by intros ? ? [= <- <-]. }
    cbn [sReceive FS_StreamOps memWatcherState wsBuffer wsClosed wsGVK]. destruct (receive p s) as [s' r] eqn:E.
    specialize (Hr _ _ eq_refl). pose proof E as E'. unfold receive, recv in E. rewrite Hp in E.
    destruct (buf (Mem.wCh w0)) as [|e es].
    + rewrite <- Hfl in E. by destruct (Mem.wClosed w0); simplify_eq.
    + simplify_eq. eexists _, _. split; [done|]. split; [|simpl; by rewrite lookup_insert_eq].
      eapply fsStep_hist; [exact Hh|exact Hroom|by eapply fs_step_receive|done].
  - intros s H p w Hh Hroom (w0 & Hp & ->)%fmap_Some. destruct (fi_mem _ _ _ (proj1 Hh)) as [objs Hm].
    pose proof (wfw_flag _ (inv_watchers _ _ _ Hm) p w0 Hp) as Hfl. simpl.
    assert (exists w', closeWatcher w0 = Some w' /\ memWatcherState w' = mkWatcherState (Mem.wGVK w0) (buf (Mem.wCh w0)) true) as (w' & Ew & Es).
    { unfold closeWatcher, memWatcherState. destruct (Mem.wClosed w0) eqn:Ec; [exists w0; by rewrite Ec|].
      unfold closeChan. rewrite <- Hfl. simpl. by eexists. }
    assert (stopClose p s = Some (setHeap (<[p := w']> (heap s)) s)) as E.
    { unfold stopClose. change (@lookup nat fileWatcher _ _ p (heap s) = Some w0) in Hp. rewrite Hp. simpl. by rewrite Ew. }
    eexists. split; [exact E|]. split; [|simpl; rewrite lookup_insert_eq; simpl; by rewrite Es].
    eapply fsStep_hist; [exact Hh|exact Hroom|by eapply fs_step_stopClose|done].
  - intros s H p w Hh Hroom (w0 & Hp & ->)%fmap_Some Hc. simpl in *. rewrite Hp. simpl.
    eexists. split; [done|]. split; [|simpl; by rewrite Hp].
    eapply fsStep_hist; [exact Hh|exact Hroom|by eapply fs_step_removeWatcher|done].
Defined.
End laws.
