(* ===== verification/FilesystemErrors.v ===== *)
(** * The filesystem backend when the disk fails

    What holds of every call whatever its calls of [os] do: which files it can
    touch, and that a call that returns an error has published nothing. The
    arguments follow the structure of the methods: a relation that every step
    respects is respected by their composition. *)

From S2P Require Import Prelude GoStrconv GoJson Objects Backend JsonText.
From S2P Require Import MemoryStore FileTree Filesystem.

Import FS.

(** ** Relations kept by computations *)

(** [keeps R m]: whatever [m] returns, it takes a state to a related one;
    [keepsOnError R m]: when it returns an error. *)
Definition keeps {S A} (R : S -> S -> Prop) (m : St S A) : Prop := forall s s' r, m s = (s', r) -> R s s'.
Definition keepsOnError {S A} (R : S -> S -> Prop) (m : St S A) : Prop := forall s s' e, m s = (s', Fail e) -> R s s'.

Section keeps.
Context {S : Type} (R : S -> S -> Prop) `{!PreOrder R}.

Lemma keeps_ret {A} (a : A) : keeps R (ret a).
Proof. intros s s' r [= <- <-]. reflexivity. Qed.

Lemma keeps_throw {A} e : keeps R (throw (A := A) e).
Proof. intros s s' r [= <- <-]. reflexivity. Qed.

Lemma keeps_lift {A} (x : result A) : keeps R (lift x).
Proof. intros s s' r [= <- <-]. reflexivity. Qed.

Lemma keeps_read : keeps R read.
Proof. intros s s' r [= <- <-]. reflexivity. Qed.

Lemma keeps_bind {A B} (m : St S A) (k : A -> St S B) :
  keeps R m -> (forall a, keeps R (k a)) -> keeps R (bind m k).
Proof.
  intros Hm Hk s s' r. unfold bind. destruct (m s) as [s1 [a|e|]] eqn:E; intros H; simplify_eq; try by eapply Hm.
  etrans; [by eapply Hm|by eapply Hk].
Qed.

Lemma keepsOnError_bind {A B} (m : St S A) (k : A -> St S B) :
  keeps R m -> (forall a, keepsOnError R (k a)) -> keepsOnError R (bind m k).
Proof.
  intros Hm Hk s s' e. unfold bind. destruct (m s) as [s1 [a|e'|]] eqn:E; intros H; simplify_eq; [|by eapply Hm].
  etrans; [by eapply Hm|by eapply Hk].
Qed.

Lemma keeps_error {A} (m : St S A) : keeps R m -> keepsOnError R m.
Proof. intros Hm s s' e. apply Hm. Qed.

Lemma keeps_foldr {A B} (f : A -> St S (list B)) l :
  (forall x, keeps R (f x)) -> keeps R (foldr (fun x m => let! y := f x in let! ys := m in ret (y ++ ys)) (ret []) l).
Proof.
  intros Hf. induction l as [|x l IH]; simpl; [apply keeps_ret|].
  apply keeps_bind; [done|]. intros y. apply keeps_bind; [done|]. intros ys. apply keeps_ret.
Qed.
End keeps.

Create HintDb keeps.
#[export] Hint Resolve keeps_ret keeps_throw keeps_lift keeps_read keeps_bind keeps_foldr : keeps.

(** ** Two relations *)

(** The watchers, their channels and the event log are as before. *)
Record sameWatch (s s' : FileStore) : Prop := {
  sw_root : root s' = root s;
  sw_watchers : watchers s' = watchers s;
  sw_heap : heap s' = heap s;
  sw_next : nextPtr s' = nextPtr s;
  sw_log : eventLog s' = eventLog s;
  sw_max : eventLogMax s' = eventLogMax s;
}.

#[export] Instance sameWatch_preorder : PreOrder sameWatch.
Proof. split; [by intros s|]. intros a b c [] []. split; congruence. Qed.

(** Only the files [ps] can have changed, apart from new directories. *)
Definition onlyFiles (ps : list path) (t t' : gmap path node) : Prop :=
  forall q, q ∉ ps -> t' !! q = t !! q \/ (t !! q = None /\ t' !! q = Some Directory).

#[export] Instance onlyFiles_preorder ps : PreOrder (onlyFiles ps).
Proof.
  split; [intros t q _; by left|]. intros a b c Hab Hbc q Hq. specialize (Hab q Hq). specialize (Hbc q Hq).
  destruct Hab as [Eb|[Ea Eb]], Hbc as [Ec|[Eb' Ec]]; rewrite ?Ec; rewrite Eb in *; auto; done.
Qed.

Definition touches (r : path) (ps : list path) (s s' : FileStore) : Prop :=
  root s = r -> root s' = r /\ onlyFiles ps (tree (fsDisk s)) (tree (fsDisk s')).

#[export] Instance touches_preorder r ps : PreOrder (touches r ps).
Proof.
  split; [by intros s|]. intros a b c Hab Hbc Ha. destruct (Hab Ha) as [Hb H1]. destruct (Hbc Hb) as [Hc H2].
  split; [done|]. by etrans.
Qed.

(** The same of a store and the caller's value. *)
Definition onFst {X} (R : FileStore -> FileStore -> Prop) (a b : FileStore * X) : Prop := R a.1 b.1.

#[export] Instance onFst_preorder {X} R `{!PreOrder R} : PreOrder (onFst (X := X) R).
Proof. split; unfold onFst; [intros a; reflexivity|]. intros a b c Hab Hbc. by etrans. Qed.

Section lifting.
Context {X : Type} (R : FileStore -> FileStore -> Prop) `{!PreOrder R}.

Lemma keeps_onStore {A} (m : St FileStore A) : keeps R m -> keeps (onFst (X := X) R) (onStore m).
Proof.
  intros Hm [s x] s' r. unfold onStore. simpl. destruct (m s) as [s1 r1] eqn:E. intros [= <- <-]. by eapply Hm.
Qed.

Lemma keepsOnError_onStore {A} (m : St FileStore A) : keepsOnError R m -> keepsOnError (onFst (X := X) R) (onStore m).
Proof.
  intros Hm [s x] s' e. unfold onStore. simpl. destruct (m s) as [s1 r1] eqn:E. intros [= <- ->]. by eapply Hm.
Qed.

Lemma keeps_getObj : keeps (onFst (X := X) R) getObj.
Proof. intros s s' r [= <- <-]. reflexivity. Qed.

Lemma keeps_getStore : keeps (onFst (X := X) R) getStore.
Proof. intros s s' r [= <- <-]. reflexivity. Qed.

Lemma keeps_setObj (x : X) : keeps (onFst (X := X) R) (setObj x).
Proof. intros s s' r [= <- <-]. unfold onFst. simpl. reflexivity. Qed.
End lifting.

#[export] Hint Resolve keeps_onStore keeps_getObj keeps_getStore keeps_setObj : keeps.

(** Walks through a method: binds, branches, then the hints. *)
Ltac keeps_step :=
  match goal with
  | |- keeps _ (bind _ _) => apply keeps_bind; [apply _| |intros ?]
  | |- keepsOnError _ (bind _ _) => apply keepsOnError_bind; [apply _| |intros ?]
  | |- keepsOnError _ (if ?b then _ else _) => destruct b
  | |- keepsOnError _ (match ?x with _ => _ end) => destruct x
  | |- keeps _ (if ?b then _ else _) => destruct b
  | |- keeps _ (match ?x with _ => _ end) => destruct x
  | |- keeps _ (onStore _) => apply keeps_onStore
  | |- keepsOnError _ (onStore _) => apply keepsOnError_onStore
  end.
Ltac keeps_walk := repeat keeps_step; eauto with keeps typeclass_instances.

(** ** Calls of os *)

Lemma keeps_sys_watch {A} (op : disk -> disk * osResult A) : keeps sameWatch (sys op).
Proof. intros s s' r. unfold sys. destruct (op (fsDisk s)) as [d x]. by intros [= <- <-]. Qed.

Lemma keeps_must_watch {A} (op : disk -> disk * osResult A) : keeps sameWatch (must op).
Proof. unfold must. pose proof (keeps_sys_watch op). keeps_walk. Qed.

#[export] Hint Resolve keeps_sys_watch keeps_must_watch : keeps.

(** Which files a call of [os] touches. *)
Definition opTouches {A} (ps : list path) (op : disk -> disk * osResult A) : Prop :=
  forall d d' r, op d = (d', r) -> onlyFiles ps (tree d) (tree d').

Lemma keeps_sys_touches {A} r ps (op : disk -> disk * osResult A) : opTouches ps op -> keeps (touches r ps) (sys op).
Proof.
  intros Ho s s' x. unfold sys. destruct (op (fsDisk s)) as [d y] eqn:E. intros [= <- <-] Hr. split; [done|].
  by eapply Ho.
Qed.

Lemma keeps_must_touches {A} r ps (op : disk -> disk * osResult A) : opTouches ps op -> keeps (touches r ps) (must op).
Proof. intros Ho. unfold must. pose proof (keeps_sys_touches r ps op Ho). keeps_walk. Qed.

Lemma nextFault_tree d f d' : nextFault d = (f, d') -> tree d' = tree d.
Proof. unfold nextFault. destruct (faults d); by intros [= <- <-]. Qed.

(** Calls that only read. *)
#[local] Ltac reads := intros d d' r; destruct (nextFault d) as [f d1] eqn:E; apply nextFault_tree in E;
  destruct f; intros [= <- <-]; rewrite E; reflexivity.

Lemma ReadFile_touches ps p : opTouches ps (ReadFile p).
Proof. unfold opTouches, ReadFile. reads. Qed.

Lemma Stat_touches ps p : opTouches ps (Stat p).
Proof. unfold opTouches, Stat. reads. Qed.

Lemma ReadDir_touches ps p : opTouches ps (ReadDir p).
Proof. unfold opTouches, ReadDir. reads. Qed.

Lemma onlyFiles_insert (ps : list path) (p : path) (n : node) (t : gmap path node) : p ∈ ps -> onlyFiles ps t (<[p := n]> t).
Proof. intros Hp q Hq. left. rewrite lookup_insert_ne; [done|]. by intros ->. Qed.

Lemma onlyFiles_delete (ps : list path) (p : path) (t : gmap path node) : p ∈ ps -> onlyFiles ps t (delete p t).
Proof. intros Hp q Hq. left. rewrite lookup_delete_ne; [done|]. by intros ->. Qed.

Lemma WriteFile_touches ps p c : p ∈ ps -> opTouches ps (WriteFile p c).
Proof.
  intros Hp d d' r. unfold WriteFile. destruct (nextFault d) as [f d1] eqn:E. apply nextFault_tree in E. rewrite <- E.
  destruct (isDir (tree d1) p); [intros [= <- <-]; reflexivity|].
  destruct (isDir (tree d1) (Dir p)); [|intros [= <- <-]; reflexivity].
  destruct f as [|[n|]]; intros [= <- <-]; try reflexivity; by apply onlyFiles_insert.
Qed.

Lemma Remove_touches ps p : p ∈ ps -> opTouches ps (Remove p).
Proof.
  intros Hp d d' r. unfold Remove. destruct (nextFault d) as [f d1] eqn:E. apply nextFault_tree in E. rewrite <- E.
  destruct f; [|intros [= <- <-]; reflexivity].
  destruct (tree d1 !! p) as [[|c]|]; [case_bool_decide|..]; intros [= <- <-]; try reflexivity; by apply onlyFiles_delete.
Qed.

(** New directories only: nothing on the way is a file. *)
Lemma MkdirAll_touches ps p : opTouches ps (MkdirAll p).
Proof.
  intros d d' r. unfold MkdirAll. destruct (nextFault d) as [f d1] eqn:E. apply nextFault_tree in E. rewrite <- E.
  destruct (existsb _ _) eqn:Ef; [intros [= <- <-]; reflexivity|].
  assert (forall l, l ⊆ prefixes p -> onlyFiles ps (tree d1) (mkdirs l (tree d1))) as Hm.
  { intros l Hl q _. rewrite mkdirs_lookup. case_decide as Hq; [|by left].
    destruct (tree d1 !! q) as [[|c]|] eqn:Eq; [by left| |by right]. exfalso.
    assert (existsb (isFile (tree d1)) (prefixes p) = true) as Ht; [|congruence].
    apply existsb_exists. exists q. split; [by apply list_elem_of_In, Hl|]. unfold isFile. by rewrite Eq. }
  destruct f as [|n]; intros E'%(f_equal (fun x => tree x.1)); cbn [fst tree setTree] in E'; rewrite <- E'; apply Hm; [done|].
  intros q (i & Hq & _)%elem_of_take. by eapply list_elem_of_lookup_2.
Qed.

#[export] Hint Resolve ReadFile_touches Stat_touches ReadDir_touches WriteFile_touches Remove_touches MkdirAll_touches
  keeps_sys_touches keeps_must_touches : keeps.

(** ** The helpers *)

Lemma nextRevision_watch : keeps sameWatch nextRevision.
Proof. by intros s s' r [= <- <-]. Qed.

Lemma nextRevision_touches r ps : keeps (touches r ps) nextRevision.
Proof. by intros s s' x [= <- <-]. Qed.

Lemma readObject_watch key p : keeps sameWatch (readObject key p).
Proof. unfold readObject. keeps_walk. Qed.

Lemma readObject_touches r ps key p : keeps (touches r ps) (readObject key p).
Proof. unfold readObject. keeps_walk. Qed.

#[export] Hint Resolve nextRevision_watch nextRevision_touches readObject_watch readObject_touches : keeps.

(** A computation that begins by reading the store may use that its root is [r]. *)
Lemma keeps_read_touches {A} r ps (k : FileStore -> St FileStore A) :
  (forall s, root s = r -> keeps (touches r ps) (k s)) -> keeps (touches r ps) (let! s := read in k s).
Proof. intros Hk s s' x E Hr. unfold bind, read in E. by eapply (Hk s Hr). Qed.

Lemma persistRevision_watch rv : keeps sameWatch (persistRevision rv).
Proof. unfold persistRevision. keeps_walk. Qed.

Lemma persistRevision_touches r ps rv : Join r [".revision"] ∈ ps -> keeps (touches r ps) (persistRevision rv).
Proof. intros Hp. apply keeps_read_touches. intros s <-. fold (revisionPath s) in Hp. keeps_walk. Qed.

Lemma generateUID_watch : keeps sameWatch generateUID.
Proof.
  unfold generateUID. assert (forall id, keeps sameWatch (fun s => (setUidCounter id s, Ret tt))) by (by intros id s s' r [= <- <-]).
  keeps_walk.
Qed.

Lemma generateUID_touches r ps : Join r [".uid-counter"] ∈ ps -> keeps (touches r ps) generateUID.
Proof.
  intros Hp. apply keeps_read_touches. intros s <-. fold (uidPath s) in Hp.
  assert (forall id, keeps (touches (root s) ps) (fun s => (setUidCounter id s, Ret tt))) by (by intros id s1 s2 x [= <- <-]).
  keeps_walk.
Qed.

Lemma publish_touches r ps g rv ev : keeps (touches r ps) (publish g rv ev).
Proof.
  intros s s' x. unfold publish, logEvent, notifyWatchers. destruct (_ <? _)%Z; [destruct (_ <? _)%Z|];
    try destruct (notifyLoop _ _ _ _) as [[h a]|]; by intros [= <- <-].
Qed.

(** [logEvent] and [notifyWatchers] return no errors. *)
Lemma publish_error g rv ev : keepsOnError sameWatch (publish g rv ev).
Proof.
  intros s s' e. unfold publish. destruct (logEvent g rv ev s) as [s1 []]; [|done].
  by destruct (notifyWatchers g ev s1) as [s2 []].
Qed.

#[export] Hint Resolve persistRevision_watch persistRevision_touches generateUID_watch generateUID_touches
  publish_touches publish_error : keeps.

(** ** The methods *)

Inductive writeMethod : Type := MCreate | MUpdate | MUpdateStatus | MDelete.

Definition callWrite (scheme : Scheme) (m : writeMethod) : St (FileStore * Object) unit :=
  match m with
  | MCreate => Create scheme
  | MUpdate => Update scheme
  | MUpdateStatus => UpdateStatus scheme
  | MDelete => Delete scheme
  end.

Section methods.
Context (scheme : Scheme).

Lemma writeMerged_error g p merged : keepsOnError (onFst sameWatch) (writeMerged g p merged).
Proof. unfold writeMerged. keeps_walk. Qed.

Hint Resolve writeMerged_error : keeps.

Lemma callWrite_error m : keepsOnError (onFst sameWatch) (callWrite scheme m).
Proof.
  destruct m; simpl; unfold Create, Update, UpdateStatus, Delete; cbv zeta; keeps_walk;
    apply keeps_error; keeps_walk.
Qed.

Lemma writeMerged_touches r ps g p merged :
  p ∈ ps -> Join r [".revision"] ∈ ps -> keeps (onFst (touches r ps)) (writeMerged g p merged).
Proof. intros Hp Hr. unfold writeMerged. keeps_walk. Qed.

Hint Resolve writeMerged_touches : keeps.

(** Every method starts by finding the GVK and the path. *)
Lemma head_run {A} (k : Object -> GVK -> FileStore -> St (FileStore * Object) A) s obj g :
  gvkForObject scheme obj = Ret g ->
  (let! obj := getObj in let! gvk := lift (gvkForObject scheme obj) in let! s := getStore in k obj gvk s) (s, obj) =
  k obj g s (s, obj).
Proof. intros E. unfold bind, getObj, lift, getStore. simpl. by rewrite E. Qed.

(** The files a write can touch. *)
Definition writeFiles (g : GVK) (obj : Object) (s : FileStore) : list path :=
  [objectPath (root s) g (ObjectKeyFromObject obj); revisionPath s; uidPath s].

Lemma callWrite_touches m s obj g s' obj' r :
  gvkForObject scheme obj = Ret g -> callWrite scheme m (s, obj) = (s', obj', r) ->
  root s' = root s /\ onlyFiles (writeFiles g obj s) (tree (fsDisk s)) (tree (fsDisk s')).
Proof.
  intros Hg E.
  assert (objectPath (root s) g (ObjectKeyFromObject obj) ∈ writeFiles g obj s) as H1 by set_solver.
  assert (Join (root s) [".revision"] ∈ writeFiles g obj s) as H2 by set_solver.
  assert (Join (root s) [".uid-counter"] ∈ writeFiles g obj s) as H3 by set_solver.
  assert (onFst (touches (root s) (writeFiles g obj s)) (s, obj) (s', obj')) as Ht; [|by apply Ht].
  generalize dependent (writeFiles g obj s). intros ps H1 H2 H3.
  destruct m; simpl in E; unfold Create, Update, UpdateStatus, Delete in E; cbv zeta in E;
    rewrite (head_run _ _ _ g Hg) in E; revert E; apply keeps_bind; intros; keeps_walk.
Qed.
End methods.
