(* ===== verification/FilesystemTheorems.v ===== *)
(** * What the filesystem backend promises

    The theorems about filesystem/store.go: the disk of a reachable store is its
    history, restarts lose nothing but the event log, writes behave on every
    branch, a failing call publishes nothing and touches only its own files. *)

From S2P Require Import Prelude GoStrconv GoJson GoJsonFacts Objects ObjectFacts.
From S2P Require Import SpecStatus NormalForms StoreSpec Backend JsonText JsonTextFacts.
From S2P Require Import MemoryStore MemoryStoreFacts MemoryStoreRuns.
From S2P Require Import FileTree Filesystem FilesystemDisk FilesystemFacts FilesystemList FilesystemRuns.
From S2P Require Import FilesystemInterface FilesystemErrors.

Import FS.

(** The object a reader finds in the file of a key. *)
Definition objectAt (scheme : Scheme) (s : FileStore) (g : GVK) (k : ObjectKey) : option Object :=
  match tree (fsDisk s) !! objectPath (root s) g k with
  | Some (File c) => match decodeStored scheme g c with Ret o => Some o | _ => None end
  | _ => None
  end.

(** A call had the one effect [ev] on GVK [g]: on disk, in the counter file, in
    the log and on the open watchers. *)
Record fsEmitted (scheme : Scheme) (s : FileStore) (g : GVK) (ev : Event) (s' : FileStore) : Prop := {
  fe_object : forall g' k, okGVK g' = true -> okKey k = true ->
    objectAt scheme s' g' k =
    if decide (g' = g /\ k = ObjectKeyFromObject (evObject ev))
    then (if bool_decide (evType ev = EventDeleted) then None else Some (evObject ev))
    else objectAt scheme s g' k;
  fe_revision : revision s' = (revision s + 1)%Z;
  fe_persisted : tree (fsDisk s') !! revisionPath s = Some (File (Plain (FormatInt (revision s + 1))));
  fe_log : forall e, last (eventLog s') = Some e -> e = Mem.mkEntry (revision s + 1) g ev;
  fe_delivered : delivered g ev (toMem ∅ s) (toMem ∅ s');
}.

(** ** Auxiliary facts *)

Section aux.
Context (scheme : Scheme).

Lemma objectAt_view s H g k :
  FSInv scheme s H -> okGVK g = true -> okKey k = true -> objectAt scheme s g k = view g H !! k.
Proof.
  intros HI Hg Hk. unfold objectAt. rewrite objectPath_eq, (do_objects _ _ _ _ _ (fi_disk _ _ _ HI)) by done.
  destruct (view g H !! k) as [o|] eqn:Ev; [|done]. simpl. by rewrite (decodeStored_run scheme s H g HI k o Ev).
Qed.

Lemma fsCommitted_emitted s H g ev s' :
  FSInv scheme s H -> okGVK g = true -> okKey (ObjectKeyFromObject (evObject ev)) = true -> evType ev <> EventBookmark ->
  fsCommitted scheme s H g ev s' -> fsEmitted scheme s g ev s'.
Proof.
  intros HI Hg Hke Hb [HI' (objs & objs' & Hm & Hc) Hroot].
  assert (revision s' = (revision s + 1)%Z) as Hrev.
  { rewrite (fs_revision _ _ _ HI'), (fs_revision _ _ _ HI), length_app. simpl. lia. }
  split; [|done| | |exact (com_delivered _ _ _ _ _ _ Hc)].
  - intros g' k Hg' Hk. rewrite (objectAt_view s' _ g' k HI'), (objectAt_view s H g' k HI) by done.
    rewrite view_snoc. cbn [cGVK cEvent]. destruct (decide (g' = g)) as [->|]; [|by rewrite decide_False by naive_solver].
    unfold applyEvent. destruct (decide (k = ObjectKeyFromObject (evObject ev))) as [->|Hne].
    + rewrite decide_True by done. destruct (evType ev); try done; rewrite ?lookup_insert_eq, ?lookup_delete_eq; done.
    + rewrite decide_False by naive_solver. destruct (evType ev); try done;
        rewrite ?lookup_insert_ne, ?lookup_delete_ne by done; done.
  - pose proof (do_revision _ _ _ _ _ (fi_disk _ _ _ HI')) as Hc'. rewrite Hroot, Hrev in Hc'.
    unfold revisionPath. rewrite Join_plain by done. destruct Hc' as [[_ E0]|E]; [|exact E].
    pose proof (fs_revision _ _ _ HI). lia.
  - intros e He. pose proof (com_log _ _ _ _ _ _ Hc) as El. cbn in El. rewrite El in He.
    apply last_lastn in He. rewrite last_app in He. by injection He.
Qed.
End aux.

(** ** Methods that see only the disk *)

(** Two stores of the same directory at the same revision. *)
Definition sameDisk (s s1 : FileStore) : Prop := root s1 = root s /\ fsDisk s1 = fsDisk s /\ revision s1 = revision s.

(** The same result, and the same disk afterwards, from such stores. *)
Definition diskOnly {A} (m : St FileStore A) : Prop :=
  forall s s1, sameDisk s s1 -> (m s1).2 = (m s).2 /\ sameDisk (m s).1 (m s1).1.

Section diskOnly.
Lemma diskOnly_lift {A} (r : result A) : diskOnly (lift r).
Proof. by intros s s1. Qed.

Lemma diskOnly_bind {A B} (m : St FileStore A) (k : A -> St FileStore B) :
  diskOnly m -> (forall a, diskOnly (k a)) -> diskOnly (bind m k).
Proof.
  intros Hm Hk s s1 Hs. specialize (Hm s s1 Hs). unfold bind.
  destruct (m s) as [s' r], (m s1) as [s1' r1]. simpl in Hm. destruct Hm as [-> Hs']. destruct r; [by apply Hk|done..].
Qed.

Lemma diskOnly_sys {A} (op : disk -> disk * osResult A) : diskOnly (sys op).
Proof.
  intros s s1 (Hr & Hd & Hv). unfold sys. rewrite Hd. by destruct (op (fsDisk s)).
Qed.

Lemma diskOnly_must {A} (op : disk -> disk * osResult A) : diskOnly (must op).
Proof.
  unfold must. apply diskOnly_bind; [apply diskOnly_sys|]. intros []; apply diskOnly_lift.
Qed.

Lemma diskOnly_foldr {A B} (f : A -> St FileStore (list B)) l :
  (forall x, diskOnly (f x)) -> diskOnly (foldr (fun x m => let! y := f x in let! ys := m in ret (y ++ ys)) (ret []) l).
Proof.
  intros Hf. induction l as [|x l IH]; simpl; [exact (diskOnly_lift (Ret []))|].
  apply diskOnly_bind; [done|]. intros y. apply diskOnly_bind; [done|]. intros ys. exact (diskOnly_lift (Ret _)).
Qed.

Context (scheme : Scheme).

Lemma readObject_diskOnly key p : diskOnly (readObject key p).
Proof.
  unfold readObject. apply diskOnly_bind; [apply diskOnly_sys|]. intros [c|[]|]; apply diskOnly_lift.
Qed.

Lemma listFile_diskOnly g dir lo f : diskOnly (listFile scheme g dir lo f).
Proof.
  unfold listFile. destruct (_ || _); [exact (diskOnly_lift (Ret []))|].
  apply diskOnly_bind; [apply diskOnly_must|]. intros c. apply diskOnly_bind; [apply diskOnly_lift|]. intros o.
  destruct (loLabelSelector lo) as [sel|]; [destruct (lsMatches sel _)|]; exact (diskOnly_lift (Ret _)).
Qed.

Lemma listNamespace_diskOnly g dir lo d : diskOnly (listNamespace scheme g dir lo d).
Proof.
  unfold listNamespace. destruct (negb _); [exact (diskOnly_lift (Ret []))|].
  destruct (_ && _); [exact (diskOnly_lift (Ret []))|]. apply diskOnly_bind; [apply diskOnly_must|]. intros fs.
  apply diskOnly_foldr. intros f. apply listFile_diskOnly.
Qed.

(** What a client gets from [Get] and [List]: its object or list, and the result. *)
Lemma Get_sameDisk key obj s s1 :
  sameDisk s s1 -> (Get scheme key (s1, obj)).1.2 = (Get scheme key (s, obj)).1.2 /\
                   (Get scheme key (s1, obj)).2 = (Get scheme key (s, obj)).2.
Proof.
  intros Hs. unfold Get, bind, getObj, lift, getStore, onStore. cbn [snd fst].
  destruct (gvkForObject scheme obj) as [g|e|]; [|done..]. rewrite (proj1 Hs).
  destruct (readObject_diskOnly key (objectPath (root s) g key) s s1 Hs) as [Er _].
  destruct (readObject _ _ s) as [s' r], (readObject _ _ s1) as [s1' r1]. simpl in Er. subst r1.
  destruct r as [c|e|]; [|done..]. by destruct (decodeContent c obj).
Qed.

Lemma List_sameDisk lst opts s s1 :
  sameDisk s s1 -> (List scheme opts (s1, lst)).1.2 = (List scheme opts (s, lst)).1.2 /\
                   (List scheme opts (s1, lst)).2 = (List scheme opts (s, lst)).2.
Proof.
  intros Hs. unfold List, bind, getObj, lift, getStore, setObj, onStore. cbn [snd fst].
  destruct (gvkForList scheme lst) as [g|e|]; [|done..]. rewrite (proj1 Hs), (proj2 (proj2 Hs)).
  destruct (diskOnly_sys (ReadDir (gvkDir (root s) g)) s s1 Hs) as [Er Hs'].
  destruct (sys _ s) as [s' r], (sys _ s1) as [s1' r1]. simpl in Er, Hs'. subst r1. destruct r as [r|e|]; [|done..].
  destruct r as [ds|[]|]; [|by cbn; case_match|done..].
  cbn [fst snd]. match goal with |- context [foldr ?f ?z ds s'] =>
    destruct (diskOnly_foldr (listNamespace scheme g (gvkDir (root s) g) (applyOptions opts)) ds
      (listNamespace_diskOnly g _ _) s' s1' Hs') as [Ef _]; change (foldr _ _ ds) with (foldr f z ds) in Ef;
    destruct (foldr f z ds s') as [s2 r], (foldr f z ds s1') as [s3 r3] end.
  simpl in Ef. subst r3. destruct r as [items|e|]; [|done..].
  cbn [fst snd]. by destruct (populateListItems _ items).
Qed.
End diskOnly.

(** ** The theorems *)

Section theorems.
Context (scheme : Scheme) (r : path).
Hypothesis Hscheme : schemeOk scheme.

(** Reached in fewer calls than there are revisions. *)
Definition reached (s : FileStore) : Prop := exists n, fsReachable scheme r n s /\ (Z.of_nat n < max_int64)%Z.

Lemma reached_hist s : reached s -> exists H, fsHist scheme s H /\ room H /\ root s = r.
Proof using Hscheme.
  intros (n & Hr & Hn). destruct (fsReachable_hist scheme Hscheme r n s Hr Hn) as (H & Hh & Hl & Hroot).
  exists H. split_and!; [done|unfold room; lia|done].
Qed.

(** C13: a filesystem store reached by calls and restarts implements the abstract
    history. There is a well-formed history whose length is the revision such that, for every kind and key
    the layout represents, the object's file exists exactly when the history has the object and holds its
    indented JSON, [Get] finds it there, the counter file holds the revision (absent while it is 0), and
    the event log is the end of the history. *)
Theorem fs_refines_history s :
  reached s ->
  exists H, wfHistory H /\ revision s = Z.of_nat (length H) /\
    (forall g k, okGVK g = true -> okKey k = true ->
       tree (fsDisk s) !! objectPath r g k = (fun o => File (MarshalIndent o)) <$> view g H !! k /\
       objectAt scheme s g k = view g H !! k) /\
    counterFile (tree (fsDisk s)) (revisionPath s) (revision s) /\
    exists old, H = old ++ map toChange (eventLog s).
Proof using Hscheme.
  intros Hr. destruct (reached_hist s Hr) as (H & [HI _] & _ & Hroot). destruct (fi_mem _ _ _ HI) as [objs Hm].
  exists H. split_and!; [apply Hm|apply Hm| | |].
  - intros g k Hg Hk. rewrite <- Hroot, (objectAt_view scheme s H g k HI Hg Hk), objectPath_eq by done.
    split; [by apply (fi_disk _ _ _ HI)|done].
  - unfold revisionPath. rewrite Join_plain by done. apply (fi_disk _ _ _ HI).
  - destruct (eventLog_split scheme _ H Hm) as (old & E & _). by exists old.
Qed.

(** C14: nothing but the event log is lost when the process restarts: a store opened
    on the same directory has the same revision and UID counter, every [Get] and [List] returns what it
    returned before, a watch from the current revision (or a later one) starts empty, and a watch from an older one is
    refused as too old, with the next revision as the oldest available. *)
Theorem fs_restart_durable s size :
  reached s -> (0 <= size)%Z ->
  let s1 := NewStore r (fsDisk s) [WithEventLogSize size] in
  revision s1 = revision s /\ uidCounter s1 = uidCounter s /\
  (forall key obj, (Get scheme key (s1, obj)).1.2 = (Get scheme key (s, obj)).1.2 /\
                   (Get scheme key (s1, obj)).2 = (Get scheme key (s, obj)).2) /\
  (forall lst opts, (List scheme opts (s1, lst)).1.2 = (List scheme opts (s, lst)).1.2 /\
                    (List scheme opts (s1, lst)).2 = (List scheme opts (s, lst)).2) /\
  (forall lst g from, gvkForList scheme lst = Ret g -> in_int64 from = true ->
     if (from <? revision s)%Z
     then Watch scheme lst [WatchFromRevision from] s1 = Some (s1, Fail (RevisionTooOldError from (revision s + 1)))
     else exists s2 w, Watch scheme lst [WatchFromRevision from] s1 = Some (s2, Ret 0) /\
            heap s2 !! 0 = Some w /\ buf (Mem.wCh w) = []).
Proof using Hscheme.
  intros Hr Hs s1. destruct (reached_hist s Hr) as (H & Hh & Hroom & Hroot).
  assert (s1 = mkStore (root s) (fsDisk s) ∅ (uidCounter s) (revision s) [] size ∅ 0) as Es
    by (rewrite <- (reopen_run scheme size s H (proj1 Hh)); unfold reopen, s1; by rewrite Hroot).
  assert (sameDisk s s1) as Hsame by (by rewrite Es).
  split_and!; [by rewrite Es|by rewrite Es|intros; by apply Get_sameDisk|intros; by apply List_sameDisk|].
  intros lst g from Hg Hf. pose proof (fs_revision scheme s H (proj1 Hh)) as Hrev. unfold room in Hroom.
  rewrite Es. unfold Watch. rewrite Hg. cbn [fromRevisionOpt foldl]. unfold eventsSince. cbn [revision eventLog].
  destruct (Z.leb_spec (revision s) from), (Z.ltb_spec from (revision s)); try lia; simpl.
  - eexists _, _. split; [done|]. simpl. rewrite lookup_insert_eq. by split.
  - rewrite wrap64_succ by lia. done.
Qed.

(** C17: [Update] on a filesystem store fails with [NotFoundError] or [ConflictError] as the
    in-memory one and then changes nothing. Otherwise either the input has nothing to write and the store
    stays as it is, or the object's file gets the input's spec, labels and annotations with the stored
    status and UID and the next revision, and one MODIFIED event is emitted. The generation stays the same
    exactly when the spec is absent on both sides, or equal and printed on one line (an empty object or
    array, or a scalar); a spec with members counts as changed. (So an update of labels alone increments
    the generation of such an object: the documented contract has it count changes of the spec only.) *)
Theorem fs_Update s obj g :
  reached s -> okObject scheme obj -> fsObject obj -> gvkForObject scheme obj = Ret g ->
  let key := ObjectKeyFromObject obj in
  match objectAt scheme s g key with
  | None => Update scheme (s, obj) = (s, obj, Fail (NotFoundError (keyString key)))
  | Some st =>
      if bool_decide (GetResourceVersion obj <> GetResourceVersion st)
      then Update scheme (s, obj) = (s, obj, Fail (ConflictError (keyString key)))
      else exists s' obj', Update scheme (s, obj) = (s', obj', Ret tt) /\
        ((s' = s /\ unchanged obj st /\ copyObject st obj = (obj', Ret tt)) \/
         exists new, updateOf scheme (textGeneration obj st) obj st new (revision s) /\
           copyObject new obj = (obj', Ret tt) /\ fsEmitted scheme s g (mkEvent EventModified new) s')
  end.
Proof using Hscheme.
  intros Hr Ho Hf Hg key. destruct (reached_hist s Hr) as (H & [HI _] & Hroom & Hroot).
  pose proof (sch_object _ Hscheme _ _ Hg) as Hok. pose proof (proj1 Hf) as Hk. fold key in Hk.
  pose proof (Update_run scheme s H g HI Hroom Hok obj Ho Hf Hg) as Hs. cbv zeta in Hs. fold key in Hs.
  rewrite (objectAt_view scheme s H g key HI Hok Hk). destruct (view g H !! key) as [st|]; [|done].
  case_bool_decide; [done|]. destruct Hs as (s' & obj' & E & [Hn|(new & Hup & [[Hk' _] _] & Eo & Hc)]);
    exists s', obj'; (split; [done|]); [by left|]. right. exists new. split_and!; [done..|].
  by eapply fsCommitted_emitted.
Qed.

Theorem fs_UpdateStatus s obj g :
  reached s -> okObject scheme obj -> fsObject obj -> gvkForObject scheme obj = Ret g ->
  let key := ObjectKeyFromObject obj in
  match objectAt scheme s g key with
  | None => UpdateStatus scheme (s, obj) = (s, obj, Fail (NotFoundError (keyString key)))
  | Some st =>
      if bool_decide (GetResourceVersion obj <> GetResourceVersion st)
      then UpdateStatus scheme (s, obj) = (s, obj, Fail (ConflictError (keyString key)))
      else exists s' obj', UpdateStatus scheme (s, obj) = (s', obj', Ret tt) /\
        ((s' = s /\ rawField "status" obj = rawField "status" st /\ copyObject st obj = (obj', Ret tt)) \/
         exists new, statusUpdateOf scheme obj st new (revision s) /\
           copyObject new obj = (obj', Ret tt) /\ fsEmitted scheme s g (mkEvent EventModified new) s')
  end.
Proof using Hscheme.
  intros Hr Ho Hf Hg key. destruct (reached_hist s Hr) as (H & [HI _] & Hroom & Hroot).
  pose proof (sch_object _ Hscheme _ _ Hg) as Hok. pose proof (proj1 Hf) as Hk. fold key in Hk.
  pose proof (UpdateStatus_run scheme s H g HI Hroom Hok obj Ho Hf Hg) as Hs. cbv zeta in Hs. fold key in Hs.
  rewrite (objectAt_view scheme s H g key HI Hok Hk). destruct (view g H !! key) as [st|]; [|done].
  case_bool_decide; [done|]. destruct Hs as (s' & obj' & E & [Hn|(new & Hup & [[Hk' _] _] & Eo & Hc)]);
    exists s', obj'; (split; [done|]); [by left|]. right. exists new. split_and!; [done..|].
  by eapply fsCommitted_emitted.
Qed.

(** C18: [Create] fails with [AlreadyExistsError] exactly when the object's file is
    there; otherwise it stores the caller's object with a UID, generation 1 and the next revision, and
    emits it as ADDED. [Delete] fails with [NotFoundError] without a file and with [ConflictError] when
    the caller names another resource version; otherwise the file is removed and the stored object, with the
    next revision, is emitted as DELETED. *)
Theorem fs_Create_Delete s obj g :
  reached s -> okObject scheme obj -> fsObject obj -> gvkForObject scheme obj = Ret g ->
  let key := ObjectKeyFromObject obj in
  match objectAt scheme s g key with
  | None =>
      Delete scheme (s, obj) = (s, obj, Fail (NotFoundError (keyString key))) /\
      exists s', Create scheme (s, obj) = (s', fsCreated s obj, Ret tt) /\
        fsEmitted scheme s g (mkEvent EventAdded (fsCreated s obj)) s'
  | Some st =>
      Create scheme (s, obj) = (s, obj, Fail (AlreadyExistsError (keyString key))) /\
      if bool_decide (GetResourceVersion obj <> "") && bool_decide (GetResourceVersion obj <> GetResourceVersion st)
      then Delete scheme (s, obj) = (s, obj, Fail (ConflictError (keyString key)))
      else exists s', Delete scheme (s, obj) = (s', obj, Ret tt) /\
        fsEmitted scheme s g (mkEvent EventDeleted (SetResourceVersion (FormatInt (revision s + 1)) st)) s'
  end.
Proof using Hscheme.
  intros Hr Ho Hf Hg key. destruct (reached_hist s Hr) as (H & [HI _] & Hroom & Hroot).
  pose proof (sch_object _ Hscheme _ _ Hg) as Hok. pose proof (proj1 Hf) as Hk. fold key in Hk.
  pose proof (Create_run scheme s H g HI Hroom Hok obj Ho Hf Hg) as Hc. fold key in Hc.
  pose proof (Delete_run scheme s H g HI Hroom Hok obj Hk Hg) as Hd. cbv zeta in Hd. fold key in Hd.
  rewrite (objectAt_view scheme s H g key HI Hok Hk). destruct (view g H !! key) as [st|] eqn:Ev; (split; [done|]).
  - destruct (_ && _); [done|]. destruct Hd as (s' & E & Hcm). exists s'. split; [done|].
    destruct (fs_stored scheme s H g key st HI Ev) as (_ & _ & Ek & _).
    eapply fsCommitted_emitted; try done. simpl. autorewrite with sc_rw. by rewrite Ek.
  - destruct Hc as (s' & E & Hcm). exists s'. split; [done|]. eapply fsCommitted_emitted; try done.
    cbn [evObject]. unfold fsCreated. by rewrite key_created.
Qed.

(** C19: every file below the directory of a registered kind of a reached store is a
    well-formed object of the kind's registered Go type, stored under its own namespace and name, and
    decodes to that object. *)
Theorem fs_files_typed s g ns f n :
  reached s -> okGVK g = true -> tree (fsDisk s) !! (gvkDir r g ++ [ns; f]) = Some n ->
  exists o, n = File (MarshalIndent o) /\ okObject scheme o /\ gvkForObject scheme o = Ret g /\
    gvkDir r g ++ [ns; f] = objectPath r g (ObjectKeyFromObject o) /\
    decodeStored scheme g (MarshalIndent o) = Ret o.
Proof using Hscheme.
  intros Hr Hg Hn. destruct (reached_hist s Hr) as (H & [HI _] & _ & Hroot). rewrite gvkDir_eq in * by done.
  pose proof (fi_disk _ _ _ HI) as Hd. rewrite Hroot in Hd.
  destruct (do_known _ _ _ _ _ Hd g ns f n Hg Hn) as (k & Hk & -> & ->). change (dirOf r g ++ [nsName k; fileName k]) with (fileOf r g k) in *.
  rewrite (do_objects _ _ _ _ _ Hd g k Hg Hk) in Hn. apply fmap_Some_1 in Hn as (o & Hv & ->). exists o.
  destruct (fs_stored scheme s H g k o HI Hv) as (Ho & Hgo & Hks & _).
  split_and!; try done; [by rewrite Hks, objectPath_eq|by eapply decodeStored_run].
Qed.
End theorems.

(** C15: on any disk, whatever its calls do, a [Create], [Update], [UpdateStatus]
    or [Delete] that returns an error has published nothing: no entry in the event log, no event in a
    watcher's channel, no watcher opened or closed. *)
Theorem fs_failure_silent scheme m s obj s' obj' e :
  callWrite scheme m (s, obj) = (s', obj', Fail e) -> sameWatch s s'.
Proof. exact (callWrite_error scheme m (s, obj) (s', obj') e). Qed.

(** C16: on any disk, whatever its calls do and whether it succeeds or fails, a
    write of one object leaves every other object as it was: for every other kind or key the layout
    represents, the file is untouched and reads as before. *)
Theorem fs_write_isolation scheme m s obj g s' obj' x g' k :
  gvkForObject scheme obj = Ret g -> callWrite scheme m (s, obj) = (s', obj', x) ->
  okGVK g = true -> okKey (ObjectKeyFromObject obj) = true -> okGVK g' = true -> okKey k = true ->
  g' <> g \/ k <> ObjectKeyFromObject obj ->
  isFile (tree (fsDisk s')) (objectPath (root s) g' k) = isFile (tree (fsDisk s)) (objectPath (root s) g' k) /\
  objectAt scheme s' g' k = objectAt scheme s g' k.
Proof.
  intros Hg E Hok Hko Hg' Hk Hne. destruct (callWrite_touches scheme m s obj g s' obj' x Hg E) as [Hroot Ht].
  assert (objectPath (root s) g' k ∉ writeFiles g obj s) as Hnin.
  { unfold writeFiles, revisionPath, uidPath. rewrite !objectPath_eq, !Join_plain by done.
    rewrite !not_elem_of_cons. split_and!; [|intros E'%(f_equal length); rewrite fileOf_length, length_app in E'; simpl in E'; lia..|set_solver].
    intros [-> ->]%fileOf_inj; [|done..]. naive_solver. }
  unfold objectAt, isFile. rewrite Hroot. destruct (Ht _ Hnin) as [->|[-> ->]]; done.
Qed.
