(* ===== verification/FilesystemWitnesses.v ===== *)
(** * The filesystem theorems at concrete stores

    A store in an empty directory, a widget created and recoloured, at which the
    theorems of FilesystemTheorems apply, and executions that show where the code
    departs from its comments or from the in-memory backend. *)

From S2P Require Import Prelude GoStrconv GoJson GoJsonFacts Objects ObjectFacts.
From S2P Require Import SpecStatus NormalForms StoreSpec Backend JsonText MemoryStore Fixtures MemoryStoreFacts.
From S2P Require Import MemoryStoreRuns MemoryStoreTheorems MemoryStoreWitnesses.
From S2P Require Import FileTree Filesystem FilesystemDisk FilesystemFacts FilesystemList FilesystemRuns.
From S2P Require Import FilesystemInterface FilesystemErrors FilesystemTheorems.

Import FS.

Lemma testScheme_ok : schemeOk testScheme.
Proof.
  split; [apply testScheme_total|..].
  - intros o g. unfold gvkForObject. simpl. repeat case_bool_decide; by intros [= <-].
  - intros l g. unfold gvkForList. simpl. repeat case_bool_decide; by intros [= <-].
Qed.

Lemma fsWidget o :
  okKey (ObjectKeyFromObject o) = true -> norm (objectType (oType o)) (objectVal o) = objectVal o -> fsObject o.
Proof. by split. Qed.

Lemma fresh_empty r : freshDisk r ∅.
Proof. by split. Qed.

Definition dataDir : path := ["var"; "data"].
Definition fstore0 : FileStore := NewStore dataDir (mkDisk ∅ []) [WithEventLogSize 10].
Definition fstore1 : FileStore := (Create testScheme (fstore0, w1)).1.1.
Definition fw1 : Object := fsCreated fstore0 w1.
Definition fstore2 : FileStore := (Update testScheme (fstore1, recolour "blue" fw1)).1.1.

Lemma hist_fstore0 : fsHist testScheme fstore0 [].
Proof. by apply NewStore_hist; [apply fresh_empty|]. Qed.

Lemma ok_w1 : okObject testScheme w1 /\ fsObject w1 /\ gvkForObject testScheme w1 = Ret widgetGVK.
Proof. split_and!; [apply okWidget; computed|apply fsWidget; computed|computed]. Qed.

Definition blue1 : Object := recolour "blue" fw1.

Lemma ok_blue1 : okObject testScheme blue1 /\ fsObject blue1 /\ gvkForObject testScheme blue1 = Ret widgetGVK.
Proof. split_and!; [apply okWidget; computed|apply fsWidget; computed|computed]. Qed.

(** The first call, by the theorem about [Create]. *)
Lemma create_fstore1 :
  Create testScheme (fstore0, w1) = (fstore1, fw1, Ret tt) /\
  fsCommitted testScheme fstore0 [] widgetGVK (mkEvent EventAdded fw1) fstore1.
Proof.
  destruct ok_w1 as (Ho & Hf & Hg).
  pose proof (Create_run testScheme fstore0 [] widgetGVK (proj1 hist_fstore0) ltac:(done) ltac:(computed) w1 Ho Hf Hg) as H.
  change (view widgetGVK [] !! ObjectKeyFromObject w1) with (@None Object) in H.
  destruct H as (s' & E & Hc). unfold fstore1. rewrite E. by split.
Qed.

Definition history1 : list change := [mkChange (revision fstore0 + 1) widgetGVK (mkEvent EventAdded fw1)].

Lemma hist_fstore1 : fsHist testScheme fstore1 history1.
Proof. exact (fso_hist _ _ _ _ _ _ (fsStepOk_committed _ _ _ _ _ _ hist_fstore0 (proj2 create_fstore1))). Qed.

Lemma view_history1 : view widgetGVK history1 !! ObjectKeyFromObject w1 = Some fw1.
Proof. change history1 with ([] ++ history1). unfold history1. rewrite view_snoc, decide_True by done. apply lookup_insert_eq. Qed.

Lemma objectAt_fstore1 : objectAt testScheme fstore1 widgetGVK (ObjectKeyFromObject w1) = Some fw1.
Proof. rewrite (objectAt_view _ _ _ _ _ (proj1 hist_fstore1)) by computed. exact view_history1. Qed.

Lemma reachable_fstore1 : fsReachable testScheme dataDir 1 fstore1.
Proof.
  destruct ok_w1 as (Ho & Hf & _).
  apply (fsr_step _ _ 0 fstore0 None); [by apply fsr_open; [apply fresh_empty|]|].
  exact (fs_step_Create _ _ w1 _ fw1 (Ret tt) Ho Hf (proj1 create_fstore1)).
Qed.

Lemma reachable_fstore2 : fsReachable testScheme dataDir 2 fstore2.
Proof.
  destruct ok_blue1 as (Ho & Hf & _). apply (fsr_step _ _ 1 fstore1 None); [apply reachable_fstore1|].
  unfold fstore2. destruct (Update testScheme (fstore1, blue1)) as [[s' o'] r] eqn:E. fold blue1. rewrite E.
  exact (fs_step_Update _ _ blue1 _ o' r Ho Hf E).
Qed.

Lemma reached_fstore1 : reached testScheme dataDir fstore1.
Proof. exists 1. split; [apply reachable_fstore1|done]. Qed.

Lemma reached_fstore2 : reached testScheme dataDir fstore2.
Proof. exists 2. split; [apply reachable_fstore2|done]. Qed.

Lemma fs_refines_history_witness :
  exists H, wfHistory H /\ revision fstore2 = Z.of_nat (length H) /\
    objectAt testScheme fstore2 widgetGVK (ObjectKeyFromObject w1) = view widgetGVK H !! ObjectKeyFromObject w1.
Proof.
  destruct (fs_refines_history testScheme dataDir testScheme_ok fstore2 reached_fstore2) as (H & Hw & Hr & Ho & _).
  exists H. split; [exact Hw|split; [exact Hr|]]. apply Ho; computed.
Defined.

Lemma fs_restart_durable_witness :
  (1 <= revision fstore1)%Z /\
  revision (NewStore dataDir (fsDisk fstore1) [WithEventLogSize 5]) = revision fstore1 /\
  Watch testScheme testWidgetList [WatchFromRevision 0] (NewStore dataDir (fsDisk fstore1) [WithEventLogSize 5]) =
    Some (NewStore dataDir (fsDisk fstore1) [WithEventLogSize 5], Fail (RevisionTooOldError 0 (revision fstore1 + 1))).
Proof.
  pose proof (fs_revision _ _ _ (proj1 hist_fstore1)) as Erev. change (Z.of_nat (length history1)) with 1%Z in Erev.
  destruct (fs_restart_durable testScheme dataDir testScheme_ok fstore1 5 reached_fstore1 ltac:(lia)) as (Hr & _ & _ & _ & Hw).
  split; [lia|split; [exact Hr|]].
  specialize (Hw testWidgetList widgetGVK 0%Z ltac:(computed) ltac:(computed)).
  destruct (0 <? revision fstore1)%Z eqn:E; [exact Hw|lia].
Defined.

Lemma fs_Update_witness :
  exists s' obj' new, Update testScheme (fstore1, blue1) = (s', obj', Ret tt) /\
    updateOf testScheme (textGeneration blue1 fw1) blue1 fw1 new (revision fstore1) /\
    fsEmitted testScheme fstore1 widgetGVK (mkEvent EventModified new) s'.
Proof.
  destruct ok_blue1 as (Ho & Hf & Hg).
  pose proof (fs_Update testScheme dataDir testScheme_ok fstore1 blue1 widgetGVK reached_fstore1 Ho Hf Hg) as H.
  cbv zeta in H. change (ObjectKeyFromObject blue1) with (ObjectKeyFromObject w1) in H. rewrite objectAt_fstore1 in H.
  rewrite bool_decide_false in H by (intros E; apply E; reflexivity).
  destruct H as (s' & obj' & E & [(_ & Hu & _)|(new & Hn & _ & He)]); [|exists s', obj', new; split; [exact E|split; [exact Hn|exact He]]].
  clear E. assert (rawField "spec" blue1 = rawField "spec" fw1) as Es.
  { apply (un_fields _ _ Hu); [|discriminate]. apply (bool_decide_unpack _). exact I. }
  vm_compute in Es. discriminate Es.
Defined.

Lemma fs_Create_Delete_witness :
  Create testScheme (fstore1, w1) = (fstore1, w1, Fail (AlreadyExistsError (keyString (ObjectKeyFromObject w1)))) /\
  exists s', Delete testScheme (fstore1, w1) = (s', w1, Ret tt) /\
    fsEmitted testScheme fstore1 widgetGVK (mkEvent EventDeleted (SetResourceVersion (FormatInt (revision fstore1 + 1)) fw1)) s'.
Proof.
  destruct ok_w1 as (Ho & Hf & Hg).
  pose proof (fs_Create_Delete testScheme dataDir testScheme_ok fstore1 w1 widgetGVK reached_fstore1 Ho Hf Hg) as H.
  cbv zeta in H. rewrite objectAt_fstore1 in H. exact H.
Defined.

Lemma fs_files_typed_witness :
  exists o, File (MarshalIndent fw1) = File (MarshalIndent o) /\ okObject testScheme o /\
    decodeStored testScheme widgetGVK (MarshalIndent o) = Ret o.
Proof.
  destruct (fs_files_typed testScheme dataDir testScheme_ok fstore1 widgetGVK "default" "w1.json" (File (MarshalIndent fw1))
    reached_fstore1 ltac:(computed)) as (o & E & Ho & _ & _ & Ed); [|exists o; split; [exact E|split; [exact Ho|exact Ed]]].
  rewrite gvkDir_eq by computed.
  etransitivity; [exact (do_objects _ _ _ _ _ (fi_disk _ _ _ (proj1 hist_fstore1)) widgetGVK (ObjectKeyFromObject w1)
    ltac:(computed) ltac:(computed))|]. cbv beta. by rewrite view_history1.
Defined.

(** A store whose disk breaks when the first directory is made. *)
Definition brokenStore : FileStore := setDisk (mkDisk ∅ [Works; Breaks (Some 0)]) fstore0.
Definition brokenCreate : FileStore * Object * result unit := Create testScheme (brokenStore, w1).

Lemma fs_failure_silent_witness :
  brokenCreate.2 = Fail (OtherError "input/output error") /\ sameWatch brokenStore brokenCreate.1.1.
Proof.
  split; [computed|].
  apply (fs_failure_silent testScheme MCreate _ w1 brokenCreate.1.1 brokenCreate.1.2 (OtherError "input/output error")).
  computed.
Defined.

Lemma fs_write_isolation_witness :
  objectAt testScheme brokenCreate.1.1 widgetGVK (mkKey "default" "w2") =
  objectAt testScheme brokenStore widgetGVK (mkKey "default" "w2").
Proof.
  apply (fs_write_isolation testScheme MCreate brokenStore w1 widgetGVK
    brokenCreate.1.1 brokenCreate.1.2 brokenCreate.2); [computed| |computed..|].
  - simpl callWrite. unfold brokenCreate. by destruct (Create testScheme (brokenStore, w1)) as [[] ].
  - right. discriminate.
Defined.

(** ** Where the code departs from its comments *)

(** An update of the labels alone increments the generation, because the stored
    spec is compared as indented text with the compact text of the input. *)
Theorem fs_label_update_bumps_generation :
  exists s' obj' new, Update testScheme (fstore1, labelled fw1) = (s', obj', Ret tt) /\
    fsCommitted testScheme fstore1 history1 widgetGVK (mkEvent EventModified new) s' /\
    rawField "spec" new = rawField "spec" fw1 /\ GetGeneration new = (GetGeneration fw1 + 1)%Z.
Proof.
  pose proof (Update_run testScheme fstore1 history1 widgetGVK (proj1 hist_fstore1) ltac:(done) ltac:(computed) (labelled fw1)
    ltac:(apply okWidget; computed) ltac:(apply fsWidget; computed) ltac:(computed)) as H.
  cbv zeta in H. change (ObjectKeyFromObject (labelled fw1)) with (ObjectKeyFromObject w1) in H.
  rewrite view_history1, bool_decide_false in H by (intros E; apply E; reflexivity).
  destruct H as (s' & obj' & E & [(_ & Hu & _)|(new & Hn & _ & _ & Hc)]).
  - pose proof (un_labels _ _ Hu) as El. vm_compute in El. discriminate El.
  - exists s', obj', new. split; [exact E|split; [exact Hc|split]].
    + rewrite (up_fields _ _ _ _ _ _ Hn) by ((by apply (bool_decide_unpack _)) || done). computed.
    + rewrite (up_gen _ _ _ _ _ _ Hn). computed.
Qed.

(** Keys are not validated: two different keys can share a file, and a
    namespace can lead out of the store's directory. *)
Theorem fs_keys_not_injective :
  objectPath dataDir widgetGVK (mkKey "" "a") = objectPath dataDir widgetGVK (mkKey "_cluster" "a") /\
  objectPath dataDir widgetGVK (mkKey "../../../../.." "a") = ["a.json"].
Proof. split; computed. Qed.
