(* ===== verification/EventQueue.v ===== *)
(** * The informer's event queue: cache.go, eventQueue and processEvents

    Events wait per key until the processor drains them; several events of one
    key are merged. [QueueInv D q M] says that delivering what is queued takes a
    handler that knows the objects [D] to the objects [M], by calls that are
    consistent with what it knows. *)

From S2P Require Import Prelude GoStrconv GoJson GoJsonFacts Objects ObjectFacts.

Inductive cacheEventType : Type := cacheEventAdd | cacheEventUpdate | cacheEventDelete.

#[export] Instance cacheEventType_eq_dec : EqDecision cacheEventType.
Proof. solve_decision. Defined.

(** [oldObj] is set for updates only. *)
Record cacheEvent : Type := mkCacheEvent {
  ceType : cacheEventType;
  ceObj : Object;
  ceOldObj : option Object;
  ceInInitialList : bool;
}.

Record eventQueue : Type := mkQueue {
  qOrder : list ObjectKey;
  qPending : gmap ObjectKey (list cacheEvent);
  qClosed : bool;
}.

Definition newEventQueue : eventQueue := mkQueue [] ∅ false.

(** [None] is the [nil] that cancels both events. *)
Definition coalesceEvents (existing incoming : cacheEvent) : option cacheEvent :=
  match ceType existing, ceType incoming with
  | cacheEventAdd, cacheEventUpdate =>
      Some (mkCacheEvent cacheEventAdd (ceObj incoming) None (ceInInitialList existing))
  | cacheEventAdd, cacheEventDelete => None
  | cacheEventUpdate, cacheEventUpdate =>
      Some (mkCacheEvent cacheEventUpdate (ceObj incoming) (ceOldObj existing) false)
  | cacheEventUpdate, cacheEventDelete =>
      Some (mkCacheEvent cacheEventDelete (ceObj incoming) None false)
  | _, _ => Some incoming
  end.

(** [None] is the out-of-range panic of [existing[len(existing)-1]] on an
    empty slice. *)
Definition enqueue (key : ObjectKey) (evt : cacheEvent) (q : eventQueue) : option eventQueue :=
  if qClosed q then Some q
  else
    match qPending q !! key with
    | None => Some (mkQueue (qOrder q ++ [key]) (<[key := [evt]]> (qPending q)) (qClosed q))
    | Some existing =>
        match last existing with
        | None => None
        | Some lastEvt =>
            let rest := take (length existing - 1) existing in
            let pending :=
              if bool_decide (ceType lastEvt = cacheEventDelete) && bool_decide (ceType evt = cacheEventAdd)
              then <[key := existing ++ [evt]]> (qPending q)
              else match coalesceEvents lastEvt evt with
                   | None => if bool_decide (rest = []) then delete key (qPending q)
                             else <[key := rest]> (qPending q)
                   | Some coalesced => <[key := rest ++ [coalesced]]> (qPending q)
                   end in
            Some (mkQueue (qOrder q) pending (qClosed q))
        end
    end.

(** [drain] waits while nothing is pending and the queue is open; it ends the
    processor when the queue is closed and empty. *)
Inductive drainResult : Type :=
| DrainWaits
| DrainEnd
| Drained (order : list ObjectKey) (events : gmap ObjectKey (list cacheEvent)).

Definition drain (q : eventQueue) : drainResult * eventQueue :=
  if bool_decide (qPending q = ∅) then
    (if qClosed q then DrainEnd else DrainWaits, q)
  else (Drained (qOrder q) (qPending q), mkQueue [] ∅ (qClosed q)).

Definition closeQueue (q : eventQueue) : eventQueue := mkQueue (qOrder q) (qPending q) true.

(** A call of a [ResourceEventHandler], with the handler's id. *)
Inductive handlerCall : Type :=
| OnAdd (h : nat) (obj : Object) (isInInitialList : bool)
| OnUpdate (h : nat) (oldObj : option Object) (obj : Object)
| OnDelete (h : nat) (obj : Object).

Definition callsFor (handlers : list nat) (evt : cacheEvent) : list handlerCall :=
  match ceType evt with
  | cacheEventAdd => map (fun h => OnAdd h (ceObj evt) (ceInInitialList evt)) handlers
  | cacheEventUpdate => map (fun h => OnUpdate h (ceOldObj evt) (ceObj evt)) handlers
  | cacheEventDelete => map (fun h => OnDelete h (ceObj evt)) handlers
  end.

(** One round of [processEvents] over a drained batch: the keys in order, each
    once, and for each key its events. *)
Fixpoint batchEvents (order : list ObjectKey) (events : gmap ObjectKey (list cacheEvent))
    (seen : gset ObjectKey) : list (ObjectKey * cacheEvent) :=
  match order with
  | [] => []
  | key :: order' =>
      if bool_decide (key ∈ seen) then batchEvents order' events seen
      else map (pair key) (default [] (events !! key)) ++ batchEvents order' events ({[key]} ∪ seen)
  end.

Definition processBatch (handlers : list nat) (order : list ObjectKey)
    (events : gmap ObjectKey (list cacheEvent)) : list handlerCall :=
  concat (map (fun ke => callsFor handlers ke.2) (batchEvents order events ∅)).

(** ** What a handler knows *)

(** The object of one key after an event. *)
Definition afterEvent (x : option Object) (e : cacheEvent) : option Object :=
  match ceType e with
  | cacheEventAdd | cacheEventUpdate => Some (ceObj e)
  | cacheEventDelete => None
  end.

(** An event makes sense for what is known of its key: an add for an unknown
    object, an update from the known object, a delete of a known object. *)
Definition fits (x : option Object) (e : cacheEvent) : Prop :=
  match ceType e with
  | cacheEventAdd => x = None
  | cacheEventUpdate => is_Some x /\ ceOldObj e = x
  | cacheEventDelete => is_Some x
  end.

Fixpoint fitsAll (x : option Object) (es : list cacheEvent) : Prop :=
  match es with
  | [] => True
  | e :: es' => fits x e /\ fitsAll (afterEvent x e) es'
  end.

Definition afterEvents (x : option Object) (es : list cacheEvent) : option Object := foldl afterEvent x es.

(** The events of one key waiting in the queue. *)
Definition pendingOf (q : eventQueue) (k : ObjectKey) : list cacheEvent := default [] (qPending q !! k).

(** What can wait for one key: one event, or a delete followed by an add. *)
Definition shape (es : list cacheEvent) : Prop :=
  match es with
  | [] | [_] => True
  | [d; a] => ceType d = cacheEventDelete /\ ceType a = cacheEventAdd
  | _ => False
  end.

Record QueueInv (D : gmap ObjectKey Object) (q : eventQueue) (M : gmap ObjectKey Object) : Prop := {
  qi_open : qClosed q = false;
  qi_nonempty : forall k es, qPending q !! k = Some es -> es <> [];
  qi_shape : forall k, shape (pendingOf q k);
  qi_order : forall k, is_Some (qPending q !! k) -> k ∈ qOrder q;
  qi_keyed : forall k, Forall (fun e => ObjectKeyFromObject (ceObj e) = k) (pendingOf q k);
  qi_fits : forall k, fitsAll (D !! k) (pendingOf q k);
  qi_after : forall k, afterEvents (D !! k) (pendingOf q k) = M !! k;
}.

(** ** Facts *)

(** Two adjacent events that fit merge into events that fit and have the same
    effect. *)
Lemma coalesce_fits x a b :
  fits x a -> fits (afterEvent x a) b ->
  ~ (ceType a = cacheEventDelete /\ ceType b = cacheEventAdd) ->
  match coalesceEvents a b with
  | None => afterEvent (afterEvent x a) b = x
  | Some c => fits x c /\ afterEvent x c = afterEvent (afterEvent x a) b
  end.
Proof.
  intros Ha Hb Hn. unfold fits, afterEvent, coalesceEvents in *.
  destruct (ceType a) eqn:Ea, (ceType b) eqn:Eb; simpl in *; try (by destruct Hn); try naive_solver;
    try (by destruct Hb as [[? ?] _]); try (by destruct Hb).
Qed.

Lemma coalesce_shape d a b :
  ceType d = cacheEventDelete -> ceType a = cacheEventAdd -> fits (Some (ceObj a)) b ->
  match coalesceEvents a b with
  | None => True
  | Some c => ceType c = cacheEventAdd
  end.
Proof.
  intros Hd Ha Hb. unfold coalesceEvents, fits in *. rewrite Ha. by destruct (ceType b).
Qed.

(** What waits for one key after an event that fits. *)
Definition merged (es : list cacheEvent) (evt : cacheEvent) : list cacheEvent :=
  match last es with
  | None => [evt]
  | Some a =>
      if bool_decide (ceType a = cacheEventDelete) && bool_decide (ceType evt = cacheEventAdd)
      then es ++ [evt]
      else take (length es - 1) es ++ option_list (coalesceEvents a evt)
  end.

Lemma merged_ok x es evt :
  shape es -> fitsAll x es -> fits (afterEvents x es) evt ->
  shape (merged es evt) /\ fitsAll x (merged es evt) /\
  afterEvents x (merged es evt) = afterEvent (afterEvents x es) evt.
Proof.
  intros Hs Hf He. destruct es as [|a [|b [|]]]; [by unfold merged; simpl; auto| | |done]; unfold merged; simpl in *.
  - destruct (bool_decide (ceType a = _) && bool_decide (ceType evt = _)) eqn:E.
    + split_bools. simpl. tauto.
    + unfold afterEvents in *. simpl in *. destruct Hf as [Hf _].
      pose proof (coalesce_fits x a evt Hf He) as Hc.
      destruct (coalesceEvents a evt); simpl in *; (split; [done|]);
        assert (~ (ceType a = cacheEventDelete /\ ceType evt = cacheEventAdd)) as Hn
          by (intros [E1 E2]; by rewrite E1, E2 in E); specialize (Hc Hn); tauto || (split; [done|by symmetry]).
  - destruct Hs as [Ha Hb]. rewrite Hb. simpl. destruct Hf as (Hf1 & Hf2 & _).
    unfold afterEvents in *. simpl in *.
    pose proof (coalesce_fits (afterEvent x a) b evt Hf2 He) as Hc.
    assert (afterEvent (afterEvent x a) b = Some (ceObj b)) as Eb by (unfold afterEvent; by rewrite Hb).
    rewrite Eb in He, Hc.
    pose proof (coalesce_shape a b evt Ha Hb He) as Hsh.
    assert (~ (ceType b = cacheEventDelete /\ ceType evt = cacheEventAdd)) as Hn by (rewrite Hb; by intros []).
    specialize (Hc Hn). rewrite Eb. destruct (coalesceEvents b evt); simpl in *; tauto || (split_and!; try done; by symmetry).
Qed.

(** [enqueue] merges the event into what waits for its key and leaves the
    other keys alone; it never indexes an empty slice. *)
Lemma enqueue_spec D q M key evt :
  QueueInv D q M ->
  exists q', enqueue key evt q = Some q' /\ qClosed q' = false /\
    pendingOf q' key = merged (pendingOf q key) evt /\
    (forall k, k <> key -> qPending q' !! k = qPending q !! k) /\
    (forall es, qPending q' !! key = Some es -> es <> []) /\
    (forall k, is_Some (qPending q' !! k) -> k ∈ qOrder q').
Proof.
  intros [Ho Hne Hsh Hor _ _ _]. specialize (Hsh key). unfold enqueue, pendingOf in *. rewrite Ho.
  destruct (qPending q !! key) as [es|] eqn:Ek; simpl in *.
  - assert (key ∈ qOrder q) as Hk by (apply Hor; by rewrite Ek).
    specialize (Hne _ _ Ek). unfold merged. destruct (last es) as [a|] eqn:El; [|by apply last_None in El].
    assert (forall v k, is_Some (<[key := v]> (qPending q) !! k) -> k ∈ qOrder q) as Hins.
    { intros v k. destruct (decide (k = key)) as [->|]; [done|]. rewrite lookup_insert_ne by done. apply Hor. }
    eexists. split; [done|]. simpl.
    destruct (bool_decide (ceType a = _) && bool_decide (ceType evt = _)).
    + rewrite lookup_insert_eq. split_and!; try done; [|by intros ? [= <-]; destruct es|apply Hins].
      intros k Hk'. by rewrite lookup_insert_ne.
    + destruct (coalesceEvents a evt) as [c|]; simpl.
      * rewrite lookup_insert_eq. split_and!; try done; [| |apply Hins].
        -- intros k Hk'. by rewrite lookup_insert_ne.
        -- intros ? [= <-]. by destruct (take _ _).
      * rewrite app_nil_r. case_bool_decide as Er.
        -- rewrite lookup_delete_eq, Er. split_and!; try done; intros k Hk'; [by rewrite lookup_delete_ne|].
           apply Hor. destruct Hk' as [v Hv]. apply lookup_delete_Some in Hv as [_ Hv]. by rewrite Hv.
        -- rewrite lookup_insert_eq. split_and!; try done; [| |apply Hins].
           ++ intros k Hk'. by rewrite lookup_insert_ne.
           ++ by intros ? [= <-].
  - eexists. split; [done|]. simpl. rewrite lookup_insert_eq. split_and!; try done.
    + intros k Hk. by rewrite lookup_insert_ne.
    + by intros ? [= <-].
    + intros k. destruct (decide (k = key)) as [->|]; [set_solver|]. rewrite lookup_insert_ne by done.
      intros Hk. apply elem_of_app. left. by apply Hor.
Qed.

Lemma merged_keyed (P : Object -> Prop) es evt :
  Forall (fun e => P (ceObj e)) es -> P (ceObj evt) -> Forall (fun e => P (ceObj e)) (merged es evt).
Proof.
  intros Hes He. unfold merged. destruct (last es) as [a|] eqn:El; [|by repeat constructor].
  destruct (_ && _); [by apply Forall_app; auto|]. apply Forall_app. split; [by apply Forall_take|].
  unfold coalesceEvents. destruct (ceType a), (ceType evt); simpl; by repeat constructor.
Qed.

Lemma enqueue_inv D q M key evt :
  QueueInv D q M -> fits (M !! key) evt -> ObjectKeyFromObject (ceObj evt) = key ->
  exists q', enqueue key evt q = Some q' /\
    QueueInv D q' (partial_alter (fun x => afterEvent x evt) key M).
Proof.
  intros HI Hfit Hkey. destruct (enqueue_spec D q M key evt HI) as (q' & E & Hc & Hk & Hother & Hne & Hor).
  exists q'. split; [done|]. destruct HI as [Ho Hne0 Hsh Hor0 Hkd Hf Ha].
  destruct (merged_ok (D !! key) (pendingOf q key) evt) as (M1 & M2 & M3); [done|done|by rewrite Ha|].
  assert (forall k, k <> key -> pendingOf q' k = pendingOf q k) as Hp
    by (intros k Hne'; unfold pendingOf; by rewrite Hother).
  split; [done| | |done| | |]; intros k.
  - destruct (decide (k = key)) as [->|]; [apply Hne|rewrite Hother by done; apply Hne0].
  - destruct (decide (k = key)) as [->|]; [by rewrite Hk|by rewrite Hp].
  - destruct (decide (k = key)) as [->|]; [|by rewrite Hp]. rewrite Hk.
    by apply (merged_keyed (fun o => ObjectKeyFromObject o = key)).
  - destruct (decide (k = key)) as [->|]; [by rewrite Hk|by rewrite Hp].
  - destruct (decide (k = key)) as [->|].
    + by rewrite lookup_partial_alter_eq, Hk, M3, Ha.
    + by rewrite lookup_partial_alter_ne, Hp.
Qed.

Lemma newEventQueue_inv D : QueueInv D newEventQueue D.
Proof. split; try done. intros k Hk. by destruct Hk. Qed.

(** ** Delivery *)

(** What handler [h] knows after a call, and whether the call makes sense to it. *)
Definition applyCall (h : nat) (D : gmap ObjectKey Object) (c : handlerCall) : gmap ObjectKey Object :=
  match c with
  | OnAdd h' obj _ | OnUpdate h' _ obj => if decide (h' = h) then <[ObjectKeyFromObject obj := obj]> D else D
  | OnDelete h' obj => if decide (h' = h) then delete (ObjectKeyFromObject obj) D else D
  end.

Definition callFits (h : nat) (D : gmap ObjectKey Object) (c : handlerCall) : Prop :=
  match c with
  | OnAdd h' obj _ => h' = h -> D !! ObjectKeyFromObject obj = None
  | OnUpdate h' old obj => h' = h -> is_Some (D !! ObjectKeyFromObject obj) /\ old = D !! ObjectKeyFromObject obj
  | OnDelete h' obj => h' = h -> is_Some (D !! ObjectKeyFromObject obj)
  end.

Fixpoint callsFit (h : nat) (D : gmap ObjectKey Object) (cs : list handlerCall) : Prop :=
  match cs with
  | [] => True
  | c :: cs' => callFits h D c /\ callsFit h (applyCall h D c) cs'
  end.

Lemma callsFit_app h D cs1 cs2 :
  callsFit h D (cs1 ++ cs2) <-> callsFit h D cs1 /\ callsFit h (foldl (applyCall h) D cs1) cs2.
Proof. revert D. induction cs1 as [|c cs1 IH]; intros D; simpl; [tauto|]. rewrite IH. tauto. Qed.

(** The event's call for handler [h] itself. *)
Definition ownCall (h : nat) (e : cacheEvent) : handlerCall :=
  match ceType e with
  | cacheEventAdd => OnAdd h (ceObj e) (ceInInitialList e)
  | cacheEventUpdate => OnUpdate h (ceOldObj e) (ceObj e)
  | cacheEventDelete => OnDelete h (ceObj e)
  end.

Lemma callsFor_map hs e : callsFor hs e = map (fun h => ownCall h e) hs.
Proof. unfold callsFor, ownCall. by destruct (ceType e). Qed.

Lemma applyCall_own h h' D e :
  applyCall h D (ownCall h' e) =
  if decide (h' = h) then partial_alter (fun x => afterEvent x e) (ObjectKeyFromObject (ceObj e)) D else D.
Proof.
  unfold ownCall, afterEvent. destruct (ceType e); simpl; case_decide; try done.
Qed.

Lemma callFits_own h h' D e :
  callFits h D (ownCall h' e) <-> (h' = h -> fits (D !! ObjectKeyFromObject (ceObj e)) e).
Proof. unfold ownCall, fits. by destruct (ceType e). Qed.

(** All handlers together: handler [h] gets the event once. *)
Lemma callsFor_handler h hs D e :
  NoDup hs ->
  foldl (applyCall h) D (callsFor hs e) =
    (if decide (h ∈ hs) then partial_alter (fun x => afterEvent x e) (ObjectKeyFromObject (ceObj e)) D else D) /\
  (fits (D !! ObjectKeyFromObject (ceObj e)) e -> callsFit h D (callsFor hs e)).
Proof.
  rewrite callsFor_map. revert D. induction hs as [|h' hs IH]; intros D Hnd; simpl; [done|].
  apply NoDup_cons in Hnd as [Hn Hnd]. rewrite applyCall_own, callFits_own.
  destruct (decide (h' = h)) as [->|Hne].
  - rewrite (decide_True (P := h ∈ h :: hs)) by set_solver.
    destruct (IH (partial_alter (fun x => afterEvent x e) (ObjectKeyFromObject (ceObj e)) D) Hnd) as [-> _].
    rewrite decide_False by done. split; [done|]. intros Hf. split; [done|].
    clear IH Hnd Hf. revert Hn. induction hs as [|h' hs IH]; intros Hn; simpl; [done|].
    rewrite callFits_own, applyCall_own, decide_False by set_solver. split; [set_solver|]. apply IH. set_solver.
  - destruct (IH D Hnd) as [-> Hf]. split; [repeat case_decide; try done; set_solver|]. intros Hfit. split; [done|auto].
Qed.

(** The events of a batch, as changes of what a handler knows. *)
Definition applyKeyed (D : gmap ObjectKey Object) (ke : ObjectKey * cacheEvent) : gmap ObjectKey Object :=
  partial_alter (fun x => afterEvent x ke.2) ke.1 D.

Fixpoint keyedFit (D : gmap ObjectKey Object) (kes : list (ObjectKey * cacheEvent)) : Prop :=
  match kes with
  | [] => True
  | ke :: kes' => fits (D !! ke.1) ke.2 /\ keyedFit (applyKeyed D ke) kes'
  end.

Lemma calls_handler h hs D kes :
  NoDup hs -> h ∈ hs -> Forall (fun ke => ObjectKeyFromObject (ceObj ke.2) = ke.1) kes -> keyedFit D kes ->
  foldl (applyCall h) D (concat (map (fun ke => callsFor hs ke.2) kes)) = foldl applyKeyed D kes /\
  callsFit h D (concat (map (fun ke => callsFor hs ke.2) kes)).
Proof.
  intros Hnd Hh Hk. revert D. induction Hk as [|[k e] kes Hk _ IH]; intros D; simpl; [done|].
  intros [Hf Hfs]. simpl in *. destruct (callsFor_handler h hs D e Hnd) as [E Hcf].
  rewrite decide_True, Hk in E by done.
  change (foldl (applyCall h) D (callsFor hs e) = applyKeyed D (k, e)) in E. rewrite foldl_app, callsFit_app, E.
  destruct (IH _ Hfs) as [E' Hc']. rewrite Hk in Hcf. rewrite E'. split; [done|]. split; [auto|done].
Qed.

Lemma keyedFit_app D kes1 kes2 :
  keyedFit D (kes1 ++ kes2) <-> keyedFit D kes1 /\ keyedFit (foldl applyKeyed D kes1) kes2.
Proof. revert D. induction kes1 as [|c kes1 IH]; intros D; simpl; [tauto|]. rewrite IH. tauto. Qed.

(** The events of one key. *)
Lemma applyKeyed_one k es D :
  (forall k', foldl applyKeyed D (map (pair k) es) !! k' =
     if decide (k' = k) then afterEvents (D !! k) es else D !! k') /\
  (fitsAll (D !! k) es -> keyedFit D (map (pair k) es)).
Proof.
  revert D. induction es as [|e es IH]; intros D; simpl.
  - split; [|done]. intros k'. by case_decide; subst.
  - destruct (IH (applyKeyed D (k, e))) as [E Hf].
    assert (applyKeyed D (k, e) !! k = afterEvent (D !! k) e) as Ek.
    { unfold applyKeyed. simpl. by rewrite lookup_partial_alter_eq. }
    split.
    + intros k'. rewrite E. case_decide as Ed.
      * unfold afterEvents. simpl. by rewrite Ek.
      * unfold applyKeyed. simpl. by rewrite lookup_partial_alter_ne.
    + rewrite Ek in Hf. intros [H1 H2]. auto.
Qed.

(** A whole batch: every key of the order not yet seen gets its events. *)
Lemma batchEvents_apply order events seen D :
  (forall k, k ∈ order -> k ∉ seen -> fitsAll (D !! k) (default [] (events !! k))) ->
  (forall k, foldl applyKeyed D (batchEvents order events seen) !! k =
     if decide (k ∈ order /\ k ∉ seen) then afterEvents (D !! k) (default [] (events !! k)) else D !! k) /\
  keyedFit D (batchEvents order events seen).
Proof.
  revert seen D. induction order as [|key order IH]; intros seen D Hf; cbn [batchEvents].
  - split; [|done]. intros k. rewrite decide_False; [done|]. set_solver.
  - case_bool_decide as Hs.
    + destruct (IH seen D) as [E Hk]; [set_solver|]. split; [|done]. intros k. rewrite E.
      repeat case_decide; try done; set_solver.
    + destruct (applyKeyed_one key (default [] (events !! key)) D) as [E1 F1].
      destruct (IH ({[key]} ∪ seen) (foldl applyKeyed D (map (pair key) (default [] (events !! key))))) as [E2 F2].
      { intros k Hk Hk'. rewrite E1, decide_False by set_solver. apply Hf; set_solver. }
      rewrite keyedFit_app. split.
      * intros k. rewrite foldl_app, E2, E1.
        destruct (decide (k = key)) as [->|Hne].
        -- rewrite decide_False by set_solver. rewrite decide_True by set_solver. done.
        -- destruct (decide (k ∈ order /\ k ∉ {[key]} ∪ seen)), (decide (k ∈ key :: order /\ k ∉ seen));
             try done; set_solver.
      * split; [|done]. apply F1, Hf; set_solver.
Qed.

Lemma batchEvents_keyed order events seen :
  (forall k, Forall (fun e => ObjectKeyFromObject (ceObj e) = k) (default [] (events !! k))) ->
  Forall (fun ke => ObjectKeyFromObject (ceObj ke.2) = ke.1) (batchEvents order events seen).
Proof.
  intros Hk. revert seen. induction order as [|key order IH]; intros seen; simpl; [done|].
  case_bool_decide; [done|]. apply Forall_app. split; [|done]. apply Forall_map. simpl.
  eapply Forall_impl; [apply Hk|done].
Qed.

(** Draining and processing takes every handler from what it knows to the
    informer's objects, by calls that make sense, and empties the queue. *)
Lemma process_spec D q M h hs :
  QueueInv D q M -> NoDup hs -> h ∈ hs ->
  foldl (applyCall h) D (processBatch hs (qOrder q) (qPending q)) = M /\
  callsFit h D (processBatch hs (qOrder q) (qPending q)).
Proof.
  intros [Ho Hne Hsh Hor Hkd Hf Ha] Hnd Hh. unfold processBatch.
  destruct (batchEvents_apply (qOrder q) (qPending q) ∅ D) as [E F]; [intros k _ _; apply Hf|].
  destruct (calls_handler h hs D (batchEvents (qOrder q) (qPending q) ∅) Hnd Hh) as [E' F']; [|done|].
  { by apply batchEvents_keyed. }
  split; [|done]. rewrite E'. apply map_eq. intros k. rewrite E, <- Ha. case_decide as Hd; [done|].
  unfold pendingOf. destruct (qPending q !! k) eqn:Ek; [|done].
  destruct Hd. split; [|set_solver]. apply Hor. by rewrite Ek.
Qed.
