(* ===== verification/Informer.v ===== *)
(** * The informer: cache.go, storeInformer

    Cached objects of one GVK, secondary indices, handlers and the event queue.
    The methods hold the informer's lock while they touch objects and indices,
    and enqueue afterwards; one goroutine calls [add], [update], [delete],
    [replaceAll] and the resync, so each is one step on the informer. A Go map
    is ranged over in an unspecified order; the model uses [map_to_list]. *)

From S2P Require Import Prelude GoStrconv GoJson GoJsonFacts Objects ObjectFacts.
From S2P Require Import EventQueue.

Module Inf.

(** What a transform returns: an object, or a value of another type. *)
Inductive anyValue : Type :=
| AnyObject (o : Object)
| AnyOther.

Record informerConfig : Type := mkInformerConfig {
  cfgTransform : option (Object -> result anyValue);
  cfgUnsafeDisableDeepCopy : bool;
  cfgLabelSelector : option labelsSelector;
  cfgFieldSelector : option fieldsSelector;
  cfgEnableWatchBookmarks : option bool;
  cfgNamespaces : option (gset string);
  cfgSyncPeriod : option Z;
}.

Record storeInformer : Type := mkInformer {
  iGVK : GVK;
  iObjects : gmap ObjectKey Object;
  iIndexers : gmap string (Object -> list string);
  iIndices : gmap string (gmap string (list ObjectKey));
  iHandlers : list nat;
  iNextID : nat;
  iSynced : bool;
  iStopped : bool;
  iWatcher : option nat;
  iQueue : eventQueue;
  iConfig : informerConfig;
}.

Definition setIObjects v i := mkInformer (iGVK i) v (iIndexers i) (iIndices i) (iHandlers i) (iNextID i) (iSynced i) (iStopped i) (iWatcher i) (iQueue i) (iConfig i).
Definition setIIndexers v i := mkInformer (iGVK i) (iObjects i) v (iIndices i) (iHandlers i) (iNextID i) (iSynced i) (iStopped i) (iWatcher i) (iQueue i) (iConfig i).
Definition setIIndices v i := mkInformer (iGVK i) (iObjects i) (iIndexers i) v (iHandlers i) (iNextID i) (iSynced i) (iStopped i) (iWatcher i) (iQueue i) (iConfig i).
Definition setIQueue v i := mkInformer (iGVK i) (iObjects i) (iIndexers i) (iIndices i) (iHandlers i) (iNextID i) (iSynced i) (iStopped i) (iWatcher i) v (iConfig i).
Definition setIHandlers v n i := mkInformer (iGVK i) (iObjects i) (iIndexers i) (iIndices i) v n (iSynced i) (iStopped i) (iWatcher i) (iQueue i) (iConfig i).

Definition newStoreInformer (gvk : GVK) (config : informerConfig) : storeInformer :=
  mkInformer gvk ∅ ∅ ∅ [] 0 false false None newEventQueue config.

(** Numeric comparison; unparsable versions are compared for difference. *)
Definition newerResourceVersion (incoming existing : string) : bool :=
  match ParseInt incoming, ParseInt existing with
  | (inRV, None), (exRV, None) => (exRV <? inRV)%Z
  | _, _ => negb (bool_decide (incoming = existing))
  end.

(** ** Selection *)

Definition applyTransform (c : informerConfig) (obj : Object) : result Object :=
  match cfgTransform c with
  | None => Ret obj
  | Some transform =>
      match transform obj with
      | Fail e => Fail e
      | Panic => Panic
      | Ret (AnyObject transformed) => Ret transformed
      | Ret AnyOther => Fail (OtherError "transform returned an unexpected type")
      end
  end.

Definition objectToFieldsSet (obj : Object) : gmap string string :=
  {[ "metadata.name" := GetName obj; "metadata.namespace" := GetNamespace obj ]}.

Definition AllNamespaces : string := "".

Definition matchesSelectors (c : informerConfig) (obj : Object) : bool :=
  (match cfgNamespaces c with
   | Some nss => bool_decide (GetNamespace obj ∈ nss) || bool_decide (AllNamespaces ∈ nss)
   | None => true
   end) &&
  (match cfgLabelSelector c with Some sel => lsMatches sel (GetLabels obj) | None => true end) &&
  (match cfgFieldSelector c with Some sel => fsMatches sel (objectToFieldsSet obj) | None => true end).

(** ** Reading *)

Definition get (key : ObjectKey) (obj : Object) (i : storeInformer) : Object * result unit :=
  match iObjects i !! key with
  | None => (obj, Fail (NotFoundError (keyString key)))
  | Some cached =>
      if cfgUnsafeDisableDeepCopy (iConfig i) then
        if bool_decide (tName (oType cached) = tName (oType obj)) then (cached, Ret tt)
        else (obj, Fail (OtherError "cache had another type than was asked for"))
      else match UnmarshalObject (MarshalObject cached) obj with
           | Some o => (o, Ret tt)
           | None => (obj, Fail (WrappedError "failed to unmarshal into target" (OtherError "json")))
           end
  end.

(** The loop over the requirements; [None] is the early [return nil], the
    inner option is [initialized]. *)
Fixpoint indexLoop (indices : gmap string (gmap string (list ObjectKey)))
    (reqs : list fieldRequirement) (resultKeys : option (gset ObjectKey)) : option (option (gset ObjectKey)) :=
  match reqs with
  | [] => Some resultKeys
  | req :: reqs' =>
      if bool_decide (rqOperator req <> OpEquals) then indexLoop indices reqs' resultKeys
      else match indices !! rqField req with
           | None => None
           | Some index =>
               match index !! rqValue req with
               | None => None
               | Some keys =>
                   let keySet := list_to_set keys in
                   indexLoop indices reqs'
                     (Some (match resultKeys with None => keySet | Some r => r ∩ keySet end))
               end
           end
  end.

Definition listFromIndex (sel : fieldsSelector) (i : storeInformer) : list Object :=
  match indexLoop (iIndices i) (fsRequirements sel) None with
  | None => []
  | Some None => (map_to_list (iObjects i)).*2
  | Some (Some keys) => omap (fun key => iObjects i !! key) (elements keys)
  end.

(** The items of [list], before [meta.SetList]. *)
Definition listItems (listOpts : ListOptions) (i : storeInformer) : list Object :=
  let items := match loFieldSelector listOpts with
               | Some sel => listFromIndex sel i
               | None => (map_to_list (iObjects i)).*2
               end in
  let items := match loLabelSelector listOpts with
               | Some sel => List.filter (fun obj => lsMatches sel (GetLabels obj)) items
               | None => items
               end in
  if bool_decide (loNamespace listOpts <> "")
  then List.filter (fun obj => bool_decide (GetNamespace obj = loNamespace listOpts)) items
  else items.

(** [SetList] is apimachinery's [meta.SetList]. *)
Definition list_ (SetList : ObjectList -> list Object -> ObjectList * result unit)
    (lst : ObjectList) (opts : list ListOption) (i : storeInformer) : ObjectList * result unit :=
  SetList lst (listItems (applyOptions opts) i).

(** ** Indices *)

(** [append(index[value], key)] for each value. *)
Definition addValues (key : ObjectKey) (values : list string) (index : gmap string (list ObjectKey))
    : gmap string (list ObjectKey) :=
  foldl (fun idx value => <[value := default [] (idx !! value) ++ [key]]> idx) index values.

(** Take a key out of every list; lists that become empty are deleted. *)
Definition removeFromIndices (key : ObjectKey) (indices : gmap string (gmap string (list ObjectKey)))
    : gmap string (gmap string (list ObjectKey)) :=
  (fun index : gmap string (list ObjectKey) => omap (M := gmap string) (fun keys =>
     let newKeys := List.filter (fun k => negb (bool_decide (k = key))) keys in
     if bool_decide (newKeys = []) then None else Some newKeys) index) <$> indices.

Definition rebuildIndicesForObject (key : ObjectKey) (obj : Object)
    (indexers : gmap string (Object -> list string)) (indices : gmap string (gmap string (list ObjectKey)))
    : gmap string (gmap string (list ObjectKey)) :=
  merge (fun extractValue index =>
     match extractValue with
     | Some extractValue => Some (addValues key (extractValue obj) (default ∅ index))
     | None => index
     end) indexers (removeFromIndices key indices).

Definition addIndexer (fld : string) (extractValue : Object -> list string) (i : storeInformer) : storeInformer :=
  let i := setIIndexers (<[fld := extractValue]> (iIndexers i)) i in
  let index := foldl (fun idx ko => addValues ko.1 (extractValue ko.2) idx) ∅ (map_to_list (iObjects i)) in
  setIIndices (<[fld := index]> (iIndices i)) i.

(** [AddIndexers]: an index function that fails gives no values. The names of a
    Go map are distinct, so the order in which they are added does not matter. *)
Definition extractOf (indexFunc : Object -> error + list string) (obj : Object) : list string :=
  match indexFunc obj with inl _ => [] | inr vals => vals end.

Definition AddIndexers (indexers : gmap string (Object -> error + list string)) (i : storeInformer) : storeInformer :=
  foldl (fun i nf => addIndexer nf.1 (extractOf nf.2) i) i (map_to_list indexers).

Definition HasSynced (i : storeInformer) : bool := iSynced i.
Definition IsStopped (i : storeInformer) : bool := iStopped i.

(** ** Writing

    [None] is a panic inside [enqueue] or in the transform. *)

Definition enqueueEvent (key : ObjectKey) (evt : cacheEvent) (i : storeInformer) : option storeInformer :=
  (fun q => setIQueue q i) <$> enqueue key evt (iQueue i).

Definition add (obj : Object) (i : storeInformer) : option storeInformer :=
  if negb (matchesSelectors (iConfig i) obj) then Some i
  else match applyTransform (iConfig i) obj with
       | Fail _ => Some i
       | Panic => None
       | Ret transformed =>
           let key := ObjectKeyFromObject transformed in
           let stale := match iObjects i !! key with
                        | Some existing => negb (newerResourceVersion (GetResourceVersion transformed) (GetResourceVersion existing))
                        | None => false
                        end in
           if stale then Some i
           else
             let i := setIObjects (<[key := transformed]> (iObjects i)) i in
             let i := setIIndices (rebuildIndicesForObject key transformed (iIndexers i) (iIndices i)) i in
             enqueueEvent key (mkCacheEvent cacheEventAdd transformed None false) i
       end.

Definition update (obj : Object) (i : storeInformer) : option storeInformer :=
  let key := ObjectKeyFromObject obj in
  if negb (matchesSelectors (iConfig i) obj) then
    match iObjects i !! key with
    | None => Some i
    | Some cached =>
        if negb (newerResourceVersion (GetResourceVersion obj) (GetResourceVersion cached)) then Some i
        else
          let i := setIObjects (delete key (iObjects i)) i in
          let i := setIIndices (removeFromIndices key (iIndices i)) i in
          enqueueEvent key (mkCacheEvent cacheEventDelete cached None false) i
    end
  else match applyTransform (iConfig i) obj with
       | Fail _ => Some i
       | Panic => None
       | Ret transformed =>
           let oldObj := iObjects i !! key in
           let stale := match oldObj with
                        | Some old => negb (newerResourceVersion (GetResourceVersion transformed) (GetResourceVersion old))
                        | None => false
                        end in
           if stale then Some i
           else
             let i := setIObjects (<[key := transformed]> (iObjects i)) i in
             let i := setIIndices (rebuildIndicesForObject key transformed (iIndexers i) (iIndices i)) i in
             match oldObj with
             | None => enqueueEvent key (mkCacheEvent cacheEventAdd transformed None false) i
             | Some old => enqueueEvent key (mkCacheEvent cacheEventUpdate transformed (Some old) false) i
             end
       end.

Definition delete_ (obj : Object) (i : storeInformer) : option storeInformer :=
  let key := ObjectKeyFromObject obj in
  match iObjects i !! key with
  | None => Some i
  | Some cached =>
      let i := setIObjects (delete key (iObjects i)) i in
      let i := setIIndices (removeFromIndices key (iIndices i)) i in
      enqueueEvent key (mkCacheEvent cacheEventDelete cached None false) i
  end.

(** The objects a list leaves in the cache; [None] is a panicking transform. *)
Fixpoint replaceObjects (c : informerConfig) (items : list runtimeObject) (m : gmap ObjectKey Object)
    : option (gmap ObjectKey Object) :=
  match items with
  | [] => Some m
  | RObject obj :: items' =>
      if negb (matchesSelectors c obj) then replaceObjects c items' m
      else match applyTransform c obj with
           | Fail _ => replaceObjects c items' m
           | Panic => None
           | Ret transformed => replaceObjects c items' (<[ObjectKeyFromObject transformed := transformed]> m)
           end
  | _ :: items' => replaceObjects c items' m
  end.

Fixpoint enqueueAll (evts : list (ObjectKey * cacheEvent)) (i : storeInformer) : option storeInformer :=
  match evts with
  | [] => Some i
  | (key, evt) :: evts' => match enqueueEvent key evt i with Some i' => enqueueAll evts' i' | None => None end
  end.

(** The delete events of [replaceAll], then its adds and updates. *)
Definition replaceDeletes (oldObjects newObjects : gmap ObjectKey Object) : list (ObjectKey * cacheEvent) :=
  omap (fun ko => match newObjects !! ko.1 with
                  | None => Some (ko.1, mkCacheEvent cacheEventDelete ko.2 None false)
                  | Some _ => None
                  end) (map_to_list oldObjects).

Definition replaceUpserts (oldObjects newObjects : gmap ObjectKey Object) : list (ObjectKey * cacheEvent) :=
  omap (fun ko => match oldObjects !! ko.1 with
                  | None => Some (ko.1, mkCacheEvent cacheEventAdd ko.2 None true)
                  | Some old =>
                      if bool_decide (GetResourceVersion old <> GetResourceVersion ko.2)
                      then Some (ko.1, mkCacheEvent cacheEventUpdate ko.2 (Some old) false)
                      else None
                  end) (map_to_list newObjects).

Definition replaceAll (items : list runtimeObject) (i : storeInformer) : option storeInformer :=
  let oldObjects := iObjects i in
  match replaceObjects (iConfig i) items ∅ with
  | None => None
  | Some newObjects =>
      let i := setIObjects newObjects i in
      let indices := (fun _ => ∅) <$> iIndices i in
      let indices := foldl (fun ix ko => rebuildIndicesForObject ko.1 ko.2 (iIndexers i) ix) indices
                       (map_to_list newObjects) in
      let i := setIIndices indices i in
      enqueueAll (replaceDeletes oldObjects newObjects ++ replaceUpserts oldObjects newObjects) i
  end.

(** [resyncInformer]: every cached object again, as an update from itself. *)
Definition resyncInformer (i : storeInformer) : option storeInformer :=
  enqueueAll (map (fun ko => (ko.1, mkCacheEvent cacheEventUpdate ko.2 (Some ko.2) false))
                (map_to_list (iObjects i))) i.

(** ** Lifecycle and handlers *)

Definition setSynced (synced : bool) (i : storeInformer) : storeInformer :=
  if synced && negb (iSynced i)
  then mkInformer (iGVK i) (iObjects i) (iIndexers i) (iIndices i) (iHandlers i) (iNextID i) true (iStopped i) (iWatcher i) (iQueue i) (iConfig i)
  else i.

Definition setWatcher (w : nat) (i : storeInformer) : storeInformer :=
  mkInformer (iGVK i) (iObjects i) (iIndexers i) (iIndices i) (iHandlers i) (iNextID i) (iSynced i) (iStopped i) (Some w) (iQueue i) (iConfig i).

(** [stop]: the informer afterwards and the watcher to stop, if any. *)
Definition stop (i : storeInformer) : storeInformer * option nat :=
  (mkInformer (iGVK i) (iObjects i) (iIndexers i) (iIndices i) (iHandlers i) (iNextID i) (iSynced i) true (iWatcher i)
     (closeQueue (iQueue i)) (iConfig i), iWatcher i).

(** Register a handler and replay the cached objects to it. *)
Definition AddEventHandler (i : storeInformer) : storeInformer * nat * list handlerCall :=
  let id := iNextID i in
  (setIHandlers (iHandlers i ++ [id]) (S id) i, id, map (fun obj => OnAdd id obj true) (map_to_list (iObjects i)).*2).

(** [append(handlers[:idx], handlers[idx+1:]...)] at the first match. *)
Fixpoint removeFirst (id : nat) (hs : list nat) : list nat :=
  match hs with
  | [] => []
  | h :: hs' => if bool_decide (h = id) then hs' else h :: removeFirst id hs'
  end.

Definition RemoveEventHandler (id : nat) (i : storeInformer) : storeInformer * result unit :=
  if bool_decide (id ∈ iHandlers i)
  then (setIHandlers (removeFirst id (iHandlers i)) (iNextID i) i, Ret tt)
  else (i, Fail (OtherError "handler not found")).

(** One round of the processor; [None] when it waits or ends. *)
Definition processEvents (i : storeInformer) : option (storeInformer * list handlerCall) :=
  match drain (iQueue i) with
  | (Drained order events, q) => Some (setIQueue q i, processBatch (iHandlers i) order events)
  | _ => None
  end.

(** The event switch of [watchInformer], with the tracking of the last
    resource version. *)
Definition handleEvent (ev : Event) (lastRV : Z) (i : storeInformer) : option (storeInformer * Z) :=
  let lastRV := match ParseInt (GetResourceVersion (evObject ev)) with
                | (rv, None) => if (lastRV <? rv)%Z then rv else lastRV
                | _ => lastRV
                end in
  (fun i => (i, lastRV)) <$>
    match evType ev with
    | EventAdded => add (evObject ev) i
    | EventModified => update (evObject ev) i
    | EventDeleted => delete_ (evObject ev) i
    | EventBookmark => Some i
    end.

End Inf.
