(* ===== verification/InformerFacts.v ===== *)
(** * Facts about the informer: indices and queued events *)

From S2P Require Import Prelude GoStrconv GoJson GoJsonFacts Objects ObjectFacts.
From S2P Require Import StoreSpec EventQueue Informer.

Import Inf.

(** ** Indices *)

(** [k] is filed under value [v]. *)
Definition filed (idx : gmap string (list ObjectKey)) (v : string) (k : ObjectKey) : Prop :=
  k ∈ default [] (idx !! v).

(** The indices are exactly those of the indexers, and each files exactly the
    cached objects under their values. *)
Record IndexInv (objs : gmap ObjectKey Object) (indexers : gmap string (Object -> list string))
    (indices : gmap string (gmap string (list ObjectKey))) : Prop := {
  ix_dom : forall fld, is_Some (indexers !! fld) <-> is_Some (indices !! fld);
  ix_filed : forall fld f idx, indexers !! fld = Some f -> indices !! fld = Some idx ->
    forall v k, filed idx v k <-> exists o, objs !! k = Some o /\ v ∈ f o;
}.

Lemma filed_addValues key vs idx v k :
  filed (addValues key vs idx) v k <-> filed idx v k \/ (k = key /\ v ∈ vs).
Proof.
  unfold addValues, filed. revert idx. induction vs as [|x vs IH]; intros idx; simpl.
  - split; [by left|]. intros [?|[_ H]]; [done|by apply not_elem_of_nil in H].
  - rewrite IH. destruct (decide (v = x)) as [->|Hne].
    + rewrite lookup_insert_eq. simpl. rewrite elem_of_app, list_elem_of_singleton. set_solver.
    + rewrite lookup_insert_ne by done. set_solver.
Qed.

Lemma elem_of_List_filter {A} (P : A -> bool) (l : list A) x : x ∈ List.filter P l <-> x ∈ l /\ P x = true.
Proof. by rewrite !list_elem_of_In, List.filter_In. Qed.

Lemma removeFromIndices_lookup key indices fld :
  match indices !! fld with
  | None => removeFromIndices key indices !! fld = None
  | Some idx => exists idx', removeFromIndices key indices !! fld = Some idx' /\
      forall v k, filed idx' v k <-> filed idx v k /\ k <> key
  end.
Proof.
  unfold removeFromIndices. rewrite lookup_fmap. destruct (indices !! fld) as [idx|]; [|done].
  simpl. eexists. split; [done|]. intros v k. unfold filed. rewrite lookup_omap.
  destruct (idx !! v) as [ks|]; simpl; [|set_solver].
  assert (k ∈ List.filter (fun k0 => negb (bool_decide (k0 = key))) ks <-> k ∈ ks /\ k <> key) as E.
  { rewrite elem_of_List_filter. destruct (decide (k = key));
      [rewrite bool_decide_true by done|rewrite bool_decide_false by done]; naive_solver. }
  case_bool_decide as En; [rewrite En in E|]; simpl; exact E.
Qed.

Lemma rebuildIndices_lookup key obj indexers indices fld :
  rebuildIndicesForObject key obj indexers indices !! fld =
  match indexers !! fld with
  | Some f => Some (addValues key (f obj) (default ∅ (removeFromIndices key indices !! fld)))
  | None => removeFromIndices key indices !! fld
  end.
Proof. unfold rebuildIndicesForObject. rewrite lookup_merge. by destruct (indexers !! fld), (removeFromIndices key indices !! fld). Qed.

Lemma removeFromIndices_inv objs indexers indices key :
  IndexInv objs indexers indices -> IndexInv (delete key objs) indexers (removeFromIndices key indices).
Proof.
  intros [Hd Hf]. split.
  - intros fld. rewrite Hd. pose proof (removeFromIndices_lookup key indices fld) as H.
    destruct (indices !! fld); [destruct H as (? & -> & _); by split|by rewrite H].
  - intros fld f idx' Hi Hx. pose proof (removeFromIndices_lookup key indices fld) as H.
    destruct (indices !! fld) as [idx|] eqn:E; [|congruence]. destruct H as (idx2 & E2 & Hk).
    rewrite Hx in E2. simplify_eq. intros v k. rewrite Hk, (Hf fld f idx Hi E).
    setoid_rewrite lookup_delete_Some. naive_solver.
Qed.

Lemma rebuildIndices_inv objs indexers indices key obj :
  IndexInv objs indexers indices ->
  IndexInv (<[key := obj]> objs) indexers (rebuildIndicesForObject key obj indexers indices).
Proof.
  intros [Hd Hf]. split.
  - intros fld. rewrite rebuildIndices_lookup. pose proof (removeFromIndices_lookup key indices fld) as H.
    specialize (Hd fld). destruct (indexers !! fld), (indices !! fld);
      try destruct H as (? & -> & _); try rewrite H; naive_solver eauto.
  - intros fld f idx' Hi. rewrite rebuildIndices_lookup, Hi. intros [= <-].
    destruct (proj1 (Hd fld) (ltac:(by rewrite Hi))) as [idx E].
    pose proof (removeFromIndices_lookup key indices fld) as H. rewrite E in H. destruct H as (idx2 & -> & Hk).
    intros v k. simpl. rewrite filed_addValues, Hk, (Hf fld f idx Hi E).
    destruct (decide (k = key)) as [->|Hne].
    + rewrite lookup_insert_eq. naive_solver.
    + rewrite lookup_insert_ne by done. naive_solver.
Qed.

Lemma foldl_insert (l : list (ObjectKey * Object)) :
  NoDup l.*1 -> foldl (fun m ko => <[ko.1 := ko.2]> m) ∅ l = list_to_map (M := gmap ObjectKey Object) l.
Proof.
  intros Hnd. assert (forall m : gmap ObjectKey Object, foldl (fun m ko => <[ko.1 := ko.2]> m) m l = list_to_map l ∪ m) as H.
  { induction l as [|[k o] l IH]; intros m; simpl; [by rewrite (left_id_L ∅ (∪))|].
    apply NoDup_cons in Hnd as [Hn Hnd]. rewrite IH by done. apply map_eq. intros k'.
    destruct (decide (k' = k)) as [->|Hne].
    - rewrite lookup_union_r; [|by apply not_elem_of_list_to_map]. rewrite lookup_insert_eq.
      symmetry. apply lookup_union_Some_l. by rewrite lookup_insert_eq.
    - rewrite !lookup_union, !lookup_insert_ne by done. done. }
  rewrite H. by rewrite (right_id_L ∅ (∪)).
Qed.

Lemma rebuildAll_inv indexers indices objs (l : list (ObjectKey * Object)) :
  IndexInv objs indexers indices ->
  IndexInv (foldl (fun m ko => <[ko.1 := ko.2]> m) objs l) indexers
    (foldl (fun ix ko => rebuildIndicesForObject ko.1 ko.2 indexers ix) indices l).
Proof.
  revert objs indices. induction l as [|[k o] l IH]; intros objs indices H; simpl; [done|].
  apply IH. by apply rebuildIndices_inv.
Qed.

Lemma replaceIndices_inv objs indexers indices newObjs :
  IndexInv objs indexers indices ->
  IndexInv newObjs indexers
    (foldl (fun ix ko => rebuildIndicesForObject ko.1 ko.2 indexers ix)
       ((fun _ => ∅) <$> indices) (map_to_list newObjs)).
Proof.
  intros [Hd Hf]. rewrite <- (list_to_map_to_list newObjs) at 1.
  rewrite <- foldl_insert by apply NoDup_fst_map_to_list. apply rebuildAll_inv. split.
  - intros fld. rewrite Hd, lookup_fmap. by destruct (indices !! fld).
  - intros fld f idx Hi. rewrite lookup_fmap. destruct (indices !! fld); [|done]. intros [= <-] v k.
    unfold filed. rewrite lookup_empty. simpl. split; [by intros ?%not_elem_of_nil|].
    intros (o & Ho & _). by rewrite lookup_empty in Ho.
Qed.

Lemma filed_addAll (f : Object -> list string) l idx v k :
  filed (foldl (fun idx ko => addValues ko.1 (f ko.2) idx) idx l) v k <->
  filed idx v k \/ exists o, (k, o) ∈ l /\ v ∈ f o.
Proof.
  revert idx. induction l as [|[k' o'] l IH]; intros idx; simpl.
  - split; [by left|]. intros [?|(o & H & _)]; [done|by apply not_elem_of_nil in H].
  - rewrite IH, filed_addValues. setoid_rewrite elem_of_cons. naive_solver.
Qed.

Lemma addIndexer_inv fld f i :
  IndexInv (iObjects i) (iIndexers i) (iIndices i) ->
  IndexInv (iObjects (addIndexer fld f i)) (iIndexers (addIndexer fld f i)) (iIndices (addIndexer fld f i)).
Proof.
  intros [Hd Hf]. split; simpl.
  - intros fld'. destruct (decide (fld' = fld)) as [->|]; [by rewrite !lookup_insert_eq|].
    by rewrite !lookup_insert_ne.
  - intros fld' f' idx'. destruct (decide (fld' = fld)) as [->|].
    + rewrite !lookup_insert_eq. intros [= <-] [= <-] v k. rewrite filed_addAll.
      setoid_rewrite elem_of_map_to_list. unfold filed. rewrite lookup_empty. simpl.
      split; [intros [?%not_elem_of_nil|?]; done|by right].
    + rewrite !lookup_insert_ne by done. apply Hf.
Qed.

(** What every [addIndexer] keeps. *)
Lemma AddIndexers_keeps (P : storeInformer -> Prop) indexers i :
  (forall fld f i, P i -> P (addIndexer fld f i)) -> P i -> P (AddIndexers indexers i).
Proof.
  intros Hadd. unfold AddIndexers. generalize (map_to_list indexers) as l. intros l. revert i.
  induction l as [|[fld f] l IH]; simpl; auto.
Qed.

(** Looking a value up in an index finds the keys of the objects with it. *)
Lemma index_lookup objs indexers indices fld v :
  IndexInv objs indexers indices -> forall k,
  (exists f o, indexers !! fld = Some f /\ objs !! k = Some o /\ v ∈ f o) <->
  exists idx keys, indices !! fld = Some idx /\ idx !! v = Some keys /\ k ∈ keys.
Proof.
  intros [Hd Hf] k. split.
  - intros (f & o & Hi & Ho & Hv). destruct (proj1 (Hd fld) (ltac:(by rewrite Hi))) as [idx E].
    assert (filed idx v k) as Hk by (apply (Hf _ _ _ Hi E); eauto).
    unfold filed in Hk. exists idx. destruct (idx !! v) as [ks|]; [eauto|by apply not_elem_of_nil in Hk].
  - intros (idx & ks & E & Ek & Hk). destruct (proj2 (Hd fld) (ltac:(by rewrite E))) as [f Hi].
    assert (filed idx v k) as Hk2 by (unfold filed; by rewrite Ek).
    apply (Hf _ _ _ Hi E) in Hk2 as (o & ? & ?). eauto.
Qed.

(** What the loop over the requirements computes. *)
Lemma indexLoop_spec objs indexers indices reqs acc :
  IndexInv objs indexers indices ->
  let ok k := forall r, r ∈ reqs -> rqOperator r = OpEquals ->
    exists f o, indexers !! rqField r = Some f /\ objs !! k = Some o /\ rqValue r ∈ f o in
  match indexLoop indices reqs acc with
  | None => forall k, ~ ok k
  | Some None => acc = None /\ forall r, r ∈ reqs -> rqOperator r <> OpEquals
  | Some (Some keys) =>
      (acc <> None \/ exists r, r ∈ reqs /\ rqOperator r = OpEquals) /\
      forall k, k ∈ keys <-> (forall a, acc = Some a -> k ∈ a) /\ ok k
  end.
Proof.
  intros Hix ok. subst ok. revert acc. induction reqs as [|r reqs IH]; intros acc; simpl.
  { destruct acc as [a|]; [split; [by left|]|split; [done|]; by intros ? ?%not_elem_of_nil].
    intros k. split; [|by intros [H _]; apply H]. intros Hk. split; [by intros ? [= <-]|].
    by intros ? ?%not_elem_of_nil. }
  case_bool_decide as Hop.
  { specialize (IH acc). destruct (indexLoop indices reqs acc) as [[keys|]|].
    - destruct IH as [H1 H2]. split; [destruct H1 as [?|(r' & ? & ?)]; [by left|right; exists r'; set_solver]|].
      intros k. rewrite H2. setoid_rewrite elem_of_cons. naive_solver.
    - destruct IH as [H1 H2]. split; [done|]. intros r' [->|?]%elem_of_cons; auto.
    - intros k Hk. apply (IH k). intros r' ? ?. apply Hk; set_solver. }
  pose proof (index_lookup objs indexers indices (rqField r) (rqValue r) Hix) as Hhead.
  destruct (indices !! rqField r) as [idx|] eqn:E1.
  2: { intros k Hk. destruct (proj1 (Hhead k) (Hk r (ltac:(set_solver)) Hop)) as (? & ? & ? & _). congruence. }
  destruct (idx !! rqValue r) as [ks|] eqn:E2.
  2: { intros k Hk. destruct (proj1 (Hhead k) (Hk r (ltac:(set_solver)) Hop)) as (? & ? & ? & ? & _). congruence. }
  set (acc' := match acc with None => list_to_set ks | Some a => a ∩ list_to_set ks end).
  specialize (IH (Some acc')).
  assert (Hacc : forall k, k ∈ acc' <-> (forall a, acc = Some a -> k ∈ a) /\ k ∈ ks).
  { intros k. unfold acc'. destruct acc; rewrite ?elem_of_intersection, elem_of_list_to_set; naive_solver. }
  assert (Hk : forall k, k ∈ ks <-> exists f o, indexers !! rqField r = Some f /\ objs !! k = Some o /\ rqValue r ∈ f o).
  { intros k. rewrite Hhead. split; [eauto 10|]. intros (? & ? & ? & ? & ?). congruence. }
  destruct (indexLoop indices reqs (Some acc')) as [[keys|]|].
  - destruct IH as [_ H2]. split; [right; exists r; set_solver|]. intros k. rewrite H2. setoid_rewrite elem_of_cons.
    specialize (Hacc k). specialize (Hk k). naive_solver.
  - by destruct IH.
  - intros k Hok. apply (IH k). intros r' ? ?. apply Hok; set_solver.
Qed.

(** An object is listed by a field selector exactly when every equality
    requirement names an indexed field with that value; other requirements are
    skipped. *)
Lemma listFromIndex_elem i sel o :
  IndexInv (iObjects i) (iIndexers i) (iIndices i) ->
  o ∈ listFromIndex sel i <->
  exists k, iObjects i !! k = Some o /\
    forall r, r ∈ fsRequirements sel -> rqOperator r = OpEquals ->
      exists f, iIndexers i !! rqField r = Some f /\ rqValue r ∈ f o.
Proof.
  intros Hix. pose proof (indexLoop_spec _ _ _ (fsRequirements sel) None Hix) as H. cbv zeta in H.
  unfold listFromIndex. destruct (indexLoop _ _ _) as [[keys|]|].
  - destruct H as [_ H]. rewrite list_elem_of_omap. split.
    + intros (k & Hk & Ho). apply elem_of_elements, H in Hk as [_ Hk]. exists k. split; [done|].
      intros r Hr Hop. destruct (Hk r Hr Hop) as (f & o' & ? & ? & ?). exists f. naive_solver.
    + intros (k & Ho & Hr). exists k. split; [|done]. apply elem_of_elements, H. split; [done|].
      intros r Hin Hop. destruct (Hr r Hin Hop) as (f & ? & ?). eauto.
  - destruct H as [_ H]. rewrite list_elem_of_fmap. split.
    + intros ([k o'] & -> & Hin%elem_of_map_to_list). exists k. split; [done|]. intros r Hr Hop. by destruct (H r Hr).
    + intros (k & Ho & _). exists (k, o). split; [done|]. by apply elem_of_map_to_list.
  - split; [by intros ?%not_elem_of_nil|]. intros (k & Ho & Hr). destruct (H k). intros r Hin Hop.
    destruct (Hr r Hin Hop) as (f & ? & ?). eauto.
Qed.

(** ** Queueing many events *)

Lemma enqueueAll_inv D i M evts :
  QueueInv D (iQueue i) M -> keyedFit M evts ->
  Forall (fun ke => ObjectKeyFromObject (ceObj ke.2) = ke.1) evts ->
  exists q, enqueueAll evts i = Some (setIQueue q i) /\ QueueInv D q (foldl applyKeyed M evts).
Proof.
  intros HI Hf Hk. revert i M HI Hf. induction Hk as [|[k e] evts Hk _ IH]; intros i M HI Hf; simpl.
  - exists (iQueue i). split; [by destruct i|done].
  - destruct Hf as [Hf Hfs]. unfold enqueueEvent.
    destruct (enqueue_inv D (iQueue i) M k e HI Hf Hk) as (q & -> & HI'). simpl.
    destruct (IH (setIQueue q i) _ HI' Hfs) as (q' & E & HI''). exists q'. by rewrite E.
Qed.

(** Events of distinct keys do not interfere. *)
Lemma keyed_distinct (evts : list (ObjectKey * cacheEvent)) M :
  NoDup evts.*1 -> Forall (fun ke => fits (M !! ke.1) ke.2) evts ->
  keyedFit M evts /\
  (forall k e, (k, e) ∈ evts -> foldl applyKeyed M evts !! k = afterEvent (M !! k) e) /\
  (forall k, k ∉ evts.*1 -> foldl applyKeyed M evts !! k = M !! k).
Proof.
  revert M. induction evts as [|[k e] evts IH]; intros M Hnd Hf; simpl; [set_solver|].
  apply NoDup_cons in Hnd as [Hn Hnd]. apply Forall_cons in Hf as [Hf Hfs]. simpl in *.
  assert (Hne : forall k', k' <> k -> applyKeyed M (k, e) !! k' = M !! k')
    by (intros; unfold applyKeyed; simpl; by rewrite lookup_partial_alter_ne).
  destruct (IH (applyKeyed M (k, e)) Hnd) as (H1 & H2 & H3).
  { rewrite Forall_forall in Hfs |- *. intros [k' e'] Hin. simpl. rewrite Hne; [by apply Hfs in Hin|].
    intros ->. apply Hn, list_elem_of_fmap. by exists (k, e'). }
  split_and!; [done|done|..].
  - intros k' e' [[= -> ->]|Hin]%elem_of_cons.
    + rewrite H3 by done. unfold applyKeyed. simpl. by rewrite lookup_partial_alter_eq.
    + rewrite (H2 _ _ Hin), Hne; [done|]. intros ->. apply Hn, list_elem_of_fmap. by exists (k, e').
  - intros k' Hk'. rewrite H3, Hne; [done| |]; set_solver.
Qed.

(** ** The informer's invariant *)

(** [D] is what the handlers have been told so far. *)
Record InformerInv (D : gmap ObjectKey Object) (i : storeInformer) : Prop := {
  ii_queue : QueueInv D (iQueue i) (iObjects i);
  ii_index : IndexInv (iObjects i) (iIndexers i) (iIndices i);
  ii_keyed : forall k o, iObjects i !! k = Some o -> ObjectKeyFromObject o = k;
}.

(** What of the informer the write operations leave alone. *)
Definition sameSetup (i i' : storeInformer) : Prop :=
  iGVK i' = iGVK i /\ iIndexers i' = iIndexers i /\ iHandlers i' = iHandlers i /\ iConfig i' = iConfig i /\
  iSynced i' = iSynced i /\ iStopped i' = iStopped i.

Lemma InformerInv_new g c : InformerInv ∅ (newStoreInformer g c).
Proof.
  split; [apply newEventQueue_inv| |by intros k o Hk; simpl in Hk; rewrite lookup_empty in Hk].
  split; [intros fld; split; by intros [? ?]|]. intros fld f idx Hf. simpl in Hf. by rewrite lookup_empty in Hf.
Qed.

(** Storing an object in the cache, with its event. *)
Lemma store_object D i key o e :
  InformerInv D i -> ObjectKeyFromObject o = key -> ceObj e = o ->
  ceType e <> cacheEventDelete -> fits (iObjects i !! key) e ->
  exists i', enqueueEvent key e
      (setIIndices (rebuildIndicesForObject key o (iIndexers i) (iIndices i)) (setIObjects (<[key := o]> (iObjects i)) i)) = Some i' /\
    InformerInv D i' /\ sameSetup i i' /\ iObjects i' = <[key := o]> (iObjects i).
Proof.
  intros [Hq Hx Hk] Hko Heo Ht Hf. unfold enqueueEvent. simpl.
  destruct (enqueue_inv D (iQueue i) (iObjects i) key e Hq Hf) as (q & -> & Hq'); [by rewrite Heo|].
  eexists. split; [done|]. split; [|by repeat split].
  assert (partial_alter (fun x => afterEvent x e) key (iObjects i) = <[key := o]> (iObjects i)) as E.
  { apply map_eq. intros k. destruct (decide (k = key)) as [->|].
    - rewrite lookup_partial_alter_eq, lookup_insert_eq. unfold afterEvent. destruct (ceType e); by rewrite ?Heo.
    - by rewrite lookup_partial_alter_ne, lookup_insert_ne. }
  split; simpl; [by rewrite <- E|by apply rebuildIndices_inv|].
  intros k o' [[<- <-]|[_ ?]]%lookup_insert_Some; auto.
Qed.

(** Dropping a cached object, with its event. *)
Lemma drop_object D i key o :
  InformerInv D i -> iObjects i !! key = Some o ->
  exists i', enqueueEvent key (mkCacheEvent cacheEventDelete o None false)
      (setIIndices (removeFromIndices key (iIndices i)) (setIObjects (delete key (iObjects i)) i)) = Some i' /\
    InformerInv D i' /\ sameSetup i i' /\ iObjects i' = delete key (iObjects i).
Proof.
  intros [Hq Hx Hk] Ho. unfold enqueueEvent. simpl.
  destruct (enqueue_inv D (iQueue i) (iObjects i) key (mkCacheEvent cacheEventDelete o None false) Hq)
    as (q & -> & Hq'); [rewrite Ho; by eexists|by apply Hk|].
  eexists. split; [done|]. split; [|by repeat split].
  split; simpl; [exact Hq'|by apply removeFromIndices_inv|].
  intros k o' [_ ?]%lookup_delete_Some; auto.
Qed.

(** ** The write operations *)

(** What the cache keeps of a store object. *)
Definition project (c : informerConfig) (o : Object) : option Object :=
  if matchesSelectors c o
  then match applyTransform c o with Ret o' => Some o' | _ => None end
  else None.

(** The transform never fails on selected objects and keeps an object's name,
    namespace and resource version. *)
Definition goodTransform (c : informerConfig) : Prop :=
  forall o, matchesSelectors c o = true ->
    exists o', applyTransform c o = Ret o' /\ ObjectKeyFromObject o' = ObjectKeyFromObject o /\
               GetResourceVersion o' = GetResourceVersion o.

Lemma project_good c o o' :
  goodTransform c -> project c o = Some o' ->
  ObjectKeyFromObject o' = ObjectKeyFromObject o /\ GetResourceVersion o' = GetResourceVersion o.
Proof.
  intros Hg. unfold project. destruct (matchesSelectors c o) eqn:E; [|done].
  destruct (Hg o E) as (o2 & -> & ? & ?). by intros [= <-].
Qed.

Section writes.
Context (D : gmap ObjectKey Object) (i : storeInformer).
Hypothesis HI : InformerInv D i.
Hypothesis Hg : goodTransform (iConfig i).

Lemma unchanged m : m = iObjects i -> InformerInv D i /\ sameSetup i i /\ iObjects i = m.
Proof using HI. intros ->. split; [done|]. by repeat split. Qed.

Lemma add_spec obj :
  iObjects i !! ObjectKeyFromObject obj = None ->
  exists i', add obj i = Some i' /\ InformerInv D i' /\ sameSetup i i' /\
    iObjects i' = partial_alter (fun _ => project (iConfig i) obj) (ObjectKeyFromObject obj) (iObjects i).
Proof using HI Hg.
  intros Ho. unfold add, project. destruct (matchesSelectors (iConfig i) obj) eqn:Em; simpl.
  - destruct (Hg obj Em) as (o' & -> & Hk & Hrv). rewrite Hk, Ho.
    apply (store_object D i _ o' (mkCacheEvent cacheEventAdd o' None false)); done.
  - exists i. split; [done|]. apply unchanged. apply map_eq. intros k.
    destruct (decide (k = ObjectKeyFromObject obj)) as [->|];
      [by rewrite lookup_partial_alter_eq|by rewrite lookup_partial_alter_ne].
Qed.

Lemma update_spec obj :
  (forall old, iObjects i !! ObjectKeyFromObject obj = Some old ->
     newerResourceVersion (GetResourceVersion obj) (GetResourceVersion old) = true) ->
  exists i', update obj i = Some i' /\ InformerInv D i' /\ sameSetup i i' /\
    iObjects i' = partial_alter (fun _ => project (iConfig i) obj) (ObjectKeyFromObject obj) (iObjects i).
Proof using HI Hg.
  intros Hnew. unfold update, project. destruct (matchesSelectors (iConfig i) obj) eqn:Em; simpl.
  - destruct (Hg obj Em) as (o' & -> & Hk & Hrv). rewrite Hrv.
    destruct (iObjects i !! ObjectKeyFromObject obj) as [old|] eqn:Eo.
    + rewrite (Hnew old) by done. simpl.
      apply (store_object D i _ o' (mkCacheEvent cacheEventUpdate o' (Some old) false)); done.
    + apply (store_object D i _ o' (mkCacheEvent cacheEventAdd o' None false)); done.
  - destruct (iObjects i !! ObjectKeyFromObject obj) as [old|] eqn:Eo.
    + rewrite (Hnew old) by done. simpl. by apply drop_object.
    + exists i. split; [done|]. apply unchanged. apply map_eq. intros k.
      destruct (decide (k = ObjectKeyFromObject obj)) as [->|];
        [by rewrite lookup_partial_alter_eq|by rewrite lookup_partial_alter_ne].
Qed.

Lemma delete_spec obj :
  exists i', delete_ obj i = Some i' /\ InformerInv D i' /\ sameSetup i i' /\
    iObjects i' = delete (ObjectKeyFromObject obj) (iObjects i).
Proof using HI.
  unfold delete_. destruct (iObjects i !! ObjectKeyFromObject obj) as [old|] eqn:Eo; simpl.
  - by apply drop_object.
  - exists i. split; [done|]. apply unchanged. by apply delete_id.
Qed.

(** The cache, as a function of the store's objects, follows an event. *)
Lemma event_follows m e lastRV :
  iObjects i = omap (project (iConfig i)) m -> eventFits m e ->
  (forall k o, m !! k = Some o -> ObjectKeyFromObject o = k /\
     newerResourceVersion (GetResourceVersion (evObject e)) (GetResourceVersion o) = true) ->
  exists i' rv, handleEvent e lastRV i = Some (i', rv) /\ InformerInv D i' /\ sameSetup i i' /\
    iObjects i' = omap (project (iConfig i)) (applyEvent m e).
Proof using HI Hg.
  intros Eo Hfit Hm. unfold handleEvent. set (key := ObjectKeyFromObject (evObject e)).
  assert (Hins : partial_alter (fun _ => project (iConfig i) (evObject e)) key (iObjects i) =
    omap (project (iConfig i)) (<[key := evObject e]> m)).
  { apply map_eq. intros k. rewrite lookup_omap. destruct (decide (k = key)) as [->|Hne].
    - by rewrite lookup_partial_alter_eq, lookup_insert_eq.
    - by rewrite lookup_partial_alter_ne, lookup_insert_ne, Eo, lookup_omap. }
  unfold applyEvent. fold key. unfold eventFits in Hfit. fold key in Hfit. destruct (evType e).
  - destruct (add_spec (evObject e)) as (i' & -> & H1 & H2 & H3); [by fold key; rewrite Eo, lookup_omap, Hfit|].
    eexists i', _. split; [done|]. by rewrite H3.
  - destruct (update_spec (evObject e)) as (i' & -> & H1 & H2 & H3).
    { intros old. fold key. rewrite Eo, lookup_omap, bind_Some. intros (o & Ho & Hp).
      destruct (project_good _ _ _ Hg Hp) as [_ ->]. by apply (Hm key). }
    eexists i', _. split; [done|]. by rewrite H3.
  - destruct (delete_spec (evObject e)) as (i' & -> & H1 & H2 & H3).
    eexists i', _. split; [done|]. rewrite H3. fold key. rewrite Eo. by rewrite omap_delete.
  - done.
Qed.

End writes.

(** ** Replacing everything, and resync *)

Lemma replaceObjects_spec c items m0 :
  goodTransform c -> NoDup (map ObjectKeyFromObject items) ->
  exists m, replaceObjects c (map RObject items) m0 = Some m /\
    (forall o, o ∈ items -> m !! ObjectKeyFromObject o =
       match project c o with Some o' => Some o' | None => m0 !! ObjectKeyFromObject o end) /\
    (forall k, k ∉ map ObjectKeyFromObject items -> m !! k = m0 !! k).
Proof.
  intros Hg. revert m0. induction items as [|o items IH]; intros m0 Hnd; simpl; [set_solver|].
  apply NoDup_cons in Hnd as [Hn Hnd]. unfold project.
  assert (exists m1, m1 !! ObjectKeyFromObject o = match project c o with Some o' => Some o' | None => m0 !! ObjectKeyFromObject o end /\
     (forall k, k <> ObjectKeyFromObject o -> m1 !! k = m0 !! k) /\
     (if negb (matchesSelectors c o) then replaceObjects c (map RObject items) m0
      else match applyTransform c o with
           | Ret t => replaceObjects c (map RObject items) (<[ObjectKeyFromObject t:=t]> m0)
           | Fail _ => replaceObjects c (map RObject items) m0
           | Panic => None
           end) = replaceObjects c (map RObject items) m1) as (m1 & E1 & E2 & ->).
  { unfold project. destruct (matchesSelectors c o) eqn:Em; simpl; [|by exists m0].
    destruct (Hg o Em) as (o' & -> & Hk & _). exists (<[ObjectKeyFromObject o := o']> m0).
    rewrite Hk, lookup_insert_eq. split_and!; try done. intros k Hne. by rewrite lookup_insert_ne. }
  destruct (IH m1 Hnd) as (m & -> & H1 & H2). exists m. split_and!; [done|..].
  - intros o2 [->|Hin]%elem_of_cons; [by rewrite H2, E1|]. rewrite (H1 _ Hin), E2; [done|].
    intros Ek. apply Hn. rewrite <- Ek. by apply list_elem_of_fmap_2.
  - intros k Hk. rewrite H2, E2; [done| |]; set_solver.
Qed.

Lemma replaceObjects_view c items V :
  goodTransform c -> (forall k o, V !! k = Some o -> ObjectKeyFromObject o = k) ->
  items ≡ₚ (map_to_list V).*2 ->
  replaceObjects c (map RObject items) ∅ = Some (omap (project c) V).
Proof.
  intros Hg Hk Hp.
  assert (map ObjectKeyFromObject items ≡ₚ (map_to_list V).*1) as Hkeys.
  { rewrite Hp. apply (reflexive_eq (R := (≡ₚ))). rewrite map_map. apply map_ext_in. intros [k o] Hin%list_elem_of_In.
    apply elem_of_map_to_list in Hin. by apply Hk. }
  destruct (replaceObjects_spec c items ∅ Hg) as (m & -> & H1 & H2).
  { rewrite Hkeys. apply NoDup_fst_map_to_list. }
  f_equal. apply map_eq. intros k. rewrite lookup_omap. destruct (V !! k) as [o|] eqn:E; simpl.
  - rewrite <- (Hk _ _ E), H1.
    + rewrite lookup_empty. by destruct (project c o).
    + rewrite Hp. apply list_elem_of_fmap. exists (k, o). split; [done|]. by apply elem_of_map_to_list.
  - rewrite H2; [by rewrite lookup_empty|]. rewrite Hkeys. intros ([k' o] & -> & Hin)%list_elem_of_fmap.
    apply elem_of_map_to_list in Hin. simpl in E. congruence.
Qed.

Lemma NoDup_omap_fst {A B K} (f : K * A -> option (K * B)) (l : list (K * A)) :
  (forall x y, f x = Some y -> y.1 = x.1) -> NoDup l.*1 -> NoDup (omap f l).*1.
Proof.
  intros Hf. induction l as [|x l IH]; simpl; [done|]. intros [Hn Hnd]%NoDup_cons.
  destruct (f x) as [y|] eqn:E; [|auto]. simpl. constructor; [|auto].
  rewrite (Hf _ _ E). intros (z & Ez & Hz)%list_elem_of_fmap. apply list_elem_of_omap in Hz as (x' & Hx' & E').
  apply Hn. rewrite Ez, (Hf _ _ E'). by apply list_elem_of_fmap_2.
Qed.

Section replace.
Context (M N : gmap ObjectKey Object).
Hypothesis HM : forall k o, M !! k = Some o -> ObjectKeyFromObject o = k.
Hypothesis HN : forall k o, N !! k = Some o -> ObjectKeyFromObject o = k.
Hypothesis Hrv : forall k o o', M !! k = Some o -> N !! k = Some o' ->
  GetResourceVersion o = GetResourceVersion o' -> o = o'.

Lemma replaceDeletes_elem k e :
  (k, e) ∈ replaceDeletes M N <->
  exists o, M !! k = Some o /\ N !! k = None /\ e = mkCacheEvent cacheEventDelete o None false.
Proof.
  unfold replaceDeletes. rewrite list_elem_of_omap. split.
  - intros ([k' o] & Hin%elem_of_map_to_list & E). simpl in E. destruct (N !! k') eqn:En; simplify_eq. eauto.
  - intros (o & Ho & En & ->). exists (k, o). split; [by apply elem_of_map_to_list|]. simpl. by rewrite En.
Qed.

Lemma replaceUpserts_elem k e :
  (k, e) ∈ replaceUpserts M N <->
  exists n, N !! k = Some n /\
    match M !! k with
    | None => e = mkCacheEvent cacheEventAdd n None true
    | Some o => GetResourceVersion o <> GetResourceVersion n /\ e = mkCacheEvent cacheEventUpdate n (Some o) false
    end.
Proof.
  unfold replaceUpserts. rewrite list_elem_of_omap. split.
  - intros ([k' n] & Hin%elem_of_map_to_list & E). simpl in E. exists n.
    destruct (M !! k') eqn:Em; [case_bool_decide; simplify_eq|simplify_eq]; by rewrite Em.
  - intros (n & Hn & E). exists (k, n). split; [by apply elem_of_map_to_list|]. simpl.
    destruct (M !! k); [destruct E as [? ->]; by rewrite bool_decide_true|by subst].
Qed.

Lemma replace_keys : NoDup (replaceDeletes M N ++ replaceUpserts M N).*1.
Proof.
  rewrite fmap_app. apply NoDup_app. split_and!.
  - apply NoDup_omap_fst, NoDup_fst_map_to_list. intros [k o] [k' e]. simpl. destruct (N !! k); intros; by simplify_eq/=.
  - intros k ([k1 e1] & -> & H1)%list_elem_of_fmap ([k2 e2] & E & H2)%list_elem_of_fmap. simpl in E. subst k2.
    apply replaceDeletes_elem in H1 as (o & _ & En & _). apply replaceUpserts_elem in H2 as (n & En' & _). congruence.
  - apply NoDup_omap_fst, NoDup_fst_map_to_list. intros [k n] [k' e]. simpl.
    destruct (M !! k); [case_bool_decide|]; intros; by simplify_eq/=.
Qed.

(** The events of [replaceAll] lead from the old objects to the new ones. *)
Lemma replace_events :
  let evts := replaceDeletes M N ++ replaceUpserts M N in
  keyedFit M evts /\ foldl applyKeyed M evts = N /\
  Forall (fun ke => ObjectKeyFromObject (ceObj ke.2) = ke.1) evts.
Proof using HM HN Hrv.
  intros evts.
  assert (Hev : forall k e, (k, e) ∈ evts <-> (k, e) ∈ replaceDeletes M N \/ (k, e) ∈ replaceUpserts M N)
    by (intros; apply elem_of_app).
  setoid_rewrite replaceDeletes_elem in Hev. setoid_rewrite replaceUpserts_elem in Hev.
  destruct (keyed_distinct evts M replace_keys) as (H1 & H2 & H3).
  { apply Forall_forall. intros [k e] [(o & Ho & _ & ->)|(n & Hn & E)]%Hev; simpl; unfold fits.
    - rewrite Ho. simpl. by eexists.
    - destruct (M !! k); [destruct E as [_ ->]; simpl; by split; [eexists|]|by subst]. }
  assert (Hnot : forall k, (forall e, (k, e) ∉ evts) -> foldl applyKeyed M evts !! k = M !! k).
  { intros k Hk. apply H3. intros ([k' e] & -> & Hin)%list_elem_of_fmap. by apply (Hk e). }
  split_and!; [done|..].
  - apply map_eq. intros k. destruct (N !! k) as [n|] eqn:En, (M !! k) as [o|] eqn:Em.
    + destruct (decide (GetResourceVersion o = GetResourceVersion n)) as [Er|Er].
      * rewrite Hnot, Em; [by rewrite (Hrv k o n)|]. intros e. rewrite Hev, Em, En. naive_solver.
      * rewrite (H2 k (mkCacheEvent cacheEventUpdate n (Some o) false)); [done|].
        apply Hev. right. exists n. by rewrite Em.
    + rewrite (H2 k (mkCacheEvent cacheEventAdd n None true)); [done|]. apply Hev. right. exists n. by rewrite Em.
    + rewrite (H2 k (mkCacheEvent cacheEventDelete o None false)); [done|]. apply Hev. left. eauto.
    + rewrite Hnot; [done|]. intros e. rewrite Hev, Em, En. naive_solver.
  - apply Forall_forall. intros [k e] [(o & Ho & _ & ->)|(n & Hn & E)]%Hev; simpl; [by apply HM|].
    destruct (M !! k); [destruct E as [_ ->]|subst e]; simpl; by apply HN.
Qed.
End replace.

Lemma replaceAll_spec D i items V :
  InformerInv D i -> goodTransform (iConfig i) ->
  (forall k o, V !! k = Some o -> ObjectKeyFromObject o = k) -> items ≡ₚ (map_to_list V).*2 ->
  (forall k o o', iObjects i !! k = Some o -> omap (project (iConfig i)) V !! k = Some o' ->
     GetResourceVersion o = GetResourceVersion o' -> o = o') ->
  exists i', replaceAll (map RObject items) i = Some i' /\ InformerInv D i' /\ sameSetup i i' /\
    iObjects i' = omap (project (iConfig i)) V.
Proof.
  intros [Hq Hx Hk] Hg HV Hp Hrv. unfold replaceAll. rewrite (replaceObjects_view _ _ V) by done.
  set (N := omap (project (iConfig i)) V) in *.
  assert (HN : forall k o, N !! k = Some o -> ObjectKeyFromObject o = k).
  { intros k o. unfold N. rewrite lookup_omap, bind_Some. intros (o' & Ho' & Hpr).
    destruct (project_good _ _ _ Hg Hpr) as [-> _]. by apply HV. }
  destruct (replace_events (iObjects i) N Hk HN Hrv) as (E1 & E2 & E3).
  destruct (enqueueAll_inv D
    (setIIndices (foldl (fun ix ko => rebuildIndicesForObject ko.1 ko.2 (iIndexers i) ix)
       ((fun _ => ∅) <$> iIndices i) (map_to_list N)) (setIObjects N i)) (iObjects i) _ Hq E1 E3) as (q & E & Hq').
  rewrite E2 in Hq'. exists (setIQueue q (setIIndices (foldl (fun ix ko => rebuildIndicesForObject ko.1 ko.2 (iIndexers i) ix)
       ((fun _ => ∅) <$> iIndices i) (map_to_list N)) (setIObjects N i))).
  split; [exact E|]. split; [|by repeat split].
  split; simpl; [done|by eapply replaceIndices_inv|done].
Qed.

(** The events of a resync tell the handlers what they know. *)
Lemma resync_events (M : gmap ObjectKey Object) :
  (forall k o, M !! k = Some o -> ObjectKeyFromObject o = k) ->
  let evts := map (fun ko => (ko.1, mkCacheEvent cacheEventUpdate ko.2 (Some ko.2) false)) (map_to_list M) in
  keyedFit M evts /\ foldl applyKeyed M evts = M /\ Forall (fun ke => ObjectKeyFromObject (ceObj ke.2) = ke.1) evts.
Proof.
  intros Hk evts.
  assert (Hin : forall k e, (k, e) ∈ evts -> exists o, M !! k = Some o /\ e = mkCacheEvent cacheEventUpdate o (Some o) false).
  { intros k e ([k' o] & E & Hin)%list_elem_of_fmap. simplify_eq. apply elem_of_map_to_list in Hin. eauto. }
  destruct (keyed_distinct evts M) as (H1 & H2 & H3).
  - unfold evts. change (NoDup (map fst (map (fun ko => (ko.1, mkCacheEvent cacheEventUpdate ko.2 (Some ko.2) false))
      (map_to_list M)))). rewrite map_map. apply NoDup_fst_map_to_list.
  - apply Forall_forall. intros [k e] (o & Ho & ->)%Hin. simpl. rewrite Ho. by split; [eexists|].
  - split_and!; [done| |].
    + apply map_eq. intros k. destruct (decide (k ∈ evts.*1)) as [Hi|Hi]; [|auto].
      apply list_elem_of_fmap in Hi as ([k' e] & -> & Hi). cbn [fst]. rewrite (H2 _ _ Hi).
      destruct (Hin _ _ Hi) as (o & Ho & ->). by rewrite Ho.
    + apply Forall_forall. intros [k e] (o & Ho & ->)%Hin. simpl. by apply Hk.
Qed.

Lemma resync_spec D i :
  InformerInv D i ->
  exists q, resyncInformer i = Some (setIQueue q i) /\ InformerInv D (setIQueue q i).
Proof.
  intros [Hq Hx Hk]. destruct (resync_events (iObjects i) Hk) as (H1 & H2 & H3).
  destruct (enqueueAll_inv D i (iObjects i) _ Hq H1 H3) as (q & E & Hq'). rewrite H2 in Hq'. exists q. split; [done|]. by split.
Qed.
