(* ===== verification/InformerTheorems.v ===== *)
(** * Theorems about the event queue and the informer *)

From S2P Require Import Prelude GoStrconv GoJson GoJsonFacts Objects ObjectFacts.
From S2P Require Import StoreSpec EventQueue Informer InformerFacts Fixtures.

Import Inf.

(** ** Sequences of operations *)

Fixpoint enqueueSeq (evts : list (ObjectKey * cacheEvent)) (q : eventQueue) : option eventQueue :=
  match evts with
  | [] => Some q
  | (key, evt) :: evts' => match enqueue key evt q with Some q' => enqueueSeq evts' q' | None => None end
  end.

Lemma enqueueSeq_inv D M evts q :
  QueueInv D q M -> keyedFit M evts ->
  Forall (fun ke => ObjectKeyFromObject (ceObj ke.2) = ke.1) evts ->
  exists q', enqueueSeq evts q = Some q' /\ QueueInv D q' (foldl applyKeyed M evts).
Proof.
  intros HI Hf Hk. revert q M HI Hf. induction Hk as [|[k e] evts Hk _ IH]; intros q M HI Hf; simpl; [eauto|].
  destruct Hf as [Hf Hfs]. destruct (enqueue_inv D q M k e HI Hf Hk) as (q1 & -> & HI'). by apply IH.
Qed.

(** The operations that change an informer's objects or indices. *)
Inductive informerStep : storeInformer -> storeInformer -> Prop :=
| istep_add i obj i' : add obj i = Some i' -> informerStep i i'
| istep_update i obj i' : update obj i = Some i' -> informerStep i i'
| istep_delete i obj i' : delete_ obj i = Some i' -> informerStep i i'
| istep_replaceAll i items i' : replaceAll items i = Some i' -> informerStep i i'
| istep_resync i i' : resyncInformer i = Some i' -> informerStep i i'
| istep_addIndexer i fld f : informerStep i (addIndexer fld f i)
| istep_setSynced i b : informerStep i (setSynced b i)
| istep_setWatcher i w : informerStep i (setWatcher w i)
| istep_stop i : informerStep i (stop i).1
| istep_AddEventHandler i : informerStep i (AddEventHandler i).1.1
| istep_RemoveEventHandler i id : informerStep i (RemoveEventHandler id i).1
| istep_processEvents i i' calls : processEvents i = Some (i', calls) -> informerStep i i'.

Inductive informerReach (g : GVK) (c : informerConfig) : storeInformer -> Prop :=
| ireach_new : informerReach g c (newStoreInformer g c)
| ireach_step i i' : informerReach g c i -> informerStep i i' -> informerReach g c i'.

Definition Indexed (i : storeInformer) : Prop := IndexInv (iObjects i) (iIndexers i) (iIndices i).

Lemma Indexed_setIQueue q i : Indexed i -> Indexed (setIQueue q i).
Proof. done. Qed.

Lemma enqueueEvent_Indexed key e i i' : enqueueEvent key e i = Some i' -> Indexed i -> Indexed i'.
Proof.
  unfold enqueueEvent. destruct (enqueue key e (iQueue i)); [|done]. intros [= <-]. apply Indexed_setIQueue.
Qed.

Lemma enqueueAll_Indexed evts i i' : enqueueAll evts i = Some i' -> Indexed i -> Indexed i'.
Proof.
  revert i. induction evts as [|[k e] evts IH]; intros i; simpl; [by intros [= <-]|].
  destruct (enqueueEvent k e i) as [i1|] eqn:E; [|done]. intros E1 Hi. eapply IH; [done|].
  by eapply enqueueEvent_Indexed.
Qed.

Ltac indexed :=
  match goal with
  | H : enqueueEvent _ _ _ = Some ?i |- Indexed ?i =>
      eapply enqueueEvent_Indexed; [exact H|];
      unfold Indexed; simpl; first [by apply rebuildIndices_inv|by apply removeFromIndices_inv]
  end.

Lemma informerStep_Indexed i i' : informerStep i i' -> Indexed i -> Indexed i'.
Proof.
  intros [i0 obj i1 E|i0 obj i1 E|i0 obj i1 E|i0 items i1 E|i0 i1 E|i0 fld f|i0 b|i0 w|i0|i0|i0 id|i0 i1 calls E] Hi;
    try exact Hi.
  - unfold add in E. cbv zeta in E. repeat case_match; simplify_eq; try done; indexed.
  - unfold update in E. cbv zeta in E. repeat case_match; simplify_eq; try done; indexed.
  - unfold delete_ in E. cbv zeta in E. repeat case_match; simplify_eq; try done; indexed.
  - unfold replaceAll in E. case_match; [|done]. eapply enqueueAll_Indexed; [exact E|].
    unfold Indexed. simpl. by eapply replaceIndices_inv.
  - by eapply enqueueAll_Indexed.
  - by apply addIndexer_inv.
  - unfold setSynced. by destruct (b && negb (iSynced i0)).
  - unfold RemoveEventHandler. by case_bool_decide.
  - unfold processEvents in E. destruct (drain (iQueue i0)) as [[| |order events] q]; [done|done|]. by simplify_eq.
Qed.

Lemma informerReach_Indexed g c i : informerReach g c i -> Indexed i.
Proof.
  induction 1; [|by eapply informerStep_Indexed].
  apply (ii_index ∅), InformerInv_new.
Qed.

(** Feeding watch events one after the other. *)
Fixpoint handleEvents (evs : list Event) (lastRV : Z) (i : storeInformer) : option (storeInformer * Z) :=
  match evs with
  | [] => Some (i, lastRV)
  | ev :: evs' => match handleEvent ev lastRV i with Some (i', rv) => handleEvents evs' rv i' | None => None end
  end.

Lemma handleEvents_app evs1 evs2 rv i :
  handleEvents (evs1 ++ evs2) rv i =
  match handleEvents evs1 rv i with Some (i', rv') => handleEvents evs2 rv' i' | None => None end.
Proof.
  revert rv i. induction evs1 as [|e evs1 IH]; intros rv i; simpl; [done|].
  destruct (handleEvent e rv i) as [[i' rv']|]; [apply IH|done].
Qed.

Lemma newerResourceVersion_lt a b :
  in_int64 a = true -> in_int64 b = true -> (b < a)%Z -> newerResourceVersion (FormatInt a) (FormatInt b) = true.
Proof.
  intros Ha Hb Hlt. unfold newerResourceVersion. rewrite !ParseInt_FormatInt by done. by apply Z.ltb_lt.
Qed.

Lemma handleEvent_lastRV ev rv i i' rv' r :
  handleEvent ev rv i = Some (i', rv') -> GetResourceVersion (evObject ev) = FormatInt r -> in_int64 r = true ->
  rv' = Z.max rv r.
Proof.
  unfold handleEvent. intros E Er Hr. rewrite Er, ParseInt_FormatInt in E by done.
  apply fmap_Some in E as (? & _ & [= -> ->]). destruct (Z.ltb_spec rv r); lia.
Qed.

Lemma revision_in_int64 (n : nat) (H : list change) :
  n <= length H -> (Z.of_nat (length H) <= max_int64)%Z -> in_int64 (Z.of_nat n) = true.
Proof. intros. apply in_int64_spec. unfold min_int64. lia. Qed.

(** One change of a history, seen by an informer of its GVK. *)
Lemma change_follows D i H c rv :
  InformerInv D i -> goodTransform (iConfig i) -> wfHistory (H ++ [c]) ->
  (Z.of_nat (length (H ++ [c])) <= max_int64)%Z -> cGVK c = iGVK i ->
  iObjects i = omap (project (iConfig i)) (view (iGVK i) H) ->
  exists i', handleEvent (cEvent c) rv i = Some (i', Z.max rv (cRevision c)) /\ InformerInv D i' /\ sameSetup i i' /\
    iObjects i' = omap (project (iConfig i)) (view (iGVK i) (H ++ [c])).
Proof.
  intros HI Hg Hwf Hb Hc Ho. assert ((H ++ [c]) !! length H = Some c) as Hl
    by (by rewrite lookup_app_r, Nat.sub_diag by lia).
  pose proof (wfh_revision _ Hwf _ _ Hl) as Hrev. pose proof (wfh_object _ Hwf _ _ Hl) as Hobj.
  pose proof (wfh_fits _ Hwf _ _ Hl) as Hfit. rewrite take_app_length, Hc in Hfit.
  assert (Hin : forall n, n <= S (length H) -> in_int64 (Z.of_nat n) = true).
  { intros n Hn. eapply revision_in_int64; [|exact Hb]. rewrite length_app. simpl. lia. }
  destruct (event_follows D i HI Hg (view (iGVK i) H) (cEvent c) rv Ho Hfit) as (i' & rv' & E & H1 & H2 & H3).
  - intros k o Hk. apply view_lookup in Hk as (Hk & j & c' & Hj & _ & _ & Hrv); [|by eapply wfHistory_app_l].
    split; [done|]. rewrite Hobj, Hrv, Hrev.
    rewrite (wfh_revision _ (wfHistory_app_l _ _ Hwf) _ _ Hj). apply lookup_lt_Some in Hj.
    apply newerResourceVersion_lt; [apply Hin; lia|apply Hin; lia|lia].
  - exists i'. rewrite (handleEvent_lastRV _ _ _ _ _ _ E Hobj) in E; [|rewrite Hrev; apply Hin; lia].
    split_and!; try done. rewrite H3, view_app, eventsOf_single, bool_decide_true by done. done.
Qed.

Lemma sameSetup_trans i1 i2 i3 : sameSetup i1 i2 -> sameSetup i2 i3 -> sameSetup i1 i3.
Proof. unfold sameSetup. intuition congruence. Qed.

Lemma history_follows D i H H2 rv :
  InformerInv D i -> goodTransform (iConfig i) -> wfHistory (H ++ H2) ->
  (Z.of_nat (length (H ++ H2)) <= max_int64)%Z ->
  iObjects i = omap (project (iConfig i)) (view (iGVK i) H) ->
  exists i' rv', handleEvents (eventsOf (iGVK i) H2) rv i = Some (i', rv') /\ InformerInv D i' /\ sameSetup i i' /\
    iObjects i' = omap (project (iConfig i)) (view (iGVK i) (H ++ H2)) /\ (rv <= rv')%Z /\
    (rv <= Z.of_nat (length H) -> rv' <= Z.of_nat (length (H ++ H2)))%Z.
Proof.
  intros HI Hg. revert i rv HI Hg. induction H2 as [|c H2 IH] using rev_ind; intros i rv HI Hg Hwf Hb Ho.
  { rewrite app_nil_r in *. exists i, rv. split_and!; [done|done|by repeat split|done|lia|lia]. }
  rewrite (assoc_L (++)) in *.
  destruct (IH i rv HI Hg) as (i1 & rv1 & E1 & HI1 & Hs1 & Ho1 & Hr1 & Hr2); [by eapply wfHistory_app_l| |done|].
  { rewrite length_app in Hb. lia. }
  pose proof Hs1 as (Eg & _ & _ & Ec & _). rewrite eventsOf_app, handleEvents_app, E1, eventsOf_single.
  case_bool_decide as Hc; simpl.
  - destruct (change_follows D i1 (H ++ H2) c rv1 HI1) as (i2 & E2 & HI2 & Hs2 & Ho2);
      [by rewrite Ec|done|done|by rewrite Eg|by rewrite Eg, Ec|].
    rewrite E2. rewrite Eg, Ec in Ho2. exists i2, (Z.max rv1 (cRevision c)).
    split_and!; [done|done|by eapply sameSetup_trans|done|lia|].
    intros Hle. specialize (Hr2 Hle). rewrite length_app. simpl.
    assert (((H ++ H2) ++ [c]) !! length (H ++ H2) = Some c) as Hl by (by rewrite lookup_app_r, Nat.sub_diag by lia).
    rewrite (wfh_revision _ Hwf _ _ Hl). lia.
  - exists i1, rv1. split_and!; try done.
    + by rewrite view_app, eventsOf_single, bool_decide_false.
    + intros Hle. specialize (Hr2 Hle). rewrite length_app. simpl. lia.
Qed.

(** ** The theorems *)

(** C9: coalescing loses nothing that matters. For any sequence of events that
    makes sense from what the handlers know (adds of unknown, updates and deletes of known objects), the
    queue accepts every event without indexing an empty slice, keeps at most two events per key, and
    delivering it gives every handler calls that make sense to it and leave it knowing exactly the
    objects after the whole sequence. *)
Theorem queue_delivers_final_state D evts :
  keyedFit D evts -> Forall (fun ke => ObjectKeyFromObject (ceObj ke.2) = ke.1) evts ->
  exists q, enqueueSeq evts newEventQueue = Some q /\
    (forall k, length (pendingOf q k) <= 2) /\
    (forall hs h, NoDup hs -> h ∈ hs ->
       let calls := processBatch hs (qOrder q) (qPending q) in
       callsFit h D calls /\ foldl (applyCall h) D calls = foldl applyKeyed D evts).
Proof.
  intros Hf Hk. destruct (enqueueSeq_inv D D evts newEventQueue (newEventQueue_inv D) Hf Hk) as (q & E & HI).
  exists q. split_and!; [done|..].
  - intros k. pose proof (qi_shape _ _ _ HI k) as Hs. by destruct (pendingOf q k) as [|? [|? [|]]]; simpl; try lia.
  - intros hs h Hnd Hh calls. by destruct (process_spec D q _ h hs HI Hnd Hh).
Qed.

(** [drain] hands out everything pending, once: it waits exactly while the queue
    is open and empty, ends the processor exactly when the queue is closed and empty, and otherwise
    leaves the queue empty, so that a second drain waits or ends. Closing a queue never discards what is
    pending. *)
Theorem queue_drain_empties q :
  ((drain q).1 = DrainWaits <-> qPending q = ∅ /\ qClosed q = false) /\
  ((drain q).1 = DrainEnd <-> qPending q = ∅ /\ qClosed q = true) /\
  (qPending q <> ∅ -> (drain q).1 = Drained (qOrder q) (qPending q) /\
     (drain (drain q).2).1 = if qClosed q then DrainEnd else DrainWaits) /\
  qPending (closeQueue q) = qPending q /\
  (forall key evt, enqueue key evt (closeQueue q) = Some (closeQueue q)).
Proof.
  unfold drain. case_bool_decide as E; simpl; split_and!; try done; try (destruct (qClosed q); naive_solver).
Qed.

(** C37: at every point of an informer's life, whatever objects, updates, deletions,
    relists and indexers it has seen, listing with a field selector returns exactly the cached objects
    for which every equality requirement names an indexed field and one of the values the field's indexer
    gives the object, and which pass the label and namespace filters; without a field selector, exactly those
    passing the filters. Requirements with another operator than equality are ignored. *)
Theorem informer_list_exact g c i opts o :
  informerReach g c i ->
  o ∈ listItems opts i <->
  (exists k, iObjects i !! k = Some o) /\
  (forall sel, loFieldSelector opts = Some sel -> forall r, r ∈ fsRequirements sel -> rqOperator r = OpEquals ->
     exists f, iIndexers i !! rqField r = Some f /\ rqValue r ∈ f o) /\
  (forall sel, loLabelSelector opts = Some sel -> lsMatches sel (GetLabels o) = true) /\
  (loNamespace opts = "" \/ GetNamespace o = loNamespace opts).
Proof.
  intros Hr. apply informerReach_Indexed in Hr. unfold listItems.
  set (items := match loFieldSelector opts with Some sel => listFromIndex sel i | None => (map_to_list (iObjects i)).*2 end).
  assert (o ∈ items <-> (exists k, iObjects i !! k = Some o) /\
    (forall sel, loFieldSelector opts = Some sel -> forall r, r ∈ fsRequirements sel -> rqOperator r = OpEquals ->
     exists f, iIndexers i !! rqField r = Some f /\ rqValue r ∈ f o)) as Hi.
  { unfold items. destruct (loFieldSelector opts) as [sel|].
    - rewrite (listFromIndex_elem i sel o Hr). naive_solver.
    - rewrite list_elem_of_fmap. split.
      + intros ([k o'] & -> & H%elem_of_map_to_list). split; [eauto|done].
      + intros [[k Ho] _]. exists (k, o). split; [done|]. by apply elem_of_map_to_list. }
  case_bool_decide as Hn; [rewrite elem_of_List_filter, bool_decide_eq_true|];
    (destruct (loLabelSelector opts) as [sel|]; [rewrite elem_of_List_filter|]); rewrite Hi; naive_solver.
Qed.

(** C8: an informer that agrees with a store's objects at some point of its history
    agrees with them after every later event of its GVK, fed in order: its cache is exactly the selected
    objects, transformed; nothing panics; the last resource version it would resume from never runs
    ahead of the history; and the events queued for the handlers lead from what they know to the new
    cache. The transform must not fail nor change names or resource versions. *)
Theorem informer_follows_store D i H H2 rv :
  InformerInv D i -> goodTransform (iConfig i) ->
  wfHistory (H ++ H2) -> (Z.of_nat (length (H ++ H2)) <= max_int64)%Z ->
  iObjects i = omap (project (iConfig i)) (view (iGVK i) H) -> (rv <= Z.of_nat (length H))%Z ->
  exists i' rv', handleEvents (eventsOf (iGVK i) H2) rv i = Some (i', rv') /\
    iObjects i' = omap (project (iConfig i)) (view (iGVK i) (H ++ H2)) /\
    (rv <= rv' <= Z.of_nat (length (H ++ H2)))%Z /\
    InformerInv D i'.
Proof.
  intros HI Hg Hwf Hb Ho Hrv.
  destruct (history_follows D i H H2 rv HI Hg Hwf Hb Ho) as (i' & rv' & E & HI' & _ & Ho' & H1 & H3).
  exists i', rv'. split_and!; try done. by apply H3.
Qed.

(** One round of the processor brings every registered handler from what it
    knew to the informer's current objects, with calls that make sense to it, and leaves the invariant
    with the handlers up to date. *)
Theorem informer_handlers_converge D i i' calls h :
  InformerInv D i -> NoDup (iHandlers i) -> h ∈ iHandlers i ->
  processEvents i = Some (i', calls) ->
  callsFit h D calls /\ foldl (applyCall h) D calls = iObjects i /\ InformerInv (iObjects i) i' /\
  iObjects i' = iObjects i.
Proof.
  intros [Hq Hx Hk] Hnd Hh. unfold processEvents, drain.
  destruct (process_spec D (iQueue i) (iObjects i) h (iHandlers i) Hq Hnd Hh) as [E Hc].
  case_bool_decide; [by destruct (qClosed (iQueue i))|]. intros [= <- <-]. split_and!; try done.
  split; simpl; [|done|done]. rewrite (qi_open _ _ _ Hq). apply newEventQueue_inv.
Qed.

(** A relist makes the cache equal to the selected and transformed objects of the
    listing, whatever was cached before, and queues exactly the deletes, adds and updates that lead the
    handlers there, provided an unchanged resource version means an unchanged object. *)
Theorem informer_replaceAll D i items V :
  InformerInv D i -> goodTransform (iConfig i) ->
  (forall k o, V !! k = Some o -> ObjectKeyFromObject o = k) -> items ≡ₚ (map_to_list V).*2 ->
  (forall k o o', iObjects i !! k = Some o -> omap (project (iConfig i)) V !! k = Some o' ->
     GetResourceVersion o = GetResourceVersion o' -> o = o') ->
  exists i', replaceAll (map RObject items) i = Some i' /\
    iObjects i' = omap (project (iConfig i)) V /\ InformerInv D i'.
Proof.
  intros HI Hg HV Hp Hrv. destruct (replaceAll_spec D i items V HI Hg HV Hp Hrv) as (i' & E & HI' & _ & Ho).
  eauto.
Qed.

(** An ADDED or MODIFIED event whose resource version is not newer than the
    cached object's leaves the informer untouched, so replayed events after a reconnect are harmless. *)
Theorem informer_stale_ignored i obj old :
  goodTransform (iConfig i) -> iObjects i !! ObjectKeyFromObject obj = Some old ->
  newerResourceVersion (GetResourceVersion obj) (GetResourceVersion old) = false ->
  add obj i = Some i /\ update obj i = Some i.
Proof.
  intros Hg Ho Hn. unfold add, update. destruct (matchesSelectors (iConfig i) obj) eqn:Em; simpl.
  - destruct (Hg obj Em) as (o' & -> & -> & ->). by rewrite Ho, Hn.
  - by rewrite Ho, Hn.
Qed.
