(* ===== verification/InformerSteps.v ===== *)
(** * The informer's writes, critical section by critical section: cache.go

    [add], [update], [delete], [replaceAll] and the resync change objects and
    indices under the informer's lock, release it, and then enqueue the events one
    by one; the processor may drain the queue in between. Each operation is split
    here into what it does under the lock and the events it still has to enqueue;
    enqueuing them at once gives back the operation of Informer. *)

From S2P Require Import Prelude GoStrconv GoJson GoJsonFacts Objects ObjectFacts.
From S2P Require Import StoreSpec EventQueue Informer InformerFacts InformerTheorems.

Module InfS.
Import Inf.

(** The events a goroutine has still to enqueue. *)
Abbreviation todo := (list (ObjectKey * cacheEvent)).

(** ** Under the lock

    [None] is a panicking transform. *)

Definition storeLocked (key : ObjectKey) (obj : Object) (i : storeInformer) : storeInformer :=
  let i := setIObjects (<[key := obj]> (iObjects i)) i in
  setIIndices (rebuildIndicesForObject key obj (iIndexers i) (iIndices i)) i.

Definition dropLocked (key : ObjectKey) (i : storeInformer) : storeInformer :=
  let i := setIObjects (delete key (iObjects i)) i in
  setIIndices (removeFromIndices key (iIndices i)) i.

Definition addLocked (obj : Object) (i : storeInformer) : option (storeInformer * todo) :=
  if negb (matchesSelectors (iConfig i) obj) then Some (i, [])
  else match applyTransform (iConfig i) obj with
       | Fail _ => Some (i, [])
       | Panic => None
       | Ret transformed =>
           let key := ObjectKeyFromObject transformed in
           let stale := match iObjects i !! key with
                        | Some existing => negb (newerResourceVersion (GetResourceVersion transformed) (GetResourceVersion existing))
                        | None => false
                        end in
           if stale then Some (i, [])
           else Some (storeLocked key transformed i, [(key, mkCacheEvent cacheEventAdd transformed None false)])
       end.

Definition updateLocked (obj : Object) (i : storeInformer) : option (storeInformer * todo) :=
  let key := ObjectKeyFromObject obj in
  if negb (matchesSelectors (iConfig i) obj) then
    match iObjects i !! key with
    | None => Some (i, [])
    | Some cached =>
        if negb (newerResourceVersion (GetResourceVersion obj) (GetResourceVersion cached)) then Some (i, [])
        else Some (dropLocked key i, [(key, mkCacheEvent cacheEventDelete cached None false)])
    end
  else match applyTransform (iConfig i) obj with
       | Fail _ => Some (i, [])
       | Panic => None
       | Ret transformed =>
           match iObjects i !! key with
           | None => Some (storeLocked key transformed i, [(key, mkCacheEvent cacheEventAdd transformed None false)])
           | Some old =>
               if negb (newerResourceVersion (GetResourceVersion transformed) (GetResourceVersion old)) then Some (i, [])
               else Some (storeLocked key transformed i, [(key, mkCacheEvent cacheEventUpdate transformed (Some old) false)])
           end
       end.

Definition deleteLocked (obj : Object) (i : storeInformer) : storeInformer * todo :=
  let key := ObjectKeyFromObject obj in
  match iObjects i !! key with
  | None => (i, [])
  | Some cached => (dropLocked key i, [(key, mkCacheEvent cacheEventDelete cached None false)])
  end.

Definition replaceLocked (items : list runtimeObject) (i : storeInformer) : option (storeInformer * todo) :=
  (fun newObjects =>
     let indices := foldl (fun ix ko => rebuildIndicesForObject ko.1 ko.2 (iIndexers i) ix) ((fun _ => ∅) <$> iIndices i)
                      (map_to_list newObjects) in
     (setIIndices indices (setIObjects newObjects i),
      replaceDeletes (iObjects i) newObjects ++ replaceUpserts (iObjects i) newObjects))
  <$> replaceObjects (iConfig i) items ∅.

Definition resyncEvents (i : storeInformer) : todo :=
  map (fun ko => (ko.1, mkCacheEvent cacheEventUpdate ko.2 (Some ko.2) false)) (map_to_list (iObjects i)).

(** The event switch of the watch loop, with the last resource version. *)
Definition handleLocked (ev : Event) (lastRV : Z) (i : storeInformer) : option (storeInformer * todo * Z) :=
  let lastRV := match ParseInt (GetResourceVersion (evObject ev)) with
                | (rv, None) => if (lastRV <? rv)%Z then rv else lastRV
                | _ => lastRV
                end in
  (fun ie => (ie, lastRV)) <$>
    match evType ev with
    | EventAdded => addLocked (evObject ev) i
    | EventModified => updateLocked (evObject ev) i
    | EventDeleted => Some (deleteLocked (evObject ev) i)
    | EventBookmark => Some (i, [])
    end.

End InfS.

Import Inf InfS.

(** ** The operations are their critical sections *)

Definition enqueueRest (ie : option (storeInformer * todo)) : option storeInformer := ie ≫= fun ie => enqueueAll ie.2 ie.1.

Lemma enqueueAll_one key e i : enqueueAll [(key, e)] i = enqueueEvent key e i.
Proof. simpl. by destruct (enqueueEvent key e i). Qed.

Lemma add_sections obj i : add obj i = enqueueRest (addLocked obj i).
Proof.
  unfold add, addLocked, enqueueRest. repeat case_match; simplify_eq; try done; cbn [mbind option_bind fst snd];
    by rewrite enqueueAll_one.
Qed.

Lemma update_sections obj i : update obj i = enqueueRest (updateLocked obj i).
Proof.
  unfold update, updateLocked, enqueueRest. cbv zeta. repeat case_match; simplify_eq; try done; cbn [mbind option_bind fst snd];
    by rewrite enqueueAll_one.
Qed.

Lemma delete_sections obj i : delete_ obj i = enqueueRest (Some (deleteLocked obj i)).
Proof.
  unfold delete_, deleteLocked, enqueueRest. repeat case_match; simplify_eq; try done; cbn [mbind option_bind fst snd];
    by rewrite enqueueAll_one.
Qed.

Lemma replaceAll_sections items i : replaceAll items i = enqueueRest (replaceLocked items i).
Proof. unfold replaceAll, replaceLocked, enqueueRest. by destruct (replaceObjects (iConfig i) items ∅). Qed.

Lemma resync_sections i : resyncInformer i = enqueueRest (Some (i, resyncEvents i)).
Proof. reflexivity. Qed.

(** ** What a critical section leaves to be enqueued *)

(** Objects and indices agree. *)
Record CacheInv (i : storeInformer) : Prop := {
  ci_index : IndexInv (iObjects i) (iIndexers i) (iIndices i);
  ci_keyed : forall k o, iObjects i !! k = Some o -> ObjectKeyFromObject o = k;
}.

(** The section makes the objects [M], and the events it leaves lead there. *)
Record lockedTo (i i' : storeInformer) (evts : todo) (M : gmap ObjectKey Object) : Prop := {
  lk_inv : CacheInv i';
  lk_setup : sameSetup i i';
  lk_queue : iQueue i' = iQueue i;
  lk_ids : iNextID i' = iNextID i;
  lk_objects : iObjects i' = M;
  lk_fits : keyedFit (iObjects i) evts;
  lk_leads : foldl applyKeyed (iObjects i) evts = M;
  lk_events : Forall (fun ke => ObjectKeyFromObject (ceObj ke.2) = ke.1) evts;
}.

Lemma CacheInv_new g c : CacheInv (newStoreInformer g c).
Proof. destruct (InformerInv_new g c). by split. Qed.

Lemma locked_unchanged i M : CacheInv i -> M = iObjects i -> lockedTo i i [] M.
Proof. intros Hi ->. by split. Qed.

Lemma storeLocked_to i key o e :
  CacheInv i -> ObjectKeyFromObject o = key -> ceObj e = o -> ceType e <> cacheEventDelete -> fits (iObjects i !! key) e ->
  lockedTo i (storeLocked key o i) [(key, e)] (<[key := o]> (iObjects i)).
Proof.
  intros [Hx Hk] Hko Heo Ht Hf. split; simpl; try done.
  - split; simpl; [by apply rebuildIndices_inv|]. intros k o' [[<- <-]|[_ ?]]%lookup_insert_Some; auto.
  - apply map_eq. intros k. unfold applyKeyed, afterEvent. simpl. destruct (decide (k = key)) as [->|].
    + rewrite lookup_partial_alter_eq, lookup_insert_eq. destruct (ceType e); by rewrite ?Heo.
    + by rewrite lookup_partial_alter_ne, lookup_insert_ne.
  - repeat constructor. simpl. by rewrite Heo.
Qed.

Lemma dropLocked_to i key o :
  CacheInv i -> iObjects i !! key = Some o ->
  lockedTo i (dropLocked key i) [(key, mkCacheEvent cacheEventDelete o None false)] (delete key (iObjects i)).
Proof.
  intros [Hx Hk] Ho. split; simpl; try done.
  - split; simpl; [by apply removeFromIndices_inv|]. intros k o' [_ ?]%lookup_delete_Some; auto.
  - split; [|done]. rewrite Ho. unfold fits. simpl. by eexists.
  - repeat constructor. by apply Hk.
Qed.

Section writes.
Context (i : storeInformer).
Hypothesis Hi : CacheInv i.
Hypothesis Hg : goodTransform (iConfig i).

#[local] Abbreviation projected obj := (partial_alter (fun _ => project (iConfig i) obj) (ObjectKeyFromObject obj) (iObjects i)).

Lemma projected_none obj :
  project (iConfig i) obj = None -> iObjects i !! ObjectKeyFromObject obj = None -> projected obj = iObjects i.
Proof using.
  intros Hp Ho. rewrite Hp. apply map_eq. intros k.
  destruct (decide (k = ObjectKeyFromObject obj)) as [->|];
    [by rewrite lookup_partial_alter_eq|by rewrite lookup_partial_alter_ne].
Qed.

Lemma addLocked_to obj :
  iObjects i !! ObjectKeyFromObject obj = None ->
  exists i' evts, addLocked obj i = Some (i', evts) /\ lockedTo i i' evts (projected obj).
Proof using Hi Hg.
  intros Ho. pose proof (projected_none obj) as Hn. revert Hn.
  unfold addLocked, project. destruct (matchesSelectors (iConfig i) obj) eqn:Em; simpl.
  - intros _. destruct (Hg obj Em) as (o' & -> & Hk & _). rewrite Hk, Ho. eexists _, _. split; [done|]. by apply storeLocked_to.
  - intros Hn. eexists _, _. split; [done|]. apply locked_unchanged; [done|]. by apply Hn.
Qed.

Lemma updateLocked_to obj :
  (forall old, iObjects i !! ObjectKeyFromObject obj = Some old ->
     newerResourceVersion (GetResourceVersion obj) (GetResourceVersion old) = true) ->
  exists i' evts, updateLocked obj i = Some (i', evts) /\ lockedTo i i' evts (projected obj).
Proof using Hi Hg.
  intros Hnew. pose proof (projected_none obj) as Hn. revert Hn.
  unfold updateLocked, project. destruct (matchesSelectors (iConfig i) obj) eqn:Em; simpl.
  - intros _. destruct (Hg obj Em) as (o' & -> & Hk & ->).
    destruct (iObjects i !! ObjectKeyFromObject obj) as [old|] eqn:Eo.
    + rewrite (Hnew old) by done. eexists _, _. split; [done|]. by apply storeLocked_to.
    + eexists _, _. split; [done|]. by apply storeLocked_to.
  - intros Hn. destruct (iObjects i !! ObjectKeyFromObject obj) as [old|] eqn:Eo.
    + rewrite (Hnew old) by done. eexists _, _. split; [done|]. by apply dropLocked_to.
    + eexists _, _. split; [done|]. apply locked_unchanged; [done|]. by apply Hn.
Qed.

Lemma deleteLocked_to obj :
  exists i' evts, deleteLocked obj i = (i', evts) /\ lockedTo i i' evts (delete (ObjectKeyFromObject obj) (iObjects i)).
Proof using Hi.
  unfold deleteLocked. destruct (iObjects i !! ObjectKeyFromObject obj) as [old|] eqn:Eo; eexists _, _; (split; [done|]).
  - by apply dropLocked_to.
  - apply locked_unchanged; [done|]. by apply delete_id.
Qed.

(** The cache, as a function of the store's objects, follows an event. *)
Lemma handleLocked_to m e lastRV :
  iObjects i = omap (project (iConfig i)) m -> eventFits m e ->
  (forall k o, m !! k = Some o -> ObjectKeyFromObject o = k /\
     newerResourceVersion (GetResourceVersion (evObject e)) (GetResourceVersion o) = true) ->
  exists i' evts rv, handleLocked e lastRV i = Some (i', evts, rv) /\
    lockedTo i i' evts (omap (project (iConfig i)) (applyEvent m e)).
Proof using Hi Hg.
  intros Eo Hfit Hm. unfold handleLocked. set (key := ObjectKeyFromObject (evObject e)).
  assert (Hins : projected (evObject e) = omap (project (iConfig i)) (<[key := evObject e]> m)).
  { apply map_eq. intros k. rewrite lookup_omap. fold key. destruct (decide (k = key)) as [->|Hne].
    - by rewrite lookup_partial_alter_eq, lookup_insert_eq.
    - by rewrite lookup_partial_alter_ne, lookup_insert_ne, Eo, lookup_omap. }
  unfold applyEvent. fold key. unfold eventFits in Hfit. fold key in Hfit. destruct (evType e); [| | |done].
  - destruct (addLocked_to (evObject e)) as (i' & evts & -> & Hl); [by fold key; rewrite Eo, lookup_omap, Hfit|].
    rewrite Hins in Hl. eexists i', evts, _. split; [done|exact Hl].
  - destruct (updateLocked_to (evObject e)) as (i' & evts & -> & Hl).
    { intros old. fold key. rewrite Eo, lookup_omap, bind_Some. intros (o & Ho & Hp).
      destruct (project_good _ _ _ Hg Hp) as [_ ->]. by apply (Hm key). }
    rewrite Hins in Hl. eexists i', evts, _. split; [done|exact Hl].
  - destruct (deleteLocked_to (evObject e)) as (i' & evts & -> & Hl).
    eexists i', evts, _. split; [done|]. fold key in Hl. rewrite Eo in Hl. by rewrite omap_delete.
Qed.
End writes.

Lemma replaceLocked_to i items V :
  CacheInv i -> goodTransform (iConfig i) ->
  (forall k o, V !! k = Some o -> ObjectKeyFromObject o = k) -> items ≡ₚ (map_to_list V).*2 ->
  (forall k o o', iObjects i !! k = Some o -> omap (project (iConfig i)) V !! k = Some o' ->
     GetResourceVersion o = GetResourceVersion o' -> o = o') ->
  exists i' evts, replaceLocked (map RObject items) i = Some (i', evts) /\
    lockedTo i i' evts (omap (project (iConfig i)) V).
Proof.
  intros [Hx Hk] Hg HV Hp Hrv. unfold replaceLocked. rewrite (replaceObjects_view _ _ V) by done.
  set (N := omap (project (iConfig i)) V) in *.
  assert (HN : forall k o, N !! k = Some o -> ObjectKeyFromObject o = k).
  { intros k o. unfold N. rewrite lookup_omap, bind_Some. intros (o' & Ho' & Hpr).
    destruct (project_good _ _ _ Hg Hpr) as [-> _]. by apply HV. }
  destruct (replace_events (iObjects i) N Hk HN Hrv) as (E1 & E2 & E3).
  eexists _, _. split; [done|]. split; try done. split; simpl; [by eapply replaceIndices_inv|done].
Qed.

Lemma resyncEvents_to i : CacheInv i -> lockedTo i i (resyncEvents i) (iObjects i).
Proof.
  intros Hi. destruct (resync_events (iObjects i) (ci_keyed _ Hi)) as (H1 & H2 & H3). by split.
Qed.
