(* ===== verification/Client.v ===== *)
(** * The controller-runtime client over a Store: client.go

    Reads and writes are delegated to the store; [Patch] is a read, a JSON patch
    by the json-patch library and a write; [DeleteAllOf] lists and deletes. No
    lock spans these calls: [env] is what other clients do to the store between
    them. *)

From S2P Require Import Prelude GoStrconv GoJson GoJsonFacts Objects ObjectFacts.
From S2P Require Import StoreSpec StoreInterface Backend.

Module Cli.

Inductive patchType : Type :=
| JSONPatchType
| MergePatchType
| StrategicMergePatchType
| OtherPatchType (t : string).

(** A [client.Patch]: its type and its [Data] method. *)
Record patch : Type := mkPatch { pType : patchType; pData : Object -> result string }.

Section client.
Context {S : Type} `{StoreOps S} (scheme : Scheme).
(** [apiutil.GVKForObject], by Go type name. *)
Context (GVKForObject : string -> result GVK).
(** [meta.ExtractList] *)
Context (ExtractList : ObjectList -> result (list runtimeObject)).
(** [jsonpatch.DecodePatch] and [Apply]; [jsonpatch.MergePatch]. *)
Context (jsonPatchApply : string -> json -> result json).
Context (mergePatch : json -> string -> result json).

(** ** client.Client *)

Definition Get (key : ObjectKey) (obj : Object) (s : S) : Object * result unit := sGet key obj s.
Definition List (lst : ObjectList) (opts : list ListOption) (s : S) : ObjectList * result unit := sList lst opts s.
Definition Create (obj : Object) (s : S) : S * Object * result unit := sCreate obj s.
Definition Delete (obj : Object) (s : S) : S * result unit := sDelete obj s.
Definition Update (obj : Object) (s : S) : S * Object * result unit := sUpdate obj s.

(** The patch applied to the encoding of the current object. *)
Definition applyPatch (t : patchType) (patchBytes : string) (currentBytes : json) : result json :=
  match t with
  | JSONPatchType => jsonPatchApply patchBytes currentBytes
  | MergePatchType | StrategicMergePatchType => mergePatch currentBytes patchBytes
  | OtherPatchType t => Fail (OtherError ("unsupported patch type: " +:+ t))
  end.

(** The common part of the three [Patch] methods: the patched document decoded
    into the caller's object. *)
Definition patched (p : patch) (obj : Object) (s : S) : Object * result unit :=
  match pData p obj with
  | Fail e => (obj, Fail e)
  | Panic => (obj, Panic)
  | Ret patchBytes =>
      let key := ObjectKeyFromObject obj in
      let (current, r) := sGet key obj s in
      match r with
      | Fail e => (obj, Fail e)
      | Panic => (obj, Panic)
      | Ret _ =>
          match applyPatch (pType p) patchBytes (MarshalObject current) with
          | Fail e => (obj, Fail e)
          | Panic => (obj, Panic)
          | Ret patchedBytes =>
              match UnmarshalObject patchedBytes obj with
              | None => (obj, Fail (OtherError "json: cannot unmarshal"))
              | Some obj => (obj, Ret tt)
              end
          end
      end
  end.

(** [env]: other clients between the read and the write. *)
Definition Patch (env : S -> S) (p : patch) (obj : Object) (s : S) : S * Object * result unit :=
  let (obj, r) := patched p obj s in
  match r with
  | Fail e => (s, obj, Fail e)
  | Panic => (s, obj, Panic)
  | Ret _ => sUpdate obj (env s)
  end.

(** The list options [DeleteAllOf] builds from its own. *)
Definition deleteListOpts (deleteOpts : ListOptions) : list ListOption :=
  (if bool_decide (loNamespace deleteOpts <> "") then [InNamespace (loNamespace deleteOpts)] else []) ++
  (match loLabelSelector deleteOpts with Some sel => [MatchingLabelsSelector sel] | None => [] end) ++
  (match loFieldSelector deleteOpts with Some sel => [MatchingFieldsSelector sel] | None => [] end).

(** [env n]: other clients before the [n]-th delete. *)
Fixpoint deleteItems (env : nat -> S -> S) (n : nat) (items : list runtimeObject) (s : S) : S * result unit :=
  match items with
  | [] => (s, Ret tt)
  | RObject itemObj :: items' =>
      let (s, r) := sDelete itemObj (env n s) in
      match r with Ret _ => deleteItems env (n + 1) items' s | _ => (s, r) end
  | _ :: _ => (s, Fail (OtherError "expected Object"))
  end.

Definition DeleteAllOf (env : nat -> S -> S) (obj : Object) (opts : list ListOption) (s : S) : S * result unit :=
  match GVKForObject (tName (oType obj)) with
  | Fail e => (s, Fail e)
  | Panic => (s, Panic)
  | Ret gvk =>
      match SchemeNew scheme (mkGVK (gGroup gvk) (gVersion gvk) (gKind gvk +:+ "List")) with
      | Fail e => (s, Fail e)
      | Panic => (s, Panic)
      | Ret (RList listObj) =>
          let deleteOpts := applyOptions opts in
          let (listObj, r) := sList listObj (deleteListOpts deleteOpts) s in
          match r with
          | Fail e => (s, Fail e)
          | Panic => (s, Panic)
          | Ret _ =>
              match ExtractList listObj with
              | Fail e => (s, Fail e)
              | Panic => (s, Panic)
              | Ret items => deleteItems env 0 items s
              end
          end
      | Ret _ => (s, Fail (OtherError "expected ObjectList"))
      end
  end.

Definition GroupVersionKindFor (obj : Object) : result GVK := GVKForObject (tName (oType obj)).
Definition IsObjectNamespaced (obj : Object) : result bool := Ret true.
Definition Apply (s : S) : S * result unit := (s, Fail (OtherError "apply not supported")).

(** ** Status() and SubResource(name) *)

(** A [storeSubResourceClient]. *)
Record subResourceClient : Type := mkSub { unsupported : bool }.

Definition SubResource (subResource : string) : subResourceClient :=
  if bool_decide (subResource = "status") then mkSub false else mkSub true.

Definition StatusCreate (s : S) : S * result unit := (s, Fail (OtherError "subresource creation not supported")).
Definition StatusUpdate (obj : Object) (s : S) : S * Object * result unit := sUpdateStatus obj s.

Definition StatusPatch (env : S -> S) (p : patch) (obj : Object) (s : S) : S * Object * result unit :=
  let (obj, r) := patched p obj s in
  match r with
  | Fail e => (s, obj, Fail e)
  | Panic => (s, obj, Panic)
  | Ret _ => sUpdateStatus obj (env s)
  end.

Definition SubGet (c : subResourceClient) : result unit :=
  if unsupported c then Fail (OtherError "subresource not supported")
  else Fail (OtherError "subresource Get not supported").

Definition SubUpdate (c : subResourceClient) (obj : Object) (s : S) : S * Object * result unit :=
  if unsupported c then (s, obj, Fail (OtherError "subresource not supported")) else sUpdateStatus obj s.

Definition SubPatch (env : S -> S) (c : subResourceClient) (p : patch) (obj : Object) (s : S) : S * Object * result unit :=
  if unsupported c then (s, obj, Fail (OtherError "subresource not supported"))
  else
    let (obj, r) := patched p obj s in
    match r with
    | Fail e => (s, obj, Fail e)
    | Panic => (s, obj, Panic)
    | Ret _ => sUpdateStatus obj (env s)
    end.

End client.
End Cli.
