(* ===== verification/ClientTheorems.v ===== *)
(** * Theorems about the client, for every Store that satisfies the laws *)

From S2P Require Import Prelude GoStrconv GoJson GoJsonFacts Objects ObjectFacts.
From S2P Require Import StoreSpec StoreInterface Backend Client.

Section client.
Context {S : Type} `{SO : StoreOps S} (scheme : Scheme) {SL : StoreLaws S scheme}.
Context (jsonPatchApply : string -> json -> result json).
Context (mergePatch : json -> string -> result json).

(** Deleting objects that are stored as they are listed succeeds one by one
    and removes exactly them, when no other client writes in between. *)
Lemma deleteItems_spec items n s H g :
  hist s H -> (Z.of_nat (length H) + Z.of_nat (length items) <= max_int64)%Z ->
  NoDup (map ObjectKeyFromObject items) ->
  (forall o, o ∈ items -> view g H !! ObjectKeyFromObject o = Some o) ->
  exists s' H', Cli.deleteItems (fun _ s => s) n (map RObject items) s = (s', Ret tt) /\ hist s' H' /\
    (forall g', g' <> g -> view g' H' = view g' H) /\
    (forall k, view g H' !! k = if decide (k ∈ map ObjectKeyFromObject items) then None else view g H !! k) /\
    length H' = length H + length items.
Proof.
  revert n s H. induction items as [|o items IH]; intros n s H Hh Hroom Hnd Hin; cbn [Cli.deleteItems map].
  { exists s, H. by split_and!. }
  apply NoDup_cons in Hnd as [Hn Hnd]. assert (view g H !! ObjectKeyFromObject o = Some o) as Ho by (apply Hin; set_solver).
  destruct (hist_stored _ _ _ _ _ Hh Ho) as (_ & Hg & Hv). simpl in Hroom.
  pose proof (law_Delete s H o g Hh ltac:(unfold hasRoom; lia) (valid_key _ Hv) Hg) as Hd. rewrite Ho in Hd.
  rewrite (bool_decide_false (GetResourceVersion o <> GetResourceVersion o)), andb_false_r in Hd by naive_solver.
  destruct Hd as (s1 & del & -> & Hk & Ha). unfold appends in Ha.
  set (H1 := H ++ [mkChange (Z.of_nat (length H) + 1) g (mkEvent EventDeleted del)]) in *.
  assert (Hv1 : view g H1 = delete (ObjectKeyFromObject o) (view g H)).
  { unfold H1. rewrite view_app, eventsOf_single, bool_decide_true by done. simpl. unfold applyEvent. simpl. by rewrite Hk. }
  assert (Hv2 : forall g', g' <> g -> view g' H1 = view g' H).
  { intros g' Hne. unfold H1. rewrite view_app, eventsOf_single, bool_decide_false; [done|]. simpl. congruence. }
  assert (Hl1 : length H1 = length H + 1) by (unfold H1; by rewrite length_app).
  destruct (IH (n + 1) s1 H1 Ha) as (s' & H' & -> & Hh' & HA & HB & HC); [lia|done|..].
  { intros o' Ho'. rewrite Hv1, lookup_delete_ne; [apply Hin; set_solver|].
    intros E. apply Hn. rewrite E. by apply list_elem_of_fmap_2. }
  exists s', H'. split_and!; [done|done| | |simpl; lia].
  - intros g' Hne. by rewrite HA, Hv2.
  - intros k. rewrite HB, Hv1. destruct (decide (k = ObjectKeyFromObject o)) as [->|Hne].
    + rewrite lookup_delete_eq. rewrite (decide_True (P := _ ∈ ObjectKeyFromObject o :: _)) by set_solver. by case_decide.
    + rewrite lookup_delete_ne by done. repeat case_decide; try done; set_solver.
Qed.

Lemma listed_deleteListOpts d k o : listed (applyOptions (Cli.deleteListOpts d)) k o = listed d k o.
Proof.
  destruct d as [ns ls fs]. unfold Cli.deleteListOpts, applyOptions. simpl.
  destruct (decide (ns = "")) as [->|E].
  - rewrite (bool_decide_false ("" <> "")) by naive_solver. by destruct ls, fs.
  - rewrite (bool_decide_true (ns <> "")) by done. by destruct ls, fs.
Qed.

(** An [Update] with the version read at history [H], on a store that other
    clients have since taken to [H ++ H2]: refused when they removed or changed
    the object [st] that was read, and otherwise written. *)
Lemma update_after_read s H H2 g st obj :
  hist s (H ++ H2) -> hasRoom (H ++ H2) -> okObject scheme obj -> validObject obj ->
  gvkForObject scheme obj = Ret g -> view g H !! ObjectKeyFromObject obj = Some st ->
  GetResourceVersion obj = GetResourceVersion st ->
  match view g (H ++ H2) !! ObjectKeyFromObject obj with
  | None => sUpdate obj s = (s, obj, Fail (NotFoundError (keyString (ObjectKeyFromObject obj))))
  | Some st2 =>
      if decide (GetResourceVersion st2 = GetResourceVersion st)
      then st2 = st /\ exists s' obj', sUpdate obj s = (s', obj', Ret tt) /\
        ((s' = s /\ unchanged obj st /\ copyObject st obj = (obj', Ret tt)) \/
         exists new, updates obj st new /\ copyObject new obj = (obj', Ret tt) /\
           appends hist (H ++ H2) g (mkEvent EventModified new) s')
      else sUpdate obj s = (s, obj, Fail (ConflictError (keyString (ObjectKeyFromObject obj))))
  end.
Proof.
  intros Hh Hroom Ho Hv Hg Ev Hr. pose proof (law_Update s (H ++ H2) obj g Hh Hroom Ho Hv Hg) as HU.
  destruct (view g (H ++ H2) !! _) as [st2|] eqn:Ev2; [|done]. destruct (decide (GetResourceVersion st2 = _)) as [Hd|Hd].
  - assert (st2 = st) as -> by (exact (view_same_version g H H2 _ st st2 (hist_wf _ _ Hh) Ev Ev2 (eq_sym Hd))).
    rewrite bool_decide_false in HU by naive_solver. done.
  - rewrite bool_decide_true in HU; [done|]. congruence.
Qed.

(** C39: [Patch], whatever other clients do between its read and its write. It fails with not-found
    for an object that is missing when it reads, and reports a failing patch without writing. Otherwise it
    applies the patch to the object it read, as decoded into a copy of the caller's. With a patch that
    leaves the name and resource version alone, the write then fails with not-found when others have removed
    the object in between and with a conflict exactly when they have changed it, and never overwrites their
    change; if they have not, [Patch] succeeds: nothing is written only when the patched object has the
    stored labels, annotations and fields, and otherwise the store gets the patched ones, with the stored
    UID and status, as one MODIFIED change. *)
Theorem client_Patch env s H H2 p obj g bytes :
  hist s H -> hist (env s) (H ++ H2) -> hasRoom (H ++ H2) -> okObject scheme obj -> validKey (ObjectKeyFromObject obj) ->
  gvkForObject scheme obj = Ret g -> Cli.pData p obj = Ret bytes ->
  let key := ObjectKeyFromObject obj in
  let run := Cli.Patch jsonPatchApply mergePatch env p obj s in
  match view g H !! key with
  | None => run = (s, obj, Fail (NotFoundError (keyString key)))
  | Some st => exists cur, UnmarshalObject (MarshalObject st) obj = Some cur /\
      GetResourceVersion cur = GetResourceVersion st /\
      match Cli.applyPatch jsonPatchApply mergePatch (Cli.pType p) bytes (MarshalObject cur) with
      | Fail e => run = (s, obj, Fail e)
      | Panic => run = (s, obj, Panic)
      | Ret j =>
          match UnmarshalObject j obj with
          | None => exists e, run = (s, obj, Fail e)
          | Some o' =>
              validObject o' -> ObjectKeyFromObject o' = key -> GetResourceVersion o' = GetResourceVersion cur ->
              match view g (H ++ H2) !! key with
              | None => run = (env s, o', Fail (NotFoundError (keyString key)))
              | Some st2 =>
                  if decide (GetResourceVersion st2 = GetResourceVersion st)
                  then st2 = st /\ exists s' o'', run = (s', o'', Ret tt) /\
                    ((s' = env s /\ unchanged o' st /\ copyObject st o' = (o'', Ret tt)) \/
                     exists new, updates o' st new /\ copyObject new o' = (o'', Ret tt) /\
                       appends hist (H ++ H2) g (mkEvent EventModified new) s')
                  else run = (env s, o', Fail (ConflictError (keyString key)))
              end
          end
      end
  end.
Proof.
  intros Hh Hh2 Hroom Ho Hvk Hg Hd. cbv zeta. unfold Cli.Patch, Cli.patched. rewrite Hd.
  pose proof (law_Get s H (ObjectKeyFromObject obj) obj g Hh Hvk Ho Hg) as HG.
  destruct (view g H !! ObjectKeyFromObject obj) as [st|] eqn:Ev; [|by rewrite HG].
  destruct HG as (cur & Eu & ->). exists cur. split; [done|].
  assert (Hst : okObject scheme st /\ gvkForObject scheme st = Ret g)
    by (destruct (hist_stored _ _ _ _ _ Hh Ev) as (? & ? & _); done).
  assert (Hrv : GetResourceVersion cur = GetResourceVersion st).
  { destruct (UnmarshalObject_copy st obj) as (us & E & _); [apply Hst|apply Ho|by eapply okObject_same_type; try apply Hst|].
    rewrite Eu in E. injection E as ->. unfold GetResourceVersion, overMeta, oMeta. simpl.
    apply view_lookup in Ev as (_ & i & c & _ & _ & _ & Er); [|by eapply hist_wf].
    unfold overStr, GetResourceVersion, oMeta in *. rewrite Er. rewrite bool_decide_false; [done|].
    apply FormatInt_nonempty. }
  split; [done|]. destruct (Cli.applyPatch _ _ _ _ _) as [j|e|]; [|done|done].
  destruct (UnmarshalObject j obj) as [o'|] eqn:Ej; [|eauto]. intros Hv' Hk Hr'.
  destruct (UnmarshalObject_typed _ _ _ (proj1 Ho) Ej) as [Hw Ht].
  pose proof (update_after_read (env s) H H2 g st o' Hh2 Hroom (okObject_type scheme obj o' Hw Ht Ho) Hv') as HU.
  rewrite (gvkForObject_type scheme o' obj Ht), Hk in HU. exact (HU Hg Ev (eq_trans Hr' Hrv)).
Qed.

(** Only the status subresource can be written, and only by update or patch: for any
    other name every call is refused and the store is unchanged. *)
Theorem client_subresource env name p obj s :
  name <> "status" ->
  let c := Cli.SubResource name in
  (exists e, Cli.SubGet c = Fail e) /\
  (exists e, Cli.SubUpdate c obj s = (s, obj, Fail e)) /\
  (exists e, Cli.SubPatch jsonPatchApply mergePatch env c p obj s = (s, obj, Fail e)).
Proof.
  intros Hn c. unfold c, Cli.SubResource. rewrite bool_decide_false by done. split_and!; by eexists.
Qed.
Context (GVKForObject : string -> result GVK).
Context (ExtractList : ObjectList -> result (list runtimeObject)).

(** [meta.ExtractList] returns the items of a list. *)
Hypothesis ExtractList_items : forall l, ExtractList l = Ret (map RObject (lItems l)).

(** C33: [DeleteAllOf] deletes exactly the objects of the type that are in the
    requested namespace and match the label selector, in as many single deletes, and touches no other
    object of any type, as long as no other client writes between its list and its deletes. *)
Theorem client_DeleteAllOf s H obj opts g listObj :
  hist s H -> GVKForObject (tName (oType obj)) = Ret g ->
  SchemeNew scheme (mkGVK (gGroup g) (gVersion g) (gKind g +:+ "List")) = Ret (RList listObj) ->
  gvkForList scheme listObj = Ret g -> okList scheme g listObj ->
  (Z.of_nat (length H) + Z.of_nat (size (view g H)) <= max_int64)%Z ->
  exists s' H', Cli.DeleteAllOf scheme GVKForObject ExtractList (fun _ s => s) obj opts s = (s', Ret tt) /\ hist s' H' /\
    (forall g', g' <> g -> view g' H' = view g' H) /\
    (forall k, view g H' !! k =
       match view g H !! k with
       | Some o => if listed (applyOptions opts) k o then None else Some o
       | None => None
       end).
Proof using ExtractList_items.
  intros Hh Hgvk Hnew Hgl Hok Hroom. unfold Cli.DeleteAllOf. rewrite Hgvk, Hnew.
  destruct (law_List s H listObj (Cli.deleteListOpts (applyOptions opts)) g Hh Hgl Hok) as (items & -> & Hp).
  rewrite ExtractList_items. simpl lItems.
  assert (Hin : forall o, o ∈ items <-> exists k, view g H !! k = Some o /\ listed (applyOptions opts) k o = true).
  { intros o. rewrite Hp, list_elem_of_fmap. split.
    - intros ([k o'] & -> & [Hk Hl]%list_elem_of_In%List.filter_In). rewrite listed_deleteListOpts in Hl.
      apply list_elem_of_In, elem_of_map_to_list in Hk. eauto.
    - intros (k & Hk & Hl). exists (k, o). split; [done|]. apply list_elem_of_In, List.filter_In.
      rewrite listed_deleteListOpts. split; [by apply list_elem_of_In, elem_of_map_to_list|done]. }
  assert (Hkey : forall k o, view g H !! k = Some o -> ObjectKeyFromObject o = k).
  { intros k o Hk. by apply view_lookup in Hk as [? _]; [|eapply hist_wf]. }
  destruct (deleteItems_spec items 0 s H g Hh) as (s' & H' & E & Hh' & HA & HB & _).
  - assert (length items <= size (view g H)) as Hle.
    { rewrite Hp, length_fmap, <- length_map_to_list. apply List.filter_length_le. }
    lia.
  - apply (NoDup_Permutation_proper _ (map ObjectKeyFromObject (List.filter
      (fun ko => listed (applyOptions (Cli.deleteListOpts (applyOptions opts))) ko.1 ko.2) (map_to_list (view g H))).*2)).
    { by rewrite Hp. }
    rewrite map_map. erewrite map_ext_in; [apply NoDup_map_filter, NoDup_fst_map_to_list|].
    intros [k o] Ho. apply List.filter_In in Ho as [Ho _]. apply list_elem_of_In, elem_of_map_to_list in Ho. by apply Hkey.
  - intros o (k & Hk & _)%Hin. by rewrite (Hkey _ _ Hk).
  - exists s', H'. split_and!; [done|done|done|]. intros k. rewrite HB.
    destruct (view g H !! k) as [o|] eqn:Ek; [|by case_decide].
    destruct (listed (applyOptions opts) k o) eqn:El.
    + rewrite decide_True; [done|]. apply list_elem_of_fmap. exists o. split; [symmetry; by apply Hkey|]. apply Hin. eauto.
    + rewrite decide_False; [done|]. intros (o' & -> & (k' & Hk' & Hl')%Hin)%list_elem_of_fmap.
      rewrite (Hkey _ _ Hk') in *. congruence.
Qed.
End client.
