(* ===== verification/Cache.v ===== *)
(** * The cache: cache.go, options, storeCache and the watch loop

    [storeCache] owns one informer per GVK. [startInformer] lists the store into
    the informer and hands the list's resource version to the watch loop; the
    loop opens a watch from the last version it has seen, feeds events to the
    informer, relists when the store has compacted that version away, and backs
    off on errors. The loop is a state machine whose steps are its select cases.
    Contexts are a flag that is set when the context is done. *)

From S2P Require Import Prelude GoStrconv GoJson GoJsonFacts Objects ObjectFacts.
From S2P Require Import StoreSpec StoreInterface Backend EventQueue Informer.

Module Cache.
Import Inf.

(** ** Options *)

Record ByObjectConfig : Type := mkByObject {
  boTransform : option (Object -> result anyValue);
  boUnsafeDisableDeepCopy : option bool;
  boLabel : option labelsSelector;
  boField : option fieldsSelector;
  boEnableWatchBookmarks : option bool;
}.

Record cacheOptions : Type := mkOptions {
  defaultTransform : option (Object -> result anyValue);
  defaultUnsafeDisableDeepCopy : bool;
  defaultLabelSelector : option labelsSelector;
  defaultFieldSelector : option fieldsSelector;
  defaultEnableWatchBookmarks : option bool;
  defaultNamespaces : option (gset string);
  byObject : list (Object * ByObjectConfig);
  readerFailOnMissingInformer : bool;
  syncPeriod : option Z;
}.

(** A [CacheOption] is a function on the options. *)
Definition WithDefaultTransform fn (o : cacheOptions) : cacheOptions :=
  mkOptions (Some fn) (defaultUnsafeDisableDeepCopy o) (defaultLabelSelector o) (defaultFieldSelector o) (defaultEnableWatchBookmarks o) (defaultNamespaces o) (byObject o) (readerFailOnMissingInformer o) (syncPeriod o).
Definition WithDefaultUnsafeDisableDeepCopy b (o : cacheOptions) : cacheOptions :=
  mkOptions (defaultTransform o) b (defaultLabelSelector o) (defaultFieldSelector o) (defaultEnableWatchBookmarks o) (defaultNamespaces o) (byObject o) (readerFailOnMissingInformer o) (syncPeriod o).
Definition WithDefaultLabelSelector sel (o : cacheOptions) : cacheOptions :=
  mkOptions (defaultTransform o) (defaultUnsafeDisableDeepCopy o) (Some sel) (defaultFieldSelector o) (defaultEnableWatchBookmarks o) (defaultNamespaces o) (byObject o) (readerFailOnMissingInformer o) (syncPeriod o).
Definition WithDefaultFieldSelector sel (o : cacheOptions) : cacheOptions :=
  mkOptions (defaultTransform o) (defaultUnsafeDisableDeepCopy o) (defaultLabelSelector o) (Some sel) (defaultEnableWatchBookmarks o) (defaultNamespaces o) (byObject o) (readerFailOnMissingInformer o) (syncPeriod o).
Definition WithByObject obj config (o : cacheOptions) : cacheOptions :=
  mkOptions (defaultTransform o) (defaultUnsafeDisableDeepCopy o) (defaultLabelSelector o) (defaultFieldSelector o) (defaultEnableWatchBookmarks o) (defaultNamespaces o) (byObject o ++ [(obj, config)]) (readerFailOnMissingInformer o) (syncPeriod o).
Definition WithReaderFailOnMissingInformer fail (o : cacheOptions) : cacheOptions :=
  mkOptions (defaultTransform o) (defaultUnsafeDisableDeepCopy o) (defaultLabelSelector o) (defaultFieldSelector o) (defaultEnableWatchBookmarks o) (defaultNamespaces o) (byObject o) fail (syncPeriod o).
Definition WithSyncPeriod d (o : cacheOptions) : cacheOptions :=
  mkOptions (defaultTransform o) (defaultUnsafeDisableDeepCopy o) (defaultLabelSelector o) (defaultFieldSelector o) (defaultEnableWatchBookmarks o) (defaultNamespaces o) (byObject o) (readerFailOnMissingInformer o) (Some d).
Definition WithDefaultEnableWatchBookmarks b (o : cacheOptions) : cacheOptions :=
  mkOptions (defaultTransform o) (defaultUnsafeDisableDeepCopy o) (defaultLabelSelector o) (defaultFieldSelector o) (Some b) (defaultNamespaces o) (byObject o) (readerFailOnMissingInformer o) (syncPeriod o).
Definition WithDefaultNamespaces (nss : list string) (o : cacheOptions) : cacheOptions :=
  mkOptions (defaultTransform o) (defaultUnsafeDisableDeepCopy o) (defaultLabelSelector o) (defaultFieldSelector o) (defaultEnableWatchBookmarks o) (Some (list_to_set nss)) (byObject o) (readerFailOnMissingInformer o) (syncPeriod o).

(** The per-type configuration, each setting falling back to the default. *)
Definition configFor (o : cacheOptions) (c : ByObjectConfig) : informerConfig :=
  mkInformerConfig
    (match boTransform c with Some t => Some t | None => defaultTransform o end)
    (default (defaultUnsafeDisableDeepCopy o) (boUnsafeDisableDeepCopy c))
    (match boLabel c with Some l => Some l | None => defaultLabelSelector o end)
    (match boField c with Some f => Some f | None => defaultFieldSelector o end)
    (match boEnableWatchBookmarks c with Some b => Some b | None => defaultEnableWatchBookmarks o end)
    (defaultNamespaces o)
    (syncPeriod o).

Record storeCache : Type := mkCache {
  cInformers : gmap GVK storeInformer;
  cStarted : bool;
  cStartCtxDone : bool;
  cSynced : gmap GVK bool;
  cOpts : cacheOptions;
  cInformerConfigs : gmap GVK informerConfig;
}.

Definition setInformers v c := mkCache v (cStarted c) (cStartCtxDone c) (cSynced c) (cOpts c) (cInformerConfigs c).
Definition setSyncedMap v c := mkCache (cInformers c) (cStarted c) (cStartCtxDone c) v (cOpts c) (cInformerConfigs c).

(** ** Watch loop data *)

Definition second : Z := 1000000000.
Definition maxBackoff : Z := 30 * second.

Record watchState : Type := mkWatch {
  wsLastRV : Z;
  wsBackoff : Z;
  wsList : ObjectList;
  wsWatcher : option nat;
}.

(** [backoff = min(backoff*2, maxBackoff)] *)
Definition nextBackoff (b : Z) : Z := Z.min (wrap64 (b * 2)) maxBackoff.

(** The selectors of an informer as list options. *)
Definition selectorOpts (c : informerConfig) : list ListOption :=
  (match cfgLabelSelector c with Some sel => [MatchingLabelsSelector sel] | None => [] end) ++
  (match cfgFieldSelector c with Some sel => [MatchingFieldsSelector sel] | None => [] end).

Definition watchOpts (c : informerConfig) : list ListOption :=
  selectorOpts c ++ (match cfgEnableWatchBookmarks c with Some b => [EnableWatchBookmarks b] | None => [] end).

(** Adding the items of the initial list; [None] is a panic. *)
Fixpoint addItems (items : list runtimeObject) (i : storeInformer) : option storeInformer :=
  match items with
  | [] => Some i
  | RObject obj :: items' => match add obj i with Some i' => addItems items' i' | None => None end
  | _ :: items' => addItems items' i
  end.

(** [listRV, _ = strconv.ParseInt(...)]: the value, whatever the error. *)
Definition listRevision (l : ObjectList) : Z := (ParseInt (lResourceVersion l)).1.

Section cache.
Context {S : Type} `{StoreOps S} (scheme : Scheme).
Context (GVKForObject : string -> result GVK).
Context (ExtractList : ObjectList -> result (list runtimeObject)).
Context (SetList : ObjectList -> list Object -> ObjectList * result unit).

(** ** Construction *)

Definition NewCache (opts : list (cacheOptions -> cacheOptions)) : storeCache :=
  let options := foldl (fun o opt => opt o) (mkOptions None false None None None None [] true None) opts in
  let configs := foldl (fun m entry =>
      match GVKForObject (tName (oType entry.1)) with
      | Ret gvk => <[gvk := configFor options entry.2]> m
      | _ => m
      end) ∅ (byObject options) in
  mkCache ∅ false false ∅ options configs.

Definition resolveConfig (gvk : GVK) (c : storeCache) : informerConfig :=
  match cInformerConfigs c !! gvk with
  | Some cfg => cfg
  | None =>
      let o := cOpts c in
      mkInformerConfig (defaultTransform o) (defaultUnsafeDisableDeepCopy o) (defaultLabelSelector o)
        (defaultFieldSelector o) (defaultEnableWatchBookmarks o) (defaultNamespaces o) (syncPeriod o)
  end.

(** ** Starting an informer *)

(** List the store into the informer. The informer is changed in place, also
    when an error is returned; on success the watch loop starts from the
    returned state. *)
Definition startInformer (i : storeInformer) (s : S) : storeInformer * result watchState :=
  let gvk := iGVK i in
  match SchemeNew scheme (mkGVK (gGroup gvk) (gVersion gvk) (gKind gvk +:+ "List")) with
  | Fail e => (i, Fail e)
  | Panic => (i, Panic)
  | Ret (RList lst) =>
      let (lst, r) := sList lst (selectorOpts (iConfig i)) s in
      match r with
      | Fail e => (i, Fail e)
      | Panic => (i, Panic)
      | Ret _ =>
          match ExtractList lst with
          | Fail e => (i, Fail e)
          | Panic => (i, Panic)
          | Ret items =>
              match addItems items i with
              | None => (i, Panic)
              | Some i => (setSynced true i, Ret (mkWatch (listRevision lst) second lst None))
              end
          end
      end
  | Ret _ => (i, Fail (OtherError "object does not implement client.ObjectList"))
  end.

Definition getOrCreateInformer (gvk : GVK) (c : storeCache) (s : S) : storeCache * result (option watchState) :=
  match cInformers c !! gvk with
  | Some _ => (c, Ret None)
  | None =>
      let i := newStoreInformer gvk (resolveConfig gvk c) in
      if cStarted c then
        if cStartCtxDone c then (c, Fail (OtherError "cache is stopped"))
        else match startInformer i s with
             | (_, Fail e) => (c, Fail e)
             | (_, Panic) => (c, Panic)
             | (i, Ret ws) =>
                 (setSyncedMap (<[gvk := true]> (cSynced c)) (setInformers (<[gvk := i]> (cInformers c)) c), Ret (Some ws))
             end
      else (setInformers (<[gvk := i]> (cInformers c)) c, Ret None)
  end.

(** [Start] marks the cache started and starts its informers one by one; the
    watch loops of those started so far run on when one fails. *)
Fixpoint startAll (gvks : list GVK) (c : storeCache) (s : S) : storeCache * list (GVK * watchState) * result unit :=
  match gvks with
  | [] => (c, [], Ret tt)
  | gvk :: gvks' =>
      match cInformers c !! gvk with
      | None => startAll gvks' c s
      | Some i =>
          let (i, r) := startInformer i s in
          let c := setInformers (<[gvk := i]> (cInformers c)) c in
          match r with
          | Fail e => (c, [], Fail e)
          | Panic => (c, [], Panic)
          | Ret ws =>
              let c := setSyncedMap (<[gvk := true]> (cSynced c)) c in
              let '(c, wss, r) := startAll gvks' c s in
              (c, (gvk, ws) :: wss, r)
          end
      end
  end.

Definition Start (c : storeCache) (s : S) : storeCache * list (GVK * watchState) * result unit :=
  if cStarted c then (c, [], Ret tt)
  else
    let c := mkCache (cInformers c) true (cStartCtxDone c) (cSynced c) (cOpts c) (cInformerConfigs c) in
    startAll (map_to_list (cInformers c)).*1 c s.

(** ** cache.Cache *)

Definition missingInformer : error := OtherError "no informer registered".

Definition Get (key : ObjectKey) (obj : Object) (c : storeCache) (s : S) : storeCache * Object * result unit :=
  match GVKForObject (tName (oType obj)) with
  | Fail e => (c, obj, Fail e)
  | Panic => (c, obj, Panic)
  | Ret gvk =>
      let '(c, r) :=
        match cInformers c !! gvk with
        | Some _ => (c, Ret None)
        | None => if readerFailOnMissingInformer (cOpts c) then (c, Fail missingInformer)
                  else getOrCreateInformer gvk c s
        end in
      match r with
      | Fail e => (c, obj, Fail e)
      | Panic => (c, obj, Panic)
      | Ret _ =>
          match cInformers c !! gvk with
          | Some i => let (obj, r) := get key obj i in (c, obj, r)
          | None => (c, obj, Panic)
          end
      end
  end.

Definition List (lst : ObjectList) (opts : list ListOption) (c : storeCache) (s : S) : storeCache * ObjectList * result unit :=
  match GVKForObject (lName lst) with
  | Fail e => (c, lst, Fail e)
  | Panic => (c, lst, Panic)
  | Ret gvk =>
      if bool_decide (trimListSuffix (gKind gvk) = gKind gvk)
      then (c, lst, Fail (OtherError "expected list kind ending in 'List'"))
      else
        let gvk := mkGVK (gGroup gvk) (gVersion gvk) (trimListSuffix (gKind gvk)) in
        let '(c, r) :=
          match cInformers c !! gvk with
          | Some _ => (c, Ret None)
          | None =>
              if readerFailOnMissingInformer (cOpts c) then (c, Fail missingInformer)
              else match SchemeNew scheme gvk with
                   | Fail e => (c, Fail e)
                   | Panic => (c, Panic)
                   | Ret (RObject _) => getOrCreateInformer gvk c s
                   | Ret _ => (c, Fail (OtherError "object does not implement client.Object"))
                   end
          end in
        match r with
        | Fail e => (c, lst, Fail e)
        | Panic => (c, lst, Panic)
        | Ret _ =>
            match cInformers c !! gvk with
            | Some i => let (lst, r) := list_ SetList lst opts i in (c, lst, r)
            | None => (c, lst, Panic)
            end
        end
  end.

Definition GetInformer (obj : Object) (c : storeCache) (s : S) : storeCache * result (option watchState) :=
  match GVKForObject (tName (oType obj)) with
  | Fail e => (c, Fail e)
  | Panic => (c, Panic)
  | Ret gvk => getOrCreateInformer gvk c s
  end.

Definition GetInformerForKind (gvk : GVK) (c : storeCache) (s : S) : storeCache * result (option watchState) :=
  match SchemeNew scheme gvk with
  | Fail e => (c, Fail e)
  | Panic => (c, Panic)
  | Ret (RObject _) => getOrCreateInformer gvk c s
  | Ret _ => (c, Fail (OtherError "object does not implement client.Object"))
  end.

(** The second component is the watcher [stop] has to stop. *)
Definition RemoveInformer (obj : Object) (c : storeCache) : storeCache * option nat * result unit :=
  match GVKForObject (tName (oType obj)) with
  | Fail e => (c, None, Fail e)
  | Panic => (c, None, Panic)
  | Ret gvk =>
      match cInformers c !! gvk with
      | None => (c, None, Ret tt)
      | Some i =>
          let (_, w) := stop i in
          (setSyncedMap (delete gvk (cSynced c)) (setInformers (delete gvk (cInformers c)) c), w, Ret tt)
      end
  end.

Definition IndexField (obj : Object) (fld : string) (extractValue : Object -> list string) (c : storeCache) (s : S)
    : storeCache * result unit :=
  match GVKForObject (tName (oType obj)) with
  | Fail e => (c, Fail e)
  | Panic => (c, Panic)
  | Ret gvk =>
      let '(c, r) := match cInformers c !! gvk with
                     | Some _ => (c, Ret None)
                     | None => getOrCreateInformer gvk c s
                     end in
      match r with
      | Fail e => (c, Fail e)
      | Panic => (c, Panic)
      | Ret _ =>
          match cInformers c !! gvk with
          | Some i => (setInformers (<[gvk := addIndexer fld extractValue i]> (cInformers c)) c, Ret tt)
          | None => (c, Panic)
          end
      end
  end.

(** One poll of [WaitForCacheSync]. *)
Definition allSynced (gvks : list GVK) (c : storeCache) : bool :=
  forallb (fun gvk => default false (cSynced c !! gvk)) gvks.

(** [WaitForCacheSync] polls for the informers the cache has at the call. A round
    sees whether the caller's context is done and the cache as it is then; [None]
    is a call that still waits after the given rounds. *)
Fixpoint pollSynced (gvks : list GVK) (rounds : list (bool * storeCache)) : option bool :=
  match rounds with
  | [] => None
  | (done, c) :: rounds => if done then Some false else if allSynced gvks c then Some true else pollSynced gvks rounds
  end.

Definition WaitForCacheSync (c : storeCache) (rounds : list (bool * storeCache)) : option bool :=
  pollSynced (map_to_list (cInformers c)).*1 rounds.

(** ** The watch loop *)

(** [relistInformer]: the list afterwards and the informer. *)
Definition relistInformer (i : storeInformer) (lst : ObjectList) (s : S)
    : option (storeInformer * ObjectList * result unit) :=
  let (lst, r) := sList lst (selectorOpts (iConfig i)) s in
  match r with
  | Fail e => Some (i, lst, Fail e)
  | Panic => None
  | Ret _ =>
      match ExtractList lst with
      | Fail e => Some (i, lst, Fail e)
      | Panic => None
      | Ret items => (fun i => (i, lst, Ret tt)) <$> replaceAll items i
      end
  end.

(** The top of the loop: open a watch from [lastRV]; on an error relist, or
    wait [backoff] and try again. [None] is a panic or a call that blocks. *)
Definition openWatch (i : storeInformer) (ws : watchState) (s : S) : option (storeInformer * watchState * S) :=
  let opts := WatchFromRevision (wsLastRV ws) :: watchOpts (iConfig i) in
  match sWatch (wsList ws) opts s with
  | None => None
  | Some (_, Panic) => None
  | Some (s, Ret p) => Some (setWatcher p i, mkWatch (wsLastRV ws) second (wsList ws) (Some p), s)
  | Some (s, Fail err) =>
      if asRevisionTooOld err then
        match relistInformer i (wsList ws) s with
        | None | Some (_, _, Panic) => None
        | Some (i, lst, Fail _) => Some (i, mkWatch (wsLastRV ws) (nextBackoff (wsBackoff ws)) lst None, s)
        | Some (i, lst, Ret _) => Some (i, mkWatch (listRevision lst) second lst None, s)
        end
      else Some (i, mkWatch (wsLastRV ws) (nextBackoff (wsBackoff ws)) (wsList ws) None, s)
  end.

(** The event loop's receive case. *)
Definition watchEvent (ev : Event) (i : storeInformer) (ws : watchState) : option (storeInformer * watchState) :=
  (fun r => (r.1, mkWatch r.2 (wsBackoff ws) (wsList ws) (wsWatcher ws))) <$> handleEvent ev (wsLastRV ws) i.

(** The watcher's channel is closed: stop it and go round the loop. *)
Definition watchClosed (ws : watchState) : watchState :=
  mkWatch (wsLastRV ws) (wsBackoff ws) (wsList ws) None.

End cache.
End Cache.
