(* ===== verification/CacheTheorems.v ===== *)
(** * Theorems about the cache, for every Store that satisfies the laws *)

From S2P Require Import Prelude GoStrconv GoJson GoJsonFacts Objects ObjectFacts.
From S2P Require Import StoreSpec StoreInterface Backend EventQueue Informer InformerFacts.
From S2P Require Import InformerTheorems Cache.

Import Inf Cache.

(** ** Auxiliary facts *)

(** Two views of one history: the same key and resource version mean the same
    object. *)
Lemma view_rv_unique g H H2 k o o' :
  wfHistory (H ++ H2) -> view g H !! k = Some o -> view g (H ++ H2) !! k = Some o' ->
  GetResourceVersion o = GetResourceVersion o' -> o = o'.
Proof.
  intros Hwf Ho Ho' Er.
  apply view_lookup in Ho as (_ & i & c & Hi & _ & <- & Hr); [|by eapply wfHistory_app_l].
  apply view_lookup in Ho' as (_ & j & c' & Hj & _ & <- & Hr'); [|done].
  assert (cRevision c = cRevision c') as Ec by (apply (inj FormatInt); congruence).
  apply (lookup_app_l_Some _ H2) in Hi.
  rewrite (wfh_revision _ Hwf _ _ Hi), (wfh_revision _ Hwf _ _ Hj) in Ec.
  assert (i = j) as -> by lia. congruence.
Qed.

Lemma addItems_spec D i items :
  InformerInv D i -> goodTransform (iConfig i) -> NoDup (map ObjectKeyFromObject items) ->
  (forall o, o ∈ items -> iObjects i !! ObjectKeyFromObject o = None) ->
  exists i', addItems (map RObject items) i = Some i' /\ InformerInv D i' /\ sameSetup i i' /\
    (forall o, o ∈ items -> iObjects i' !! ObjectKeyFromObject o = project (iConfig i) o) /\
    (forall k, k ∉ map ObjectKeyFromObject items -> iObjects i' !! k = iObjects i !! k).
Proof.
  revert i. induction items as [|o items IH]; intros i HI Hg Hnd Hno; cbn [addItems map].
  { exists i. split_and!; try done. set_solver. }
  apply NoDup_cons in Hnd as [Hn Hnd].
  destruct (add_spec D i HI Hg o) as (i1 & -> & HI1 & Hs1 & Ho1); [apply Hno; set_solver|].
  pose proof Hs1 as (_ & _ & _ & Ec & _).
  assert (Hne : forall k, k <> ObjectKeyFromObject o -> iObjects i1 !! k = iObjects i !! k)
    by (intros k Hk; rewrite Ho1; by rewrite lookup_partial_alter_ne).
  assert (Hnk : forall o', o' ∈ items -> ObjectKeyFromObject o' <> ObjectKeyFromObject o).
  { intros o' Ho' E. apply Hn. rewrite <- E. by apply list_elem_of_fmap_2. }
  destruct (IH i1) as (i2 & E2 & HI2 & Hs2 & Ha & Hb); [done|by rewrite Ec|done|..].
  { intros o' Ho'. rewrite Hne by auto. apply Hno. set_solver. }
  exists i2. split_and!; [done|done|by eapply sameSetup_trans|..].
  - rewrite Ec in Ha. intros o' [->|Ho']%elem_of_cons; [|auto].
    rewrite Hb by done. by rewrite Ho1, lookup_partial_alter_eq.
  - intros k Hk. rewrite Hb, Hne; [done| |]; set_solver.
Qed.

(** The listing with an informer's selectors contains everything the informer
    keeps. *)
Lemma listed_selectorOpts c k o : listed (applyOptions (selectorOpts c)) k o = false -> project c o = None.
Proof.
  unfold selectorOpts, applyOptions, listed, project, matchesSelectors. simpl.
  destruct (cfgLabelSelector c) as [sel|], (cfgFieldSelector c); simpl; try done;
    intros ->; by rewrite andb_false_r.
Qed.

Lemma fromRevisionOpt_watchOpts c rv : fromRevisionOpt (WatchFromRevision rv :: watchOpts c) = Some rv.
Proof.
  unfold fromRevisionOpt, watchOpts, selectorOpts.
  by destruct (cfgLabelSelector c), (cfgFieldSelector c), (cfgEnableWatchBookmarks c).
Qed.

Lemma replayOf_unfiltered c rv g H :
  cfgLabelSelector c = None ->
  replayOf (WatchFromRevision rv :: watchOpts c) g H = eventsOf g (changesSince rv H).
Proof.
  intros Hl. unfold replayOf. rewrite fromRevisionOpt_watchOpts. unfold watchOpts, selectorOpts, applyOptions.
  rewrite Hl. by destruct (cfgFieldSelector c), (cfgEnableWatchBookmarks c).
Qed.

Section cache.
Context {S : Type} `{SO : StoreOps S} (scheme : Scheme) {SL : StoreLaws S scheme}.
Context (ExtractList : ObjectList -> result (list runtimeObject)).

(** [meta.ExtractList] returns the items of a list. *)
Hypothesis ExtractList_items : forall l, ExtractList l = Ret (map RObject (lItems l)).

Lemma listRevision_len s H n f items :
  hist s H -> listRevision (mkList n f (FormatInt (Z.of_nat (length H))) items) = Z.of_nat (length H).
Proof.
  intros Hh. unfold listRevision. simpl. rewrite ParseInt_FormatInt; [done|].
  apply in_int64_spec. unfold min_int64. apply hist_bound in Hh. lia.
Qed.

(** What the informer's selectors list, by key. *)
Lemma selector_items s H g c items :
  hist s H ->
  items ≡ₚ (List.filter (fun ko => listed (applyOptions (selectorOpts c)) ko.1 ko.2) (map_to_list (view g H))).*2 ->
  NoDup (map ObjectKeyFromObject items) /\
  (forall o, o ∈ items -> view g H !! ObjectKeyFromObject o = Some o) /\
  (forall k o, view g H !! k = Some o -> (o ∈ items) \/ ((k ∉ map ObjectKeyFromObject items) /\ project c o = None)).
Proof.
  intros Hh Hp. assert (Hkey : forall k o, view g H !! k = Some o -> ObjectKeyFromObject o = k).
  { intros k o Hk. by apply view_lookup in Hk as [? _]; [|eapply hist_wf]. }
  split_and!.
  - eapply NoDup_Permutation_proper; [by rewrite Hp|]. rewrite map_map.
    erewrite map_ext_in; [apply NoDup_map_filter, NoDup_fst_map_to_list|].
    intros [k o] [Ho _]%List.filter_In. apply list_elem_of_In, elem_of_map_to_list in Ho. by apply Hkey.
  - intros o. rewrite Hp. intros ([k o'] & -> & [Ho _]%list_elem_of_In%List.filter_In)%list_elem_of_fmap.
    apply list_elem_of_In, elem_of_map_to_list in Ho. simpl. by rewrite (Hkey _ _ Ho).
  - intros k o Hk. destruct (listed (applyOptions (selectorOpts c)) k o) eqn:El; [left|right].
    + rewrite Hp. apply list_elem_of_fmap. exists (k, o). split; [done|].
      apply list_elem_of_In, List.filter_In. split; [by apply list_elem_of_In, elem_of_map_to_list|done].
    + split; [|by eapply listed_selectorOpts]. rewrite Hp.
      intros (o' & -> & ([k' o2] & -> & [Ho' El']%list_elem_of_In%List.filter_In)%list_elem_of_fmap)%list_elem_of_fmap.
      apply list_elem_of_In, elem_of_map_to_list in Ho'. simpl in *. rewrite (Hkey _ _ Ho') in *. congruence.
Qed.

Lemma startInformer_spec s H g c lst :
  hist s H -> goodTransform c ->
  SchemeNew scheme (mkGVK (gGroup g) (gVersion g) (gKind g +:+ "List")) = Ret (RList lst) ->
  gvkForList scheme lst = Ret g -> okList scheme g lst ->
  exists i items, startInformer scheme ExtractList (newStoreInformer g c) s =
      (i, Ret (mkWatch (Z.of_nat (length H)) second
                 (mkList (lName lst) (lItemsField lst) (FormatInt (Z.of_nat (length H))) items) None)) /\
    InformerInv ∅ i /\ iGVK i = g /\ iConfig i = c /\ iSynced i = true /\
    iObjects i = omap (project c) (view g H).
Proof using ExtractList_items.
  intros Hh Hg Hnew Hgl Hok. unfold startInformer. simpl iGVK. rewrite Hnew. simpl iConfig.
  destruct (law_List s H lst (selectorOpts c) g Hh Hgl Hok) as (items & -> & Hp).
  rewrite ExtractList_items. simpl lItems. destruct (selector_items s H g c items Hh Hp) as (Hnd & Hin & Hout).
  destruct (addItems_spec ∅ (newStoreInformer g c) items) as (i & -> & HI & Hs & Ha & Hb);
    [apply InformerInv_new|done|done|done|].
  rewrite (listRevision_len s H) by done. exists (setSynced true i), items.
  destruct Hs as (Eg & _ & _ & Ec & Es & _). simpl in Es, Ec.
  unfold setSynced. rewrite Es. simpl. split_and!; [done| |done|done|done|].
  - destruct HI. by split.
  - apply map_eq. intros k. rewrite lookup_omap. destruct (view g H !! k) as [o|] eqn:Ek; simpl.
    + pose proof (view_lookup _ _ _ _ (hist_wf _ _ Hh) Ek) as [Hko _].
      destruct (Hout k o Ek) as [Hi|[Hi Hpr]]; [rewrite <- Hko; by apply Ha|].
      by rewrite Hb, Hpr by done.
    + rewrite Hb; [by simpl; rewrite lookup_empty|]. intros (o' & -> & Ho')%list_elem_of_fmap.
      apply Hin in Ho'. congruence.
Qed.

(** The listed objects by key, and what the informer keeps of them. *)
Lemma listed_view s H g c items :
  hist s H ->
  items ≡ₚ (List.filter (fun ko => listed (applyOptions (selectorOpts c)) ko.1 ko.2) (map_to_list (view g H))).*2 ->
  let V := list_to_map (M := gmap ObjectKey Object) (map (fun o => (ObjectKeyFromObject o, o)) items) in
  items ≡ₚ (map_to_list V).*2 /\ (forall k o, V !! k = Some o -> ObjectKeyFromObject o = k) /\
  omap (project c) V = omap (project c) (view g H).
Proof.
  intros Hh Hp V. destruct (selector_items s H g c items Hh Hp) as (Hnd & Hin & Hout).
  assert (Hfst : (map (fun o => (ObjectKeyFromObject o, o)) items).*1 = map ObjectKeyFromObject items).
  { change (map fst (map (fun o => (ObjectKeyFromObject o, o)) items) = map ObjectKeyFromObject items). by rewrite map_map. }
  assert (HV : forall k o, V !! k = Some o <-> o ∈ items /\ ObjectKeyFromObject o = k).
  { intros k o. unfold V. rewrite <- elem_of_list_to_map by (by rewrite Hfst). rewrite list_elem_of_fmap. naive_solver. }
  split_and!.
  - unfold V. rewrite map_to_list_to_map by (by rewrite Hfst).
    change (items ≡ₚ map snd (map (fun o => (ObjectKeyFromObject o, o)) items)). rewrite map_map. by rewrite map_id.
  - intros k o Hk. by apply HV in Hk as [_ ?].
  - apply map_eq. intros k. rewrite !lookup_omap. destruct (view g H !! k) as [o|] eqn:Ek; simpl.
    + pose proof (view_lookup _ _ _ _ (hist_wf _ _ Hh) Ek) as [Hko _].
      destruct (Hout k o Ek) as [Hi|[Hi Hpr]]; [by rewrite (proj2 (HV k o))|]. rewrite Hpr.
      destruct (V !! k) as [o'|] eqn:EV; [|done]. apply HV in EV as [Hi' <-]. destruct Hi. by apply list_elem_of_fmap_2.
    + destruct (V !! k) as [o'|] eqn:EV; [|done]. apply HV in EV as [Hi' <-]. apply Hin in Hi'. congruence.
Qed.

Lemma relist_spec D s H H2 i lst :
  hist s (H ++ H2) -> InformerInv D i -> goodTransform (iConfig i) ->
  gvkForList scheme lst = Ret (iGVK i) -> okList scheme (iGVK i) lst ->
  iObjects i = omap (project (iConfig i)) (view (iGVK i) H) ->
  exists i' items, relistInformer ExtractList i lst s =
      Some (i', mkList (lName lst) (lItemsField lst) (FormatInt (Z.of_nat (length (H ++ H2)))) items, Ret tt) /\
    InformerInv D i' /\ sameSetup i i' /\
    iObjects i' = omap (project (iConfig i)) (view (iGVK i) (H ++ H2)).
Proof using ExtractList_items.
  intros Hh HI Hg Hgl Hok Ho. unfold relistInformer.
  destruct (law_List s _ lst (selectorOpts (iConfig i)) _ Hh Hgl Hok) as (items & -> & Hp).
  rewrite ExtractList_items. simpl lItems.
  destruct (listed_view s _ (iGVK i) (iConfig i) items Hh Hp) as (Hp' & HV & Eo). cbv zeta in *.
  set (V := list_to_map (map (fun o => (ObjectKeyFromObject o, o)) items)) in *.
  destruct (replaceAll_spec D i items V HI Hg HV Hp') as (i' & -> & HI' & Hs & Ho').
  - rewrite Eo, Ho. intros k p p'. rewrite !lookup_omap, !bind_Some. intros (o & Ek & Epr) (o' & Ek' & Epr') Er.
    destruct (project_good _ _ _ Hg Epr) as [_ E1]. destruct (project_good _ _ _ Hg Epr') as [_ E2].
    assert (o = o') as -> by (eapply (view_rv_unique (iGVK i) H H2 k); [by eapply hist_wf|done|done|congruence]).
    congruence.
  - exists i', items. by rewrite Eo in Ho'.
Qed.

(** ** The theorems *)

(** Starting an informer brings its cache in step with the store: it holds exactly
    the selected and transformed objects of its GVK, is marked synced, and the watch loop starts from the
    revision of that snapshot. *)
Theorem cache_start_syncs s H g c lst :
  hist s H -> goodTransform c ->
  SchemeNew scheme (mkGVK (gGroup g) (gVersion g) (gKind g +:+ "List")) = Ret (RList lst) ->
  gvkForList scheme lst = Ret g -> okList scheme g lst ->
  exists i ws, startInformer scheme ExtractList (newStoreInformer g c) s = (i, Ret ws) /\
    iObjects i = omap (project c) (view g H) /\ iSynced i = true /\
    wsLastRV ws = Z.of_nat (length H) /\ InformerInv ∅ i.
Proof using ExtractList_items.
  intros Hh Hg Hnew Hgl Hok.
  destruct (startInformer_spec s H g c lst Hh Hg Hnew Hgl Hok) as (i & items & E & HI & _ & _ & Hs & Ho). eauto 10.
Qed.

(** C7: after any gap in its watch an informer without a label selector catches up. Take
    one whose cache agrees with the store as of its last resource version, and let the store go on by any
    changes. The next pass of the watch loop either opens a watch whose replayed events bring the cache
    to the store's current objects, or finds that version compacted, relists, and is there at once,
    with the last resource version moved to the current revision. *)
Theorem cache_reconnects D s H H2 i ws :
  hist s (H ++ H2) -> hasRoom (H ++ H2) -> InformerInv D i -> goodTransform (iConfig i) ->
  cfgLabelSelector (iConfig i) = None ->
  gvkForList scheme (wsList ws) = Ret (iGVK i) -> okList scheme (iGVK i) (wsList ws) ->
  iObjects i = omap (project (iConfig i)) (view (iGVK i) H) -> wsLastRV ws = Z.of_nat (length H) ->
  let target := omap (project (iConfig i)) (view (iGVK i) (H ++ H2)) in
  exists i1 ws1 s1, openWatch ExtractList i ws s = Some (i1, ws1, s1) /\ hist s1 (H ++ H2) /\
    match wsWatcher ws1 with
    | Some p => exists i2 rv2, handleEvents (sBuffered p s1) (wsLastRV ws1) i1 = Some (i2, rv2) /\
        iObjects i2 = target /\ InformerInv D i2 /\ (rv2 <= Z.of_nat (length (H ++ H2)))%Z
    | None => iObjects i1 = target /\ InformerInv D i1 /\ wsLastRV ws1 = Z.of_nat (length (H ++ H2))
    end.
Proof using ExtractList_items.
  intros Hh Hroom HI Hg Hlab Hgl Hok Ho Hrv target. unfold openWatch.
  assert (Hin : in_int64 (wsLastRV ws) = true).
  { rewrite Hrv. apply (revision_in_int64 _ (H ++ H2)); [rewrite length_app; lia|by eapply hist_bound]. }
  destruct (law_Watch s (H ++ H2) (wsList ws) (WatchFromRevision (wsLastRV ws) :: watchOpts (iConfig i)) (iGVK i))
    as (s1 & r & -> & Hh1 & Hr); [done|done|done|by rewrite fromRevisionOpt_watchOpts; intros ? [= <-]|].
  destruct r as [p|e|]; [| |done].
  - rewrite (replayOf_unfiltered _ _ _ _ Hlab), Hrv, changesSince_drop, drop_app_length in Hr by (by eapply hist_wf).
    eexists _, _, s1. split; [done|]. split; [done|]. simpl. rewrite Hr.
    destruct (history_follows D (setWatcher p i) H H2 (wsLastRV ws)) as (i2 & rv2 & E & HI2 & _ & Ho2 & _ & Hle);
      [by destruct HI|done|by eapply hist_wf|by eapply hist_bound|done|].
    exists i2, rv2. simpl in E. split_and!; try done. apply Hle. lia.
  - destruct Hr as (from & _ & _ & oldest & ->). simpl.
    destruct (relist_spec D s1 H H2 i (wsList ws) Hh1 HI Hg Hgl Hok Ho) as (i' & items & -> & HI' & _ & Ho').
    rewrite (listRevision_len s1 (H ++ H2)) by done. eexists _, _, s1. split; [done|]. done.
Qed.
End cache.

(** C40: the watch loop's retry delay stays between one and thirty seconds, whatever
    the store answers. *)
Theorem watch_backoff_bounded {S : Type} `{StoreOps S} (ExtractList : ObjectList -> result (list runtimeObject))
    i ws (s : S) i' ws' s' :
  (second <= wsBackoff ws <= maxBackoff)%Z ->
  openWatch ExtractList i ws s = Some (i', ws', s') -> (second <= wsBackoff ws' <= maxBackoff)%Z.
Proof.
  intros Hb. assert (Hn : (second <= nextBackoff (wsBackoff ws) <= maxBackoff)%Z).
  { unfold nextBackoff, maxBackoff, second in *. rewrite wrap64_id; [lia|].
    apply in_int64_spec. unfold min_int64, max_int64. lia. }
  assert (Hs : (second <= second <= maxBackoff)%Z) by (unfold maxBackoff, second; lia).
  unfold openWatch. repeat case_match; intros; simplify_eq; done.
Qed.

(** The configuration of an informer. A type with a [WithByObject] entry gets
    the settings of its last entry, each one that entry leaves unset falling back to the default; every
    other type gets the defaults; namespaces and sync period are always the defaults. *)
Theorem cache_config_resolution (GVKForObject : string -> result GVK) opts g :
  let c := NewCache GVKForObject opts in
  let matching := List.filter (fun e => bool_decide (GVKForObject (tName (oType e.1)) = Ret g)) (byObject (cOpts c)) in
  resolveConfig g c =
  match last matching with
  | Some e => configFor (cOpts c) e.2
  | None => configFor (cOpts c) (mkByObject None None None None None)
  end.
Proof.
  unfold NewCache. set (o := foldl _ _ opts). simpl.
  unfold resolveConfig. cbn [cInformerConfigs cOpts].
  match goal with |- context [foldl ?f ∅ (byObject o) !! g] => set (f' := f) end.
  assert (forall l m, foldl f' m l !! g =
    match last (List.filter (fun e => bool_decide (GVKForObject (tName (oType e.1)) = Ret g)) l) with
    | Some e => Some (configFor o e.2) | None => m !! g end) as Hl.
  { intros l. induction l as [|e l IH] using rev_ind; intros m; [done|].
    rewrite foldl_app, List.filter_app. simpl. unfold f' at 1.
    destruct (GVKForObject (tName (oType e.1))) as [g'| |] eqn:E.
    - destruct (decide (g' = g)) as [->|Hne].
      + rewrite bool_decide_true, last_snoc by done. by rewrite lookup_insert_eq.
      + rewrite bool_decide_false, app_nil_r by congruence. by rewrite lookup_insert_ne.
    - rewrite bool_decide_false, app_nil_r by done. apply IH.
    - rewrite bool_decide_false, app_nil_r by done. apply IH. }
  rewrite Hl, lookup_empty. by destruct (last _) as [e|].
Qed.

(** [WaitForCacheSync] answers true only when a round of its loop found every
    informer it knows of synced, false only when its context was done, and it
    returns once the context is done. *)
Theorem cache_wait_sync c rounds :
  (forall b, WaitForCacheSync c rounds = Some b -> exists (over : bool) (c' : storeCache), (over, c') ∈ rounds /\ over = negb b /\
    (b = true -> forall gvk, is_Some (cInformers c !! gvk) -> cSynced c' !! gvk = Some true)) /\
  (forall c', (true, c') ∈ rounds -> is_Some (WaitForCacheSync c rounds)).
Proof.
  unfold WaitForCacheSync. assert (forall gvk, is_Some (cInformers c !! gvk) -> gvk ∈ (map_to_list (cInformers c)).*1) as Hk.
  { intros gvk [i Hi]. apply list_elem_of_fmap. exists (gvk, i). split; [done|by apply elem_of_map_to_list]. }
  revert Hk. generalize (map_to_list (cInformers c)).*1 as gvks. intros gvks Hk.
  induction rounds as [|[d c'] rounds [IH1 IH2]]; simpl; [split; [done|intros c' []%not_elem_of_nil]|].
  split; [|intros c'' [[= <- <-]|Hin]%elem_of_cons; [done|destruct d; [done|]; destruct (allSynced _ _); eauto]].
  intros b. destruct d; [intros [= <-]; exists true, c'; split_and!; [left|done|done]|].
  destruct (allSynced gvks c') eqn:Es.
  - intros [= <-]. exists false, c'. split_and!; [left|done|]. intros _ gvk Hg. unfold allSynced in Es.
    rewrite forallb_forall in Es. specialize (Es gvk (proj1 (list_elem_of_In _ _) (Hk gvk Hg))).
    by destruct (cSynced c' !! gvk) as [[]|].
  - intros E. destruct (IH1 b E) as (d & c'' & Hin & Hr). exists d, c''. split; [by right|done].
Qed.
