(* ===== verification/CacheWitnesses.v ===== *)
(** * The queue, informer, client and cache theorems at concrete inputs

    The laws of the Store interface are instantiated with the in-memory backend,
    the library functions with concrete ones. *)

From S2P Require Import Prelude GoStrconv GoJson GoJsonFacts Objects ObjectFacts.
From S2P Require Import StoreSpec StoreInterface Backend MemoryStore Fixtures MemoryStoreFacts.
From S2P Require Import MemoryStoreRuns MemoryStoreTheorems MemoryInterface MemoryStoreWitnesses EventQueue Informer.
From S2P Require Import InformerFacts InformerTheorems Client ClientTheorems Cache CacheTheorems.

Import Mem Inf Cache.

(** ** Instances *)

#[local] Existing Instance Mem_StoreOps.

Definition memOps : StoreOps MemoryStore := Mem_StoreOps testScheme.
Definition memLaws : StoreLaws (H := memOps) MemoryStore testScheme := Mem_StoreLaws testScheme testScheme_total.

Definition testGVKForObject (t : string) : result GVK :=
  match ObjectKinds testScheme t with
  | Ret (g :: _) => Ret g
  | Ret [] => Fail (OtherError "no kind")
  | Fail e => Fail e
  | Panic => Panic
  end.
Definition testExtractList (l : ObjectList) : result (list runtimeObject) := Ret (map RObject (lItems l)).
Definition testJsonPatch (p : string) (j : json) : result json := Fail (OtherError "not a patch").
(** A merge patch of one field: the colour. *)
Definition testMergePatch (j : json) (c : string) : result json :=
  match j with
  | JObj kvs =>
      Ret (JObj (map (fun kv => if bool_decide (kv.1 = "spec") then (kv.1, JObj [("color", JStr c); ("size", JNum 1)]) else kv) kvs))
  | _ => Ret j
  end.

Definition history (s : MemoryStore) : list change := map toChange (eventLog s).

(** A store whose log was never trimmed has its log as history. *)
Lemma hist_log s : reachable testScheme 10 s -> (length (eventLog s) < 10) -> hist (StoreLaws := memLaws) s (history s).
Proof.
  intros Hr Hl. destruct (reachable_inv testScheme testScheme_total 10 s ltac:(done) Hr) as (H & HI & Hreg & _ & Hm & Hfl).
  assert (history s = H) as ->; [|by split].
  unfold history. pose proof Hfl as E. unfold fullLog in E. rewrite Hm in E. rewrite E. apply lastn_all.
  apply (f_equal length) in E. rewrite length_map, lastn_length in E. change (Z.to_nat 10) with 10 in *. lia.
Qed.

Lemma hist_store1 : hist (StoreLaws := memLaws) store1 (history store1).
Proof. apply hist_log; [apply reachable_store1|vm_compute; lia]. Qed.
Lemma hist_store2 : hist (StoreLaws := memLaws) store2 (history store2).
Proof. apply hist_log; [apply reachable_store2|vm_compute; lia]. Qed.

Lemma history12 : history store1 ++ drop 1 (history store2) = history store2.
Proof. computed. Qed.

Definition plainConfig : informerConfig := mkInformerConfig None false None None None None None.

Lemma plainConfig_good : goodTransform plainConfig.
Proof. intros o _. by exists o. Qed.

Definition informer0 : storeInformer := newStoreInformer widgetGVK plainConfig.
Definition informerH : storeInformer := (AddEventHandler informer0).1.1.
Definition informer1 : storeInformer := default informerH (add w1c informerH).

Lemma InformerInv_informerH : InformerInv ∅ informerH.
Proof. destruct (InformerInv_new widgetGVK plainConfig) as [H1 H2 H3]. by split. Qed.

Lemma InformerInv_informer1 : InformerInv ∅ informer1.
Proof.
  destruct (add_spec ∅ informerH InformerInv_informerH plainConfig_good w1c ltac:(computed)) as (i & E & HI & _).
  assert (add w1c informerH = Some informer1) as E1 by computed.
  rewrite E in E1. apply (inj Some) in E1. by rewrite <- E1.
Qed.

(** ** Queue and informer *)

Definition key1 : ObjectKey := ObjectKeyFromObject w1.
Definition blue1 : Object := recolour "blue" w1c.

Lemma queue_delivers_final_state_witness :
  exists q, enqueueSeq [(key1, mkCacheEvent cacheEventAdd w1c None false);
                        (key1, mkCacheEvent cacheEventUpdate blue1 (Some w1c) false)] newEventQueue = Some q /\
    (forall k, length (pendingOf q k) <= 2).
Proof.
  destruct (queue_delivers_final_state ∅ [(key1, mkCacheEvent cacheEventAdd w1c None false);
    (key1, mkCacheEvent cacheEventUpdate blue1 (Some w1c) false)]) as (q & H1 & H2 & _).
  - split; [done|]. split; [|done]. split; [by eexists|]. computed.
  - repeat constructor.
  - exists q. by split.
Defined.

(** A widget with a label, and an informer with it, [w1c] and an index of the
    colours. *)
Definition front1 : Object :=
  mkObject testWidget
    (mkBase (mkTypeMeta "Widget" "widget.storetest.dev/v1")
            (mkMeta "front" "default" "" "2" 1 (Some {[ "tier" := "front" ]}) None))
    [VStruct [VStr "red"; VInt 1]; VStruct [VBool false; VStr ""]].

Definition colourOf (o : Object) : list string :=
  match oBody o with VStruct (VStr c :: _) :: _ => [c] | _ => [] end.

Definition informerI : storeInformer := addIndexer "spec.color" colourOf informer1.
Definition informerF : storeInformer := default informerI (add front1 informerI).

Definition redFront : ListOptions :=
  mkListOptions "default"
    (Some (mkLabelsSelector (fun ls => bool_decide (ls !! "tier" = Some "front")) false))
    (Some (mkFieldsSelector (fun _ => true) [mkReq "spec.color" OpEquals "red"])).

Lemma reach_informerF : informerReach widgetGVK plainConfig informerF.
Proof.
  apply (ireach_step _ _ informerI); [|apply (istep_add _ front1); computed].
  apply (ireach_step _ _ informer1); [|apply istep_addIndexer].
  apply (ireach_step _ _ informerH); [|apply (istep_add _ w1c); computed].
  apply (ireach_step _ _ informer0); [apply ireach_new|apply istep_AddEventHandler].
Qed.

(** The red widgets of the namespace with the label: [front1], not [w1c]. *)
Lemma informer_list_exact_witness :
  front1 ∈ listItems redFront informerF /\ ~ w1c ∈ listItems redFront informerF.
Proof.
  split; rewrite (informer_list_exact widgetGVK plainConfig informerF redFront _ reach_informerF).
  - split_and!; [exists (ObjectKeyFromObject front1); computed| | |right; computed].
    + intros sel [= <-] r [->|[]%elem_of_nil]%elem_of_cons _. exists colourOf. split; [computed|]. simpl. set_solver.
    + intros sel [= <-]. computed.
  - intros (_ & _ & Hl & _). specialize (Hl _ eq_refl). vm_compute in Hl. discriminate.
Defined.

Lemma wf_history2 : wfHistory (history store2).
Proof. apply (hist_wf (StoreLaws := memLaws) store2), hist_store2. Qed.

Lemma informer_follows_store_witness :
  exists i' rv', handleEvents (eventsOf widgetGVK (history store2)) 0 informer0 = Some (i', rv') /\
    iObjects i' = omap (project plainConfig) (view widgetGVK (history store2)).
Proof.
  destruct (informer_follows_store ∅ informer0 [] (history store2) 0) as (i' & rv' & H1 & H2 & _).
  - apply InformerInv_new.
  - apply plainConfig_good.
  - apply wf_history2.
  - by vm_compute.
  - done.
  - done.
  - exists i', rv'. by split.
Defined.

Lemma informer_handlers_converge_witness :
  exists i' calls, processEvents informer1 = Some (i', calls) /\
    foldl (applyCall 0) ∅ calls = iObjects informer1.
Proof.
  destruct (processEvents informer1) as [[i' calls]|] eqn:E.
  - exists i', calls. split; [done|].
    apply (informer_handlers_converge ∅ informer1 i' calls 0); [apply InformerInv_informer1| | |done].
    + apply (bool_decide_unpack _). by vm_compute.
    + apply (bool_decide_unpack _). by vm_compute.
  - exfalso. assert (is_Some (processEvents informer1)) as [? Hs] by (by vm_compute; eexists). congruence.
Defined.

Lemma informer_replaceAll_witness :
  exists i', replaceAll (map RObject [w1c]) informer0 = Some i' /\
    iObjects i' = omap (project plainConfig) {[ key1 := w1c ]} /\ InformerInv ∅ i'.
Proof.
  apply (informer_replaceAll ∅ informer0 [w1c] {[ key1 := w1c ]}).
  - apply InformerInv_new.
  - apply plainConfig_good.
  - intros k o [<- <-]%lookup_singleton_Some. computed.
  - by rewrite map_to_list_singleton.
  - intros k o o' Hk. simpl in Hk. by rewrite lookup_empty in Hk.
Defined.

Lemma informer_stale_ignored_witness : add w1c informer1 = Some informer1 /\ update w1c informer1 = Some informer1.
Proof.
  apply (informer_stale_ignored informer1 w1c w1c).
  - intros o _. by exists o.
  - computed.
  - computed.
Defined.

(** ** Client *)

Lemma client_DeleteAllOf_witness :
  exists s' H', Cli.DeleteAllOf (H := memOps) testScheme testGVKForObject testExtractList (fun _ s => s) w1 [] store1 = (s', Ret tt) /\
    hist (StoreLaws := memLaws) s' H' /\
    (forall g', g' <> widgetGVK -> view g' H' = view g' (history store1)) /\
    (forall k, view widgetGVK H' !! k =
       match view widgetGVK (history store1) !! k with
       | Some o => if listed (applyOptions []) k o then None else Some o
       | None => None
       end).
Proof.
  apply (client_DeleteAllOf (SL := memLaws) testScheme testGVKForObject testExtractList (fun l => eq_refl)
           store1 (history store1) w1 [] widgetGVK testWidgetList).
  - apply hist_store1.
  - computed.
  - computed.
  - computed.
  - apply okWidgetList.
  - by vm_compute.
Defined.

(** A merge patch of the colour. *)
Definition colourPatch (c : string) : Cli.patch := Cli.mkPatch Cli.MergePatchType (fun _ => Ret c).

Definition patchRun (env : MemoryStore -> MemoryStore) (c : string) : MemoryStore * Object * result unit :=
  Cli.Patch (H := memOps) testJsonPatch testMergePatch env (colourPatch c) w1c store1.

(** Another client that makes the widget blue. *)
Definition makeBlue (s : MemoryStore) : MemoryStore := (Update testScheme (recolour "blue" w1c) s).1.1.

Definition green1 : Object := mkObject (oType w1c) (oBase w1c) [VStruct [VStr "green"; VInt 1]; VStruct [VBool false; VStr ""]].

Lemma version2 : GetResourceVersion <$> view widgetGVK (history store2) !! ObjectKeyFromObject w1c = Some "2".
Proof. computed. Qed.

(** What the patch makes of the object it reads. *)
Lemma green_patched cur :
  UnmarshalObject (MarshalObject w1c) w1c = Some cur ->
  Cli.applyPatch testJsonPatch testMergePatch Cli.MergePatchType "green" (MarshalObject cur) = Ret (MarshalObject green1) /\
  UnmarshalObject (MarshalObject green1) w1c = Some green1.
Proof.
  rewrite UnmarshalObject_self by computed. intros [= <-]. split; computed.
Qed.

(** Alone, a patch to green is written; with the other client in between, it
    conflicts and the blue stays. *)
Lemma client_Patch_witness :
  (exists s' o'' new, patchRun (fun s => s) "green" = (s', o'', Ret tt) /\
     rawField "spec" new = rawField "spec" green1 /\
     appends (hist (StoreLaws := memLaws)) (history store1) widgetGVK (mkEvent EventModified new) s') /\
  patchRun makeBlue "green" = (store2, green1, Fail (ConflictError (keyString key1))).
Proof.
  split.
  - pose proof (client_Patch (SL := memLaws) testScheme testJsonPatch testMergePatch (fun s => s) store1 (history store1) []
      (colourPatch "green") w1c widgetGVK "green" hist_store1 ltac:(rewrite app_nil_r; apply hist_store1) ltac:(by vm_compute)
      ltac:(apply okWidget; computed) I ltac:(computed) eq_refl) as H. cbv zeta in H. rewrite app_nil_r in H.
    replace (view widgetGVK (history store1) !! ObjectKeyFromObject w1c) with (Some w1c) in H by computed.
    destruct H as (cur & Eu & _ & H). destruct (green_patched cur Eu) as [E1 E2]. simpl Cli.pType in H. rewrite E1, E2 in H.
    rewrite UnmarshalObject_self in Eu by computed. injection Eu as <-.
    rewrite decide_True in H by done. destruct (H I) as (_ & s' & o'' & Er & Hw); [computed..|].
    exists s', o''. destruct Hw as [(_ & Hu & _)|(new & Hn & _ & Ha)].
    + exfalso. pose proof (un_fields _ _ Hu "spec" ltac:(apply (bool_decide_unpack _); by vm_compute) ltac:(done)) as E.
      vm_compute in E. discriminate.
    + exists new. split_and!; [exact Er| |exact Ha].
      apply (upd_fields _ _ _ Hn); [apply (bool_decide_unpack _); by vm_compute|done].
  - pose proof (client_Patch (SL := memLaws) testScheme testJsonPatch testMergePatch makeBlue store1 (history store1)
      (drop 1 (history store2)) (colourPatch "green") w1c widgetGVK "green" hist_store1 ltac:(rewrite history12; apply hist_store2)
      ltac:(by vm_compute) ltac:(apply okWidget; computed) I ltac:(computed) eq_refl) as H. cbv zeta in H. rewrite history12 in H.
    replace (view widgetGVK (history store1) !! ObjectKeyFromObject w1c) with (Some w1c) in H by computed.
    destruct H as (cur & Eu & _ & H). destruct (green_patched cur Eu) as [E1 E2]. simpl Cli.pType in H. rewrite E1, E2 in H.
    rewrite UnmarshalObject_self in Eu by computed. injection Eu as <-. specialize (H I ltac:(computed) ltac:(computed)).
    destruct (fmap_Some_1 _ _ _ version2) as (st2 & Ev2 & Er). rewrite Ev2, decide_False in H; [exact H|].
    rewrite <- Er. by vm_compute.
Defined.

Lemma client_subresource_witness :
  exists e, Cli.SubUpdate (H := memOps) (Cli.SubResource "scale") w1 store1 = (store1, w1, Fail e).
Proof.
  apply (client_subresource (SO := memOps) testJsonPatch testMergePatch (fun s => s) "scale" (colourPatch "green") w1 store1).
  done.
Defined.

(** ** Cache *)

Lemma cache_start_syncs_witness :
  exists i ws, startInformer (H := memOps) testScheme testExtractList informer0 store1 = (i, Ret ws) /\
    iObjects i = omap (project plainConfig) (view widgetGVK (history store1)) /\ iSynced i = true /\
    wsLastRV ws = Z.of_nat (length (history store1)) /\ InformerInv ∅ i.
Proof.
  apply (cache_start_syncs (SL := memLaws) testScheme testExtractList (fun l => eq_refl)
           store1 (history store1) widgetGVK plainConfig testWidgetList).
  - apply hist_store1.
  - apply plainConfig_good.
  - computed.
  - computed.
  - apply okWidgetList.
Defined.

(** The informer started at [store1], with the change of [store2] still to come. *)
Definition change2 : list change := drop 1 (history store2).
Definition started : storeInformer := default informer0 (add w1c informer0).
Definition ws1 : watchState := mkWatch 1 second testWidgetList None.

Lemma InformerInv_started : InformerInv ∅ started.
Proof.
  destruct (add_spec ∅ informer0 (InformerInv_new _ _) plainConfig_good w1c ltac:(computed)) as (i & E & HI & _).
  assert (add w1c informer0 = Some started) as E1 by computed.
  rewrite E in E1. apply (inj Some) in E1. by rewrite <- E1.
Qed.

Lemma cache_reconnects_witness :
  exists i1 ws' s1, openWatch (H := memOps) testExtractList started ws1 store2 = Some (i1, ws', s1) /\
    hist (StoreLaws := memLaws) s1 (history store1 ++ change2).
Proof.
  destruct (cache_reconnects (SL := memLaws) testScheme testExtractList (fun l => eq_refl) ∅ store2
    (history store1) change2 started ws1) as (i1 & ws' & s1 & H1 & H2 & _).
  - assert (history store1 ++ change2 = history store2) as -> by computed. apply hist_store2.
  - by vm_compute.
  - apply InformerInv_started.
  - intros o _. by exists o.
  - done.
  - computed.
  - apply okWidgetList.
  - computed.
  - computed.
  - exists i1, ws', s1. by split.
Defined.

Lemma watch_backoff_bounded_witness :
  exists i' ws' s', openWatch (H := memOps) testExtractList started ws1 store2 = Some (i', ws', s') /\
    (second <= wsBackoff ws' <= maxBackoff)%Z.
Proof.
  destruct (openWatch (H := memOps) testExtractList started ws1 store2) as [[[i' ws'] s']|] eqn:E.
  - exists i', ws', s'. split; [done|].
    apply (watch_backoff_bounded (H := memOps) testExtractList started ws1 store2 i' ws' s'); [|exact E].
    clear E. by vm_compute.
  - exfalso. assert (is_Some (openWatch (H := memOps) testExtractList started ws1 store2)) as [? Hs]
      by (by vm_compute; eexists). congruence.
Defined.

(** ** Where the code departs from its comments *)

Definition appSelector : labelsSelector := mkLabelsSelector (fun m => bool_decide (m !! "app" = Some "x")) false.
Definition labelledConfig : informerConfig := mkInformerConfig None false (Some appSelector) None None None None.
Definition withApp (v : string) (o : Object) : Object :=
  withMeta (fun m => mkMeta (mName m) (mNamespace m) (mUID m) (mResourceVersion m) (mGeneration m)
    (Some {[ "app" := v ]}) (mAnnotations m)) o.
Definition storeA : MemoryStore := (Mem.Create testScheme (withApp "x" w1) store0).1.1.
Definition objA : Object := (Mem.Create testScheme (withApp "x" w1) store0).1.2.
Definition storeB : MemoryStore := (Mem.Update testScheme (withApp "y" objA) storeA).1.1.
Definition startedA : storeInformer :=
  (startInformer (H := memOps) testScheme testExtractList (newStoreInformer widgetGVK labelledConfig) storeA).1.

(** With a label selector an informer can keep an object that no longer
    matches: the update that took the label away, replayed after a reconnect,
    is dropped by the backend's filter and never reaches the informer. *)
Theorem label_selector_keeps_stale_object :
  match openWatch (H := memOps) testExtractList startedA ws1 storeB with
  | Some (i1, mkWatch rv _ _ (Some p), s1) =>
      sBuffered (StoreOps := memOps) p s1 = [] /\ iObjects i1 !! key1 = Some objA /\
      project labelledConfig (withApp "y" objA) = None /\
      (GetLabels <$> objectsOf s1 widgetGVK !! key1) = Some {[ "app" := "y" ]}
  | _ => False
  end.
Proof. vm_compute. split_and!; exact eq_refl. Qed.

(** Coalescing drops a delete when an add arrives for an object the handlers
    already know: the handler is never told that the object is gone. *)
Theorem add_then_delete_of_known_object_is_dropped :
  enqueueSeq [(key1, mkCacheEvent cacheEventAdd blue1 None false);
              (key1, mkCacheEvent cacheEventDelete blue1 None false)] newEventQueue =
  Some (mkQueue [key1] ∅ false).
Proof. computed. Qed.
