(* ===== verification/CacheSystem.v ===== *)
(** * A running informer: cache.go, startInformer, watchInformer, processEvents

    One informer of a started cache with its goroutines: the one that lists the
    store and then runs the watch loop, the event processor, and the goroutines
    that register handlers and indices; next to them the other clients of the
    store. A state has the program counter of each goroutine, and a step is one
    critical section or one handler call of one of them, so an interleaving is a
    sequence of steps. Go's [select] picks any case that is ready. *)

From S2P Require Import Prelude GoStrconv GoJson GoJsonFacts Objects ObjectFacts.
From S2P Require Import StoreSpec StoreInterface StreamInterface Backend EventQueue Informer InformerSteps Cache.

Module Sys.
Import Inf InfS Cache.

(** ** State *)

(** Where the goroutine of [startInformer] and [watchInformer] is. *)
Inductive pc : Type :=
| Listing                                                  (** before [store.List] *)
| Adding (items : list runtimeObject) (lst : ObjectList)   (** in the loop over the items *)
| Top (ws : watchState)                                    (** at the top of the watch loop *)
| Relisting (ws : watchState)                              (** the watch was too old: before [relistInformer] *)
| Replacing (items : list runtimeObject) (ws : watchState) (** listed: before [replaceAll] *)
| BackingOff (ws : watchState)                             (** in the wait for [backoff] *)
| Receiving (p : nat) (ws : watchState)                    (** at the select of the event loop *)
| Closing (p : nat) (ws : option watchState)               (** in [watcher.Stop()], then pause or return *)
| Removing (p : nat) (ws : option watchState)
| Pausing (ws : watchState)                                (** in the wait for 100ms *)
| Returned
| Failed.                                                  (** [startInformer] returned an error *)

(** Where the processor is: waiting in [drain], with a drained batch, calling
    the handlers, ended. *)
Inductive round : Type :=
| Draining
| Took (order : list ObjectKey) (events : gmap ObjectKey (list cacheEvent))
| Calling (calls : list handlerCall)
| Ended.

Record system (S : Type) : Type := mkSystem {
  sysStore : S;
  sysInformer : storeInformer;
  sysPC : pc;
  sysTodo : todo;                  (** events the watch goroutine has still to enqueue *)
  sysRound : round;
  sysReplays : list handlerCall;   (** calls [AddEventHandler] has still to make *)
  sysCalls : list handlerCall;     (** the handler calls made so far *)
  sysDone : bool;                  (** the cache's context is done *)
}.
Arguments mkSystem {S}.
Arguments sysStore {S}.
Arguments sysInformer {S}.
Arguments sysPC {S}.
Arguments sysTodo {S}.
Arguments sysRound {S}.
Arguments sysReplays {S}.
Arguments sysCalls {S}.
Arguments sysDone {S}.

Section system.
Context {S : Type} `{StoreOps S} `{StreamOps S} (scheme : Scheme).
Context (ExtractList : ObjectList -> result (list runtimeObject)).

Definition withStore (s : S) (y : system S) : system S :=
  mkSystem s (sysInformer y) (sysPC y) (sysTodo y) (sysRound y) (sysReplays y) (sysCalls y) (sysDone y).
Definition withInformer (i : storeInformer) (y : system S) : system S :=
  mkSystem (sysStore y) i (sysPC y) (sysTodo y) (sysRound y) (sysReplays y) (sysCalls y) (sysDone y).
Definition goto (c : pc) (y : system S) : system S :=
  mkSystem (sysStore y) (sysInformer y) c (sysTodo y) (sysRound y) (sysReplays y) (sysCalls y) (sysDone y).
Definition enqueueing (t : todo) (y : system S) : system S :=
  mkSystem (sysStore y) (sysInformer y) (sysPC y) t (sysRound y) (sysReplays y) (sysCalls y) (sysDone y).
Definition inRound (r : round) (y : system S) : system S :=
  mkSystem (sysStore y) (sysInformer y) (sysPC y) (sysTodo y) r (sysReplays y) (sysCalls y) (sysDone y).
Definition calling (c : handlerCall) (y : system S) : system S :=
  mkSystem (sysStore y) (sysInformer y) (sysPC y) (sysTodo y) (sysRound y) (sysReplays y) (sysCalls y ++ [c]) (sysDone y).
Definition replaying (cs : list handlerCall) (y : system S) : system S :=
  mkSystem (sysStore y) (sysInformer y) (sysPC y) (sysTodo y) (sysRound y) cs (sysCalls y) (sysDone y).

(** ** The goroutine of startInformer and watchInformer

    [None] is a step that cannot be made: a wait, or a panic. *)

(** The list into which [startInformer] reads. *)
Definition listStep (y : system S) : option (system S) :=
  let gvk := iGVK (sysInformer y) in
  match SchemeNew scheme (mkGVK (gGroup gvk) (gVersion gvk) (gKind gvk +:+ "List")) with
  | Panic => None
  | Ret (RList lst) =>
      let (lst, r) := sList lst (selectorOpts (iConfig (sysInformer y))) (sysStore y) in
      match r with
      | Panic => None
      | Fail _ => Some (goto Failed y)
      | Ret _ =>
          match ExtractList lst with
          | Panic => None
          | Fail _ => Some (goto Failed y)
          | Ret items => Some (goto (Adding items lst) y)
          end
      end
  | _ => Some (goto Failed y)
  end.

(** One item of the list; after the last one the informer is synced and the
    watch loop starts from the list's resource version. *)
Definition addStep (items : list runtimeObject) (lst : ObjectList) (y : system S) : option (system S) :=
  match items with
  | [] => Some (goto (Top (mkWatch (listRevision lst) second lst None)) (withInformer (setSynced true (sysInformer y)) y))
  | RObject obj :: items =>
      (fun ie => goto (Adding items lst) (enqueueing ie.2 (withInformer ie.1 y))) <$> addLocked obj (sysInformer y)
  | _ :: items => Some (goto (Adding items lst) y)
  end.

(** The top of the loop: return when the context is done, else open a watch
    from the last resource version. *)
Definition topStep (ws : watchState) (y : system S) : option (system S) :=
  if sysDone y then Some (goto Returned y)
  else
    let opts := WatchFromRevision (wsLastRV ws) :: watchOpts (iConfig (sysInformer y)) in
    match sWatch (wsList ws) opts (sysStore y) with
    | None | Some (_, Panic) => None
    | Some (s, Ret p) =>
        Some (goto (Receiving p (mkWatch (wsLastRV ws) second (wsList ws) (Some p)))
                (withInformer (setWatcher p (sysInformer y)) (withStore s y)))
    | Some (s, Fail err) =>
        Some (goto (if asRevisionTooOld err then Relisting ws else BackingOff ws) (withStore s y))
    end.

(** [relistInformer] up to [replaceAll]; an error leads to the wait. *)
Definition relistStep (ws : watchState) (y : system S) : option (system S) :=
  let (lst, r) := sList (wsList ws) (selectorOpts (iConfig (sysInformer y))) (sysStore y) in
  let ws := mkWatch (wsLastRV ws) (wsBackoff ws) lst None in
  match r with
  | Panic => None
  | Fail _ => Some (goto (BackingOff ws) y)
  | Ret _ =>
      match ExtractList lst with
      | Panic => None
      | Fail _ => Some (goto (BackingOff ws) y)
      | Ret items => Some (goto (Replacing items ws) y)
      end
  end.

Definition replaceStep (items : list runtimeObject) (ws : watchState) (y : system S) : option (system S) :=
  (fun ie => goto (Top (mkWatch (listRevision (wsList ws)) second (wsList ws) None)) (enqueueing ie.2 (withInformer ie.1 y)))
  <$> replaceLocked items (sysInformer y).

(** The receive case of the event loop. *)
Definition receiveStep (p : nat) (ws : watchState) (y : system S) : option (system S) :=
  match sReceive p (sysStore y) with
  | (_, WouldBlock) => None
  | (s, RecvClosed) => Some (goto (Closing p (Some ws)) (withStore s y))
  | (s, Received ev _) =>
      (fun r => goto (Receiving p (mkWatch r.2 (wsBackoff ws) (wsList ws) (wsWatcher ws)))
                  (enqueueing r.1.2 (withInformer r.1.1 (withStore s y))))
      <$> handleLocked ev (wsLastRV ws) (sysInformer y)
  end.

(** The next step of the goroutine when it does not take a case of the context
    or of the resync ticker. *)
Definition loopStep (y : system S) : option (system S) :=
  match sysTodo y with
  | (key, evt) :: rest => (fun i => enqueueing rest (withInformer i y)) <$> enqueueEvent key evt (sysInformer y)
  | [] =>
      match sysPC y with
      | Listing => listStep y
      | Adding items lst => addStep items lst y
      | Top ws => topStep ws y
      | Relisting ws => relistStep ws y
      | Replacing items ws => replaceStep items ws y
      | BackingOff ws => Some (goto (Top (mkWatch (wsLastRV ws) (nextBackoff (wsBackoff ws)) (wsList ws) None)) y)
      | Receiving p ws => receiveStep p ws y
      | Closing p ws => (fun s => goto (Removing p ws) (withStore s y)) <$> sStopClose p (sysStore y)
      | Removing p ws =>
          (fun s => goto (match ws with Some ws => Pausing (watchClosed ws) | None => Returned end) (withStore s y))
          <$> sRemoveWatcher p (sysStore y)
      | Pausing ws => Some (goto (Top ws) y)
      | Returned | Failed => None
      end
  end.

(** The case [<-ctx.Done()] of its selects. *)
Definition doneStep (y : system S) : option (system S) :=
  if sysDone y then
    match sysTodo y, sysPC y with
    | [], Receiving p _ => Some (goto (Closing p None) y)
    | [], (BackingOff _ | Pausing _) => Some (goto Returned y)
    | _, _ => None
    end
  else None.

(** The case [<-syncCh] of the event loop, there when a sync period is set. *)
Definition tickStep (y : system S) : option (system S) :=
  match sysTodo y, sysPC y, cfgSyncPeriod (iConfig (sysInformer y)) with
  | [], Receiving _ _, Some d => if (0 <? d)%Z then Some (enqueueing (resyncEvents (sysInformer y)) y) else None
  | _, _, _ => None
  end.

(** ** The processor *)

Definition processorStep (y : system S) : option (system S) :=
  match sysRound y with
  | Draining =>
      match drain (iQueue (sysInformer y)) with
      | (DrainWaits, _) => None
      | (DrainEnd, _) => Some (inRound Ended y)
      | (Drained order events, q) => Some (inRound (Took order events) (withInformer (setIQueue q (sysInformer y)) y))
      end
  | Took order events => Some (inRound (Calling (processBatch (iHandlers (sysInformer y)) order events)) y)
  | Calling [] => Some (inRound Draining y)
  | Calling (c :: calls) => Some (inRound (Calling calls) (calling c y))
  | Ended => None
  end.

(** The goroutine of [startProcessing] that waits for the context; closing a
    closed queue changes nothing. *)
Definition closeStep (y : system S) : option (system S) :=
  if sysDone y && negb (qClosed (iQueue (sysInformer y)))
  then Some (withInformer (setIQueue (closeQueue (iQueue (sysInformer y))) (sysInformer y)) y) else None.

(** The cache's context is cancelled. *)
Definition cancel (y : system S) : system S :=
  mkSystem (sysStore y) (sysInformer y) (sysPC y) (sysTodo y) (sysRound y) (sysReplays y) (sysCalls y) true.

(** ** Users of the cache *)

(** [AddEventHandler] registers under its locks and calls [OnAdd] after that. *)
Definition registerStep (y : system S) : system S :=
  let '(i, _, calls) := AddEventHandler (sysInformer y) in
  replaying (sysReplays y ++ calls) (withInformer i y).

Definition replayStep (y : system S) : option (system S) :=
  match sysReplays y with
  | [] => None
  | c :: calls => Some (replaying calls (calling c y))
  end.

(** [RemoveEventHandler]; the processor may be calling the handlers it copied. *)
Definition unregisterStep (id : nat) (y : system S) : system S :=
  withInformer (RemoveEventHandler id (sysInformer y)).1 y.

Definition indexStep (fld : string) (extractValue : Object -> list string) (y : system S) : system S :=
  withInformer (addIndexer fld extractValue (sysInformer y)) y.

Definition indexersStep (indexers : gmap string (Object -> error + list string)) (y : system S) : system S :=
  withInformer (AddIndexers indexers (sysInformer y)) y.

(** [RemoveInformer] calls [stop]: the queue is closed, the watcher stopped; here
    without a step of anybody else in between. *)
Definition removeStep (y : system S) : option (system S) :=
  let (i, w) := stop (sysInformer y) in
  let y := withInformer i y in
  match w with
  | None => Some y
  | Some p => (fun s => withStore s y) <$> (sStopClose p (sysStore y) ≫= sRemoveWatcher p)
  end.

(** A started informer: handlers and indices may be there already. *)
Definition start (i : storeInformer) (s : S) : system S := mkSystem s i Listing [] Draining [] [] false.

End system.
End Sys.
