(* ===== verification/CacheDelivery.v ===== *)
(** * What handlers of a running informer know

    The calls made to a handler that was registered before the informer started
    make sense to it, and what it knows, then the batch being delivered, then the
    queue, then the events still to be enqueued lead to the cached objects. This
    holds through every step of the goroutines, whatever the watch loop does. *)

From S2P Require Import Prelude GoStrconv GoJson GoJsonFacts Objects ObjectFacts.
From S2P Require Import StoreSpec StoreInterface StreamInterface Backend EventQueue Informer InformerFacts InformerTheorems.
From S2P Require Import InformerSteps Cache CacheSystem.

Import Inf InfS Cache Sys.

Definition callOf (c : handlerCall) : nat := match c with OnAdd h _ _ | OnUpdate h _ _ | OnDelete h _ => h end.

(** What handler [h] knows after some calls. *)
Definition knows (h : nat) (calls : list handlerCall) : gmap ObjectKey Object := foldl (applyCall h) ∅ calls.

(** What the processor has in hand leads handler [h] from [D] to [M]. *)
Definition roundTo (h : nat) (D : gmap ObjectKey Object) (r : round) (M : gmap ObjectKey Object) : Prop :=
  match r with
  | Draining => D = M
  | Took order events => exists q, QueueInv D q M /\ qOrder q = order /\ qPending q = events
  | Calling calls => callsFit h D calls /\ foldl (applyCall h) D calls = M
  | Ended => False
  end.

(** What handler [h] has been told, with the batch in hand, leads it to [M]. *)
Record toldTo (h : nat) (i : storeInformer) (r : round) (replays calls : list handlerCall) (M : gmap ObjectKey Object) : Prop := {
  tt_registered : h ∈ iHandlers i;
  tt_fit : callsFit h ∅ calls;
  tt_replays : Forall (fun c => callOf c <> h) replays;
  tt_round : roundTo h (knows h calls) r M;
}.

(** The queue leads from what handler [h] has been told (from something, when no
    handler is given) to the cached objects. *)
Record Delivery (h : option nat) (i : storeInformer) (t : todo) (r : round) (replays calls : list handlerCall) : Prop := {
  dl_nodup : NoDup (iHandlers i);
  dl_ids : Forall (fun x => x < iNextID i) (iHandlers i);
  dl_alive : r <> Ended;
  dl_leads : exists M0 M, from_option (fun h => toldTo h i r replays calls M0) True h /\ QueueInv M0 (iQueue i) M /\
    keyedFit M t /\ foldl applyKeyed M t = iObjects i /\ Forall (fun ke => ObjectKeyFromObject (ceObj ke.2) = ke.1) t;
}.

(** ** Removing a handler *)

Lemma removeFirst_sublist id hs : removeFirst id hs `sublist_of` hs.
Proof. induction hs as [|x hs IH]; simpl; [done|]. case_bool_decide; [by apply sublist_cons|by apply sublist_skip]. Qed.

Lemma removeFirst_other id hs x : x <> id -> x ∈ hs -> x ∈ removeFirst id hs.
Proof. induction hs as [|z hs IH]; simpl; [done|]. case_bool_decide; set_solver. Qed.

(** ** Calls for others *)

Lemma applyCall_other h D c : callOf c <> h -> applyCall h D c = D.
Proof. destruct c; simpl; intros; by case_decide. Qed.

Lemma callFits_other h D c : callOf c <> h -> callFits h D c.
Proof. destruct c; simpl; intros Hne E; by destruct Hne. Qed.

Lemma callsFit_snoc h D calls c : callsFit h D calls -> callFits h (foldl (applyCall h) D calls) c -> callsFit h D (calls ++ [c]).
Proof. intros H1 H2. apply callsFit_app. by split. Qed.

Lemma knows_snoc h calls c : knows h (calls ++ [c]) = applyCall h (knows h calls) c.
Proof. unfold knows. by rewrite foldl_app. Qed.

(** The round goes on. *)
Lemma delivery_round h i t r replays calls r' replays' calls' :
  Delivery h i t r replays calls -> r' <> Ended ->
  (forall x M, h = Some x -> toldTo x i r replays calls M -> toldTo x i r' replays' calls' M) ->
  Delivery h i t r' replays' calls'.
Proof.
  intros [H1 H2 H3 (M0 & M & Ht & Hrest)] Hr Ht'. split; try done. exists M0, M. split; [|done].
  destruct h as [x|]; [|done]. by apply Ht'.
Qed.

Section delivery.
Context (h : option nat) (i : storeInformer) (t : todo) (r : round) (replays calls : list handlerCall).
Hypothesis Hd : Delivery h i t r replays calls.

(** ** The watch goroutine *)

(** A critical section of the informer. *)
Lemma delivery_locked i' evts M : t = [] -> lockedTo i i' evts M -> Delivery h i' evts r replays calls.
Proof using Hd.
  intros -> [_ (_ & _ & Eh & _) Eq Ei Eo Hf Hl He]. destruct Hd as [H1 H2 H3 (M0 & M1 & Ht & Hq & _ & E & _)].
  simpl in E. subst M1. split; rewrite ?Eh, ?Ei; try done. exists M0, (iObjects i). rewrite Eq, Eo. split_and!; try done.
  destruct h as [x|]; [|done]. destruct Ht. by split; rewrite ?Eh.
Qed.

(** Changes the delivery does not depend on. *)
Lemma delivery_same i' :
  iHandlers i' = iHandlers i -> iNextID i' = iNextID i -> iQueue i' = iQueue i -> iObjects i' = iObjects i ->
  Delivery h i' t r replays calls.
Proof using Hd.
  intros Eh Ei Eq Eo. destruct Hd as [H1 H2 H3 (M0 & M1 & Ht & Hrest)]. split; rewrite ?Eh, ?Ei, ?Eq, ?Eo; try done.
  exists M0, M1. split; [|done]. destruct h as [x|]; [|done]. destruct Ht. by split; rewrite ?Eh.
Qed.

Lemma delivery_enqueue key evt rest :
  t = (key, evt) :: rest ->
  exists q, enqueueEvent key evt i = Some (setIQueue q i) /\ Delivery h (setIQueue q i) rest r replays calls.
Proof using Hd.
  intros ->. destruct Hd as [H1 H2 H3 (M0 & M & Ht & Hq & [Hf Hfs] & E & He)].
  apply Forall_cons in He as [Hk He]. simpl in *.
  destruct (enqueue_inv M0 (iQueue i) M key evt Hq Hf Hk) as (q & Eq & Hq').
  exists q. unfold enqueueEvent. rewrite Eq. split; [done|]. split; try done. exists M0, (applyKeyed M (key, evt)).
  split_and!; try done. destruct h as [x|]; [|done]. destruct Ht. by split.
Qed.

(** ** The processor *)

Lemma delivery_drain order events q :
  r = Draining -> drain (iQueue i) = (Drained order events, q) ->
  Delivery h (setIQueue q i) t (Took order events) replays calls.
Proof using Hd.
  intros ->. unfold drain. case_bool_decide as En; [by destruct (qClosed (iQueue i))|]. intros [= <- <- <-].
  destruct Hd as [H1 H2 H3 (M0 & M & Ht & Hq & Hrest)]. split; try done.
  exists M, M. split; [|split; [simpl; rewrite (qi_open _ _ _ Hq); apply newEventQueue_inv|exact Hrest]].
  destruct h as [x|]; [|done]. destruct Ht as [Hx Hf Hr E]. simpl in E. subst M0. split; try done. by exists (iQueue i).
Qed.

Lemma delivery_open : qClosed (iQueue i) = false.
Proof using Hd. destruct Hd as [_ _ _ (M0 & M & _ & Hq & _)]. apply Hq. Qed.

Lemma delivery_took order events :
  r = Took order events -> Delivery h i t (Calling (processBatch (iHandlers i) order events)) replays calls.
Proof using Hd.
  intros ->. apply (delivery_round _ _ _ _ _ _ _ _ _ Hd); [done|]. intros x M _ [Hx Hf Hr (q & Hq & <- & <-)]. split; try done.
  by destruct (process_spec _ q M x (iHandlers i) Hq (dl_nodup _ _ _ _ _ _ Hd) Hx).
Qed.

Lemma delivery_call c cs : r = Calling (c :: cs) -> Delivery h i t (Calling cs) replays (calls ++ [c]).
Proof using Hd.
  intros ->. apply (delivery_round _ _ _ _ _ _ _ _ _ Hd); [done|]. intros x M _ [Hx Hf Hr [[Hc Hcs] E]]. split; try done.
  - by apply callsFit_snoc.
  - by rewrite knows_snoc.
Qed.

Lemma delivery_called : r = Calling [] -> Delivery h i t Draining replays calls.
Proof using Hd. intros ->. apply (delivery_round _ _ _ _ _ _ _ _ _ Hd); [done|]. by intros x M _ [Hx Hf Hr [_ E]]. Qed.

(** ** Users of the cache *)

Lemma delivery_replay c cs : replays = c :: cs -> Delivery h i t r cs (calls ++ [c]).
Proof using Hd.
  intros ->. apply (delivery_round _ _ _ _ _ _ _ _ _ Hd); [apply Hd|]. intros x M _ [Hx Hf [Hc Hcs]%Forall_cons E]. split; try done.
  - by apply callsFit_snoc, callFits_other.
  - by rewrite knows_snoc, applyCall_other.
Qed.

Lemma delivery_register i' id new :
  AddEventHandler i = (i', id, new) -> Delivery h i' t r (replays ++ new) calls.
Proof using Hd.
  intros [= <- <- <-]. destruct Hd as [H1 H2 H3 (M0 & M & Ht & Hrest)].
  assert (iNextID i ∉ iHandlers i) as Hn by (intros Hin; rewrite Forall_forall in H2; specialize (H2 _ Hin); lia).
  split; simpl; try done.
  - apply NoDup_app. split_and!; [done|set_solver|apply NoDup_singleton].
  - apply Forall_app. split; [eapply Forall_impl; [exact H2|]; simpl; lia|repeat constructor].
  - exists M0, M. split; [|done]. destruct h as [x|]; [|done]. destruct Ht as [Hx Hf Hr E]. split; simpl; try done; [set_solver|].
    apply Forall_app. split; [done|]. apply Forall_forall. intros c (o & -> & _)%list_elem_of_fmap. simpl. set_solver.
Qed.

Lemma delivery_unregister id :
  from_option (fun h => h <> id) True h -> Delivery h (RemoveEventHandler id i).1 t r replays calls.
Proof using Hd.
  intros Hh. unfold RemoveEventHandler. case_bool_decide as Hid; [|done]. destruct Hd as [H1 H2 H3 (M0 & M & Ht & Hrest)].
  split; simpl; try done.
  - by eapply sublist_NoDup; [|apply removeFirst_sublist].
  - rewrite Forall_forall in H2 |- *. intros x Hx. apply H2. eapply elem_of_sublist; [exact Hx|apply removeFirst_sublist].
  - exists M0, M. split; [|done]. destruct h as [x|]; [|done]. destruct Ht as [Hx Hf Hr E]. split; simpl; try done.
    by apply removeFirst_other.
Qed.
End delivery.

(** When nothing is left to deliver the handler knows the cached objects. *)
Lemma delivery_settled h i replays calls :
  Delivery (Some h) i [] Draining replays calls -> qPending (iQueue i) = ∅ -> knows h calls = iObjects i.
Proof.
  intros [_ _ _ (M0 & M & Ht & Hq & _ & E & _)] He. pose proof (tt_round _ _ _ _ _ _ Ht) as Hr. simpl in *. subst M M0.
  apply map_eq. intros k. rewrite <- (qi_after _ _ _ Hq k). unfold pendingOf. by rewrite He.
Qed.

Lemma delivery_calls h i t r replays calls : Delivery (Some h) i t r replays calls -> callsFit h ∅ calls.
Proof. intros [_ _ _ (M0 & M & Ht & _)]. apply Ht. Qed.

(** ** Informers before the start *)

Inductive freshInformer (g : GVK) (c : informerConfig) : storeInformer -> Prop :=
| fresh_new : freshInformer g c (newStoreInformer g c)
| fresh_handler i : freshInformer g c i -> freshInformer g c (AddEventHandler i).1.1
| fresh_index i fld f : freshInformer g c i -> freshInformer g c (addIndexer fld f i).

Lemma fresh_facts g c i :
  freshInformer g c i ->
  CacheInv i /\ iGVK i = g /\ iConfig i = c /\ iObjects i = ∅ /\ iQueue i = newEventQueue /\
  NoDup (iHandlers i) /\ Forall (fun x => x < iNextID i) (iHandlers i) /\ iSynced i = false.
Proof.
  induction 1 as [|i _ (Hi & Hg & Hc & Ho & Hq & Hn & Hids & Hsy)|i fld f _ (Hi & Hg & Hc & Ho & Hq & Hn & Hids & Hsy)].
  - split_and!; try done; [apply CacheInv_new|apply NoDup_nil_2].
  - split_and!; try done; simpl.
    + by destruct Hi.
    + apply NoDup_app. split_and!; [done| |apply NoDup_singleton]. intros x Hx ->%list_elem_of_singleton.
      rewrite Forall_forall in Hids. specialize (Hids _ Hx). lia.
    + apply Forall_app. split; [eapply Forall_impl; [exact Hids|]; simpl; lia|repeat constructor].
  - split_and!; try done. destruct Hi as [Hx Hk]. split; [by apply addIndexer_inv|done].
Qed.

Lemma delivery_start g c i h :
  freshInformer g c i -> from_option (fun h => h ∈ iHandlers i) True h -> Delivery h i [] Draining [] [].
Proof.
  intros Hf Hh. destruct (fresh_facts g c i Hf) as (_ & _ & _ & Ho & Hq & Hn & Hids & _). split; try done.
  exists ∅, ∅. rewrite Ho, Hq. split_and!; try done; [|apply newEventQueue_inv]. destruct h as [x|]; [|done]. by split.
Qed.
