(* ===== verification/CachePosition.v ===== *)
(** * Where a running informer is in the store's history

    While the cache's context lives, the cached objects are those of the store
    after some prefix of its history, the watcher's channel holds what follows
    that prefix, and every step of the watch goroutine moves it closer to the end.
    Proved for every store that satisfies the laws of [StreamLaws]. *)

From S2P Require Import Prelude GoStrconv GoJson GoJsonFacts Objects ObjectFacts.
From S2P Require Import StoreSpec StoreInterface StreamInterface Backend EventQueue Informer InformerFacts InformerTheorems.
From S2P Require Import InformerSteps Cache CacheTheorems CacheSystem CacheDelivery.

Import Inf InfS Cache Sys.

(** ** Histories *)

(** The first event of a GVK in a history. *)
Lemma eventsOf_cons g H e es :
  eventsOf g H = e :: es ->
  exists A c B, H = A ++ c :: B /\ eventsOf g A = [] /\ cGVK c = g /\ cEvent c = e /\ eventsOf g B = es.
Proof.
  induction H as [|c H IH]; [done|]. change (c :: H) with ([c] ++ H). rewrite eventsOf_app, eventsOf_single.
  case_bool_decide as Hc; simpl.
  - intros [= <- <-]. by exists [], c, H.
  - intros (A & c' & B & -> & EA & Hg & He & EB)%IH. exists (c :: A), c', B. split_and!; try done.
    change (c :: A) with ([c] ++ A). by rewrite eventsOf_app, eventsOf_single, bool_decide_false, EA.
Qed.

Lemma eventsOf_length g H : length (eventsOf g H) <= length H.
Proof. unfold eventsOf. rewrite length_map. apply List.filter_length_le. Qed.

Lemma view_skip g H A : eventsOf g A = [] -> view g (H ++ A) = view g H.
Proof. intros E. by rewrite view_app, E. Qed.

Lemma view_size g H : size (view g H) <= length H.
Proof.
  induction H as [|c H IH] using rev_ind; [done|]. rewrite view_app, eventsOf_single, length_app. simpl.
  case_bool_decide; simpl; [|lia]. unfold applyEvent.
  destruct (evType (cEvent c)); rewrite ?map_size_insert, ?map_size_delete; repeat case_match; simpl; lia.
Qed.

(** ** Adding the listed objects one by one *)

Definition addProjected (c : informerConfig) (m : gmap ObjectKey Object) (o : Object) : gmap ObjectKey Object :=
  partial_alter (fun _ => project c o) (ObjectKeyFromObject o) m.

Lemma addProjected_lookup c items m :
  NoDup (map ObjectKeyFromObject items) ->
  (forall o, o ∈ items -> foldl (addProjected c) m items !! ObjectKeyFromObject o = project c o) /\
  (forall k, k ∉ map ObjectKeyFromObject items -> foldl (addProjected c) m items !! k = m !! k).
Proof.
  revert m. induction items as [|o items IH]; intros m; simpl; [set_solver|]. intros [Hn Hnd]%NoDup_cons.
  destruct (IH (addProjected c m o) Hnd) as [H1 H2]. split.
  - intros o' [->|Ho']%elem_of_cons; [|auto]. rewrite H2 by done. unfold addProjected. by rewrite lookup_partial_alter_eq.
  - intros k Hk. rewrite H2 by set_solver. unfold addProjected. rewrite lookup_partial_alter_ne; [done|]. set_solver.
Qed.

Lemma handleLocked_lastRV ev rv i i' evts rv' r :
  handleLocked ev rv i = Some (i', evts, rv') -> GetResourceVersion (evObject ev) = FormatInt r -> in_int64 r = true ->
  rv' = Z.max rv r.
Proof.
  unfold handleLocked. intros E Er Hr. rewrite Er, ParseInt_FormatInt in E by done.
  apply fmap_Some in E as ([? ?] & _ & [= -> -> ->]). destruct (Z.ltb_spec rv r); lia.
Qed.

(** One change of a history, seen by an informer of its GVK. *)
Lemma change_locked i H c rv :
  CacheInv i -> goodTransform (iConfig i) -> wfHistory (H ++ [c]) ->
  (Z.of_nat (length (H ++ [c])) <= max_int64)%Z -> cGVK c = iGVK i ->
  iObjects i = omap (project (iConfig i)) (view (iGVK i) H) ->
  exists i' evts, handleLocked (cEvent c) rv i = Some (i', evts, Z.max rv (cRevision c)) /\
    lockedTo i i' evts (omap (project (iConfig i)) (view (iGVK i) (H ++ [c]))).
Proof.
  intros Hi Hg Hwf Hb Hc Ho. assert ((H ++ [c]) !! length H = Some c) as Hl
    by (by rewrite lookup_app_r, Nat.sub_diag by lia).
  pose proof (wfh_revision _ Hwf _ _ Hl) as Hrev. pose proof (wfh_object _ Hwf _ _ Hl) as Hobj.
  pose proof (wfh_fits _ Hwf _ _ Hl) as Hfit. rewrite take_app_length, Hc in Hfit.
  assert (Hin : forall n, n <= S (length H) -> in_int64 (Z.of_nat n) = true).
  { intros n Hn. eapply revision_in_int64; [|exact Hb]. rewrite length_app. simpl. lia. }
  destruct (handleLocked_to i Hi Hg (view (iGVK i) H) (cEvent c) rv Ho Hfit) as (i' & evts & rv' & E & Hlk).
  - intros k o Hk. apply view_lookup in Hk as (Hk & j & c' & Hj & _ & _ & Hrv); [|by eapply wfHistory_app_l].
    split; [done|]. rewrite Hobj, Hrv, Hrev.
    rewrite (wfh_revision _ (wfHistory_app_l _ _ Hwf) _ _ Hj). apply lookup_lt_Some in Hj.
    apply newerResourceVersion_lt; [apply Hin; lia|apply Hin; lia|lia].
  - exists i', evts. rewrite (handleLocked_lastRV _ _ _ _ _ _ _ E Hobj) in E; [|rewrite Hrev; apply Hin; lia].
    split; [done|]. by rewrite view_app, eventsOf_single, bool_decide_true.
Qed.

Section position.
Context {S : Type} `{SO : StoreOps S} `{ST : StreamOps S} (scheme : Scheme) {SL : StoreLaws S scheme} {STL : StreamLaws S scheme}.
Context (ExtractList : ObjectList -> result (list runtimeObject)).
Hypothesis ExtractList_items : forall l, ExtractList l = Ret (map RObject (lItems l)).

Context (g : GVK) (c : informerConfig).
Hypothesis Hgood : goodTransform c.
Hypothesis Hlabel : cfgLabelSelector c = None.

(** Lists of the informer's GVK. *)
Definition listFor (lst : ObjectList) : Prop := gvkForList scheme lst = Ret g /\ okList scheme g lst.

Context (lst0 : ObjectList).
Hypothesis Hnew : SchemeNew scheme (mkGVK (gGroup g) (gVersion g) (gKind g +:+ "List")) = Ret (RList lst0).
Hypothesis Hlst0 : listFor lst0.

(** What the cache should hold after the first [n] changes. *)
Definition seen (H : list change) (n : nat) : gmap ObjectKey Object := omap (project c) (view g (take n H)).

Record inStep (H : list change) (i : storeInformer) (ws : watchState) (n : nat) : Prop := {
  is_list : listFor (wsList ws);
  is_rv : wsLastRV ws = Z.of_nat n;
  is_bound : n <= length H;
  is_objects : iObjects i = seen H n;
  is_synced : iSynced i = true;
}.

(** The listing of the first [n] changes. *)
Record snapshot (H : list change) (n : nat) (items : list runtimeObject) (lst : ObjectList) (os : list Object) : Prop := {
  sn_list : listFor lst;
  sn_rv : listRevision lst = Z.of_nat n;
  sn_bound : n <= length H;
  sn_items : items = map RObject os;
}.

(** What a watcher holds: the next events, all of them while it is open. *)
Definition follows (H : list change) (n : nat) (w : watcherState) : Prop :=
  wsGVK w = g /\ exists H2 H3, H = take n H ++ H2 ++ H3 /\ wsBuffer w = eventsOf g H2 /\ (wsClosed w = false -> H3 = []).

Definition pcAt (H : list change) (s : S) (i : storeInformer) (done : bool) (x : pc) : Prop :=
  match x with
  | Listing => iObjects i = ∅ /\ iSynced i = false
  | Adding items lst => iSynced i = false /\ exists n os, snapshot H n items lst os /\ NoDup (map ObjectKeyFromObject os) /\
      (forall o, o ∈ os -> iObjects i !! ObjectKeyFromObject o = None) /\
      foldl (addProjected c) (iObjects i) os = seen H n
  | Top ws | Relisting ws | Pausing ws => exists n, inStep H i ws n
  | Replacing items ws => exists n, inStep H i ws n /\ exists n' os V, n <= n' /\ snapshot H n' items (wsList ws) os /\
      os ≡ₚ (map_to_list V).*2 /\ (forall k o, V !! k = Some o -> ObjectKeyFromObject o = k) /\ omap (project c) V = seen H n'
  | Receiving p ws => exists n, inStep H i ws n /\ exists w, watcherAt p s = Some w /\ follows H n w
  | Closing p (Some ws) => exists n, inStep H i ws n /\ exists w, watcherAt p s = Some w
  | Removing p (Some ws) => exists n, inStep H i ws n /\ exists w, watcherAt p s = Some w /\ wsClosed w = true
  | Closing p None => done = true /\ exists w, watcherAt p s = Some w
  | Removing p None => done = true /\ exists w, watcherAt p s = Some w /\ wsClosed w = true
  | Returned => done = true
  | BackingOff _ | Failed => False
  end.

Record Position (H : list change) (y : system S) : Prop := {
  ps_hist : hist (sysStore y) H;
  ps_gvk : iGVK (sysInformer y) = g;
  ps_config : iConfig (sysInformer y) = c;
  ps_cache : CacheInv (sysInformer y);
  ps_pc : pcAt H (sysStore y) (sysInformer y) (sysDone y) (sysPC y);
}.

(** How far the watch goroutine is from waiting for events, or from the end. *)
Definition pcRank (H : list change) (y : system S) : nat :=
  let n := length H in
  let upToDate z := bool_decide (z = Z.of_nat n) in
  match sysPC y with
  | Listing => 2 * n + 11
  | Adding items _ => n + 9 + length items
  | Top ws => if upToDate (wsLastRV ws) then n + 4 else n + 7
  | Relisting _ => n + 6
  | Replacing _ ws => if upToDate (listRevision (wsList ws)) then n + 5 else n + 8
  | Receiving p _ => 3 + match watcherAt p (sysStore y) with
                         | Some w => length (wsBuffer w) + if wsClosed w then n + 8 else 0
                         | None => 0
                         end
  | Closing _ (Some _) => n + 10
  | Removing _ (Some _) => n + 9
  | Pausing _ => n + 8
  | Closing _ None => 2
  | Removing _ None => 1
  | Returned | BackingOff _ | Failed => 0
  end.

Definition delivery (h : option nat) (y : system S) : Prop :=
  Delivery h (sysInformer y) (sysTodo y) (sysRound y) (sysReplays y) (sysCalls y).

(** A step of the watch goroutine that is not an enqueue. *)
Record advanced (H : list change) (y y' : system S) : Prop := {
  ad_position : Position H y';
  ad_delivery : forall h, delivery h y -> delivery h y';
  ad_queue : iQueue (sysInformer y') = iQueue (sysInformer y);
  ad_done : sysDone y' = sysDone y;
  ad_rank : pcRank H y' < pcRank H y;
}.

Lemma listFor_same lst rv items : listFor lst -> listFor (mkList (lName lst) (lItemsField lst) rv items).
Proof using. done. Qed.

Lemma seen_full H n : length H <= n -> seen H n = omap (project c) (view g H).
Proof using. intros Hn. unfold seen. by rewrite take_ge. Qed.

Lemma upToDate_true (H : list change) : bool_decide (Z.of_nat (length H) = Z.of_nat (length H)) = true.
Proof using. by rewrite bool_decide_true. Qed.

Lemma advance H y y' :
  iQueue (sysInformer y') = iQueue (sysInformer y) -> sysDone y' = sysDone y ->
  Position H y' -> (forall h, delivery h y -> delivery h y') -> pcRank H y' < pcRank H y -> advanced H y y'.
Proof using. by split. Qed.

Section step.
Context (H : list change) (y : system S).
Hypothesis Hp : Position H y.
Hypothesis Hroom : hasRoom H.
Hypothesis Htodo : sysTodo y = [].

#[local] Abbreviation i := (sysInformer y).

Lemma revision_ok n : n <= length H -> in_int64 (Z.of_nat n) = true.
Proof using Hp. intros Hn. eapply revision_in_int64; [exact Hn|]. by eapply hist_bound, ps_hist. Qed.

(** ** startInformer *)

Lemma selected_objects os :
  os ≡ₚ (List.filter (fun ko => listed (applyOptions (selectorOpts c)) ko.1 ko.2) (map_to_list (view g H))).*2 ->
  NoDup (map ObjectKeyFromObject os) /\ length os <= length H /\ foldl (addProjected c) ∅ os = omap (project c) (view g H).
Proof using Hp.
  intros Hos. pose proof (ps_hist _ _ Hp) as Hh. destruct (selector_items scheme _ H g c os Hh Hos) as (Hnd & Hin & Hout).
  destruct (addProjected_lookup c os ∅ Hnd) as [Ha Hb]. split_and!; [done| |].
  - rewrite Hos, length_fmap. etrans; [apply List.filter_length_le|]. rewrite length_map_to_list. apply view_size.
  - apply map_eq. intros k. rewrite lookup_omap. destruct (view g H !! k) as [o|] eqn:Ek; simpl.
    + pose proof (view_lookup _ _ _ _ (hist_wf _ _ Hh) Ek) as [Hko _].
      destruct (Hout k o Ek) as [Hi|[Hi Hpr]]; [rewrite <- Hko; by apply Ha|]. by rewrite Hb, Hpr.
    + rewrite Hb; [done|]. intros (o' & -> & Ho')%list_elem_of_fmap. apply Hin in Ho'. congruence.
Qed.

Lemma list_advances : sysPC y = Listing -> exists y', listStep scheme ExtractList y = Some y' /\ advanced H y y'.
Proof using All.
  intros Epc. pose proof Hp as [Hh Eg Ec Hc Hpc]. rewrite Epc in Hpc. destruct Hpc as [Hpc Hsy].
  unfold listStep. rewrite Eg, Hnew, Ec. destruct Hlst0 as [Hgl Hok].
  destruct (law_List _ H lst0 (selectorOpts c) g Hh Hgl Hok) as (os & -> & Hos). rewrite ExtractList_items. cbn [lItems].
  destruct (selected_objects os Hos) as (Hnd & Hlen & Hf). eexists. split; [done|]. apply advance; [done|done| | |].
  - split; try done. split; [done|]. exists (length H), os. split_and!; [|done| |].
    + split; [by apply listFor_same|by apply (listRevision_len scheme (sysStore y) H)|done|done].
    + intros o _. simpl. by rewrite Hpc.
    + simpl. by rewrite Hpc, seen_full.
  - intros h Hdl. unfold delivery. simpl. done.
  - unfold pcRank. rewrite Epc. simpl. rewrite length_map. lia.
Qed.

Lemma add_advances items lst :
  sysPC y = Adding items lst -> exists y', addStep items lst y = Some y' /\ advanced H y y'.
Proof using All.
  intros Epc. pose proof Hp as [Hh Eg Ec Hc Hpc]. rewrite Epc in Hpc.
  destruct Hpc as (Hsy & n & os & [Hl Hrv Hb ->] & Hnd & Hno & Hf). destruct os as [|o os]; simpl in *.
  - eexists. split; [done|]. unfold setSynced. apply advance; [by simpl; destruct (iSynced i)|done| | |].
    + split; simpl; try done; [by destruct (iSynced i)| by destruct (iSynced i)|destruct Hc; by destruct (iSynced i)|].
      exists n. split; try done; [|by rewrite Hsy]. rewrite <- Hf. by destruct (iSynced i).
    + intros h Hdl. unfold delivery. simpl. destruct (iSynced i); [done|]. by apply (delivery_same _ _ _ _ _ _ Hdl).
    + unfold pcRank. rewrite Epc. simpl. case_bool_decide; lia.
  - apply NoDup_cons in Hnd as [Hn Hnd]. pose proof Hgood as Hg. rewrite <- Ec in Hg.
    destruct (addLocked_to i Hc Hg o) as (i' & evts & -> & Hlk); [apply Hno; set_solver|]. simpl.
    eexists. split; [done|]. pose proof (lk_setup _ _ _ _ Hlk) as (Eg' & _ & _ & Ec' & Es' & _).
    rewrite Ec in Hlk. change (partial_alter _ _ _) with (addProjected c (iObjects i) o) in Hlk. apply advance; [apply Hlk|done| | |].
    + split; simpl; try done; [congruence|congruence|apply Hlk|].
      rewrite (lk_objects _ _ _ _ Hlk). split; [congruence|]. exists n, os. split_and!; [done|done| |done].
      intros o' Ho'. unfold addProjected. rewrite lookup_partial_alter_ne; [apply Hno; set_solver|].
      intros E. apply Hn. rewrite E. by apply list_elem_of_fmap_2.
    + intros h Hdl. unfold delivery in *. rewrite Htodo in Hdl. simpl. by eapply delivery_locked.
    + unfold pcRank. rewrite Epc. simpl. lia.
Qed.

(** ** watchInformer *)

Lemma top_advances ws : sysPC y = Top ws -> exists y', topStep ws y = Some y' /\ advanced H y y'.
Proof using All.
  intros Epc. pose proof Hp as [Hh Eg Ec Hc Hpc]. rewrite Epc in Hpc. destruct Hpc as (n & Hs).
  pose proof Hs as [[Hgl Hok] Hrv Hb Ho Hsy]. unfold topStep. destruct (sysDone y) eqn:Hd.
  { eexists. split; [done|]. apply advance; [done|done|by split|done|]. unfold pcRank. rewrite Epc. simpl. case_bool_decide; lia. }
  rewrite Ec.
  assert (Hfrom : forall from, fromRevisionOpt (WatchFromRevision (wsLastRV ws) :: watchOpts c) = Some from -> in_int64 from = true).
  { rewrite fromRevisionOpt_watchOpts, Hrv. intros ? [= <-]. by apply revision_ok. }
  destruct (law_Watch _ H (wsList ws) _ g Hh Hroom Hgl Hfrom) as (s' & r & E & Hh' & Hr).
  pose proof (law_watching (sysStore y) H (wsList ws) (WatchFromRevision (wsLastRV ws) :: watchOpts c) g s') as Hw. rewrite E in *.
  destruct r as [p|e|]; [| |done]; (eexists; split; [done|]).
  - specialize (Hw p Hh Hroom Hgl Hfrom eq_refl).
    rewrite (replayOf_unfiltered _ _ _ _ Hlabel), Hrv, changesSince_drop in Hw by (by eapply hist_wf). apply advance; [done|done| | |].
    + split; simpl; try done; [by destruct Hc|]. exists n. split; [by split|]. eexists. split; [exact Hw|]. split; [done|].
      exists (drop n H), []. by rewrite app_nil_r, take_drop.
    + intros h Hdl. by apply (delivery_same _ _ _ _ _ _ Hdl).
    + unfold pcRank. rewrite Epc. simpl. rewrite Hw. simpl. pose proof (eventsOf_length g (drop n H)) as Hle.
      rewrite length_drop in Hle. case_bool_decide; lia.
  - destruct Hr as (from & Hf & Hlt & oldest & ->). rewrite fromRevisionOpt_watchOpts in Hf. simplify_eq. simpl. apply advance; [done|done| | |].
    + split; simpl; try done. by exists n.
    + done.
    + unfold pcRank. rewrite Epc. simpl. rewrite bool_decide_false by lia. lia.
Qed.

Lemma relist_advances ws : sysPC y = Relisting ws -> exists y', relistStep ExtractList ws y = Some y' /\ advanced H y y'.
Proof using All.
  intros Epc. pose proof Hp as [Hh Eg Ec Hc Hpc]. rewrite Epc in Hpc. destruct Hpc as (n & [[Hgl Hok] Hrv Hb Ho Hsy]).
  unfold relistStep. rewrite Ec. destruct (law_List _ H (wsList ws) (selectorOpts c) g Hh Hgl Hok) as (os & -> & Hos).
  rewrite ExtractList_items. cbn [lItems]. destruct (listed_view scheme _ H g c os Hh Hos) as (Hp' & HV & Eo). cbv zeta in *.
  eexists. split; [done|].
  pose proof (listRevision_len scheme (sysStore y) H (lName (wsList ws)) (lItemsField (wsList ws)) os Hh) as Hlr. apply advance; [done|done| | |].
  - split; simpl; try done. exists n. split; [by split|].
    eexists (length H), os, _. split_and!; [done| |exact Hp'|exact HV|by rewrite seen_full]. by split.
  - done.
  - unfold pcRank. rewrite Epc. simpl. rewrite Hlr, bool_decide_true by done. lia.
Qed.

Lemma replace_advances items ws :
  sysPC y = Replacing items ws -> exists y', replaceStep items ws y = Some y' /\ advanced H y y'.
Proof using All.
  intros Epc. pose proof Hp as [Hh Eg Ec Hc Hpc]. rewrite Epc in Hpc.
  destruct Hpc as (n & [Hl Hrv Hb Ho Hsy] & n' & os & V & Hn & [Hl' Hrv' Hb' ->] & Hp' & HV & EV).
  pose proof Hgood as Hg. rewrite <- Ec in Hg. unfold replaceStep.
  destruct (replaceLocked_to i os V Hc Hg HV Hp') as (i' & evts & -> & Hlk).
  { rewrite Ec, EV, Ho. intros k o o'. unfold seen. rewrite !lookup_omap, !bind_Some. intros (v & Ek & Epr) (v' & Ek' & Epr') Er.
    destruct (project_good _ _ _ Hgood Epr) as [_ E1]. destruct (project_good _ _ _ Hgood Epr') as [_ E2].
    assert (take n' H = take n H ++ drop n (take n' H)) as Et.
    { rewrite <- (take_drop n (take n' H)) at 1. by rewrite take_take, Nat.min_l by lia. }
    assert (v = v') as -> by (eapply (view_rv_unique g (take n H) (drop n (take n' H)) k);
      rewrite <- ?Et; [eapply wfHistory_app_l; rewrite (take_drop n' H); by eapply hist_wf|done|done|congruence]).
    congruence. }
  eexists. split; [done|]. pose proof (lk_setup _ _ _ _ Hlk) as (Eg' & _ & _ & Ec' & Es' & _). rewrite Ec, EV in Hlk. apply advance; [apply Hlk|done| | |].
  - split; simpl; try done; [congruence|congruence|apply Hlk|]. exists n'. split; try done; [apply Hlk|congruence].
  - intros h Hdl. unfold delivery in *. rewrite Htodo in Hdl. simpl. by eapply delivery_locked.
  - unfold pcRank. rewrite Epc. simpl. case_bool_decide; lia.
Qed.

(** Nothing to receive and nobody to tell. *)
Definition waiting : Prop :=
  exists p ws w, sysPC y = Receiving p ws /\ watcherAt p (sysStore y) = Some w /\ wsBuffer w = [] /\ wsClosed w = false.

Lemma receive_advances p ws :
  sysPC y = Receiving p ws -> waiting \/ exists y', receiveStep p ws y = Some y' /\ advanced H y y'.
Proof using All.
  intros Epc. pose proof Hp as [Hh Eg Ec Hc Hpc]. rewrite Epc in Hpc.
  destruct Hpc as (n & Hs & w & Hw & Hg & H2 & H3 & EH & Eb & Ecl). pose proof Hs as [Hl Hrv Hb Ho Hsy].
  pose proof (law_receive _ H p w Hh Hroom Hw) as Hr. unfold receiveStep. destruct (wsBuffer w) as [|e es] eqn:Ew.
  - destruct (wsClosed w) eqn:Ecw; [right|by left; exists p, ws, w]. rewrite Hr. eexists. split; [done|]. apply advance; [done|done| | |].
    + split; simpl; try done. exists n. split; [done|]. by exists w.
    + done.
    + unfold pcRank. rewrite Epc. simpl. rewrite Hw, Ecw. lia.
  - right. destruct Hr as (s' & ch & -> & Hh' & Hw').
    destruct (eventsOf_cons g H2 e es (eq_sym Eb)) as (A & x & B & -> & EA & Hx & <- & EB).
    pose (H1 := take n H ++ A).
    assert (EH' : H = (H1 ++ [x]) ++ B ++ H3) by (unfold H1; rewrite EH at 1; rewrite <- !app_assoc; reflexivity).
    assert (length H1 = n + length A) as Hlen by (unfold H1; rewrite length_app, length_take; lia).
    pose proof (hist_wf _ _ Hh) as Hwf. rewrite EH' in Hwf. pose proof (wfHistory_app_l _ _ Hwf) as Hwf1.
    assert (length H = length (H1 ++ [x]) + length (B ++ H3)) as HlH by (rewrite EH' at 1; by rewrite length_app).
    assert (cRevision x = Z.of_nat (Datatypes.S (length H1))) as Hxr.
    { apply (wfh_revision _ Hwf1). by rewrite lookup_app_r, Nat.sub_diag by lia. }
    pose proof Hgood as Hgd. rewrite <- Ec in Hgd.
    destruct (change_locked i H1 x (wsLastRV ws) Hc Hgd Hwf1) as (i' & evts & E & Hlk);
      [pose proof (hist_bound _ _ Hh); lia|congruence|by rewrite Eg, Ec, Ho; unfold seen, H1; rewrite view_skip|].
    rewrite E. cbn. eexists. split; [done|]. pose proof (lk_setup _ _ _ _ Hlk) as (Eg' & _ & _ & Ec' & Es' & _).
    rewrite Eg, Ec in Hlk. rewrite Hxr, Hrv. rewrite length_app in HlH. simpl in HlH.
    assert (take (Datatypes.S (length H1)) H = H1 ++ [x]) as Et.
    { rewrite EH' at 1. apply take_app_length'. rewrite length_app. simpl. lia. }
    apply advance; [apply Hlk|done| | |].
    + split; simpl; try done; [congruence|congruence|apply Hlk|]. exists (Datatypes.S (length H1)). split.
      * split; simpl; [done|lia|lia| |congruence]. unfold seen. rewrite Et. apply Hlk.
      * eexists. split; [exact Hw'|]. split; [done|]. exists B, H3. rewrite Et. by split_and!.
    + intros h Hdl. unfold delivery in *. rewrite Htodo in Hdl. simpl. by eapply delivery_locked.
    + unfold pcRank. rewrite Epc. simpl. rewrite Hw, Hw', Ew. simpl. lia.
Qed.

Lemma closing_advances p ws :
  sysPC y = Closing p ws -> exists y', loopStep scheme ExtractList y = Some y' /\ advanced H y y'.
Proof using All.
  intros Epc. pose proof Hp as [Hh Eg Ec Hc Hpc]. rewrite Epc in Hpc.
  assert (exists w, watcherAt p (sysStore y) = Some w) as [w Hw] by (destruct ws; [by destruct Hpc as (? & _ & ?)|by destruct Hpc]).
  unfold loopStep. rewrite Htodo, Epc.
  destruct (law_stopClose _ H p w Hh Hroom Hw) as (s' & -> & Hh' & Hw'). eexists. split; [done|]. apply advance; [done|done| |done|].
  - split; simpl; try done. destruct ws as [ws|]; simpl in *.
    + destruct Hpc as (n & Hs & _). exists n. split; [done|]. by eexists.
    + destruct Hpc as [Hd _]. split; [done|]. by eexists.
  - unfold pcRank. rewrite Epc. simpl. destruct ws; lia.
Qed.

Lemma removing_advances p ws :
  sysPC y = Removing p ws -> exists y', loopStep scheme ExtractList y = Some y' /\ advanced H y y'.
Proof using All.
  intros Epc. pose proof Hp as [Hh Eg Ec Hc Hpc]. rewrite Epc in Hpc.
  assert (exists w, watcherAt p (sysStore y) = Some w /\ wsClosed w = true) as (w & Hw & Hcl)
    by (destruct ws; [by destruct Hpc as (? & _ & ?)|by destruct Hpc]).
  unfold loopStep. rewrite Htodo, Epc.
  destruct (law_removeWatcher _ H p w Hh Hroom Hw Hcl) as (s' & -> & Hh' & _). eexists. split; [done|]. apply advance; [done|done| |done|].
  - split; simpl; try done. destruct ws as [ws|]; simpl in *; [|by destruct Hpc].
    destruct Hpc as (n & [Hl Hrv Hb Ho Hsy] & _). exists n. by split.
  - unfold pcRank. rewrite Epc. destruct ws; simpl; lia.
Qed.

Lemma pausing_advances ws :
  sysPC y = Pausing ws -> exists y', loopStep scheme ExtractList y = Some y' /\ advanced H y y'.
Proof using All.
  intros Epc. pose proof Hp as [Hh Eg Ec Hc Hpc]. rewrite Epc in Hpc.
  unfold loopStep. rewrite Htodo, Epc. eexists. split; [done|]. apply advance; [done|done|by split|done|].
  unfold pcRank. rewrite Epc. simpl. case_bool_decide; lia.
Qed.

(** The goroutine waits for the next event or has returned, or its step leads
    closer. *)
Lemma loop_advances : waiting \/ sysPC y = Returned \/ exists y', loopStep scheme ExtractList y = Some y' /\ advanced H y y'.
Proof using All.
  pose proof (ps_pc _ _ Hp) as Hpc.
  destruct (sysPC y) as [|items lst|ws|ws|items ws|ws|p ws|p ws|p ws|ws| |] eqn:Epc; try done.
  10: by right; left.
  7-9: right; right; by first [by apply closing_advances with p ws|by apply removing_advances with p ws|by apply pausing_advances with ws].
  6: destruct (receive_advances p ws Epc) as [Hw|Hy]; [by left|].
  all: right; right; unfold loopStep; rewrite Htodo, Epc.
  - by apply list_advances.
  - by apply add_advances.
  - by apply top_advances.
  - by apply relist_advances.
  - by apply replace_advances.
  - done.
Qed.
End step.

(** ** Steps of the others *)

(** The rest of the system may change as long as cache and context stay. *)
Lemma position_same H y y' :
  Position H y -> sysStore y' = sysStore y -> sysPC y' = sysPC y -> sysDone y' = sysDone y ->
  iGVK (sysInformer y') = iGVK (sysInformer y) -> iConfig (sysInformer y') = iConfig (sysInformer y) ->
  iObjects (sysInformer y') = iObjects (sysInformer y) -> iSynced (sysInformer y') = iSynced (sysInformer y) -> CacheInv (sysInformer y') -> Position H y'.
Proof using.
  intros [Hh Eg Ec Hc Hpc] Es Ep Ed Eg' Ec' Eo Es' Hc'. split; rewrite ?Es, ?Ed, ?Eg', ?Ec'; try done.
  rewrite Ep. clear -Hpc Eo Es'. destruct (sysPC y) as [|items lst|ws|ws|items ws|ws|p ws|p ws|p ws|ws| |]; simpl in *;
    try (by rewrite Eo, Es'); try done.
  - destruct Hpc as (n & [? ? ? ? ?]). exists n. split; try done; congruence.
  - destruct Hpc as (n & [? ? ? ? ?]). exists n. split; try done; congruence.
  - destruct Hpc as (n & [? ? ? ? ?] & Hr). exists n. split; [|done]. split; try done; congruence.
  - destruct Hpc as (n & [? ? ? ? ?] & Hr). exists n. split; [|done]. split; try done; congruence.
  - destruct ws; [|done]. destruct Hpc as (n & [? ? ? ? ?] & Hr). exists n. split; [|done]. split; try done; congruence.
  - destruct ws; [|done]. destruct Hpc as (n & [? ? ? ? ?] & Hr). exists n. split; [|done]. split; try done; congruence.
  - destruct Hpc as (n & [? ? ? ? ?]). exists n. split; try done; congruence.
Qed.

(** The watcher the goroutine holds. *)
Definition watcherOf (x : pc) : option nat :=
  match x with Receiving p _ | Closing p _ | Removing p _ => Some p | _ => None end.

Lemma seen_app H H' n : n <= length H -> seen (H ++ H') n = seen H n.
Proof using. intros Hn. unfold seen. by rewrite take_app_le. Qed.

Lemma inStep_app H H' i ws n : inStep H i ws n -> inStep (H ++ H') i ws n.
Proof using. intros [Hl Hrv Hb Ho Hsy]. split; try done; [rewrite length_app; lia|by rewrite seen_app]. Qed.

Lemma snapshot_app H H' n items lst os : snapshot H n items lst os -> snapshot (H ++ H') n items lst os.
Proof using. intros [Hl Hrv Hb Ho]. split; try done. rewrite length_app. lia. Qed.

Lemma follows_app H H' n w w' :
  n <= length H -> follows H n w -> wsGVK w' = wsGVK w -> (wsClosed w = true -> wsClosed w' = true) ->
  wsBuffer w' = wsBuffer w ++ (if wsClosed w' then [] else eventsOf (wsGVK w) H') -> follows (H ++ H') n w'.
Proof using.
  intros Hn (Hg & H2 & H3 & EH & Eb & Ecl) Hg' Hcl Eb'. split; [congruence|]. rewrite take_app_le by done.
  destruct (wsClosed w') eqn:E.
  - exists H2, (H3 ++ H'). split_and!; [|by rewrite Eb', app_nil_r|done]. rewrite EH at 1. by rewrite <- !app_assoc.
  - assert (wsClosed w = false) as Ew by (destruct (wsClosed w); naive_solver). rewrite (Ecl Ew), app_nil_r in EH.
    exists (H2 ++ H'), []. split_and!; [|by rewrite Eb', Eb, Hg, eventsOf_app|done].
    rewrite app_nil_r, app_assoc. by rewrite <- EH.
Qed.

(** Other clients use the store. *)
Lemma position_others H y s' :
  Position H y -> hasRoom H -> otherStep (watcherOf (sysPC y)) (sysStore y) s' ->
  exists H', Position (H ++ H') (withStore s' y) /\ length H' <= 1.
Proof using.
  intros [Hh Eg Ec Hc Hpc] Hroom Ho. destruct (law_others _ H _ s' Hh Hroom Ho) as (H' & Hh' & Hl & Hw).
  exists H'. split; [|done]. split; simpl; try done.
  destruct (sysPC y) as [|items lst|ws|ws|items ws|ws|p ws|p ws|p ws|ws| |]; simpl in *; try done.
  - destruct Hpc as (Hsy & n & os & Hs & Hnd & Hno & Hf). split; [done|]. exists n, os. split_and!; [by apply snapshot_app|done|done|].
    rewrite seen_app; [done|apply Hs].
  - destruct Hpc as (n & Hs). exists n. by apply inStep_app.
  - destruct Hpc as (n & Hs). exists n. by apply inStep_app.
  - destruct Hpc as (n & Hs & n' & os & V & Hn & Hsn & Hp' & HV & EV). exists n. split; [by apply inStep_app|].
    exists n', os, V. split_and!; [done|by apply snapshot_app|done|done|]. rewrite seen_app; [done|apply Hsn].
  - destruct Hpc as (n & Hs & w & Hwp & Hf). exists n. split; [by apply inStep_app|].
    destruct (Hw p w eq_refl Hwp) as (w' & Hwp' & Hg & Hcl & Hb). exists w'. split; [done|].
    eapply follows_app; [apply Hs|done|done|done|done].
  - destruct ws as [ws|].
    2: { destruct Hpc as (Hd & w & Hwp). split; [done|]. destruct (Hw p w eq_refl Hwp) as (w' & Hwp' & _). eauto. }
    destruct Hpc as (n & Hs & w & Hwp). exists n. split; [by apply inStep_app|].
    destruct (Hw p w eq_refl Hwp) as (w' & Hwp' & _). eauto.
  - destruct ws as [ws|].
    2: { destruct Hpc as (Hd & w & Hwp & Hcw). split; [done|]. destruct (Hw p w eq_refl Hwp) as (w' & Hwp' & _ & Hcl & _). eauto. }
    destruct Hpc as (n & Hs & w & Hwp & Hcw). exists n. split; [by apply inStep_app|].
    destruct (Hw p w eq_refl Hwp) as (w' & Hwp' & _ & Hcl & _). eauto 10.
  - destruct Hpc as (n & Hs). exists n. by apply inStep_app.
Qed.
End position.
