(* ===== verification/CacheConvergence.v ===== *)
(** * A running informer converges

    The steps of the goroutines of an informer and of the other clients of the
    store, their invariant, and the ranks that make the informer catch up once the
    clients rest. Proved for every store that satisfies [StreamLaws]. *)

From S2P Require Import Prelude Inevitable GoStrconv GoJson GoJsonFacts Objects ObjectFacts.
From S2P Require Import StoreSpec StoreInterface StreamInterface Backend EventQueue Informer InformerFacts InformerTheorems.
From S2P Require Import InformerSteps Cache CacheTheorems CacheSystem CacheDelivery CachePosition.

Import Inf InfS Cache Sys.

(** ** Steps *)

Section steps.
Context {S : Type} `{SO : StoreOps S} `{ST : StreamOps S} (scheme : Scheme) {SL : StoreLaws S scheme} {STL : StreamLaws S scheme}.
Context (ExtractList : ObjectList -> result (list runtimeObject)).

(** The informer's own goroutines: the watch goroutine, the processor and the
    callers of [AddEventHandler]. *)
Inductive internal : system S -> system S -> Prop :=
| int_loop y y' : loopStep scheme ExtractList y = Some y' -> internal y y'
| int_processor y y' : processorStep y = Some y' -> internal y y'
| int_replay y y' : replayStep y = Some y' -> internal y y'.

(** The handlers that were registered before the start and stay. *)
Context (hs : list nat).

(** What happens from outside: a tick of the resync timer, another handler or
    index, the removal of a handler that does not stay, a step of another client
    of the store. *)
Inductive external : system S -> system S -> Prop :=
| ext_tick y y' : tickStep y = Some y' -> external y y'
| ext_register y : external y (registerStep y)
| ext_unregister y id : id ∉ hs -> external y (unregisterStep id y)
| ext_index y fld f : external y (indexStep fld f y)
| ext_indexers y indexers : external y (indexersStep indexers y)
| ext_client y s' : otherStep (watcherOf (sysPC y)) (sysStore y) s' -> external y (withStore s' y).

(** The states after a number of steps. *)
Inductive reaches (y0 : system S) : nat -> system S -> Prop :=
| reaches_start : reaches y0 0 y0
| reaches_step n y y' : reaches y0 n y -> internal y y' \/ external y y' -> reaches y0 (Datatypes.S n) y'.

Hypothesis ExtractList_items : forall l, ExtractList l = Ret (map RObject (lItems l)).
Context (g : GVK) (c : informerConfig).
Hypothesis Hgood : goodTransform c.
Hypothesis Hlabel : cfgLabelSelector c = None.
Context (lst0 : ObjectList).
Hypothesis Hnew : SchemeNew scheme (mkGVK (gGroup g) (gVersion g) (gKind g +:+ "List")) = Ret (RList lst0).
Hypothesis Hlst0 : listFor scheme g lst0.

Record Running (H : list change) (y : system S) : Prop := {
  rn_position : Position scheme g c H y;
  rn_live : sysDone y = false;
  rn_delivery : forall h, from_option (fun h => h ∈ hs) True h -> delivery h y;
}.

(** ** Preservation *)

(** The processor's rank. *)
Definition batchRank (hs : list nat) (order : list ObjectKey) (events : gmap ObjectKey (list cacheEvent)) : nat :=
  length (processBatch hs order events).

Definition processorRank (y : system S) : nat :=
  let i := sysInformer y in
  (if bool_decide (qPending (iQueue i) = ∅) then 0 else batchRank (iHandlers i) (qOrder (iQueue i)) (qPending (iQueue i)) + 3) +
  match sysRound y with
  | Ended => 0
  | Draining => 1
  | Took order events => batchRank (iHandlers i) order events + 3
  | Calling calls => length calls + 2
  end.

(** The position does not depend on the queue and the handlers. *)
Ltac same_position Hp := by apply (position_same _ _ _ _ _ _ Hp); destruct (ps_cache _ _ _ _ _ Hp).

(** A step of the processor. *)
Lemma processor_step H y y' :
  Running H y -> processorStep y = Some y' ->
  Running H y' /\ pcRank scheme H y' = pcRank scheme H y /\ sysTodo y' = sysTodo y /\ sysReplays y' = sysReplays y /\
  processorRank y' < processorRank y.
Proof using.
  intros [Hp Hlv Hd] E. pose proof (Hd None I) as Hd0. pose proof (delivery_open _ _ _ _ _ _ Hd0) as Ho.
  unfold processorStep in E. destruct (sysRound y) as [|order events|[|x calls]|] eqn:Er; simplify_eq.
  - destruct (drain (iQueue (sysInformer y))) as [[| |order events] q] eqn:Ed; simplify_eq.
    { unfold drain in Ed. rewrite Ho in Ed. by case_bool_decide. }
    split_and!; try done.
    + split; [same_position Hp|done|].
      intros h Hh. specialize (Hd h Hh). unfold delivery in *. rewrite Er in Hd. by eapply delivery_drain.
    + unfold processorRank, batchRank. unfold drain in Ed. rewrite Er. case_bool_decide as En; [by rewrite Ho in Ed|]. simplify_eq. simpl.
      rewrite bool_decide_true by done. lia.
  - split_and!; try done.
    + split; [same_position Hp|done|].
      intros h Hh. specialize (Hd h Hh). unfold delivery in *. rewrite Er in Hd. by eapply delivery_took.
    + unfold processorRank, batchRank. rewrite Er. simpl. lia.
  - split_and!; try done.
    + split; [same_position Hp|done|].
      intros h Hh. specialize (Hd h Hh). unfold delivery in *. rewrite Er in Hd. by eapply delivery_called.
    + unfold processorRank. rewrite Er. simpl. lia.
  - split_and!; try done.
    + split; [same_position Hp|done|].
      intros h Hh. specialize (Hd h Hh). unfold delivery in *. rewrite Er in Hd. by eapply delivery_call.
    + unfold processorRank. rewrite Er. simpl. lia.
Qed.

Lemma replay_step H y y' :
  Running H y -> replayStep y = Some y' ->
  Running H y' /\ pcRank scheme H y' = pcRank scheme H y /\ sysTodo y' = sysTodo y /\
  processorRank y' = processorRank y /\ length (sysReplays y') < length (sysReplays y).
Proof using.
  intros [Hp Hlv Hd] E. unfold replayStep in E. destruct (sysReplays y) as [|x cs] eqn:Er; simplify_eq.
  split_and!; try done; [|simpl; lia]. split; [same_position Hp|done|].
  intros h Hh. specialize (Hd h Hh). unfold delivery in *. rewrite Er in Hd. by eapply delivery_replay.
Qed.

(** An enqueue of the watch goroutine. *)
Lemma enqueue_step H y key evt rest :
  Running H y -> sysTodo y = (key, evt) :: rest ->
  exists y', loopStep scheme ExtractList y = Some y' /\ Running H y' /\ pcRank scheme H y' = pcRank scheme H y /\ sysTodo y' = rest.
Proof using.
  intros [Hp Hlv Hd] Et. pose proof (Hd None I) as Hd0. unfold delivery in Hd0. rewrite Et in Hd0.
  destruct (delivery_enqueue _ _ _ _ _ _ Hd0 key evt rest eq_refl) as (q & E & _). unfold loopStep. rewrite Et, E. simpl.
  eexists. split_and!; try done. split; [same_position Hp|done|].
  intros h Hh. specialize (Hd h Hh). unfold delivery in *. rewrite Et in Hd.
  destruct (delivery_enqueue _ _ _ _ _ _ Hd key evt rest eq_refl) as (q' & E' & Hd'). by simplify_eq.
Qed.

Lemma loop_step H y :
  Running H y -> hasRoom H ->
  (sysTodo y = [] /\ waiting scheme y) \/
  exists y', loopStep scheme ExtractList y = Some y' /\ Running H y' /\
    (pcRank scheme H y' < pcRank scheme H y \/ (pcRank scheme H y' = pcRank scheme H y /\ length (sysTodo y') < length (sysTodo y))).
Proof using All.
  intros Hr Hroom. destruct (sysTodo y) as [|[key evt] rest] eqn:Et.
  - destruct (loop_advances scheme ExtractList ExtractList_items g c Hgood Hlabel lst0 Hnew Hlst0 H y (rn_position _ _ Hr) Hroom Et)
      as [Hw|[Epc|(y' & E & [Hp Hd _ Hdn Hlt])]]; [by left| |].
    { pose proof (ps_pc _ _ _ _ _ (rn_position _ _ Hr)) as Hpc. rewrite Epc, (rn_live _ _ Hr) in Hpc. done. }
    right. exists y'. split; [done|]. split; [|by left].
    split; [done|by rewrite Hdn; apply Hr|]. intros h Hh. by apply Hd, Hr.
  - right. destruct (enqueue_step H y key evt rest Hr Et) as (y' & E & Hr' & Hpc & Et'). exists y'. rewrite Et'. simpl.
    split_and!; [done|done|]. right. lia.
Qed.

Lemma waiting_rests H y :
  Running H y -> hasRoom H -> sysTodo y = [] -> waiting scheme y -> loopStep scheme ExtractList y = None.
Proof using.
  intros Hr Hroom Et (p & ws & w & Epc & Hw & Eb & Ecl).
  pose proof (law_receive _ H p w (ps_hist _ _ _ _ _ (rn_position _ _ Hr)) Hroom Hw) as Hrc. rewrite Eb, Ecl in Hrc.
  unfold loopStep. rewrite Et, Epc. unfold receiveStep. by rewrite Hrc.
Qed.

(** The informer's own steps keep the invariant and make the ranks smaller. *)
Definition rank (H : list change) : system S -> system S -> Prop :=
  smaller (pcRank scheme H) (fun y => length (sysTodo y)) (fun y => processorRank y + length (sysReplays y)).

Lemma internal_step H y y' : Running H y -> hasRoom H -> internal y y' -> Running H y' /\ rank H y' y.
Proof using All.
  intros Hr Hroom Hi. destruct Hi as [y y' E|y y' E|y y' E]; unfold rank, smaller.
  - destruct (loop_step H y Hr Hroom) as [[Et Hw]|(y2 & E2 & Hr2 & Hlt)].
    + by rewrite (waiting_rests H y Hr Hroom Et Hw) in E.
    + rewrite E in E2. simplify_eq. split; [done|]. destruct Hlt as [Hlt|[Eq Hlt]]; [by left|right; by split; [|left]].
  - destruct (processor_step H y y' Hr E) as (Hr' & -> & -> & -> & Hlt). split; [done|]. right. split; [done|]. right. lia.
  - destruct (replay_step H y y' Hr E) as (Hr' & -> & -> & -> & Hlt). split; [done|]. right. split; [done|]. right. lia.
Qed.

(** What happens from outside keeps the position; the history may grow. *)
Lemma index_position H y fld f : Position scheme g c H y -> Position scheme g c H (indexStep fld f y).
Proof using.
  intros Hp. apply (position_same _ _ _ _ _ _ Hp); try done. destruct (ps_cache _ _ _ _ _ Hp). split; [by apply addIndexer_inv|done].
Qed.

Lemma external_position H y y' :
  Position scheme g c H y -> hasRoom H -> external y y' -> exists H', Position scheme g c (H ++ H') y' /\ length H' <= 1.
Proof using.
  intros Hp Hroom Hx. destruct Hx as [y y' E|y|y id Hid|y fld f|y indexers|y s' Ho].
  - exists []. rewrite app_nil_r. split; [|simpl; lia]. unfold tickStep in E. repeat case_match; simplify_eq. same_position Hp.
  - exists []. rewrite app_nil_r. split; [same_position Hp|simpl; lia].
  - exists []. rewrite app_nil_r. split; [|simpl; lia]. unfold unregisterStep, RemoveEventHandler. case_bool_decide; same_position Hp.
  - exists []. rewrite app_nil_r. split; [by apply index_position|simpl; lia].
  - exists []. rewrite app_nil_r. split; [|simpl; lia].
    apply (AddIndexers_keeps (fun i => Position scheme g c H (withInformer i y))); [|by destruct y].
    intros fld f i Hi. exact (index_position H _ fld f Hi).
  - by apply position_others.
Qed.

Lemma external_delivery H h y y' :
  Position scheme g c H y -> from_option (fun h => h ∈ hs) True h -> external y y' -> delivery h y -> delivery h y'.
Proof using.
  intros Hp Hh Hx Hd. destruct Hx as [y y' E|y|y id Hid|y fld f|y indexers|y s' Ho].
  - unfold tickStep in E. destruct (sysTodo y) eqn:Et; [|done]. repeat case_match; simplify_eq. unfold delivery in *. rewrite Et in Hd. simpl.
    eapply delivery_locked; [exact Hd|done|]. apply resyncEvents_to, Hp.
  - by eapply delivery_register.
  - apply (delivery_unregister _ _ _ _ _ _ Hd). destruct h as [x|]; [|done]. simpl in *. by intros ->.
  - by apply (delivery_same _ _ _ _ _ _ Hd).
  - apply (AddIndexers_keeps (fun i => delivery h (withInformer i y))); [|by destruct y].
    intros fld f i Hi. by apply (delivery_same _ _ _ _ _ _ Hi).
  - done.
Qed.

Lemma external_step H y y' :
  Running H y -> hasRoom H -> external y y' -> exists H', Running (H ++ H') y' /\ length H' <= 1.
Proof using.
  intros [Hp Hlv Hd] Hroom Hx. destruct (external_position H y y' Hp Hroom Hx) as (H' & Hp' & Hl). exists H'. split; [|done].
  split; [done| |intros h Hh; by apply (external_delivery H h y y' Hp Hh Hx), Hd].
  destruct Hx as [y y' E| | | | |]; try done. unfold tickStep in E. repeat case_match; by simplify_eq.
Qed.

(** ** Quiet systems *)

(** The informer has caught up, and so have its handlers. *)
Record caughtUp (H : list change) (y : system S) : Prop := {
  cu_hist : hist (sysStore y) H;
  cu_cache : iObjects (sysInformer y) = omap (project c) (view g H);
  cu_synced : iSynced (sysInformer y) = true;
  cu_handlers : forall h, h ∈ hs -> callsFit h ∅ (sysCalls y) /\ knows h (sysCalls y) = iObjects (sysInformer y);
}.

Definition resting (y : system S) : Prop := forall y', ~ internal y y'.

Lemma resting_intro y :
  loopStep scheme ExtractList y = None -> processorStep y = None -> replayStep y = None -> resting y.
Proof using. intros E1 E2 E3 y' Hi. inversion Hi; congruence. Qed.

Lemma waiting_caughtUp H y :
  Running H y -> sysTodo y = [] -> waiting scheme y -> processorStep y = None -> caughtUp H y.
Proof using.
  intros [Hp Hlv Hd] Et (p & ws & w & Epc & Hw & Eb & Ecl) Ep.
  pose proof (delivery_open _ _ _ _ _ _ (Hd None I)) as Ho. pose proof (dl_alive _ _ _ _ _ _ (Hd None I)) as Ha.
  assert (sysRound y = Draining /\ qPending (iQueue (sysInformer y)) = ∅) as [Er Eq].
  { unfold processorStep in Ep. destruct (sysRound y) as [|order events|[|x calls]|]; try done. split; [done|].
    unfold drain in Ep. by case_bool_decide. }
  pose proof (ps_pc _ _ _ _ _ Hp) as Hpc. rewrite Epc in Hpc.
  destruct Hpc as (n & [Hl Hrv Hb Hobj Hsy] & w' & Hw' & Hg & H2 & H3 & EH & Eb' & Ecl').
  rewrite Hw in Hw'. simplify_eq. rewrite (Ecl' Ecl), app_nil_r in EH. rewrite Eb in Eb'. split; [apply Hp| |done|].
  - rewrite Hobj. unfold seen. rewrite EH at 2. by rewrite view_skip.
  - intros h Hh. specialize (Hd (Some h) Hh). unfold delivery in Hd. split; [by eapply delivery_calls|].
    rewrite Et, Er in Hd. by eapply delivery_settled.
Qed.

Lemma quiet H y : Running H y -> hasRoom H -> (exists y', internal y y') \/ (caughtUp H y /\ resting y).
Proof using All.
  intros Hr Hroom. destruct (loop_step H y Hr Hroom) as [[Et Hw]|(y2 & E2 & _)]; [|left; exists y2; by apply int_loop].
  destruct (processorStep y) as [y'|] eqn:Ep; [left; exists y'; by apply int_processor|].
  destruct (replayStep y) as [y'|] eqn:Ey; [left; exists y'; by apply int_replay|]. right.
  split; [by apply waiting_caughtUp|]. apply resting_intro; [by apply (waiting_rests H)|done|done].
Qed.

(** ** Convergence *)

Lemma converges H y : Running H y -> hasRoom H -> inevitably internal (fun y' => caughtUp H y' /\ resting y') y.
Proof using All.
  intros Hr Hroom. revert y Hr. eapply inevitable; [by intros y Hr; apply quiet|].
  intros y y' Hr Hi. by apply internal_step.
Qed.

Lemma start_running s i H :
  hist s H -> freshInformer g c i -> hs ⊆ iHandlers i -> Running H (start i s).
Proof using.
  intros Hh Hf Ehs. destruct (fresh_facts g c i Hf) as (Hi & Hg & Hc & Ho & Hq & Hn & Hids & Hsy). split; [by split|done|].
  - intros h Hh'. apply (delivery_start g c i h Hf). destruct h as [x|]; [|done]. by apply Ehs.
Qed.

(** ** The cache does not go back in time *)

(** The last resource version seen; -1 before the watch loop. *)
Definition lastSeen (x : pc) : Z :=
  match x with
  | Top ws | Relisting ws | Replacing _ ws | BackingOff ws | Receiving _ ws | Closing _ (Some ws) | Removing _ (Some ws) | Pausing ws => wsLastRV ws
  | _ => -1
  end.

Lemma running_seen H y :
  Running H y -> iSynced (sysInformer y) = true \/ (0 <= lastSeen (sysPC y))%Z ->
  exists k, lastSeen (sysPC y) = Z.of_nat k /\ k <= length H /\ iObjects (sysInformer y) = seen g c H k.
Proof using.
  intros [Hp Hlv _] Hs. pose proof (ps_pc _ _ _ _ _ Hp) as Hpc. rewrite Hlv in Hpc.
  assert ((exists ws n, lastSeen (sysPC y) = wsLastRV ws /\ inStep scheme g c H (sysInformer y) ws n) ->
    exists k, lastSeen (sysPC y) = Z.of_nat k /\ k <= length H /\ iObjects (sysInformer y) = seen g c H k) as Hok.
  { intros (ws & n & -> & [_ Hrv Hb Ho _]). eauto. }
  destruct (sysPC y) as [|items lst|ws|ws|items ws|ws|p ws|p ws|p ws|ws| |]; simpl in *; try done;
    try (destruct Hs; [|lia]; destruct Hpc; congruence); apply Hok.
  - destruct Hpc as (n & Hn). eauto.
  - destruct Hpc as (n & Hn). eauto.
  - destruct Hpc as (n & Hn & _). eauto.
  - destruct Hpc as (n & Hn & _). eauto.
  - destruct ws; [|by destruct Hpc]. destruct Hpc as (n & Hn & _). eauto.
  - destruct ws; [|by destruct Hpc]. destruct Hpc as (n & Hn & _). eauto.
  - destruct Hpc as (n & Hn). eauto.
Qed.

Lemma running_synced H y : Running H y -> (0 <= lastSeen (sysPC y))%Z -> iSynced (sysInformer y) = true.
Proof using.
  intros [Hp Hlv _] Hs. pose proof (ps_pc _ _ _ _ _ Hp) as Hpc.
  destruct (sysPC y) as [|items lst|ws|ws|items ws|ws|p ws|p ws|p ws|ws| |]; simpl in *; try done; try lia;
    try (destruct ws; [|lia]); by destruct Hpc as (n & Hn); naive_solver eauto using is_synced.
Qed.

Lemma handleLocked_mono ev rv i i' evts rv' : handleLocked ev rv i = Some (i', evts, rv') -> (rv <= rv')%Z.
Proof using.
  unfold handleLocked. intros ([? ?] & _ & [= _ _ ->])%fmap_Some. destruct (ParseInt _) as [z [|]]; [lia|].
  destruct (Z.ltb_spec rv z); lia.
Qed.

Lemma loop_mono H y y' :
  Running H y -> loopStep scheme ExtractList y = Some y' -> (lastSeen (sysPC y) <= lastSeen (sysPC y'))%Z \/ sysPC y' = Failed.
Proof using.
  intros [Hp Hlv _] E. pose proof (ps_pc _ _ _ _ _ Hp) as Hpc. rewrite Hlv in Hpc. unfold loopStep in E.
  destruct (sysTodo y) as [|[key evt] rest].
  2: { apply fmap_Some in E as (i & _ & ->). simpl. left. lia. }
  destruct (sysPC y) as [|items lst|ws|ws|items ws|ws|p ws|p ws|p ws|ws| |] eqn:Epc; simpl in Hpc; try done.
  - unfold listStep in E. repeat case_match; simplify_eq/=; auto; left; lia.
  - unfold addStep in E. destruct Hpc as (_ & n & os & [_ Hrv _ _] & _). left. destruct items as [|[o|l|] items]; simplify_eq/=; [lia| |lia|lia].
    apply fmap_Some in E as (ie & _ & ->). simpl. lia.
  - unfold topStep in E. rewrite Hlv in E. left. repeat case_match; simplify_eq/=; lia.
  - unfold relistStep in E. left. repeat case_match; simplify_eq/=; lia.
  - apply fmap_Some in E as (ie & _ & ->). destruct Hpc as (n & [_ Hrv _ _ _] & n' & os & V & Hn & [_ Hrv' _ _] & _). simpl. left. lia.
  - unfold receiveStep in E. destruct (sReceive p (sysStore y)) as [s' [ev ch| |]]; simplify_eq/=; [|left; lia].
    apply fmap_Some in E as ([[i evts] rv] & Er & ->). apply handleLocked_mono in Er. simpl. by left.
  - apply fmap_Some in E as (s' & _ & ->). left. destruct ws; simpl; [lia|by destruct Hpc].
  - apply fmap_Some in E as (s' & _ & ->). left. destruct ws; simpl; [lia|by destruct Hpc].
  - simplify_eq/=. left. lia.
Qed.

Lemma internal_mono H y y' :
  Running H y -> hasRoom H -> internal y y' -> (lastSeen (sysPC y) <= lastSeen (sysPC y'))%Z.
Proof using All.
  intros Hr Hroom Hi. destruct (internal_step H y y' Hr Hroom Hi) as [Hr' _].
  destruct Hi as [y y' E|y y' E|y y' E].
  - destruct (loop_mono H y y' Hr E) as [Hle|Ef]; [done|]. pose proof (ps_pc _ _ _ _ _ (rn_position _ _ Hr')) as Hpc.
    by rewrite Ef in Hpc.
  - unfold processorStep in E. repeat case_match; simplify_eq/=; lia.
  - unfold replayStep in E. repeat case_match; simplify_eq/=; lia.
Qed.

Lemma external_mono y y' : external y y' -> (lastSeen (sysPC y) <= lastSeen (sysPC y'))%Z.
Proof using.
  intros [y1 y2 E| | | | |]; simpl; try lia. assert (sysPC y2 = sysPC y1) as ->; [|lia].
  unfold tickStep in E. repeat case_match; by simplify_eq/=.
Qed.

(** ** Runs *)

Lemma reaches_running y0 n y H0 :
  Running H0 y0 -> reaches y0 n y -> (Z.of_nat (length H0) + Z.of_nat n <= max_int64)%Z ->
  exists H, Running (H0 ++ H) y /\ length H <= n /\ (lastSeen (sysPC y0) <= lastSeen (sysPC y))%Z.
Proof using All.
  intros H00 Hr. induction Hr as [|n y y' Hr IH Hs]; intros Hn; [exists []; by rewrite app_nil_r|].
  destruct IH as (H & HR & Hl & Hm); [lia|]. assert (hasRoom (H0 ++ H)) as Hroom by (unfold hasRoom; rewrite length_app; lia).
  destruct Hs as [Hi|Hx].
  - destruct (internal_step _ y y' HR Hroom Hi) as [HR' _]. pose proof (internal_mono _ _ _ HR Hroom Hi).
    exists H. split_and!; [done|lia|lia].
  - destruct (external_step _ y y' HR Hroom Hx) as (H' & HR' & Hl'). pose proof (external_mono _ _ Hx).
    exists (H ++ H'). rewrite (assoc_L (++)), length_app. split_and!; [done|lia|lia].
Qed.
End steps.
