(* ===== verification/CacheShutdown.v ===== *)
(** * A cancelled informer ends

    When the cache's context is done every goroutine of a running informer ends,
    under every schedule in which others make finitely many steps: the watch
    goroutine finishes what it is in, stops its watcher and returns, the queue is
    closed and the processor delivers what is in it. *)

From S2P Require Import Prelude Inevitable GoStrconv GoJson GoJsonFacts Objects ObjectFacts.
From S2P Require Import StoreSpec StoreInterface StreamInterface Backend EventQueue Informer InformerFacts InformerTheorems.
From S2P Require Import InformerSteps Cache CacheTheorems CacheSystem CacheDelivery CachePosition CacheConvergence.

Import Inf InfS Cache Sys.

(** Enqueuing needs only that no key waits with an empty list. *)
Definition queueOk (q : eventQueue) : Prop := forall k es, qPending q !! k = Some es -> es <> [].

Lemma enqueue_total key evt q : queueOk q -> exists q', enqueue key evt q = Some q' /\ queueOk q' /\ qClosed q' = qClosed q.
Proof.
  intros Hq. unfold enqueue. destruct (qClosed q) eqn:Ec; [eauto|].
  destruct (qPending q !! key) as [es|] eqn:Ek.
  - destruct (last es) as [x|] eqn:El; [|apply last_None in El; by destruct (Hq key es)].
    eexists. split; [done|]. split; [|done]. intros k l. cbn [qPending].
    assert (forall v, v <> [] -> <[key := v]> (qPending q) !! k = Some l -> l <> []) as Hins.
    { intros v Hv [[<- <-]|[_ Hl]]%lookup_insert_Some; [done|by eapply Hq]. }
    destruct (_ && _); [apply Hins; by destruct es|]. destruct (coalesceEvents x evt); [apply Hins; by destruct (take _ _)|].
    case_bool_decide; [intros [_ Hl]%lookup_delete_Some; by eapply Hq|by apply Hins].
  - eexists. split; [done|]. split; [|done]. intros k l. cbn [qPending]. intros [[<- <-]|[_ Hl]]%lookup_insert_Some; [done|by eapply Hq].
Qed.

Lemma QueueInv_ok D q M : QueueInv D q M -> queueOk q.
Proof. intros Hq k es. apply Hq. Qed.

(** ** What a handler is still to be told *)

Definition isFor (h : nat) (x : handlerCall) : bool := bool_decide (callOf x = h).

Lemma callsFor_only h hs e : h ∈ hs -> NoDup hs -> List.filter (isFor h) (callsFor hs e) = callsFor [h] e.
Proof.
  intros Hh Hnd. assert (forall f, (forall x, callOf (f x) = x) -> List.filter (isFor h) (map f hs) = [f h]) as Hf.
  { intros f Hc. induction Hnd as [|x hs Hx Hnd IH]; [by apply not_elem_of_nil in Hh|]. simpl. unfold isFor at 1. rewrite Hc.
    apply elem_of_cons in Hh as [<-|Hh].
    - rewrite bool_decide_true by done. f_equal. clear IH Hnd. induction hs as [|z hs IH]; [done|]. simpl. unfold isFor at 1.
      rewrite Hc, bool_decide_false by set_solver. apply IH. set_solver.
    - rewrite bool_decide_false by set_solver. by apply IH. }
  unfold callsFor. destruct (ceType e); by apply Hf.
Qed.

(** One round tells each handler every event of the batch, in order. *)
Lemma processBatch_only h hs order events :
  h ∈ hs -> NoDup hs -> List.filter (isFor h) (processBatch hs order events) = processBatch [h] order events.
Proof.
  intros Hh Hnd. unfold processBatch. induction (batchEvents order events ∅) as [|ke l IH]; [done|]. simpl.
  by rewrite List.filter_app, callsFor_only, IH.
Qed.

Lemma batchEvents_empty order s : batchEvents order ∅ s = [].
Proof. revert s. induction order as [|k order IH]; intros s; simpl; [done|]. case_bool_decide; [done|]. by rewrite lookup_empty, IH. Qed.

Lemma processBatch_empty h order : processBatch [h] order ∅ = [].
Proof. unfold processBatch. by rewrite batchEvents_empty. Qed.

Section shutdown.
Context {S : Type} `{SO : StoreOps S} `{ST : StreamOps S} (scheme : Scheme) {SL : StoreLaws S scheme} {STL : StreamLaws S scheme}.
Context (ExtractList : ObjectList -> result (list runtimeObject)).

(** Steps of the goroutines once the context is done. *)
Inductive stopping : system S -> system S -> Prop :=
| stopping_loop y y' : loopStep scheme ExtractList y = Some y' -> stopping y y'
| stopping_done y y' : doneStep y = Some y' -> stopping y y'
| stopping_processor y y' : processorStep y = Some y' -> stopping y y'
| stopping_replay y y' : replayStep y = Some y' -> stopping y y'
| stopping_close y y' : closeStep y = Some y' -> stopping y y'.

(** Every goroutine has ended and nothing is left to deliver. *)
Record stopped (y : system S) : Prop := {
  sp_loop : sysPC y = Returned /\ sysTodo y = [];
  sp_processor : sysRound y = Ended;
  sp_queue : qClosed (iQueue (sysInformer y)) = true /\ qPending (iQueue (sysInformer y)) = ∅;
  sp_replays : sysReplays y = [];
}.

(** The calls handler [h] has got, and those it is to get from the batch in hand
    and from the queue. *)
Definition told (h : nat) (y : system S) : list handlerCall := List.filter (isFor h) (sysCalls y).
Definition owed (h : nat) (y : system S) : list handlerCall :=
  match sysRound y with
  | Took order events => processBatch [h] order events
  | Calling calls => List.filter (isFor h) calls
  | _ => []
  end ++ processBatch [h] (qOrder (iQueue (sysInformer y))) (qPending (iQueue (sysInformer y))).

(** The handlers that stay. *)
Context (hs : list nat).

Hypothesis ExtractList_items : forall l, ExtractList l = Ret (map RObject (lItems l)).
Context (g : GVK) (c : informerConfig).
Hypothesis Hgood : goodTransform c.
Hypothesis Hlabel : cfgLabelSelector c = None.
Context (lst0 : ObjectList).
Hypothesis Hnew : SchemeNew scheme (mkGVK (gGroup g) (gVersion g) (gKind g +:+ "List")) = Ret (RList lst0).
Hypothesis Hlst0 : listFor scheme g lst0.

Record hears (h : nat) (y : system S) : Prop := {
  hr_registered : h ∈ iHandlers (sysInformer y);
  hr_nodup : NoDup (iHandlers (sysInformer y));
  hr_ids : Forall (fun x => x < iNextID (sysInformer y)) (iHandlers (sysInformer y));
  hr_replays : Forall (fun x => callOf x <> h) (sysReplays y);
}.

Record Stopping (H : list change) (y : system S) : Prop := {
  sg_position : Position scheme g c H y;
  sg_done : sysDone y = true;
  sg_queue : queueOk (iQueue (sysInformer y));
  sg_ended : sysRound y = Ended -> qClosed (iQueue (sysInformer y)) = true /\ qPending (iQueue (sysInformer y)) = ∅;
  sg_hears : forall h, h ∈ hs -> hears h y;
}.

Definition stopRank (y : system S) : nat :=
  processorRank y + length (sysReplays y) + if qClosed (iQueue (sysInformer y)) then 0 else 1.

Ltac same_position Hp := by apply (position_same _ _ _ _ _ _ Hp); destruct (ps_cache _ _ _ _ _ Hp).

Lemma hears_same h y y' :
  hears h y -> iHandlers (sysInformer y') = iHandlers (sysInformer y) -> iNextID (sysInformer y') = iNextID (sysInformer y) ->
  Forall (fun x => callOf x <> h) (sysReplays y') -> hears h y'.
Proof using. intros [H1 H2 H3 H4] E1 E2 E3. split; rewrite ?E1, ?E2; done. Qed.

(** A queue that is closed stays as it is. *)
Lemma enqueue_ended key evt q q' :
  enqueue key evt q = Some q' -> qClosed q = true -> q' = q.
Proof using. unfold enqueue. intros E Hc. rewrite Hc in E. by simplify_eq. Qed.

(** ** The watch goroutine leaves processor and handlers alone *)

Definition sameHandlers (i i' : storeInformer) : Prop := iHandlers i' = iHandlers i /\ iNextID i' = iNextID i.

Lemma handleLocked_handlers ev rv i i' evts rv' : handleLocked ev rv i = Some (i', evts, rv') -> sameHandlers i i'.
Proof using.
  unfold handleLocked. intros ([i1 evts1] & E & [= -> -> _])%fmap_Some.
  destruct (evType ev); unfold addLocked, updateLocked, deleteLocked in E; repeat case_match; simplify_eq; done.
Qed.

Lemma addLocked_handlers obj i i' evts : addLocked obj i = Some (i', evts) -> sameHandlers i i'.
Proof using. unfold addLocked. intros E. repeat case_match; simplify_eq; done. Qed.

Lemma loop_keeps y y' :
  loopStep scheme ExtractList y = Some y' ->
  sysRound y' = sysRound y /\ sysReplays y' = sysReplays y /\ sysCalls y' = sysCalls y /\ sameHandlers (sysInformer y) (sysInformer y').
Proof using.
  unfold loopStep. destruct (sysTodo y) as [|[key evt] rest].
  2: { intros (i & E & ->)%fmap_Some. unfold enqueueEvent in E. apply fmap_Some in E as (q & _ & ->). done. }
  destruct (sysPC y) as [|items lst|ws|ws|items ws|ws|p ws|p ws|p ws|ws| |]; intros E; simplify_eq/=; try done.
  - unfold listStep in E. repeat case_match; simplify_eq/=; done.
  - unfold addStep in E. repeat case_match; simplify_eq/=; try done.
    + unfold sameHandlers, setSynced. by case_match.
    + apply fmap_Some in E as ([i evts] & E & ->). apply addLocked_handlers in E. done.
  - unfold topStep in E. repeat case_match; simplify_eq/=; done.
  - unfold relistStep in E. repeat case_match; simplify_eq/=; done.
  - apply fmap_Some in E as ([i evts] & E & ->). unfold replaceLocked in E. apply fmap_Some in E as (m & _ & [= -> ->]). done.
  - unfold receiveStep in E. repeat case_match; simplify_eq/=; [|done].
    apply fmap_Some in E as ([[i evts] rv] & E & ->). apply handleLocked_handlers in E. done.
  - apply fmap_Some in E as (s' & _ & ->). done.
  - apply fmap_Some in E as (s' & _ & ->). done.
Qed.

(** ** Each step *)

(** What every step does: the position and the queue stay in order, a closed
    queue stays closed, and once it is closed no handler is owed more or less. *)
Record stepped (y y' : system S) : Prop := {
  st_queue : queueOk (iQueue (sysInformer y'));
  st_done : sysDone y' = true;
  st_closed : qClosed (iQueue (sysInformer y)) = true -> qClosed (iQueue (sysInformer y')) = true;
  st_ended : sysRound y' = Ended -> qClosed (iQueue (sysInformer y')) = true /\ qPending (iQueue (sysInformer y')) = ∅;
  st_hears : forall h, h ∈ hs -> hears h y';
  st_promise : qClosed (iQueue (sysInformer y)) = true -> forall h, h ∈ hs -> told h y' ++ owed h y' = told h y ++ owed h y;
}.

Section steps.
Context (H : list change).
Hypothesis Hroom : hasRoom H.

Lemma loop_stops y :
  Stopping H y ->
  (sysTodo y = [] /\ (waiting scheme y \/ sysPC y = Returned)) \/
  exists y', loopStep scheme ExtractList y = Some y' /\ Position scheme g c H y' /\ stepped y y' /\
    (pcRank scheme H y' < pcRank scheme H y \/ (pcRank scheme H y' = pcRank scheme H y /\ length (sysTodo y') < length (sysTodo y))).
Proof using All.
  intros [Hp Hd Hq He Hh].
  assert (forall y', loopStep scheme ExtractList y = Some y' -> sysDone y' = true -> queueOk (iQueue (sysInformer y')) ->
    qClosed (iQueue (sysInformer y')) = qClosed (iQueue (sysInformer y)) ->
    (qClosed (iQueue (sysInformer y)) = true -> iQueue (sysInformer y') = iQueue (sysInformer y)) -> stepped y y') as Hst.
  { intros y' E Hd' Hq' Hc Hsame. destruct (loop_keeps y y' E) as (Er & Ep & Ec & Eh & En). split; try done.
    - by rewrite Hc.
    - rewrite Er. intros Hr. destruct (He Hr) as [Hcl Hem]. by rewrite (Hsame Hcl).
    - intros h Hin. apply (hears_same h y); [by apply Hh|done|done|]. rewrite Ep. by apply Hh.
    - intros Hcl h _. unfold told, owed. by rewrite Er, Ec, (Hsame Hcl). }
  destruct (sysTodo y) as [|[key evt] rest] eqn:Et.
  - destruct (loop_advances scheme ExtractList ExtractList_items g c Hgood Hlabel lst0 Hnew Hlst0 H y Hp Hroom Et)
      as [Hw|[Epc|(y' & E & [Hp' _ Eq Ed Hlt])]]; [by left; auto|by left; auto|]. right. exists y'. split_and!; [done|done| |by left].
    apply Hst; rewrite ?Eq; try done. congruence.
  - right. destruct (enqueue_total key evt _ Hq) as (q & Eq & Hq' & Hc).
    eassert (loopStep scheme ExtractList y = Some _) as E.
    { unfold loopStep, enqueueEvent. rewrite Et, Eq. simpl. reflexivity. }
    eexists. split; [exact E|]. split; [same_position Hp|]. split; [|right; split; [done|simpl; lia]].
    apply (Hst _ E); simpl; try done. intros Hcl. by eapply enqueue_ended.
Qed.

Lemma waiting_blocked y : Stopping H y -> sysTodo y = [] -> waiting scheme y -> loopStep scheme ExtractList y = None.
Proof using Hroom.
  intros [Hp _ _ _ _] Et (p & ws & w & Epc & Hw & Eb & Ecl).
  pose proof (law_receive _ H p w (ps_hist _ _ _ _ _ Hp) Hroom Hw) as Hrc. rewrite Eb, Ecl in Hrc.
  unfold loopStep. rewrite Et, Epc. unfold receiveStep. by rewrite Hrc.
Qed.

Lemma done_stops y y' :
  Stopping H y -> doneStep y = Some y' -> Position scheme g c H y' /\ stepped y y' /\ pcRank scheme H y' < pcRank scheme H y.
Proof using All.
  intros [Hp Hd Hq He Hh] E. unfold doneStep in E. rewrite Hd in E. destruct (sysTodo y) eqn:Et; [|done]. pose proof Hp as [Hhi Eg Ec Hc Hpc].
  destruct (sysPC y) eqn:Epc; simplify_eq; unfold pcRank; rewrite Epc; simpl; split_and!; try done; try lia.
  - destruct Hpc as (n & Hs & w & Hw & _). split; try done. simpl. split; [done|by exists w].
  - split; try done. intros h Hin. by apply (hears_same h y); [apply Hh|..|apply Hh].
  - split; try done. intros h Hin. by apply (hears_same h y); [apply Hh|..|apply Hh].
Qed.

Lemma processor_stops y y' :
  Stopping H y -> processorStep y = Some y' ->
  Position scheme g c H y' /\ stepped y y' /\ pcRank scheme H y' = pcRank scheme H y /\ sysTodo y' = sysTodo y /\ stopRank y' < stopRank y.
Proof using All.
  intros [Hp Hd Hq He Hh] E.
  assert (forall y', iHandlers (sysInformer y') = iHandlers (sysInformer y) -> iNextID (sysInformer y') = iNextID (sysInformer y) ->
    sysReplays y' = sysReplays y -> forall h, h ∈ hs -> hears h y') as Hsame.
  { intros y2 E1 E2 E3 h Hin. apply (hears_same h y); try done; [by apply Hh|]. rewrite E3. by apply Hh. }
  unfold processorStep in E. unfold stopRank, processorRank, batchRank.
  destruct (sysRound y) as [|order events|[|x calls]|] eqn:Er; simplify_eq.
  - destruct (drain (iQueue (sysInformer y))) as [[| |order events] q] eqn:Ed; unfold drain in Ed; simplify_eq.
    + case_bool_decide as En; [|done]. destruct (qClosed (iQueue (sysInformer y))) eqn:Ecl; [|done].
      split_and!; [same_position Hp| |done|done|simpl; rewrite ?Ecl, ?(bool_decide_true _ En); lia]. split; try done; [by apply Hsame|].
      intros _ h _. unfold told, owed. simpl. by rewrite Er.
    + case_bool_decide as En; [by destruct (qClosed (iQueue (sysInformer y)))|]. simplify_eq.
      split_and!; [same_position Hp| |done|done|simpl; rewrite bool_decide_true by done; lia].
      split; try done; [by apply Hsame|]. intros _ h _. unfold told, owed. simpl. rewrite Er.
      by rewrite processBatch_empty, app_nil_r.
  - split_and!; [same_position Hp| |done|done|simpl; lia]. split; try done; [by apply Hsame|].
    intros _ h Hin. unfold told, owed. simpl. rewrite Er. destruct (Hh h Hin). by rewrite processBatch_only.
  - split_and!; [same_position Hp| |done|done|simpl; lia]. split; try done; [by apply Hsame|].
    intros _ h _. unfold told, owed. simpl. by rewrite Er.
  - split_and!; [same_position Hp| |done|done|simpl; lia]. split; try done; [by apply Hsame|].
    intros _ h _. unfold told, owed. simpl. rewrite Er, List.filter_app. simpl. destruct (isFor h x); simpl; by rewrite <- !app_assoc.
Qed.

Lemma replay_stops y y' :
  Stopping H y -> replayStep y = Some y' ->
  Position scheme g c H y' /\ stepped y y' /\ pcRank scheme H y' = pcRank scheme H y /\ sysTodo y' = sysTodo y /\ stopRank y' < stopRank y.
Proof using All.
  intros [Hp Hd Hq He Hh] E. unfold replayStep in E. destruct (sysReplays y) as [|x cs] eqn:Er; simplify_eq.
  assert (forall h, h ∈ hs -> callOf x <> h /\ Forall (fun z => callOf z <> h) cs) as Hx.
  { intros h Hin. destruct (Hh h Hin) as [_ _ _ Hr]. rewrite Er in Hr. by apply Forall_cons in Hr. }
  split_and!; [same_position Hp| |done|done|unfold stopRank, processorRank; rewrite Er; simpl; lia]. split; try done.
  - intros h Hin. apply (hears_same h y); try done; [by apply Hh|by apply Hx].
  - intros _ h Hin. unfold told, owed. simpl. rewrite List.filter_app. simpl. unfold isFor at 2.
    rewrite bool_decide_false by (by apply Hx). by rewrite app_nil_r.
Qed.

Lemma close_stops y y' :
  Stopping H y -> closeStep y = Some y' ->
  Position scheme g c H y' /\ stepped y y' /\ pcRank scheme H y' = pcRank scheme H y /\ sysTodo y' = sysTodo y /\ stopRank y' < stopRank y.
Proof using All.
  intros [Hp Hd Hq He Hh] E. unfold closeStep in E. rewrite Hd in E. destruct (qClosed _) eqn:Eq; simplify_eq/=.
  split_and!; [same_position Hp| |done|done|unfold stopRank, processorRank; rewrite Eq; simpl; lia]. split; try done.
  - intros Hr. destruct (He Hr). congruence.
  - intros h Hin. by apply (hears_same h y); [apply Hh|..|apply Hh].
Qed.
End steps.

(** ** Shutting down *)

Lemma stepped_Stopping H H' y y' : Stopping H y -> Position scheme g c H' y' -> stepped y y' -> Stopping H' y'.
Proof using. intros _ Hp' []. by split. Qed.

Lemma stopping_stepped H y y' :
  Stopping H y -> hasRoom H -> stopping y y' ->
  Position scheme g c H y' /\ stepped y y' /\ smaller (pcRank scheme H) (fun y => length (sysTodo y)) stopRank y' y.
Proof using All.
  intros Hs Hroom Hst. unfold smaller. destruct Hst as [y y' E|y y' E|y y' E|y y' E|y y' E].
  - destruct (loop_stops H Hroom y Hs) as [[Et [Hw|Epc]]|(y2 & E2 & Hp2 & Hs2 & Hlt)].
    + by rewrite (waiting_blocked H Hroom y Hs Et Hw) in E.
    + unfold loopStep in E. by rewrite Et, Epc in E.
    + rewrite E in E2. simplify_eq. split_and!; [done|done|]. destruct Hlt as [Hlt|[Eq Hlt]]; [by left|right; by split; [|left]].
  - destruct (done_stops H Hroom y y' Hs E) as (? & ? & ?). split_and!; [done|done|by left].
  - destruct (processor_stops H Hroom y y' Hs E) as (? & ? & -> & -> & Hlt). auto 10.
  - destruct (replay_stops H Hroom y y' Hs E) as (? & ? & -> & -> & Hlt). auto 10.
  - destruct (close_stops H Hroom y y' Hs E) as (? & ? & -> & -> & Hlt). auto 10.
Qed.

(** What happens from outside owes the handlers that stay nothing. *)
Lemma external_stepped H y y' : Stopping H y -> external scheme hs y y' -> stepped y y'.
Proof using All.
  intros [Hp Hd Hq He Hh] Hx.
  assert (forall y', sysDone y' = sysDone y -> iQueue (sysInformer y') = iQueue (sysInformer y) -> sysRound y' = sysRound y ->
    sysCalls y' = sysCalls y -> (forall h, h ∈ hs -> hears h y') -> stepped y y') as Hsame.
  { intros y2 E1 E2 E3 E4 Hh2. split; rewrite ?E1, ?E2, ?E3; try done. intros _ h _. unfold told, owed. by rewrite E2, E3, E4. }
  assert (forall i, iHandlers i = iHandlers (sysInformer y) -> iNextID i = iNextID (sysInformer y) ->
    iQueue i = iQueue (sysInformer y) -> stepped y (withInformer i y)) as Hinf.
  { intros i E1 E2 E3. apply Hsame; try done. intros h Hin. by apply (hears_same h y); [apply Hh|..|apply Hh]. }
  destruct Hx as [y y' E|y|y id Hid|y fld f|y indexers|y s' Ho].
  - unfold tickStep in E. repeat case_match; simplify_eq. apply Hsame; try done. intros h Hin. by apply (hears_same h y); [apply Hh|..|apply Hh].
  - apply Hsame; try done. intros h Hin. destruct (Hh h Hin) as [H1 H2 H3 H4].
    assert (iNextID (sysInformer y) ∉ iHandlers (sysInformer y)) as Hn
      by (intros Hn; rewrite Forall_forall in H3; specialize (H3 _ Hn); lia).
    split; simpl.
    + set_solver.
    + apply NoDup_app. split_and!; [done|set_solver|apply NoDup_singleton].
    + apply Forall_app. split; [eapply Forall_impl; [exact H3|]; simpl; lia|repeat constructor].
    + apply Forall_app. split; [done|]. apply Forall_forall. intros x (o & -> & _)%list_elem_of_fmap. simpl. set_solver.
  - unfold unregisterStep, RemoveEventHandler. case_bool_decide; [|by apply Hinf]. apply Hsame; try done.
    intros h Hin. destruct (Hh h Hin) as [H1 H2 H3 H4]. split; simpl; try done.
    + apply removeFirst_other; [by intros ->|done].
    + eapply sublist_NoDup; [done|apply removeFirst_sublist].
    + rewrite Forall_forall in H3 |- *. intros x Hx. apply H3. eapply elem_of_sublist; [done|apply removeFirst_sublist].
  - by apply Hinf.
  - unfold indexersStep. assert (forall i, iHandlers i = iHandlers (sysInformer y) /\ iNextID i = iNextID (sysInformer y) /\
      iQueue i = iQueue (sysInformer y) -> stepped y (withInformer i y)) as Hi by (intros i (? & ? & ?); by apply Hinf).
    apply Hi. apply AddIndexers_keeps; [|done]. intros fld f i (? & ? & ?). done.
  - apply Hsame; try done. intros h Hin. by apply (hears_same h y); [apply Hh|..|apply Hh].
Qed.

Lemma stopped_quiet H y : Stopping H y -> hasRoom H -> (exists y', stopping y y') \/ stopped y.
Proof using All.
  intros Hs Hroom. destruct (loop_stops H Hroom y Hs) as [[Et Hpc]|(y' & E & _)]; [|left; exists y'; by apply stopping_loop].
  destruct (doneStep y) as [y'|] eqn:E; [left; exists y'; by apply stopping_done|].
  destruct (processorStep y) as [y'|] eqn:E1; [left; exists y'; by apply stopping_processor|].
  destruct (replayStep y) as [y'|] eqn:E2; [left; exists y'; by apply stopping_replay|].
  destruct (closeStep y) as [y'|] eqn:E3; [left; exists y'; by apply stopping_close|]. right. destruct Hs as [Hp Hd Hq He Hh].
  assert (qClosed (iQueue (sysInformer y)) = true) as Hcl.
  { unfold closeStep in E3. rewrite Hd in E3. by destruct (qClosed (iQueue (sysInformer y))). }
  assert (sysRound y = Ended) as Er.
  { unfold processorStep in E1. destruct (sysRound y) as [|order events|[|x calls]|]; try done.
    unfold drain in E1. rewrite Hcl in E1. by case_bool_decide. }
  split.
  - destruct Hpc as [(p & ws & w & Epc & _)|Epc]; [|done]. unfold doneStep in E. by rewrite Hd, Et, Epc in E.
  - done.
  - by apply He.
  - unfold replayStep in E2. by destruct (sysReplays y).
Qed.

(** Others have [n] steps left. *)
Definition StoppingFor (n : nat) (H : list change) (y : system S) : Prop :=
  Stopping H y /\ (Z.of_nat (length H) + Z.of_nat n < max_int64)%Z.

Lemma StoppingFor_room n H y : StoppingFor n H y -> hasRoom H.
Proof using. intros [_ Hn]. unfold hasRoom. lia. Qed.

Lemma StoppingFor_external n H y y' :
  StoppingFor (Datatypes.S n) H y -> external scheme hs y y' -> exists H', StoppingFor n H' y' /\ stepped y y'.
Proof using All.
  intros Hs Hx. pose proof (StoppingFor_room _ _ _ Hs) as Hroom. destruct Hs as [Hs Hn].
  destruct (external_position scheme hs g c H y y' (sg_position _ _ Hs) Hroom Hx) as (H' & Hp & Hl).
  pose proof (external_stepped H y y' Hs Hx) as Hst. exists (H ++ H'). split; [|done]. split; [by eapply stepped_Stopping|].
  rewrite length_app. lia.
Qed.

Lemma shuts_down n H y :
  StoppingFor n H y -> inevitably (interfered stopping (external scheme hs)) (fun ny => stopped ny.2) (n, y).
Proof using All.
  apply (inevitable_interfered _ _ StoppingFor _ (fun H => pcRank scheme H) (fun _ y => length (sysTodo y)) (fun _ => stopRank)).
  - intros m H1 y1 Hs. eapply stopped_quiet; [apply Hs|by eapply StoppingFor_room].
  - intros m H1 y1 y2 Hs Hst. destruct (stopping_stepped H1 y1 y2 (proj1 Hs) (StoppingFor_room _ _ _ Hs) Hst) as (Hp & Hstep & Hlt).
    split; [|done]. split; [by eapply stepped_Stopping; [apply Hs|..]|apply Hs].
  - intros m H1 y1 y2 Hs Hx. destruct (StoppingFor_external m H1 y1 y2 Hs Hx) as (H2 & Hs2 & _). by exists H2.
Qed.

(** Once the queue is closed, what the handlers are owed is what they get. *)
Lemma delivers n H y :
  StoppingFor n H y -> qClosed (iQueue (sysInformer y)) = true ->
  inevitably (interfered stopping (external scheme hs))
    (fun ny => stopped ny.2 /\ forall h, h ∈ hs -> told h ny.2 = told h y ++ owed h y) (n, y).
Proof using All.
  intros Hs Hcl. set (promise := fun y1 : system S => qClosed (iQueue (sysInformer y1)) = true /\
    forall h, h ∈ hs -> told h y1 ++ owed h y1 = told h y ++ owed h y).
  assert (forall y1 y2, promise y1 -> stepped y1 y2 -> promise y2) as Hprom.
  { intros y1 y2 [Hc Hp] [_ _ Hc' _ _ Hp']. split; [by apply Hc'|]. intros h Hin. by rewrite Hp', Hp. }
  assert (promise y) as Hp by done. eapply (inevitable_interfered _ _ (fun n H y1 => StoppingFor n H y1 /\ promise y1)
    (fun y1 => stopped y1 /\ forall h, h ∈ hs -> told h y1 = told h y ++ owed h y)
    (fun H => pcRank scheme H) (fun _ y => length (sysTodo y)) (fun _ => stopRank)); [..|exact (conj Hs Hp)].
  - intros m H1 y1 [Hs1 [Hc1 Hp1]]. destruct (stopped_quiet H1 y1 (proj1 Hs1) (StoppingFor_room _ _ _ Hs1)) as [Hex|Hst]; [by left|right].
    split; [done|]. intros h Hin. rewrite <- Hp1 by done. destruct Hst as [_ Hr [_ Hq] _]. unfold owed.
    by rewrite Hr, Hq, processBatch_empty, app_nil_r.
  - intros m H1 y1 y2 [Hs1 Hp1] Hst. destruct (stopping_stepped H1 y1 y2 (proj1 Hs1) (StoppingFor_room _ _ _ Hs1) Hst) as (Hp2 & Hstep & Hlt).
    split; [|done]. split; [|by eapply Hprom]. split; [by eapply stepped_Stopping; [apply Hs1|..]|apply Hs1].
  - intros m H1 y1 y2 [Hs1 Hp1] Hx. destruct (StoppingFor_external m H1 y1 y2 Hs1 Hx) as (H2 & Hs2 & Hstep). exists H2. split; [done|by eapply Hprom].
Qed.

(** States on the way down. *)
Lemma stopping_reached n H y n1 y1 :
  StoppingFor n H y -> rtc (interfered stopping (external scheme hs)) (n, y) (n1, y1) -> exists H1, StoppingFor n1 H1 y1.
Proof using All.
  intros Hs Hr. remember (n, y) as ny eqn:E. remember (n1, y1) as ny1 eqn:E1. revert n y H Hs E n1 y1 E1.
  induction Hr as [ny|ny ny2 ny3 Hst Hr IH]; intros n y H Hs -> n1 y1 E1; [simplify_eq; by exists H|].
  inversion Hst as [m z z' Hst'|m z z' Hx]; subst.
  - destruct (stopping_stepped H y z' (proj1 Hs) (StoppingFor_room _ _ _ Hs) Hst') as (Hp & Hstep & _).
    eapply (IH n z' H); [|done|done]. split; [by eapply stepped_Stopping; [apply Hs|..]|apply Hs].
  - destruct (StoppingFor_external m H y z' Hs Hx) as (H2 & Hs2 & _). by eapply (IH m z' H2).
Qed.

(** A running informer whose context is cancelled. *)
Lemma cancel_stopping H y : Running scheme hs g c H y -> Stopping H (cancel y).
Proof using.
  intros [Hp Hlv Hd]. destruct (dl_leads _ _ _ _ _ _ (Hd None I)) as (M0 & M & _ & Hq & _).
  split; [|done|by eapply QueueInv_ok| |].
  - destruct Hp as [Hh Eg Ec Hc Hpc]. split; try done. simpl. rewrite Hlv in Hpc.
    destruct (sysPC y) as [|items lst|ws|ws|items ws|ws|p ws|p ws|p ws|ws| |]; try done; by destruct ws; [|destruct Hpc].
  - intros Hr. by destruct (dl_alive _ _ _ _ _ _ (Hd None I)).
  - intros h Hin. destruct (Hd (Some h) Hin) as [H1 H2 _ (M1 & M2 & [Hreg _ Hrep _] & _)]. by split.
Qed.
End shutdown.
