(* ===== verification/CacheSystemTheorems.v ===== *)
(** * A running cache: the theorems

    What an informer and its goroutines guarantee next to any clients of the
    store, in every interleaving, for every store that satisfies [StreamLaws]. *)

From S2P Require Import Prelude Inevitable GoStrconv GoJson GoJsonFacts Objects ObjectFacts.
From S2P Require Import StoreSpec StoreInterface StreamInterface Backend EventQueue Informer InformerFacts InformerTheorems.
From S2P Require Import InformerSteps Cache CacheTheorems CacheSystem CacheDelivery CachePosition CacheConvergence CacheShutdown.

Import Inf InfS Cache Sys.

Section running.
Context {S : Type} `{SO : StoreOps S} `{ST : StreamOps S} (scheme : Scheme) {SL : StoreLaws S scheme} {STL : StreamLaws S scheme}.
Context (ExtractList : ObjectList -> result (list runtimeObject)).
(** What the library function promises about lists of client objects. *)
Hypothesis ExtractList_items : forall l, ExtractList l = Ret (map RObject (lItems l)).
Context (g : GVK) (c : informerConfig).
Hypothesis Hgood : goodTransform c.
Hypothesis Hlabel : cfgLabelSelector c = None.
(** The scheme knows the list type of the informer's kind. *)
Context (lst0 : ObjectList).
Hypothesis Hnew : SchemeNew scheme (mkGVK (gGroup g) (gVersion g) (gKind g +:+ "List")) = Ret (RList lst0).
Hypothesis Hlst0 : listFor scheme g lst0.
(** The store and the informer at the start, and the handlers that stay. *)
Context (s0 : S) (H0 : list change) (i0 : storeInformer) (hs : list nat).
Hypothesis Hhist : hist s0 H0.
Hypothesis Hfresh : freshInformer g c i0.
Hypothesis Hhs : hs ⊆ iHandlers i0.

Lemma reached_running n y :
  reaches scheme ExtractList hs (start i0 s0) n y -> (Z.of_nat (length H0) + Z.of_nat n < max_int64)%Z ->
  exists H, Running scheme hs g c (H0 ++ H) y /\ length H <= n.
Proof using All.
  intros Hr Hn.
  destruct (reaches_running scheme ExtractList hs ExtractList_items g c Hgood Hlabel lst0 Hnew Hlst0 (start i0 s0) n y H0)
    as (H & HR & Hl & _); [by apply start_running|done|lia|]. by exists H.
Qed.

(** C4: a running informer without a label selector, whose transform succeeds and keeps names and resource
    versions, never shows a state its store did not have, and never
    goes back. Whatever clients, resyncs, late handlers and indices run beside it, and however
    its goroutines are interleaved with them: once it is synced its objects are
    the selected and transformed objects of the store after some prefix of the
    store's history; in every later state they are those of a prefix at least as
    long; the calls of each handler that was registered before the start and stays make sense to it; and the
    watch goroutine never panics or gets stuck: it has a step unless it waits at its open, empty watch
    channel. (With a label selector a reconnect can keep a stale object, and a handler that is registered
    later can get a stale call.) *)
Theorem cache_tracks_store n y :
  reaches scheme ExtractList hs (start i0 s0) n y -> (Z.of_nat (length H0) + Z.of_nat n < max_int64)%Z ->
  exists H, hist (sysStore y) (H0 ++ H) /\ length H <= n /\
    (forall h, h ∈ hs -> callsFit h ∅ (sysCalls y)) /\
    (is_Some (loopStep scheme ExtractList y) \/ waiting scheme y) /\
    (HasSynced (sysInformer y) = true ->
      exists k, k <= length (H0 ++ H) /\
        iObjects (sysInformer y) = omap (project c) (view g (take k (H0 ++ H))) /\
        forall m y', reaches scheme ExtractList hs y m y' -> (Z.of_nat (length H0) + Z.of_nat (n + m) < max_int64)%Z ->
          HasSynced (sysInformer y') = true /\
          exists H' k', hist (sysStore y') (H0 ++ H ++ H') /\ k <= k' <= length (H0 ++ H ++ H') /\
            iObjects (sysInformer y') = omap (project c) (view g (take k' (H0 ++ H ++ H')))).
Proof using All.
  intros Hr Hn. destruct (reached_running n y Hr Hn) as (H & HR & Hl). exists H.
  assert (hasRoom (H0 ++ H)) as Hroom by (unfold hasRoom; rewrite length_app; lia). split_and!; [apply HR|done| | |].
  - intros h Hh. eapply delivery_calls. exact (rn_delivery _ _ _ _ _ _ HR (Some h) Hh).
  - destruct (loop_step scheme ExtractList hs ExtractList_items g c Hgood Hlabel lst0 Hnew Hlst0 _ y HR Hroom)
      as [[_ Hw]|(y' & E & _)]; [by right|left; eauto].
  - intros Hs. destruct (running_seen scheme hs g c _ y HR (or_introl Hs)) as (k & Ek & Hk & Ho). exists k. split_and!; [done|done|].
    intros m y' Hr' Hm.
    destruct (reaches_running scheme ExtractList hs ExtractList_items g c Hgood Hlabel lst0 Hnew Hlst0 y m y' (H0 ++ H))
      as (H' & HR' & Hl' & Hmono); [done|done|rewrite length_app; lia|]. rewrite <- app_assoc in HR'.
    assert (0 <= lastSeen (sysPC y'))%Z as Hpos by lia.
    split; [by eapply running_synced|]. exists H'.
    destruct (running_seen scheme hs g c _ y' HR' (or_intror Hpos)) as (k' & Ek' & Hk' & Ho'). exists k'.
    split_and!; [apply HR'|lia|done|done].
Qed.

(** C5: once the other clients of the store rest, an informer without a label selector, whose transform
    succeeds and keeps names and resource versions, catches up. From
    every state of a running informer every sequence of steps of its goroutines ends, in a state
    where its objects are exactly the selected and transformed objects of the store,
    every handler that was registered before the start and stays has been told of exactly these objects by calls
    that make sense to it, and no goroutine has anything left to do. *)
Theorem cache_eventually_consistent n y :
  reaches scheme ExtractList hs (start i0 s0) n y -> (Z.of_nat (length H0) + Z.of_nat n < max_int64)%Z ->
  exists H, hist (sysStore y) (H0 ++ H) /\
    inevitably (internal scheme ExtractList) (fun y' =>
      hist (sysStore y') (H0 ++ H) /\ HasSynced (sysInformer y') = true /\
      iObjects (sysInformer y') = omap (project c) (view g (H0 ++ H)) /\
      (forall h, h ∈ hs -> callsFit h ∅ (sysCalls y') /\ knows h (sysCalls y') = iObjects (sysInformer y')) /\
      resting scheme ExtractList y') y.
Proof using All.
  intros Hr Hn. destruct (reached_running n y Hr Hn) as (H & HR & Hl). exists H. split; [apply HR|].
  assert (hasRoom (H0 ++ H)) as Hroom by (unfold hasRoom; rewrite length_app; lia).
  eapply inevitably_impl; [|by apply (converges scheme ExtractList hs ExtractList_items g c Hgood Hlabel lst0 Hnew Hlst0)].
  intros y' [[Hh Ho Hs Hd] Hrest]. by split_and!.
Qed.

(** C6: when the cache's context is cancelled, every goroutine of a running informer (without a label
    selector, with a transform as above) ends, whatever it was doing, under every schedule in which others (clients of the store, the resync timer, callers
    that add and remove handlers and indices) make finitely many steps: the watch goroutine finishes its critical
    section, stops its watcher and returns, the queue is closed and emptied, the processor returns, and no
    handler call is left. What is in the queue when it is closed is delivered: every handler that was registered before
    the start and stays gets, after the calls it had, exactly those of the batch in hand and of the queued events, in order. *)
Theorem cache_shuts_down n y others :
  let run := interfered (stopping scheme ExtractList) (external scheme hs) in
  reaches scheme ExtractList hs (start i0 s0) n y -> (Z.of_nat (length H0) + Z.of_nat n + Z.of_nat others < max_int64)%Z ->
  inevitably run (fun ny => stopped ny.2) (others, cancel y) /\
  forall n1 y1, rtc run (others, cancel y) (n1, y1) -> qClosed (iQueue (sysInformer y1)) = true ->
    inevitably run (fun ny => stopped ny.2 /\ forall h, h ∈ hs -> told h ny.2 = told h y1 ++ owed h y1) (n1, y1).
Proof using All.
  intros run Hr Hn. destruct (reached_running n y Hr) as (H & HR & Hl); [lia|].
  assert (StoppingFor scheme hs g c others (H0 ++ H) (cancel y)) as Hs
    by (split; [by apply cancel_stopping|rewrite length_app; lia]). split.
  - by apply (shuts_down scheme ExtractList hs ExtractList_items g c Hgood Hlabel lst0 Hnew Hlst0 others (H0 ++ H)).
  - intros n1 y1 Hr1 Hc.
    destruct (stopping_reached scheme ExtractList hs ExtractList_items g c Hgood Hlabel lst0 Hnew Hlst0 _ _ _ n1 y1 Hs Hr1) as [H1 Hs1].
    by apply (delivers scheme ExtractList hs ExtractList_items g c Hgood Hlabel lst0 Hnew Hlst0 n1 H1).
Qed.
End running.
