(* ===== verification/CacheSystemWitnesses.v ===== *)
(** * The theorems about a running cache at concrete systems

    An informer of widgets with one handler, started on the in-memory and on the
    filesystem backend, and two executions on the in-memory backend that show where
    the code departs from what it means to do. *)

From S2P Require Import Prelude Inevitable GoStrconv GoJson GoJsonFacts Objects ObjectFacts.
From S2P Require Import StoreSpec StoreInterface StreamInterface Backend MemoryStore Fixtures MemoryStoreFacts.
From S2P Require Import MemoryStoreRuns MemoryStoreTheorems MemoryInterface MemoryStreams MemoryStoreWitnesses.
From S2P Require Import FileTree Filesystem FilesystemRuns FilesystemInterface FilesystemStreams FilesystemWitnesses.
From S2P Require Import EventQueue Informer InformerFacts InformerTheorems InformerSteps Cache CacheTheorems CacheWitnesses.
From S2P Require Import CacheSystem CacheDelivery CachePosition CacheConvergence CacheShutdown CacheSystemTheorems.

Import Inf InfS Cache Sys.

(** ** Runs *)

Lemma default_step {A : Type} (m : option A) (d : A) : match m with Some _ => true | None => false end = true -> m = Some (default d m).
Proof. by destruct m. Qed.

(** A step that the definition of the next state makes. *)
Ltac stepped := apply default_step; vm_compute; exact eq_refl.

Section runs.
Context {S : Type} `{SO : StoreOps S} `{ST : StreamOps S} (scheme : Scheme) {SL : StoreLaws S scheme} {STL : StreamLaws S scheme}.
Context (ExtractList : ObjectList -> result (list runtimeObject)) (hs : list nat).

(** Some steps of the watch goroutine, then some of the processor. *)
Fixpoint loopSteps (n : nat) (y : system S) : option (system S) :=
  match n with 0 => Some y | Datatypes.S n => loopSteps n y ≫= loopStep scheme ExtractList end.

Fixpoint processorSteps (n : nat) (y : system S) : option (system S) :=
  match n with 0 => Some y | Datatypes.S n => processorSteps n y ≫= processorStep end.

Lemma loopSteps_reaches y0 m n y y' :
  reaches scheme ExtractList hs y0 m y -> loopSteps n y = Some y' -> reaches scheme ExtractList hs y0 (n + m) y'.
Proof using.
  intros Hr. revert y'. induction n as [|n IH]; simpl; [by intros y' [= <-]|]. intros y' (y1 & E & E1)%bind_Some.
  eapply reaches_step; [by apply IH|left; by apply int_loop].
Qed.

Lemma processorSteps_reaches y0 m n y y' :
  reaches scheme ExtractList hs y0 m y -> processorSteps n y = Some y' -> reaches scheme ExtractList hs y0 (n + m) y'.
Proof using.
  intros Hr. revert y'. induction n as [|n IH]; simpl; [by intros y' [= <-]|]. intros y' (y1 & E & E1)%bind_Some.
  eapply reaches_step; [by apply IH|left; by apply int_processor].
Qed.
End runs.

(** ** Instances *)

Definition memStreamLaws : StreamLaws (SO := memOps) (SL := memLaws) Mem.MemoryStore testScheme :=
  Mem_StreamLaws testScheme testScheme_total.
Definition fileOps : StoreOps FS.FileStore := FS_StoreOps testScheme.
Definition fileLaws : StoreLaws (H := fileOps) FS.FileStore testScheme := FS_StoreLaws testScheme testScheme_ok.
Definition fileStreamLaws : StreamLaws (SO := fileOps) (SL := fileLaws) FS.FileStore testScheme :=
  FS_StreamLaws testScheme testScheme_ok.

Lemma listForWidgets : listFor testScheme widgetGVK testWidgetList.
Proof. split; [computed|apply okWidgetList]. Qed.

Lemma fresh_informerH : freshInformer widgetGVK plainConfig informerH.
Proof. apply fresh_handler, fresh_new. Qed.

(** The watch goroutine has listed the store with one widget and waits for events. *)
Abbreviation memLoop := (loopSteps (SO := memOps) testScheme testExtractList).
Definition begun : system Mem.MemoryStore := start informerH store1.
Definition watching5 : system Mem.MemoryStore := default begun (memLoop 5 begun).
(** Another client then recolours the widget. *)
Definition recoloured : system Mem.MemoryStore :=
  withStore (Mem.Update testScheme blue1 (sysStore watching5)).1.1 watching5.
Definition followed : system Mem.MemoryStore := default begun (memLoop 2 recoloured).

#[local] Abbreviation memReaches := (reaches (SO := memOps) (STL := memStreamLaws) testScheme testExtractList).

Lemma reaches_watching5 : memReaches [0] begun 5 watching5.
Proof. apply (loopSteps_reaches testScheme testExtractList [0] begun 0 5 begun); [apply reaches_start|stepped]. Qed.

Lemma others_Update q obj s : okObject testScheme obj -> memOthers testScheme q s (Mem.Update testScheme obj s).1.1.
Proof.
  intros Ho. exists None. split; [|done]. destruct (Mem.Update testScheme obj s) as [[s' obj'] r] eqn:E.
  by eapply step_Update.
Qed.

Lemma others_Delete q obj s : memOthers testScheme q s (Mem.Delete testScheme obj s).1.
Proof. exists None. split; [|done]. destruct (Mem.Delete testScheme obj s) as [s' r] eqn:E. by eapply step_Delete. Qed.

Lemma reaches_recoloured n y0 : memReaches [0] y0 n watching5 -> memReaches [0] y0 (Datatypes.S n) recoloured.
Proof.
  intros Hr. unfold recoloured. eapply reaches_step; [exact Hr|]. right. apply ext_client.
  apply others_Update, okWidget; computed.
Qed.

Lemma reaches_followed : memReaches [0] begun 8 followed.
Proof.
  apply (loopSteps_reaches testScheme testExtractList [0] begun 6 2 recoloured); [|stepped].
  exact (reaches_recoloured 5 begun reaches_watching5).
Qed.

(** ** The theorems *)

Lemma cache_tracks_store_witness :
  HasSynced (sysInformer watching5) = true /\
  exists H k H' k', hist (StoreLaws := memLaws) (sysStore followed) (history store1 ++ H ++ H') /\ k <= k' /\
    iObjects (sysInformer watching5) = omap (project plainConfig) (view widgetGVK (take k (history store1 ++ H))) /\
    iObjects (sysInformer followed) = omap (project plainConfig) (view widgetGVK (take k' (history store1 ++ H ++ H'))).
Proof.
  assert (HasSynced (sysInformer watching5) = true) as Hs by computed. split; [exact Hs|].
  destruct (cache_tracks_store (SL := memLaws) (STL := memStreamLaws) testScheme testExtractList (fun l => eq_refl) widgetGVK plainConfig
    plainConfig_good eq_refl testWidgetList ltac:(computed) listForWidgets store1 (history store1) informerH [0] hist_store1
    fresh_informerH ltac:(done) 5 watching5 reaches_watching5 ltac:(vm_compute; done)) as (H & _ & _ & _ & _ & Hk).
  destruct (Hk Hs) as (k & _ & Ho & Hlater).
  destruct (Hlater 3 followed) as (_ & H' & k' & Hh' & Hle & Ho').
  - apply (loopSteps_reaches testScheme testExtractList [0] watching5 1 2 recoloured); [|stepped].
    exact (reaches_recoloured 0 watching5 (reaches_start _ _ _ _)).
  - vm_compute. done.
  - exists H, k, H', k'. split; [exact Hh'|]. split; [lia|]. split; [exact Ho|exact Ho'].
Defined.

(** From the middle of a run on the in-memory backend, and from the start on the
    filesystem backend. *)
Lemma cache_eventually_consistent_witness :
  (exists H, hist (StoreLaws := memLaws) (sysStore followed) (history store1 ++ H) /\
    inevitably (internal (SO := memOps) testScheme testExtractList) (fun y => knows 0 (sysCalls y) = iObjects (sysInformer y)) followed) /\
  (exists H, hist (StoreLaws := fileLaws) fstore1 (history1 ++ H) /\
    inevitably (internal (SO := fileOps) testScheme testExtractList) (fun y => iObjects (sysInformer y) = omap (project plainConfig) (view widgetGVK (history1 ++ H)))
      (start informerH fstore1)).
Proof.
  split.
  - destruct (cache_eventually_consistent (SL := memLaws) (STL := memStreamLaws) testScheme testExtractList (fun l => eq_refl) widgetGVK
      plainConfig plainConfig_good eq_refl testWidgetList ltac:(computed) listForWidgets store1 (history store1) informerH [0] hist_store1
      fresh_informerH ltac:(done) 8 followed reaches_followed ltac:(vm_compute; done)) as (H & Hh & Hi).
    exists H. split; [exact Hh|]. eapply inevitably_impl; [|exact Hi]. intros y (_ & _ & _ & Hd & _). by apply Hd, list_elem_of_here.
  - destruct (cache_eventually_consistent (SL := fileLaws) (STL := fileStreamLaws) testScheme testExtractList (fun l => eq_refl) widgetGVK
      plainConfig plainConfig_good eq_refl testWidgetList ltac:(computed) listForWidgets fstore1 history1 informerH [0] hist_fstore1
      fresh_informerH ltac:(done) 0 (start informerH fstore1) (reaches_start _ _ _ _) ltac:(vm_compute; done)) as (H & Hh & Hi).
    exists H. split; [exact Hh|]. eapply inevitably_impl; [|exact Hi]. by intros y (_ & _ & Ho & _).
Defined.

(** The cancelled informer with its queue closed: the recoloured widget is queued. *)
Definition closing : system Mem.MemoryStore := default begun (closeStep (cancel followed)).

Lemma reaches_closing :
  rtc (interfered (stopping (SO := memOps) testScheme testExtractList) (external (SO := memOps) (STL := memStreamLaws) testScheme [0]))
    (3, cancel followed) (3, closing).
Proof. apply rtc_once. apply intf_own. apply stopping_close. stepped. Qed.

Lemma cache_shuts_down_witness :
  (qClosed (iQueue (sysInformer closing)) = true /\ length (owed 0 closing) = 1 /\
   inevitably (interfered (stopping (SO := memOps) testScheme testExtractList) (external (SO := memOps) (STL := memStreamLaws) testScheme [0]))
     (fun ny => stopped ny.2 /\ forall h, h ∈ [0] -> told h ny.2 = told h closing ++ owed h closing) (3, closing)) /\
  inevitably (interfered (stopping (SO := fileOps) testScheme testExtractList) (external (SO := fileOps) (STL := fileStreamLaws) testScheme [0]))
    (fun ny => stopped ny.2) (3, cancel (start informerH fstore1)).
Proof.
  assert (qClosed (iQueue (sysInformer closing)) = true) as Hc by computed.
  split; [split; [exact Hc|split; [computed|]]|].
  - exact (proj2 (cache_shuts_down (SL := memLaws) (STL := memStreamLaws) testScheme testExtractList (fun l => eq_refl) widgetGVK
      plainConfig plainConfig_good eq_refl testWidgetList ltac:(computed) listForWidgets store1 (history store1) informerH [0] hist_store1
      fresh_informerH ltac:(done) 8 followed 3 reaches_followed ltac:(vm_compute; done)) 3 closing reaches_closing Hc).
  - exact (proj1 (cache_shuts_down (SL := fileLaws) (STL := fileStreamLaws) testScheme testExtractList (fun l => eq_refl) widgetGVK
      plainConfig plainConfig_good eq_refl testWidgetList ltac:(computed) listForWidgets fstore1 history1 informerH [0] hist_fstore1
      fresh_informerH ltac:(done) 0 (start informerH fstore1) 3 (reaches_start _ _ _ _) ltac:(vm_compute; done))).
Defined.

(** ** Where the code departs from what it means to do *)

(** A handler is registered late, before its replay the widget is deleted. *)
Definition delivered : system Mem.MemoryStore := default begun (processorSteps 4 watching5).
Definition registered : system Mem.MemoryStore := registerStep delivered.
Definition deleted : system Mem.MemoryStore :=
  withStore (Mem.Delete testScheme w1 (sysStore registered)).1 registered.
Definition removed : system Mem.MemoryStore := default begun (memLoop 2 deleted).
Definition informed : system Mem.MemoryStore := default begun (processorSteps 5 removed).
Definition replayed : system Mem.MemoryStore := default begun (replayStep informed).

(** [AddEventHandler] replays its snapshot after it has released its locks, so the
    processor can come first: the late handler is told of the deletion and then
    that the object is there, and it keeps believing so when nothing is left to do. *)
Theorem late_handler_stale :
  memReaches [0] begun 19 replayed /\
  resting (SO := memOps) testScheme testExtractList replayed /\
  iObjects (sysInformer replayed) = ∅ /\ knows 0 (sysCalls replayed) = ∅ /\
  knows 1 (sysCalls replayed) = {[ ObjectKeyFromObject w1 := w1c ]}.
Proof.
  split; [|split_and!; [|computed..]].
  - eapply reaches_step; [|left; apply (int_replay _ _ informed); stepped].
    apply (processorSteps_reaches testScheme testExtractList [0] begun 13 5 removed); [|stepped].
    apply (loopSteps_reaches testScheme testExtractList [0] begun 11 2 deleted); [|stepped].
    eapply reaches_step; [|right; apply ext_client; apply others_Delete].
    eapply reaches_step; [|right; apply ext_register].
    apply (processorSteps_reaches testScheme testExtractList [0] begun 5 4 watching5); [exact reaches_watching5|stepped].
  - apply resting_intro; computed.
Qed.

(** [RemoveInformer] while the goroutine waits for events. *)
Definition dropped : system Mem.MemoryStore := default begun (removeStep watching5).
Definition leaked : system Mem.MemoryStore := default begun (memLoop 5 dropped).

(** The watch loop does not look at [stopped]: a removed informer's goroutine opens
    a new watch and keeps a watcher of the store open until the cache's context ends. *)
Theorem removed_informer_watches :
  IsStopped (sysInformer dropped) = true /\ iWatcher (sysInformer dropped) = Some 0 /\
  memLoop 5 dropped = Some leaked /\
  match sysPC leaked with Receiving p _ => Some p | _ => None end = Some 1 /\
  Mem.wClosed <$> Mem.heap (sysStore leaked) !! 1 = Some false /\
  Mem.watchers (sysStore leaked) !! widgetGVK = Some [1].
Proof. split_and!; [computed|computed|stepped|computed..]. Qed.
