(* ===== verification/ListerWatcher.v ===== *)
(** * The client-go adapter: listerwatcher.go

    [StoreListerWatcher] serves a Reflector: it lists through the store and
    wraps store watchers. An adapter's goroutine is a state machine: events wait
    in [aPending], are sent to the output channel, and new ones are taken from
    the inner watcher when nothing is pending. *)

From S2P Require Import Prelude GoStrconv GoJson GoJsonFacts Objects ObjectFacts.
From S2P Require Import StoreSpec StoreInterface Backend.

Module LW.

(** The fields of [metav1.ListOptions] the code reads. *)
Record metaListOptions : Type := mkMetaListOptions {
  mloLabelSelector : string;
  mloResourceVersion : string;
  mloSendInitialEvents : option bool;
}.

(** [watch.Event] *)
Record watchEvent : Type := mkWatchEvent { weType : EventType; weObject : runtimeObject }.

(** What the goroutine does with one event of the inner watcher: drop it if
    its labels do not match, otherwise convert it. *)
Definition relayEvent (selector : option labelsSelector) (evt : Event) : option watchEvent :=
  let dropped := match selector with
                 | Some sel => negb (bool_decide (evType evt = EventBookmark)) && negb (lsMatches sel (GetLabels (evObject evt)))
                 | None => false
                 end in
  if dropped then None else Some (mkWatchEvent (evType evt) (RObject (evObject evt))).

(** A [watchAdapter] or [initialEventsAdapter]: its selector, the events not
    yet sent, the output channel, and whether [stopCh] is closed. The goroutine
    has ended when the output channel is closed. *)
Record adapter : Type := mkAdapter {
  aInner : nat;
  aSelector : option labelsSelector;
  aPending : list watchEvent;
  aOut : chan watchEvent;
  aStopped : bool;
}.

Definition newWatchAdapter (inner : nat) (selector : option labelsSelector) : adapter :=
  mkAdapter inner selector [] (makeChan 100) false.

(** The events [run] sends before it relays. *)
Definition initialEvents (items : list runtimeObject) (bookmarkObj : option Object) : list watchEvent :=
  map (mkWatchEvent EventAdded) items ++
  match bookmarkObj with Some o => [mkWatchEvent EventBookmark (RObject o)] | None => [] end.

Definition newInitialEventsAdapter (inner : nat) (items : list runtimeObject) (bookmarkObj : option Object)
    (selector : option labelsSelector) : adapter :=
  mkAdapter inner selector (initialEvents items bookmarkObj) (makeChan 100) false.

(** The first half of [Stop]; the inner watcher is stopped next. *)
Definition stopAdapter (a : adapter) : adapter :=
  mkAdapter (aInner a) (aSelector a) (aPending a) (aOut a) true.

(** The steps of the goroutine ([None]: not enabled) and of the consumer. *)

(** [case a.ch <- watchEvt] *)
Definition sendStep (a : adapter) : option adapter :=
  match aPending a with
  | [] => None
  | e :: rest =>
      match trySend (aOut a) e with
      | Sent c => Some (mkAdapter (aInner a) (aSelector a) rest c (aStopped a))
      | _ => None
      end
  end.

(** [case evt, ok := <-a.inner.ResultChan()] with [ok] *)
Definition relayStep (evt : Event) (a : adapter) : option adapter :=
  match aPending a with
  | [] => if chClosed (aOut a) then None
          else Some (mkAdapter (aInner a) (aSelector a) (option_list (relayEvent (aSelector a) evt)) (aOut a) (aStopped a))
  | _ => None
  end.

(** Return: [defer close(a.ch)], because of [stopCh], dropping what was not
    sent, or, between events, of the closed inner channel. *)
Definition endStep (innerClosed : bool) (a : adapter) : option adapter :=
  if aStopped a || (innerClosed && bool_decide (length (aPending a) = 0))
  then (fun c => mkAdapter (aInner a) (aSelector a) [] c (aStopped a)) <$> closeChan (aOut a)
  else None.

(** The consumer takes an event. *)
Definition consumeStep (a : adapter) : option (adapter * watchEvent) :=
  match recv (aOut a) with
  | Received e c => Some (mkAdapter (aInner a) (aSelector a) (aPending a) c (aStopped a), e)
  | _ => None
  end.

Definition InitialEventsAnnotationKey : string := "k8s.io/initial-events-end".

(** A zero item of the list's element type with the resource version and the
    end-of-initial-events annotation; [None] without an [Items] field. *)
Definition bookmarkForList (listObj : ObjectList) (rv : string) : option Object :=
  match lItemsField listObj with
  | NoItems => None
  | UnsettableItems t | ItemsOf t =>
      Some (SetAnnotations (Some {[ InitialEventsAnnotationKey := "true" ]}) (SetResourceVersion rv (zeroObject t)))
  end.

Section listerwatcher.
Context {S : Type} `{StoreOps S}.
(** [labels.Parse] and [meta.ExtractList] *)
Context (labelsParse : string -> result labelsSelector).
Context (ExtractList : ObjectList -> result (list runtimeObject)).
(** The prototype list of the [StoreListerWatcher]. *)
Context (listObj : ObjectList).

Definition parseListOpts (options : metaListOptions) : result (list ListOption * option labelsSelector) :=
  if bool_decide (mloLabelSelector options <> "") then
    match labelsParse (mloLabelSelector options) with
    | Fail e => Fail e
    | Panic => Panic
    | Ret sel => Ret ([MatchingLabelsSelector sel], Some sel)
    end
  else Ret ([], None).

Definition ListWithContext (options : metaListOptions) (s : S) : result ObjectList :=
  match parseListOpts options with
  | Fail e => Fail e
  | Panic => Panic
  | Ret (opts, _) =>
      let (listCopy, r) := sList listObj opts s in
      match r with Ret _ => Ret listCopy | Fail e => Fail e | Panic => Panic end
  end.

(** The watchList protocol. [env] is what other clients do to the store between
    the two calls. *)
Definition watchWithInitialEvents (env : S -> S) (opts : list ListOption) (sel : option labelsSelector) (s : S)
    : option (S * result adapter) :=
  let (lst, r) := sList listObj opts s in
  let s := env s in
  match r with
  | Fail e => Some (s, Fail e)
  | Panic => None
  | Ret _ =>
      let rv := lResourceVersion lst in
      match ParseInt rv with
      | (_, Some _) => Some (s, Fail (OtherError "invalid list ResourceVersion"))
      | (rvInt, None) =>
          match ExtractList lst with
          | Fail e => Some (s, Fail (WrappedError "extracting items from list" e))
          | Panic => None
          | Ret items =>
              match sWatch listObj (opts ++ [WatchFromRevision rvInt]) s with
              | None => None
              | Some (s, Fail e) => Some (s, Fail e)
              | Some (s, Panic) => None
              | Some (s, Ret p) => Some (s, Ret (newInitialEventsAdapter p items (bookmarkForList listObj rv) sel))
              end
          end
      end
  end.

Definition WatchWithContext (env : S -> S) (options : metaListOptions) (s : S) : option (S * result adapter) :=
  match parseListOpts options with
  | Fail e => Some (s, Fail e)
  | Panic => None
  | Ret (listOpts, sel) =>
      if default false (mloSendInitialEvents options) then watchWithInitialEvents env listOpts sel s
      else
        let parsed :=
          if bool_decide (mloResourceVersion options <> "") then
            match ParseInt (mloResourceVersion options) with
            | (_, Some _) => Fail (OtherError "invalid ResourceVersion")
            | (rv, None) => Ret (listOpts ++ [WatchFromRevision rv])
            end
          else Ret listOpts in
        match parsed with
        | Fail e => Some (s, Fail e)
        | Panic => None
        | Ret listOpts =>
            match sWatch listObj listOpts s with
            | None => None
            | Some (s, Fail e) => Some (s, Fail e)
            | Some (s, Panic) => None
            | Some (s, Ret p) => Some (s, Ret (newWatchAdapter p sel))
            end
        end
  end.
End listerwatcher.
End LW.
