(* ===== verification/ListerWatcherTheorems.v ===== *)
(** * Theorems about the client-go adapter *)

From S2P Require Import Prelude GoStrconv GoJson GoJsonFacts Objects ObjectFacts.
From S2P Require Import StoreSpec StoreInterface Backend EventQueue Informer InformerFacts.
From S2P Require Import ListerWatcher.

Import LW.

(** ** Runs of an adapter *)

(** A run of the goroutine and its consumer: the events taken from the inner
    watcher and those the consumer has received, oldest first. *)
Inductive adapterRun (a0 : adapter) : list Event -> list watchEvent -> adapter -> Prop :=
| arun_start : adapterRun a0 [] [] a0
| arun_send taken consumed a a' :
    adapterRun a0 taken consumed a -> sendStep a = Some a' -> adapterRun a0 taken consumed a'
| arun_relay taken consumed a a' evt :
    adapterRun a0 taken consumed a -> relayStep evt a = Some a' -> adapterRun a0 (taken ++ [evt]) consumed a'
| arun_end taken consumed a a' innerClosed :
    adapterRun a0 taken consumed a -> endStep innerClosed a = Some a' -> adapterRun a0 taken consumed a'
| arun_consume taken consumed a a' e :
    adapterRun a0 taken consumed a -> consumeStep a = Some (a', e) -> adapterRun a0 taken (consumed ++ [e]) a'
| arun_stop taken consumed a :
    adapterRun a0 taken consumed a -> adapterRun a0 taken consumed (stopAdapter a).

(** What a Reflector should see of the inner watcher's events: those whose
    object matches the selector, and every bookmark, with their type and object. *)
Definition wanted (sel : option labelsSelector) (evt : Event) : bool :=
  match sel with
  | None => true
  | Some sel => bool_decide (evType evt = EventBookmark) || lsMatches sel (GetLabels (evObject evt))
  end.

Definition relayed (sel : option labelsSelector) (evs : list Event) : list watchEvent :=
  map (fun evt => mkWatchEvent (evType evt) (RObject (evObject evt))) (List.filter (wanted sel) evs).

Lemma relayed_snoc sel evs evt :
  relayed sel (evs ++ [evt]) = relayed sel evs ++ option_list (relayEvent sel evt).
Proof.
  unfold relayed, relayEvent, wanted. rewrite List.filter_app, map_app. simpl. f_equal.
  destruct sel as [sel|]; [|done]. case_bool_decide; simpl; [done|]. by destruct (lsMatches sel _).
Qed.

(** The stream of a run: what was received, is buffered, is about to be sent,
    or was dropped by the end of a stopped adapter. *)
Record streamed (a0 : adapter) (taken : list Event) (consumed : list watchEvent) (a : adapter) (lost : list watchEvent) : Prop := {
  st_selector : aSelector a = aSelector a0;
  st_cap : cap (aOut a) = cap (aOut a0);
  st_room : length (buf (aOut a0)) <= cap (aOut a0) -> length (buf (aOut a)) <= cap (aOut a);
  st_stream : consumed ++ buf (aOut a) ++ aPending a ++ lost = buf (aOut a0) ++ aPending a0 ++ relayed (aSelector a0) taken;
  st_open : chClosed (aOut a) = false -> lost = [];
  st_unstopped : aStopped a = false -> lost = [];
  st_ended : chClosed (aOut a) = true -> aPending a = [];
}.

Lemma adapterRun_spec a0 taken consumed a :
  chClosed (aOut a0) = false -> adapterRun a0 taken consumed a -> exists lost, streamed a0 taken consumed a lost.
Proof.
  intros Hop. induction 1 as [|taken consumed a a' _ [l [Hs Hc Hr E Ho Hu He]] Hst|taken consumed a a' evt _ [l [Hs Hc Hr E Ho Hu He]] Hst
    |taken consumed a a' ic _ [l [Hs Hc Hr E Ho Hu He]] Hst|taken consumed a a' e _ [l [Hs Hc Hr E Ho Hu He]] Hst
    |taken consumed a _ [l [Hs Hc Hr E Ho Hu He]]].
  - exists []. split; try done; congruence.
  - unfold sendStep, trySend in Hst. destruct (aPending a) as [|e rest]; [done|].
    destruct (chClosed (aOut a)); [done|]. case_bool_decide; [|done]. simplify_eq. exists []. rewrite Ho in E by done.
    split; simpl; try done; [intros; rewrite length_app; simpl; lia|]. rewrite <- E. by rewrite <- (assoc_L (++) (buf _)).
  - unfold relayStep in Hst. destruct (aPending a); [|done]. destruct (chClosed (aOut a)) eqn:Ec; [done|]. simplify_eq.
    exists []. rewrite Ho in E by done. split; simpl; try done; [|by rewrite Ec].
    rewrite relayed_snoc, !(assoc_L (++)), <- (assoc_L (++) (buf (aOut a0))), <- E, Hs, !app_nil_r. done.
  - unfold endStep, closeChan in Hst. destruct (_ || _) eqn:Eg; [|done]. destruct (chClosed (aOut a)); simplify_eq/=.
    rewrite Ho, app_nil_r in E by done. exists (aPending a). split; simpl; try done. intros Hns. rewrite Hns in Eg. simpl in Eg.
    apply andb_true_iff in Eg as [_ Eg%bool_decide_eq_true_1]. by apply nil_length_inv.
  - unfold consumeStep, recv in Hst. destruct (buf (aOut a)) as [|v vs]; [by destruct (chClosed (aOut a))|].
    simplify_eq. exists l. split; simpl in *; try done; [intros Hle; specialize (Hr Hle); lia|].
    by rewrite <- (assoc_L (++) consumed).
  - exists l. by split.
Qed.

(** What a watch event does to what a Reflector knows. *)
Definition applyWatch (m : gmap ObjectKey Object) (we : watchEvent) : gmap ObjectKey Object :=
  match weObject we with RObject o => applyEvent m (mkEvent (weType we) o) | _ => m end.

Lemma applyWatch_relay m evs :
  foldl applyWatch m (omap (relayEvent None) evs) = applyEvents m evs.
Proof. revert m. induction evs as [|e evs IH]; intros m; simpl; [done|]. rewrite IH. by destruct e. Qed.

Lemma applyWatch_added items m :
  foldl applyWatch m (map (mkWatchEvent EventAdded) (map RObject items)) =
  foldl (fun m ko => <[ko.1 := ko.2]> m) m (map (fun o => (ObjectKeyFromObject o, o)) items).
Proof. revert m. induction items as [|o items IH]; intros m; simpl; [done|]. apply IH. Qed.

(** All objects of a view, added one by one, give the view. *)
Lemma added_view g H items :
  wfHistory H -> items ≡ₚ (map_to_list (view g H)).*2 ->
  foldl applyWatch ∅ (map (mkWatchEvent EventAdded) (map RObject items)) = view g H.
Proof.
  intros Hwf Hp. rewrite applyWatch_added.
  assert (map (fun o => (ObjectKeyFromObject o, o)) items ≡ₚ map_to_list (view g H)) as Hl.
  { rewrite Hp. apply (reflexive_eq (R := (≡ₚ))). rewrite map_map. rewrite <- (map_id (map_to_list (view g H))) at 2.
    apply map_ext_in. intros [k o] Hin%list_elem_of_In%elem_of_map_to_list. simpl.
    by apply view_lookup in Hin as [-> _]. }
  assert (NoDup (map (fun o => (ObjectKeyFromObject o, o)) items).*1) as Hnd.
  { rewrite Hl. apply NoDup_fst_map_to_list. }
  rewrite foldl_insert by done. rewrite (list_to_map_proper _ _ Hnd Hl). apply list_to_map_to_list.
Qed.

(** ** The theorems *)

(** C38: an adapter is a lossless, order-preserving filter, in any interleaving of its goroutine, its
    consumer and a stop. While its goroutine runs, what the consumer received, then what is buffered, then
    what is about to be sent, is exactly the initial events followed by the events taken from the inner
    watcher that match the selector, with their type and object; when the goroutine has ended because the
    inner watcher was closed, the consumer has or can still receive all of them, and when it was stopped, a
    prefix of them. The buffer never exceeds its capacity of 100. *)
Theorem lw_adapter_stream inner items bookmark sel taken consumed a :
  adapterRun (newInitialEventsAdapter inner items bookmark sel) taken consumed a ->
  let expected := initialEvents items bookmark ++ relayed sel taken in
  (chClosed (aOut a) = false -> consumed ++ buf (aOut a) ++ aPending a = expected) /\
  (chClosed (aOut a) = true -> aStopped a = false -> consumed ++ buf (aOut a) = expected) /\
  consumed ++ buf (aOut a) `prefix_of` expected /\
  length (buf (aOut a)) <= 100.
Proof.
  intros Hr. destruct (adapterRun_spec (newInitialEventsAdapter inner items bookmark sel) _ _ _ eq_refl Hr) as [l [_ Hc Hl E Ho Hu He]]. simpl in E, Hc, Hl. split_and!.
  - intros H. by rewrite <- E, Ho, app_nil_r.
  - intros H1 H2. by rewrite <- E, (Hu H2), (He H1), !app_nil_r.
  - rewrite <- E. exists (aPending a ++ l). by rewrite <- (assoc_L (++) consumed).
  - rewrite Hc in Hl. apply Hl. lia.
Qed.

(** When an adapter's goroutine ends because the inner watcher was closed, and not
    because of a stop, nothing is lost: every matching event taken from the inner watcher is with the
    consumer or in the closed channel, where the consumer still receives it. *)
Theorem lw_adapter_ends_clean inner sel taken consumed a a' :
  adapterRun (newWatchAdapter inner sel) taken consumed a -> aStopped a = false -> endStep true a = Some a' ->
  chClosed (aOut a') = true /\ consumed ++ buf (aOut a') = relayed sel taken.
Proof.
  intros Hr Hs He. assert (aStopped a' = false /\ chClosed (aOut a') = true) as [Hs' Hc'].
  { unfold endStep, closeChan in He. destruct (_ || _), (chClosed (aOut a)); simplify_eq/=. done. }
  destruct (adapterRun_spec (newWatchAdapter inner sel) _ _ _ eq_refl (arun_end _ _ _ _ _ _ Hr He)) as [l [_ _ _ E _ Hu Hp]].
  rewrite (Hu Hs'), (Hp Hc'), !app_nil_r in E. by split.
Qed.

Section laws.
Context {S : Type} `{SO : StoreOps S} (scheme : Scheme) {SL : StoreLaws S scheme}.
Context (ExtractList : ObjectList -> result (list runtimeObject)) (listObj : ObjectList).

(** [meta.ExtractList] returns the items of a list. *)
Hypothesis ExtractList_items : forall l, ExtractList l = Ret (map RObject (lItems l)).

(** C32: the watchList protocol hands a Reflector a consistent start. Whatever other
    clients write between the list and the watch, the adapter first sends each listed object once as
    ADDED, then one BOOKMARK carrying the list's resource version, and applying these and the events
    waiting in the watcher gives exactly the store's objects; or the list's version has been compacted
    and the caller gets a RevisionTooOldError. *)
Theorem lw_watchlist_syncs env s H H2 g :
  hist s H -> hist (env s) (H ++ H2) -> hasRoom (H ++ H2) ->
  gvkForList scheme listObj = Ret g -> okList scheme g listObj ->
  exists s' r, watchWithInitialEvents ExtractList listObj env [] None s = Some (s', r) /\
    match r with
    | Ret a => exists items bookmark,
        aPending a = map (mkWatchEvent EventAdded) (map RObject items) ++ [mkWatchEvent EventBookmark (RObject bookmark)] /\
        items ≡ₚ (map_to_list (view g H)).*2 /\
        GetResourceVersion bookmark = FormatInt (Z.of_nat (length H)) /\
        foldl applyWatch ∅ (aPending a ++ omap (relayEvent (aSelector a)) (sBuffered (aInner a) s')) = view g (H ++ H2)
    | Fail e => exists oldest, e = RevisionTooOldError (Z.of_nat (length H)) oldest
    | Panic => False
    end.
Proof using ExtractList_items.
  intros Hh Hh2 Hroom Hgl Hok. unfold watchWithInitialEvents.
  destruct (law_List s H listObj [] g Hh Hgl Hok) as (items & -> & Hp). simpl lResourceVersion.
  assert (in_int64 (Z.of_nat (length H)) = true) as Hin.
  { apply in_int64_spec. unfold min_int64. apply hist_bound in Hh. lia. }
  rewrite ParseInt_FormatInt by done. rewrite ExtractList_items. simpl lItems.
  rewrite filter_all in Hp by (apply Forall_true; intros [k o]; done).
  destruct (law_Watch (env s) (H ++ H2) listObj [WatchFromRevision (Z.of_nat (length H))] g Hh2 Hroom Hgl)
    as (s' & r & E & Hh' & Hr); [by intros ? [= <-]|]. simpl app. rewrite E.
  destruct r as [p|e|]; [| |done].
  - destruct Hok as (t & Ht & _). eexists s', _. split; [done|].
    unfold newInitialEventsAdapter, initialEvents, bookmarkForList. rewrite Ht. simpl.
    eexists items, _. split_and!; [done|done|done|].
    rewrite Hr, !foldl_app. rewrite (added_view g H items) by (done || by eapply hist_wf). simpl.
    unfold applyWatch at 2. simpl. unfold applyEvent. simpl. rewrite applyWatch_relay.
    unfold replayOf. simpl. rewrite changesSince_drop by (by eapply hist_wf). by rewrite drop_app_length, view_app.
  - destruct Hr as (from & [= <-] & _ & oldest & ->). eexists s', _. split; [done|]. by exists oldest.
Qed.
End laws.

(** Bad options never reach the store: an unparsable label selector, or an unparsable
    resource version, is reported and no watch is opened; a version outside the 64-bit range counts as
    unparsable. *)
Theorem lw_invalid_options {S : Type} `{StoreOps S} labelsParse ExtractList listObj env options (s : S) e :
  (mloLabelSelector options <> "" /\ labelsParse (mloLabelSelector options) = Fail e) \/
  (mloLabelSelector options = "" /\ mloSendInitialEvents options = None /\ mloResourceVersion options <> "" /\
   exists err, (ParseInt (mloResourceVersion options)).2 = Some err) ->
  exists e', WatchWithContext labelsParse ExtractList listObj env options s = Some (s, Fail e').
Proof.
  intros [[Hn E]|(El & Es & Hrv & err & Ep)]; unfold WatchWithContext, parseListOpts.
  - rewrite bool_decide_true, E by done. by eexists.
  - rewrite bool_decide_false by naive_solver. rewrite Es. simpl. rewrite bool_decide_true by done.
    destruct (ParseInt (mloResourceVersion options)) as [rv o]. simpl in Ep. subst o. by eexists.
Qed.
