(* ===== verification/ListerWatcherWitnesses.v ===== *)
(** * The client-go adapter's theorems at concrete inputs *)

From S2P Require Import Prelude GoStrconv GoJson GoJsonFacts Objects ObjectFacts.
From S2P Require Import StoreSpec StoreInterface Backend MemoryStore Fixtures MemoryStoreFacts.
From S2P Require Import MemoryStoreRuns MemoryStoreTheorems MemoryInterface MemoryStoreWitnesses EventQueue Informer.
From S2P Require Import InformerFacts InformerTheorems Client ClientTheorems Cache CacheTheorems.
From S2P Require Import CacheWitnesses ListerWatcher ListerWatcherTheorems.

Import LW.

Definition added1 : Event := mkEvent EventAdded w1c.
Definition modified1 : Event := mkEvent EventModified blue1.
Definition labelled1 : Event := mkEvent EventAdded front1.

(** An adapter for the widgets with a label, with one initial item. *)
Definition front : option labelsSelector :=
  Some (mkLabelsSelector (fun ls => bool_decide (ls !! "tier" = Some "front")) false).
Definition r0 : adapter := newInitialEventsAdapter 0 [RObject front1] None front.
Definition r1 : adapter := default r0 (sendStep r0).
Definition r2 : adapter := default r0 (relayStep modified1 r1).
Definition r3 : adapter := default r0 (fst <$> consumeStep r2).
Definition r4 : adapter := default r0 (relayStep labelled1 r3).
Definition r5 : adapter := default r0 (sendStep r4).
Definition r6 : adapter := default r0 (relayStep labelled1 r5).
Definition r7 : adapter := default r0 (endStep false (stopAdapter r6)).

Definition addedFront : watchEvent := mkWatchEvent EventAdded (RObject front1).

Lemma run_r5 : adapterRun r0 [modified1; labelled1] [addedFront] r5.
Proof.
  apply (arun_send _ _ _ r4); [|computed]. apply (arun_relay _ [modified1] _ r3 r4 labelled1); [|computed].
  apply (arun_consume _ _ [] r2 r3 addedFront); [|computed]. apply (arun_relay _ [] _ r1 r2 modified1); [|computed].
  apply (arun_send _ _ _ r0); [apply arun_start|computed].
Qed.

(** The initial item is sent and received, an event without the label is
    dropped and one with it is sent; then another one is taken and the adapter is
    stopped before it is sent: what the consumer can receive is a prefix. *)
Lemma lw_adapter_stream_witness :
  ([addedFront] ++ buf (aOut r5) ++ aPending r5 = initialEvents [RObject front1] None ++ relayed front [modified1; labelled1]) /\
  ([addedFront] ++ buf (aOut r7) `prefix_of` initialEvents [RObject front1] None ++ relayed front [modified1; labelled1; labelled1]).
Proof.
  split.
  - destruct (lw_adapter_stream 0 [RObject front1] None front [modified1; labelled1] [addedFront] r5 run_r5) as (H & _).
    apply H. computed.
  - refine (proj1 (proj2 (proj2 (lw_adapter_stream 0 [RObject front1] None front [modified1; labelled1; labelled1]
      [addedFront] r7 _)))).
    apply (arun_end _ _ _ (stopAdapter r6) r7 false); [|computed]. apply arun_stop.
    apply (arun_relay _ [modified1; labelled1] _ r5 r6 labelled1); [apply run_r5|computed].
Defined.

Definition a0 : adapter := newWatchAdapter 0 None.
Definition a1 : adapter := default a0 (relayStep added1 a0).
Definition a2 : adapter := default a0 (sendStep a1).

Lemma lw_adapter_ends_clean_witness :
  exists a', endStep true a2 = Some a' /\ chClosed (aOut a') = true /\
    [] ++ buf (aOut a') = relayed None [added1].
Proof.
  exists (mkAdapter 0 None [] (Chan [mkWatchEvent EventAdded (RObject w1c)] 100 true) false). split; [computed|].
  apply (lw_adapter_ends_clean 0 None [added1] [] a2); [|computed|computed].
  apply (arun_send _ _ _ a1); [|computed].
  apply (arun_relay _ [] [] a0 a1 added1); [apply arun_start|computed].
Defined.

Lemma lw_watchlist_syncs_witness :
  exists s' r, watchWithInitialEvents (H := memOps) testExtractList testWidgetList (fun _ => store2) [] None store1 = Some (s', r) /\
    match r with
    | Ret a => exists items bookmark,
        aPending a = map (mkWatchEvent EventAdded) (map RObject items) ++ [mkWatchEvent EventBookmark (RObject bookmark)] /\
        items ≡ₚ (map_to_list (view widgetGVK (history store1))).*2 /\
        GetResourceVersion bookmark = FormatInt (Z.of_nat (length (history store1))) /\
        foldl applyWatch ∅ (aPending a ++ omap (relayEvent (aSelector a)) (sBuffered (StoreOps := memOps) (aInner a) s')) =
        view widgetGVK (history store1 ++ change2)
    | Fail e => exists oldest, e = RevisionTooOldError (Z.of_nat (length (history store1))) oldest
    | Panic => False
    end.
Proof.
  apply (lw_watchlist_syncs (SL := memLaws) testScheme testExtractList testWidgetList (fun l => eq_refl)
           (fun _ => store2) store1 (history store1) change2 widgetGVK).
  - apply hist_store1.
  - assert (history store1 ++ change2 = history store2) as -> by computed. apply hist_store2.
  - by vm_compute.
  - computed.
  - apply okWidgetList.
Defined.

Definition noParse (s : string) : result labelsSelector := Fail (OtherError "unable to parse requirement").

Lemma lw_invalid_options_witness :
  exists e', WatchWithContext (H := memOps) noParse testExtractList testWidgetList id
    (mkMetaListOptions "" "9223372036854775808" None) store1 = Some (store1, Fail e').
Proof.
  apply (lw_invalid_options (H := memOps) noParse testExtractList testWidgetList id
           (mkMetaListOptions "" "9223372036854775808" None) store1 (OtherError "unable to parse requirement")).
  right. split_and!; [done|done|done|]. exists ErrRange. computed.
Defined.
