(* ===== verification/PostgresVersion.v ===== *)
(** * Composite resource versions: postgres/store.go

    The PostgreSQL backend's list version is [e<epoch>|b<bucket>:<seq>,...]; the
    store owns one bucket and hands its sequence number out as the revision. The
    string helpers it uses of the [strings] package, the parser, and that it
    reads back what is printed. *)

From Stdlib Require Import Ascii DecimalString.
From S2P Require Import Prelude GoStrconv GoJson Objects.

(** ** strings *)

(** [strings.HasPrefix] and [strings.TrimPrefix] *)
Fixpoint stripPrefix (p s : string) : option string :=
  match p, s with
  | EmptyString, _ => Some s
  | String a p', String b s' => if Ascii.eqb a b then stripPrefix p' s' else None
  | String _ _, EmptyString => None
  end.

Definition HasPrefix (s p : string) : bool := bool_decide (is_Some (stripPrefix p s)).
Definition TrimPrefix (s p : string) : string := default s (stripPrefix p s).

(** [strings.SplitN(s, sep, 2)] for a one-character separator: the parts before
    and after the first one, if there is one. *)
Fixpoint cutAt (sep : ascii) (s : string) : option (string * string) :=
  match s with
  | EmptyString => None
  | String c s' =>
      if Ascii.eqb c sep then Some (EmptyString, s')
      else (fun '(a, b) => (String c a, b)) <$> cutAt sep s'
  end.

(** [strings.Split(s, sep)] *)
Fixpoint splitAt (sep : ascii) (s : string) : list string :=
  match s with
  | EmptyString => [EmptyString]
  | String c s' =>
      if Ascii.eqb c sep then EmptyString :: splitAt sep s'
      else match splitAt sep s' with
           | x :: xs => String c x :: xs
           | [] => [String c EmptyString]
           end
  end.

(** [strings.Join], the inverse of [Split]. *)
Fixpoint joinWith (sep : ascii) (l : list string) : string :=
  match l with
  | [] => EmptyString
  | [x] => x
  | x :: xs => x +:+ String sep (joinWith sep xs)
  end.

Module PGV.

Definition pipe : ascii := ascii_of_nat 124.
Definition comma : ascii := ascii_of_nat 44.
Definition colon : ascii := ascii_of_nat 58.

(** [fmt.Sprintf("b%d:", bucketID)] *)
Definition bucketPrefix (bucketID : Z) : string := "b" +:+ FormatInt bucketID +:+ String colon EmptyString.

(** [epoch, hwm, err]: on a number out of range the nearest one is returned
    together with the error. *)
Definition parseBucketHWM (rvStr : string) (bucketID : Z) : Z * Z * option error :=
  match cutAt pipe rvStr with
  | None => (0%Z, 0%Z, Some (OtherError ("invalid composite RV: " +:+ rvStr)))
  | Some (head, rest) =>
      match ParseInt (TrimPrefix head "e") with
      | (_, Some _) => (0%Z, 0%Z, Some (OtherError ("parse epoch from RV " +:+ rvStr)))
      | (epoch, None) =>
          let prefix := bucketPrefix bucketID in
          match List.find (fun part => HasPrefix part prefix) (splitAt comma rest) with
          | Some part =>
              let (hwm, err) := ParseInt (TrimPrefix part prefix) in
              (epoch, hwm, (fun _ => OtherError "strconv.ParseInt") <$> err)
          | None => (epoch, 0%Z, None)
          end
      end
  end.

(** [fmt.Sprintf("e%d|b%d:%d", clusterEpoch, bucketID, hwm)], and the general
    form with any number of buckets. *)
Definition bucketEntry (bh : Z * Z) : string := bucketPrefix bh.1 +:+ FormatInt bh.2.

Definition compositeRV (epoch : Z) (buckets : list (Z * Z)) : string :=
  "e" +:+ FormatInt epoch +:+ String pipe (joinWith comma (map bucketEntry buckets)).

Definition gvkToString (gvk : GVK) : string := gGroup gvk +:+ "/" +:+ gVersion gvk +:+ "/" +:+ gKind gvk.

Definition apiVersionStr (gvk : GVK) : string :=
  if bool_decide (gGroup gvk = "") then gVersion gvk else gGroup gvk +:+ "/" +:+ gVersion gvk.

End PGV.

(** ** Facts *)

(** A string without a character. *)
Fixpoint free (c : ascii) (s : string) : bool :=
  match s with
  | EmptyString => true
  | String a s' => negb (Ascii.eqb a c) && free c s'
  end.

Lemma free_app c s t : free c (s +:+ t) = free c s && free c t.
Proof. induction s as [|a s IH]; [done|]. simpl. by rewrite IH, andb_assoc. Qed.

Lemma cutAt_app sep s t : free sep s = true -> cutAt sep (s +:+ String sep t) = Some (s, t).
Proof.
  induction s as [|a s IH]; simpl; [by rewrite Ascii.eqb_refl|].
  intros [Ha Hs]%andb_true_iff. apply negb_true_iff in Ha. by rewrite Ha, IH.
Qed.

Lemma splitAt_free sep s : free sep s = true -> splitAt sep s = [s].
Proof.
  induction s as [|a s IH]; [done|]. simpl. intros [Ha Hs]%andb_true_iff. apply negb_true_iff in Ha.
  by rewrite Ha, IH.
Qed.

Lemma splitAt_app sep s t : free sep s = true -> splitAt sep (s +:+ String sep t) = s :: splitAt sep t.
Proof.
  induction s as [|a s IH]; simpl; [by rewrite Ascii.eqb_refl|].
  intros [Ha Hs]%andb_true_iff. apply negb_true_iff in Ha. by rewrite Ha, IH.
Qed.

(** [Split] undoes [Join] on parts without the separator. *)
Lemma splitAt_join sep l :
  l <> [] -> Forall (fun s => free sep s = true) l -> splitAt sep (joinWith sep l) = l.
Proof.
  induction l as [|x l IH]; [done|]. intros _ [Hx Hl]%Forall_cons. destruct l as [|y l]; [by apply splitAt_free|].
  simpl. rewrite splitAt_app by done. f_equal. by apply IH.
Qed.

Lemma stripPrefix_app p s : stripPrefix p (p +:+ s) = Some s.
Proof. induction p as [|a p IH]; [done|]. simpl. by rewrite Ascii.eqb_refl. Qed.

(** A prefix that ends in a separator fits only the same first part. *)
Lemma stripPrefix_part sep x y z :
  free sep x = true -> free sep y = true ->
  stripPrefix (x +:+ String sep EmptyString) (y +:+ String sep z) = if bool_decide (x = y) then Some z else None.
Proof.
  revert y. induction x as [|a x IH]; intros [|b y]; simpl.
  - by rewrite Ascii.eqb_refl.
  - intros _ [Hb _]%andb_true_iff. apply negb_true_iff in Hb. by rewrite Ascii.eqb_sym, Hb.
  - intros [Ha _]%andb_true_iff _. apply negb_true_iff in Ha. by rewrite Ha.
  - intros [_ Hx]%andb_true_iff [_ Hy]%andb_true_iff. destruct (Ascii.eqb_spec a b) as [->|Hne].
    + rewrite IH by done. repeat case_bool_decide; congruence.
    + rewrite bool_decide_false by congruence. done.
Qed.

Lemma free_digits c d : free c "0123456789" = true -> free c (NilEmpty.string_of_uint d) = true.
Proof.
  intros H. simpl in H. repeat (apply andb_true_iff in H as [? H]).
  induction d; simpl; [done|..]; (apply andb_true_iff; split; done).
Qed.

Lemma free_FormatInt c z : free c "0123456789-" = true -> free c (FormatInt z) = true.
Proof.
  intros H. change "0123456789-" with ("0123456789" +:+ "-") in H. rewrite free_app in H.
  apply andb_true_iff in H as [Hd Hm]. unfold FormatInt.
  assert (forall d, free c (NilZero.string_of_uint d) = true) as Hu.
  { intros [|d|d|d|d|d|d|d|d|d|d]; try exact (free_digits c _ Hd); by apply (free_digits c (Decimal.D0 Decimal.Nil)). }
  destruct (Z.to_int z) as [d|d]; simpl; [apply Hu|]. rewrite Hu, andb_true_r. simpl in Hm. by rewrite andb_true_r in Hm.
Qed.

Lemma string_app_assoc (x y z : string) : (x +:+ y) +:+ z = x +:+ (y +:+ z).
Proof. induction x as [|a x IH]; [done|]. exact (f_equal (String a) IH). Qed.

Section parse.
Import PGV.

Lemma free_entry c bh : free c "0123456789-:b" = true -> free c (bucketEntry bh) = true.
Proof.
  intros H. change "0123456789-:b" with ("0123456789-" +:+ String colon "b") in H. rewrite free_app in H.
  apply andb_true_iff in H as [Hd Hr]. simpl in Hr. apply andb_true_iff in Hr as [Hc Hb]. rewrite andb_true_r in Hb.
  unfold bucketEntry, bucketPrefix. rewrite !free_app, !free_FormatInt by done. simpl. by rewrite Hb, Hc.
Qed.

Lemma entry_prefix b bh :
  stripPrefix (bucketPrefix b) (bucketEntry bh) = if bool_decide (b = bh.1) then Some (FormatInt bh.2) else None.
Proof.
  pose proof (stripPrefix_part colon ("b" +:+ FormatInt b) ("b" +:+ FormatInt bh.1) (FormatInt bh.2)) as Hp.
  rewrite !free_app, !free_FormatInt, (string_app_assoc "b" _ (String colon EmptyString)) in Hp by done.
  unfold bucketEntry, bucketPrefix. rewrite (string_app_assoc "b"), (string_app_assoc (FormatInt bh.1)), <- (string_app_assoc "b").
  etrans; [by apply Hp|]. 
  destruct (decide (b = bh.1)) as [->|Hne]; [by rewrite !bool_decide_true|].
  rewrite !bool_decide_false; [done..|]. intros E. injection E as E. by apply (inj FormatInt) in E.
Qed.

(** The first entry of a bucket. *)
Definition hwmOf (b : Z) (buckets : list (Z * Z)) : option Z :=
  snd <$> List.find (fun bh => bool_decide (b = bh.1)) buckets.

Lemma find_entry b buckets :
  List.find (fun part => HasPrefix part (bucketPrefix b)) (map bucketEntry buckets) =
  bucketEntry <$> List.find (fun bh => bool_decide (b = bh.1)) buckets.
Proof.
  induction buckets as [|bh l IH]; [done|]. simpl. unfold HasPrefix at 1. rewrite entry_prefix.
  destruct (decide (b = bh.1)) as [->|Hne].
  - rewrite (bool_decide_true (bh.1 = bh.1)) by done. by rewrite bool_decide_true by (by eexists).
  - rewrite (bool_decide_false (b = bh.1)) by done. rewrite bool_decide_false; [done|by intros []].
Qed.

(** The parser on a printed version. *)
Lemma parseBucketHWM_composite epoch buckets b :
  in_int64 epoch = true -> Forall (fun bh => in_int64 bh.2 = true) buckets ->
  parseBucketHWM (compositeRV epoch buckets) b = (epoch, default 0%Z (hwmOf b buckets), None).
Proof.
  intros He Hb. unfold parseBucketHWM, compositeRV.
  rewrite <- string_app_assoc, cutAt_app by (simpl; by apply free_FormatInt).
  unfold TrimPrefix at 1. rewrite stripPrefix_app. simpl default. rewrite ParseInt_FormatInt by done.
  unfold hwmOf. destruct buckets as [|bh l]; [done|].
  rewrite splitAt_join, find_entry.
  - destruct (List.find _ _) as [bh'|] eqn:Ef; [|done]. simpl.
    apply List.find_some in Ef as [Hin E]. apply bool_decide_eq_true_1 in E.
    unfold TrimPrefix. rewrite entry_prefix, bool_decide_true by done. simpl.
    rewrite ParseInt_FormatInt; [done|]. rewrite Forall_forall in Hb. by apply Hb, list_elem_of_In.
  - done.
  - apply Forall_map, Forall_true. intros x. by apply free_entry.
Qed.
End parse.
