(* ===== verification/PostgresLease.v ===== *)
(** * Shard leases: postgres/store.go

    A [ShardedStore] owns a bucket through two rows of the table [bucket_leases],
    one per domain. The SQL statements are functions on the table; a statement
    may also fail when the connection is lost, before it took effect or after,
    which is an argument of the call. Time is the database's [now()]. *)

From S2P Require Import Prelude GoStrconv GoJson Objects.

Module PGL.

(** ** The table *)

Record leaseRow : Type := mkLease { holder : string; epoch : Z; expires_at : Z }.

#[export] Instance leaseRow_eq_dec : EqDecision leaseRow.
Proof. solve_decision. Defined.

(** [PRIMARY KEY (bucket_id, domain)] *)
Abbreviation leases := (gmap (Z * string) leaseRow).

Record leaseEpochs : Type := mkEpochs { spec : Z; status : Z }.

Definition leaseTTL : Z := 30.

Definition sqlError : error := OtherError "connection lost".

(** How a statement fares: it works, it does not reach the database, or it is
    committed and the answer is lost. *)
Inductive sqlFault : Type := Works | FailsBefore | FailsAfter.

Definition committed (f : sqlFault) : bool := match f with FailsBefore => false | _ => true end.
Definition answered (f : sqlFault) : bool := match f with Works => true | _ => false end.

(** ** Statements *)

Section statements.
Context (now ttl : Z) (bucketID : Z) (holderID : string).

(** One row of [INSERT ... ON CONFLICT DO UPDATE ... WHERE ... RETURNING]: the
    returned epoch, if the row was written; an epoch beyond BIGINT is an error. *)
Definition upsert (domain : string) (t : leases) : option (leases * list (string * Z)) :=
  match t !! (bucketID, domain) with
  | None => Some (<[(bucketID, domain) := mkLease holderID 1 (now + ttl)]> t, [(domain, 1%Z)])
  | Some r =>
      if (expires_at r <? now)%Z || bool_decide (holder r = holderID) then
        if (epoch r <? max_int64)%Z
        then Some (<[(bucketID, domain) := mkLease holderID (epoch r + 1) (now + ttl)]> t, [(domain, (epoch r + 1)%Z)])
        else None
      else Some (t, [])
  end.

Definition acquireQuery (t : leases) : option (leases * list (string * Z)) :=
  match upsert "spec" t with
  | Some (t, rows1) => (fun '(t, rows2) => (t, rows1 ++ rows2)) <$> upsert "status" t
  | None => None
  end.

(** The loop over the returned rows. *)
Definition scanRow (ec : leaseEpochs * nat) (row : string * Z) : leaseEpochs * nat :=
  let (e, count) := ec in
  let e := if bool_decide (row.1 = "spec") then mkEpochs row.2 (status e)
           else if bool_decide (row.1 = "status") then mkEpochs (spec e) row.2 else e in
  (e, S count).

(** [DELETE FROM bucket_leases WHERE bucket_id = $1 AND holder = $2] *)
Definition deleteHeld (domain : string) (t : leases) : leases :=
  match t !! (bucketID, domain) with
  | Some r => if bool_decide (holder r = holderID) then delete (bucketID, domain) t else t
  | None => t
  end.

(** [domain] is checked to be one of the two. *)
Definition deleteQuery (t : leases) : leases := deleteHeld "status" (deleteHeld "spec" t).

(** The clean-up after a partial acquisition follows on the same connection. *)
Definition acquireBothLeases (query cleanup : sqlFault) (t : leases) : leases * result leaseEpochs :=
  if negb (committed query) then (t, Fail sqlError)
  else match acquireQuery t with
       | None => (t, Fail (OtherError "bigint out of range"))
       | Some (t, rows) =>
           if negb (answered query) then (t, Fail sqlError)
           else
             let (e, count) := foldl scanRow (mkEpochs 0 0, 0) rows in
             if bool_decide (count <> 2)
             then (if committed cleanup then deleteQuery t else t, Fail (OtherError "bucket held by another instance"))
             else (t, Ret e)
       end.

Definition renewRow (domain : string) (t : leases) : leases * nat :=
  match t !! (bucketID, domain) with
  | Some r => if bool_decide (holder r = holderID)
              then (<[(bucketID, domain) := mkLease (holder r) (epoch r) (now + ttl)]> t, 1) else (t, 0)
  | None => (t, 0)
  end.

Definition renewBothLeases (exec : sqlFault) (t : leases) : leases * result unit :=
  if negb (committed exec) then (t, Fail sqlError)
  else
    let (t, n1) := renewRow "spec" t in
    let (t, n2) := renewRow "status" t in
    if negb (answered exec) then (t, Fail sqlError)
    else if bool_decide (n1 + n2 <> 2) then (t, Fail (OtherError "lease renewal: not holder of bucket")) else (t, Ret tt).

Definition releaseBothLeases (exec : sqlFault) (t : leases) : leases * result unit :=
  if negb (committed exec) then (t, Fail sqlError)
  else (deleteQuery t, if answered exec then Ret tt else Fail sqlError).

End statements.

(** ** The store's side *)

Record ShardedStore : Type := mkStore {
  bucketID : Z;
  holderID : string;
  epochs : leaseEpochs;
  clusterEpoch : Z;
}.

Definition setEpochs (e : leaseEpochs) (s : ShardedStore) : ShardedStore :=
  mkStore (bucketID s) (holderID s) e (clusterEpoch s).
Definition setClusterEpoch (e : Z) (s : ShardedStore) : ShardedStore :=
  mkStore (bucketID s) (holderID s) (epochs s) e.

Definition New (now : Z) (connectFails : bool) (query cleanup : sqlFault) (bucket : Z) (holder : string) (t : leases)
    : leases * result ShardedStore :=
  if connectFails then (t, Fail (WrappedError "postgres connect" sqlError))
  else match acquireBothLeases now leaseTTL bucket holder query cleanup t with
       | (t, Ret e) => (t, Ret (mkStore bucket holder e 0))
       | (t, Fail e) => (t, Fail (WrappedError "acquire lease bucket" e))
       | (t, Panic) => (t, Panic)
       end.

(** One tick of the goroutine of [Start]: renew, and acquire again if that fails. *)
Definition renewTick (now : Z) (connectFails : bool) (renew query cleanup : sqlFault) (s : ShardedStore) (t : leases)
    : leases * ShardedStore :=
  if connectFails then (t, s)
  else match renewBothLeases now leaseTTL (bucketID s) (holderID s) renew t with
       | (t, Ret _) => (t, s)
       | (t, _) =>
           match acquireBothLeases now leaseTTL (bucketID s) (holderID s) query cleanup t with
           | (t, Ret e) => (t, setEpochs e s)
           | (t, _) => (t, s)
           end
       end.

(** The goroutine's end when the context is cancelled. *)
Definition releaseOnDone (connectFails : bool) (exec : sqlFault) (s : ShardedStore) (t : leases) : leases :=
  if connectFails then t else (releaseBothLeases (bucketID s) (holderID s) exec t).1.

Definition currentEpochs (s : ShardedStore) : leaseEpochs := epochs s.

(** The fence every write passes in the database (schema.sql, [pgctl_write]). *)
Definition fenceOk (now : Z) (t : leases) (bucketID : Z) (domain holderID : string) (e : Z) : bool :=
  match t !! (bucketID, domain) with
  | Some r => bool_decide (holder r = holderID) && bool_decide (epoch r = e) && (now <? expires_at r)%Z
  | None => false
  end.

End PGL.

(** ** Facts *)

Section facts.
Import PGL.

Definition paired (t : leases) (b : Z) : Prop := t !! (b, "spec") = t !! (b, "status").

(** What the statements do to a pair of rows. *)
Definition setPair (b : Z) (r : option leaseRow) (t : leases) : leases :=
  match r with
  | Some r => <[(b, "status") := r]> (<[(b, "spec") := r]> t)
  | None => delete (b, "status") (delete (b, "spec") t)
  end.

Lemma setPair_lookup b r t b' d :
  setPair b r t !! (b', d) = if decide (b' = b /\ (d = "spec" \/ d = "status")) then r else t !! (b', d).
Proof.
  unfold setPair. destruct r as [r|].
  - destruct (decide ((b', d) = (b, "status"))) as [E|Hne]; [simplify_eq; by rewrite lookup_insert_eq, decide_True by auto|].
    rewrite lookup_insert_ne by congruence.
    destruct (decide ((b', d) = (b, "spec"))) as [E|Hne2]; [simplify_eq; by rewrite lookup_insert_eq, decide_True by auto|].
    rewrite lookup_insert_ne by congruence. rewrite decide_False; [done|]. intros [-> [->| ->]]; congruence.
  - destruct (decide ((b', d) = (b, "status"))) as [E|Hne]; [simplify_eq; by rewrite lookup_delete_eq, decide_True by auto|].
    rewrite lookup_delete_ne by congruence.
    destruct (decide ((b', d) = (b, "spec"))) as [E|Hne2]; [simplify_eq; by rewrite lookup_delete_eq, decide_True by auto|].
    rewrite lookup_delete_ne by congruence. rewrite decide_False; [done|]. intros [-> [->| ->]]; congruence.
Qed.

Section pair.
Context (now ttl b : Z) (h : string) (t : leases).
Hypothesis Hp : paired t b.

(** What a successful acquisition writes. *)
Definition granted (r : option leaseRow) : option leaseRow :=
  match r with
  | None => Some (mkLease h 1 (now + ttl))
  | Some r => if ((expires_at r <? now)%Z || bool_decide (holder r = h)) && (epoch r <? max_int64)%Z
              then Some (mkLease h (epoch r + 1) (now + ttl)) else None
  end.

(** Acquiring takes both domains or changes nothing. *)
Lemma acquire_spec qf cf :
  acquireBothLeases now ttl b h qf cf t =
  match granted (t !! (b, "spec")) with
  | Some r => if committed qf then (setPair b (Some r) t, if answered qf then Ret (mkEpochs (epoch r) (epoch r)) else Fail sqlError)
              else (t, Fail sqlError)
  | None => (t, (acquireBothLeases now ttl b h qf cf t).2)
  end /\ (granted (t !! (b, "spec")) = None -> is_ret (acquireBothLeases now ttl b h qf cf t).2 = false).
Proof using Hp.
  unfold acquireBothLeases. destruct (committed qf) eqn:Eq; simpl; [|by destruct (granted _)].
  unfold acquireQuery, upsert, granted. destruct (t !! (b, "spec")) as [r|] eqn:E1.
  - pose proof Hp as E2. unfold paired in E2. rewrite E1 in E2. symmetry in E2.
    destruct (_ || _) eqn:Ec.
    + destruct (epoch r <? max_int64)%Z eqn:Ee; [|done]. rewrite lookup_insert_ne, E2, Ec, Ee by done. by destruct (answered qf).
    + rewrite E2, Ec. simpl. destruct (answered qf); [|done]. simpl. destruct (committed cf); [|done]. split; [|done]. do 1 f_equal.
      apply orb_false_iff in Ec as [_ Hh]. unfold deleteQuery, deleteHeld. rewrite E1, Hh, E2, Hh. done.
  - pose proof Hp as E2. unfold paired in E2. rewrite E1 in E2. symmetry in E2.
    rewrite lookup_insert_ne, E2 by done. by destruct (answered qf).
Qed.

(** Renewing extends both rows of the holder or changes nothing. *)
Lemma renew_spec ef :
  renewBothLeases now ttl b h ef t =
  match t !! (b, "spec") with
  | Some r =>
      if bool_decide (holder r = h) && committed ef
      then (setPair b (Some (mkLease h (epoch r) (now + ttl))) t, if answered ef then Ret tt else Fail sqlError)
      else (t, (renewBothLeases now ttl b h ef t).2)
  | None => (t, (renewBothLeases now ttl b h ef t).2)
  end.
Proof using Hp.
  unfold renewBothLeases. destruct (committed ef) eqn:Ef; simpl; [|destruct (t !! _) as [r|]; [by rewrite andb_false_r|done]].
  pose proof Hp as E2. unfold paired in E2. unfold renewRow.
  destruct (t !! (b, "spec")) as [r|] eqn:E1; [|rewrite <- E2; by destruct (answered ef)].
  destruct (decide (holder r = h)) as [Hh|Hh].
  - rewrite bool_decide_true by done. rewrite lookup_insert_ne by done. rewrite <- E2, bool_decide_true by done.
    simpl. rewrite Hh. by destruct (answered ef).
  - rewrite bool_decide_false by done. simpl. rewrite <- E2, bool_decide_false by done. by destruct (answered ef).
Qed.

Lemma release_spec ef :
  (releaseBothLeases b h ef t).1 =
  match t !! (b, "spec") with
  | Some r => if bool_decide (holder r = h) && committed ef then setPair b None t else t
  | None => t
  end.
Proof using Hp.
  unfold releaseBothLeases. destruct (committed ef) eqn:Ef; simpl; [|destruct (t !! _) as [r|]; [by rewrite andb_false_r|done]].
  pose proof Hp as E2. unfold paired in E2. unfold deleteQuery, deleteHeld. simpl.
  destruct (t !! (b, "spec")) as [r|] eqn:E1; [|by rewrite <- E2].
  destruct (decide (holder r = h)) as [Hh|Hh].
  - rewrite bool_decide_true by done. rewrite lookup_delete_ne by done. by rewrite <- E2, bool_decide_true by done.
  - rewrite bool_decide_false by done. by rewrite <- E2, bool_decide_false by done.
Qed.
End pair.

(** ** Runs

    Any number of processes call the statements, for any buckets, and time
    passes between the calls. *)

Inductive leaseOp : Type := OpAcquire | OpRenew | OpRelease.

Record leaseCall : Type := mkCall { lcOp : leaseOp; lcBucket : Z; lcHolder : string; lcFault : sqlFault; lcCleanupFault : sqlFault }.

Definition applyLease (now : Z) (c : leaseCall) (t : leases) : leases :=
  match lcOp c with
  | OpAcquire => (acquireBothLeases now leaseTTL (lcBucket c) (lcHolder c) (lcFault c) (lcCleanupFault c) t).1
  | OpRenew => (renewBothLeases now leaseTTL (lcBucket c) (lcHolder c) (lcFault c) t).1
  | OpRelease => (releaseBothLeases (lcBucket c) (lcHolder c) (lcFault c) t).1
  end.

Inductive leaseRun : Z * leases -> list leaseCall -> Z * leases -> Prop :=
| lrun_nil now t : leaseRun (now, t) [] (now, t)
| lrun_snoc s cs now t now' c :
    leaseRun s cs (now, t) -> (now <= now')%Z -> leaseRun s (cs ++ [c]) (now', applyLease now' c t).

(** How one call changes the rows of its bucket. *)
Inductive rowChange (now : Z) (c : leaseCall) : option leaseRow -> option leaseRow -> Prop :=
| row_new : lcOp c = OpAcquire -> rowChange now c None (Some (mkLease (lcHolder c) 1 (now + leaseTTL)))
| row_taken r : lcOp c = OpAcquire -> (expires_at r < now)%Z \/ holder r = lcHolder c -> (epoch r < max_int64)%Z ->
    rowChange now c (Some r) (Some (mkLease (lcHolder c) (epoch r + 1) (now + leaseTTL)))
| row_renewed r : lcOp c = OpRenew -> holder r = lcHolder c ->
    rowChange now c (Some r) (Some (mkLease (lcHolder c) (epoch r) (now + leaseTTL)))
| row_released r : lcOp c = OpRelease -> holder r = lcHolder c -> rowChange now c (Some r) None.

Lemma applyLease_spec now c t :
  paired t (lcBucket c) ->
  applyLease now c t = t \/
  exists r', applyLease now c t = setPair (lcBucket c) r' t /\ rowChange now c (t !! (lcBucket c, "spec")) r'.
Proof.
  intros Hp. unfold applyLease. destruct (lcOp c) eqn:Eo.
  - destruct (acquire_spec now leaseTTL _ (lcHolder c) t Hp (lcFault c) (lcCleanupFault c)) as [-> _].
    destruct (granted _ _ _ _) as [r'|] eqn:Eg; [|by left]. destruct (committed (lcFault c)); [|by left]. right.
    exists (Some r'). split; [done|]. unfold granted in Eg.
    destruct (t !! _) as [r|]; [|injection Eg as <-; by constructor].
    destruct (_ && _) eqn:Ec; [|done]. injection Eg as <-. apply andb_true_iff in Ec as [Ec Ee].
    constructor; [done| |lia]. apply orb_true_iff in Ec as [Ec|Ec]; [left; lia|right; by apply bool_decide_eq_true_1 in Ec].
  - rewrite (renew_spec now leaseTTL _ (lcHolder c) t Hp (lcFault c)).
    destruct (t !! _) as [r|]; [|by left]. destruct (_ && _) eqn:Ec; [|by left]. right.
    apply andb_true_iff in Ec as [Hh _]. apply bool_decide_eq_true_1 in Hh. eexists. split; [done|]. by constructor.
  - rewrite (release_spec _ (lcHolder c) t Hp (lcFault c)).
    destruct (t !! _) as [r|]; [|by left]. destruct (_ && _) eqn:Ec; [|by left]. right.
    apply andb_true_iff in Ec as [Hh _]. apply bool_decide_eq_true_1 in Hh. exists None. split; [done|]. by constructor.
Qed.

(** The invariant of the table. *)
Record leasesOk (now : Z) (t : leases) : Prop := {
  lo_paired : forall b, paired t b;
  lo_expires : forall b r, t !! (b, "spec") = Some r -> (expires_at r <= now + leaseTTL)%Z /\ (1 <= epoch r)%Z;
}.

Lemma applyLease_ok now now' c t : leasesOk now t -> (now <= now')%Z -> leasesOk now' (applyLease now' c t).
Proof.
  intros [Hp He] Hn. destruct (applyLease_spec now' c t (Hp _)) as [->|(r' & -> & Hc)].
  - split; [done|]. intros b r Hr. apply He in Hr. lia.
  - split.
    + intros b. unfold paired. rewrite !setPair_lookup. pose proof (Hp b) as Hb. unfold paired in Hb.
      repeat case_decide; naive_solver.
    + intros b r. rewrite setPair_lookup. case_decide as Hd; [|intros Hr; apply He in Hr; lia].
      intros ->. inversion Hc as [| r0 E0 | r0 E0 |]; subst; simpl; try lia;
        match goal with H : _ = t !! _ |- _ => symmetry in H; apply He in H end; lia.
Qed.

Lemma leaseRun_ok s cs now t : leaseRun s cs (now, t) -> leasesOk s.1 s.2 -> leasesOk now t /\ (s.1 <= now)%Z.
Proof.
  remember (now, t) as s'. intros Hr. revert now t Heqs'.
  induction Hr as [now t|s cs now t now' c Hr IH Hle]; intros now1 t1 [= <- <-] Hok; [done|].
  destruct (IH now t eq_refl Hok) as [Hok' Hle']. split; [by eapply applyLease_ok|lia].
Qed.

(** No release of the bucket by its holder. *)
Definition noRelease (b : Z) (h : string) (cs : list leaseCall) : Prop :=
  Forall (fun c => ~ (lcOp c = OpRelease /\ lcBucket c = b /\ lcHolder c = h)) cs.

(** A lease that is not released stays with its holder until it expires. *)
Lemma lease_kept s cs now t b r :
  leaseRun s cs (now, t) -> leasesOk s.1 s.2 -> s.2 !! (b, "spec") = Some r -> noRelease b (holder r) cs ->
  (now <= expires_at r)%Z ->
  exists r', t !! (b, "spec") = Some r' /\ holder r' = holder r /\ (expires_at r <= expires_at r')%Z /\ (epoch r <= epoch r')%Z.
Proof.
  remember (now, t) as s'. intros Hr. revert now t Heqs'.
  induction Hr as [now t|s cs now t now' c Hr IH Hle]; intros now1 t1 [= <- <-] Hok Hrow Hno Hexp.
  { exists r. by split_and!. }
  apply Forall_app in Hno as [Hno [Hc _]%Forall_cons].
  destruct (IH now t eq_refl Hok Hrow Hno) as (r1 & H1 & Hh & Hx & He); [lia|].
  destruct (leaseRun_ok _ _ _ _ Hr Hok) as [[Hp Hb] _]. destruct (Hb b r1 H1) as [Hmax _].
  destruct (applyLease_spec now' c t (Hp _)) as [->|(r' & -> & Hch)]; [exists r1; by split_and!|].
  rewrite setPair_lookup. case_decide as Hd; [|exists r1; by split_and!]. destruct Hd as [-> _]. rewrite H1 in Hch.
  inversion Hch as [| r0 E0 Hor | r0 E0 Hh0 | r0 E0 Hh0]; subst; simpl.
  - eexists. split; [done|]. simpl. destruct Hor as [|Hor]; [lia|]. split_and!; [congruence|lia|lia].
  - eexists. split; [done|]. simpl. split_and!; [congruence|lia|lia].
  - exfalso. apply Hc. split_and!; congruence.
Qed.

(** While nobody releases the bucket, its epoch only grows, and it grows
    whenever the holder changes. *)
Lemma epoch_grows s cs now t b r :
  leaseRun s cs (now, t) -> leasesOk s.1 s.2 -> s.2 !! (b, "spec") = Some r -> (forall h, noRelease b h cs) ->
  exists r', t !! (b, "spec") = Some r' /\ (epoch r <= epoch r')%Z /\ (epoch r' = epoch r -> holder r' = holder r).
Proof.
  remember (now, t) as s'. intros Hr. revert now t Heqs'.
  induction Hr as [now t|s cs now t now' c Hr IH Hle]; intros now1 t1 [= <- <-] Hok Hrow Hno.
  { exists r. by split_and!. }
  destruct (IH now t eq_refl Hok Hrow) as (r1 & H1 & He & Hh); [intros h; by destruct (proj1 (Forall_app _ _ _) (Hno h))|].
  destruct (leaseRun_ok _ _ _ _ Hr Hok) as [[Hp _] _].
  destruct (applyLease_spec now' c t (Hp _)) as [->|(r' & -> & Hch)]; [exists r1; by split_and!|].
  rewrite setPair_lookup. case_decide as Hd; [|exists r1; by split_and!]. destruct Hd as [-> _]. rewrite H1 in Hch.
  inversion Hch as [| r0 E0 Hor | r0 E0 Hh0 | r0 E0 Hh0]; subst; simpl.
  - eexists. split; [done|]. simpl. split; [lia|]. lia.
  - eexists. split; [done|]. simpl. split; [lia|]. intros E. rewrite <- Hh0. by apply Hh.
  - exfalso. specialize (Hno (lcHolder c)). apply Forall_app in Hno as [_ [Hc _]%Forall_cons]. by apply Hc.
Qed.

Lemma leasesOk_empty now : leasesOk now ∅.
Proof. by split. Qed.
End facts.
