(* ===== verification/Postgres.v ===== *)
(** * The PostgreSQL backend: postgres/store.go

    The methods of [ShardedStore], the conversion between objects and table
    columns, and the goroutine that translates watch events. The backend works
    through crbridge, a client library outside the repository: its operations are
    the class [CrbDB], given by what they return and how they change the database.
    A [json.RawMessage] is a JSON value, [None] when it is nil. *)

From S2P Require Import Prelude GoStrconv GoJson GoJsonFacts Objects Backend.
From S2P Require Import PostgresVersion PostgresLease.

Module PG.
Export PGV.
Import PGL.

Definition annotationObjectVersion : string := "postgres.storectrl.io/object-version".

(** ** crbridge *)

(** [crbridge.Object]: a row. *)
Record crbObject : Type := mkCrb {
  crbGVK : string;
  crbNamespace : string;
  crbName : string;
  crbUID : string;
  crbResourceVersion : string;
  crbSpec : option json;
  crbStatus : option json;
  crbMetadata : option json;
  crbBucketID : Z;
}.

(** What [errors.Is] tells apart. *)
Inductive crbError : Type :=
| ErrNotFound
| ErrAlreadyExists
| ErrConflict
| ErrGone
| ErrFenced
| ErrCrb (msg : string).

(** [crbridge.NewClient(factory, gvk, assign, holderID, epoch)] *)
Record crbClient : Type := mkClient { ccGVK : string; ccHolder : string; ccEpoch : Z }.

Inductive crbEventType : Type := crbEventAdded | crbEventModified | crbEventDeleted | crbEventOther.
Record crbEvent : Type := mkCrbEvent { ceType : crbEventType; ceObject : crbObject }.

Class CrbDB (DB : Type) := {
  crbGet : crbClient -> string -> string -> DB -> outcome crbError crbObject;
  crbCreate : crbClient -> string -> string -> json -> json -> option json -> DB -> DB * outcome crbError crbObject;
  crbUpdate : crbClient -> crbObject -> DB -> DB * outcome crbError crbObject;
  crbStatusUpdate : crbClient -> crbObject -> json -> DB -> DB * outcome crbError crbObject;
  crbDelete : crbClient -> crbObject -> DB -> DB * outcome crbError unit;
  (** [ListerWatcher.List] and [Watch] for a GVK and buckets *)
  crbList : string -> list Z -> DB -> outcome crbError (string * list crbObject);
  crbWatch : string -> list Z -> string -> DB -> DB * outcome crbError nat;
  (** [SELECT compacted_seq FROM compaction_horizon WHERE bucket_id = $1 AND gvk = $2];
      [None]: no connection, no row. *)
  compactedSeq : Z -> string -> DB -> option Z;
}.

(** An error of crbridge as a Go error of no special type. *)
Definition crbErr (e : crbError) : error :=
  match e with
  | ErrNotFound => OtherError "not found"
  | ErrAlreadyExists => OtherError "already exists"
  | ErrConflict => OtherError "conflict"
  | ErrGone => OtherError "gone"
  | ErrFenced => OtherError "fenced"
  | ErrCrb msg => OtherError msg
  end.

(** ** Objects and columns *)

Definition SetName (n : string) : Object -> Object :=
  withMeta (fun m => mkMeta n (mNamespace m) (mUID m) (mResourceVersion m) (mGeneration m) (mLabels m) (mAnnotations m)).
Definition SetNamespace (ns : string) : Object -> Object :=
  withMeta (fun m => mkMeta (mName m) ns (mUID m) (mResourceVersion m) (mGeneration m) (mLabels m) (mAnnotations m)).

Definition setOVAnnotation (obj : Object) (objectVersion : string) : Object :=
  SetAnnotations (Some (<[annotationObjectVersion := objectVersion]> (GetAnnotations obj))) obj.

Definition getOVAnnotation (obj : Object) : string :=
  default "" (GetAnnotations obj !! annotationObjectVersion).

(** The metadata column: without uid, resourceVersion and the version annotation. *)
Definition stripAnnotation (metaMap : gmap string json) : gmap string json :=
  match metaMap !! "annotations" with
  | Some annRaw =>
      match unmarshal GStrMap annRaw (VMap None) with
      | Some (VMap m) =>
          let ann := delete annotationObjectVersion (default ∅ m) in
          if bool_decide (ann = ∅) then delete "annotations" metaMap
          else <["annotations" := marshal GStrMap (VMap (Some ann))]> metaMap
      | _ => metaMap
      end
  | None => metaMap
  end.

Definition metadataColumn (raw : json) : json :=
  match raw with
  | JObj _ => mapJson (stripAnnotation (delete "resourceVersion" (delete "uid" (rawMap raw))))
  | _ => raw
  end.

Definition clientToColumns (obj : Object) : json * json * option json :=
  let m := rawMap (MarshalObject obj) in
  (default (JObj []) (m !! "spec"), default (JObj []) (m !! "status"), metadataColumn <$> m !! "metadata").

(** The JSON of the local type [shell]; nil messages are omitted. *)
Definition shellJson (src : crbObject) (gvk : GVK) : json :=
  JObj ([("apiVersion", JStr (apiVersionStr gvk)); ("kind", JStr (gKind gvk))] ++
        (pair "metadata" <$> option_list (crbMetadata src)) ++
        (pair "spec" <$> option_list (crbSpec src)) ++
        (pair "status" <$> option_list (crbStatus src))).

Definition crbToClient (src : crbObject) (dst : Object) (gvk : GVK) : result Object :=
  match UnmarshalObject (shellJson src gvk) dst with
  | None => Fail (OtherError "json: cannot unmarshal")
  | Some dst =>
      let dst := SetName (crbName src) dst in
      let dst := SetNamespace (crbNamespace src) dst in
      let dst := SetUID (crbUID src) dst in
      let dst := SetResourceVersion (crbResourceVersion src) dst in
      Ret (setOVAnnotation dst (crbResourceVersion src))
  end.

(** The labels in a metadata column; an undecodable one has none. *)
Definition extractLabels (metadata : option json) : gmap string string :=
  match metadata with
  | None => ∅
  | Some j =>
      match unmarshal (GStruct [(("labels", false), GStrMap)]) j (VStruct [VMap None]) with
      | Some (VStruct [VMap m]) => default ∅ m
      | _ => ∅
      end
  end.

Definition populateList (lst : ObjectList) (items : list Object) : ObjectList * result unit :=
  match lItemsField lst with
  | NoItems | UnsettableItems _ => (lst, Fail (OtherError "list type has no settable Items field"))
  | ItemsOf t =>
      if forallb (fun o => bool_decide (tName (oType o) = tName t)) items
      then (SetItems items lst, Ret tt)
      else (lst, Panic)
  end.

(** ** Errors *)

Definition mapCRBError (e : crbError) (key : ObjectKey) : error :=
  match e with
  | ErrNotFound => NotFoundError (keyString key)
  | ErrAlreadyExists => AlreadyExistsError (keyString key)
  | ErrConflict => ConflictError (keyString key)
  | ErrGone => RevisionTooOldError 0 0
  | ErrFenced => FencedError 0
  | ErrCrb _ => crbErr e
  end.

(** ** The Store interface *)

Section store.
Context {DB : Type} `{CrbDB DB} (scheme : Scheme).

Definition gvkForObject (obj : Object) : result GVK :=
  match ObjectKinds scheme (tName (oType obj)) with
  | Ret (gvk :: _) => Ret gvk
  | Ret [] => Fail (OtherError "no GVK registered")
  | Fail e => Fail (WrappedError "GVK for object" e)
  | Panic => Panic
  end.

Definition elemGVKForList (lst : ObjectList) : result GVK :=
  match ObjectKinds scheme (lName lst) with
  | Ret (g :: _) => Ret (mkGVK (gGroup g) (gVersion g) (trimListSuffix (gKind g)))
  | Ret [] => Fail (OtherError "no GVK registered for list type")
  | Fail e => Fail (WrappedError "GVK for list" e)
  | Panic => Panic
  end.

Definition clientFor (s : ShardedStore) (gvk : GVK) : crbClient :=
  mkClient (gvkToString gvk) (holderID s) (spec (currentEpochs s)).

Definition statusClientFor (s : ShardedStore) (gvk : GVK) : crbClient :=
  mkClient (gvkToString gvk) (holderID s) (status (currentEpochs s)).

Definition Get (key : ObjectKey) (obj : Object) (s : ShardedStore) (db : DB) : Object * result unit :=
  match gvkForObject obj with
  | Fail e => (obj, Fail e)
  | Panic => (obj, Panic)
  | Ret gvk =>
      match crbGet (clientFor s gvk) (kNamespace key) (kName key) db with
      | Fail ErrNotFound => (obj, Fail (NotFoundError (keyString key)))
      | Fail e => (obj, Fail (WrappedError ("get " +:+ keyString key) (crbErr e)))
      | Panic => (obj, Panic)
      | Ret crbObj =>
          match crbToClient crbObj obj gvk with
          | Ret o => (o, Ret tt)
          | Fail e => (obj, Fail e)
          | Panic => (obj, Panic)
          end
      end
  end.

(** One row of a listing: [None] when it is filtered out. *)
Definition listRow (elemGVK : GVK) (listOpts : ListOptions) (crbObj : crbObject) : result (option Object) :=
  if bool_decide (loNamespace listOpts <> "") && bool_decide (crbNamespace crbObj <> loNamespace listOpts) then Ret None
  else if match loLabelSelector listOpts with
          | Some sel => negb (lsEmpty sel) && negb (lsMatches sel (extractLabels (crbMetadata crbObj)))
          | None => false
          end then Ret None
  else match SchemeNew scheme elemGVK with
       | Ret (RObject o) =>
           match crbToClient crbObj o elemGVK with
           | Ret o => Ret (Some o)
           | Fail e => Fail e
           | Panic => Panic
           end
       | Ret _ => Panic
       | Fail e => Fail (WrappedError "scheme.New" e)
       | Panic => Panic
       end.

Fixpoint listRows (elemGVK : GVK) (listOpts : ListOptions) (objs : list crbObject) : result (list Object) :=
  match objs with
  | [] => Ret []
  | o :: objs =>
      match listRow elemGVK listOpts o with
      | Ret x => match listRows elemGVK listOpts objs with
                 | Ret xs => Ret (option_list x ++ xs)
                 | r => r
                 end
      | Fail e => Fail e
      | Panic => Panic
      end
  end.

Definition List (lst : ObjectList) (opts : list ListOption) (s : ShardedStore) (db : DB)
    : ShardedStore * ObjectList * result unit :=
  let listOpts := applyOptions opts in
  match elemGVKForList lst with
  | Fail e => (s, lst, Fail e)
  | Panic => (s, lst, Panic)
  | Ret elemGVK =>
      match crbList (gvkToString elemGVK) [bucketID s] db with
      | Fail e => (s, lst, Fail (WrappedError "list" (crbErr e)))
      | Panic => (s, lst, Panic)
      | Ret (rv, objs) =>
          let '(epoch, hwm, parseErr) := parseBucketHWM rv (bucketID s) in
          let s := if bool_decide (parseErr = None) && (0 <? epoch)%Z && (clusterEpoch s <? epoch)%Z
                   then setClusterEpoch epoch s else s in
          match listRows elemGVK listOpts objs with
          | Fail e => (s, lst, Fail e)
          | Panic => (s, lst, Panic)
          | Ret items =>
              match populateList lst items with
              | (lst, Ret _) => (s, SetListResourceVersion (FormatInt hwm) lst, Ret tt)
              | (lst, r) => (s, lst, r)
              end
          end
      end
  end.

Definition Create (obj : Object) (s : ShardedStore) (db : DB) : DB * Object * result unit :=
  match gvkForObject obj with
  | Fail e => (db, obj, Fail e)
  | Panic => (db, obj, Panic)
  | Ret gvk =>
      let '(spec, status, metadata) := clientToColumns obj in
      match crbCreate (clientFor s gvk) (GetNamespace obj) (GetName obj) spec status metadata db with
      | (db, Fail e) => (db, obj, Fail (mapCRBError e (ObjectKeyFromObject obj)))
      | (db, Panic) => (db, obj, Panic)
      | (db, Ret result) =>
          let obj := SetResourceVersion (crbResourceVersion result) (SetUID (crbUID result) obj) in
          (db, setOVAnnotation obj (crbResourceVersion result), Ret tt)
      end
  end.

(** The version a write expects. *)
Definition expectedVersion (obj : Object) : string :=
  if bool_decide (getOVAnnotation obj = "") then GetResourceVersion obj else getOVAnnotation obj.

(** A conflict may mean that the object is gone: ask. *)
Definition mapConflictToNotFound (gvk : GVK) (err : error) (obj : Object) (s : ShardedStore) (db : DB) : error :=
  match err with
  | ConflictError _ =>
      let key := ObjectKeyFromObject obj in
      match crbGet (clientFor s gvk) (kNamespace key) (kName key) db with
      | Fail ErrNotFound => NotFoundError (keyString key)
      | Fail e => crbErr e
      | _ => err
      end
  | _ => err
  end.

(** What a successful write leaves in the caller's object. *)
Definition written (obj : Object) (result : crbObject) : Object :=
  setOVAnnotation (SetResourceVersion (crbResourceVersion result) obj) (crbResourceVersion result).

Definition Update (obj : Object) (s : ShardedStore) (db : DB) : DB * Object * result unit :=
  match gvkForObject obj with
  | Fail e => (db, obj, Fail e)
  | Panic => (db, obj, Panic)
  | Ret gvk =>
      let '(spec, status, metadata) := clientToColumns obj in
      let ov := expectedVersion obj in
      if bool_decide (ov = "") then (db, obj, Fail (NotFoundError (keyString (ObjectKeyFromObject obj))))
      else
        let crbObj := mkCrb (gvkToString gvk) (GetNamespace obj) (GetName obj) "" ov
                        (Some spec) (Some status) metadata (bucketID s) in
        match crbUpdate (clientFor s gvk) crbObj db with
        | (db, Fail e) =>
            (db, obj, Fail (mapConflictToNotFound gvk (mapCRBError e (ObjectKeyFromObject obj)) obj s db))
        | (db, Panic) => (db, obj, Panic)
        | (db, Ret result) => (db, written obj result, Ret tt)
        end
  end.

Definition UpdateStatus (obj : Object) (s : ShardedStore) (db : DB) : DB * Object * result unit :=
  match gvkForObject obj with
  | Fail e => (db, obj, Fail e)
  | Panic => (db, obj, Panic)
  | Ret gvk =>
      let '(_, status, _) := clientToColumns obj in
      let ov := expectedVersion obj in
      if bool_decide (ov = "") then (db, obj, Fail (NotFoundError (keyString (ObjectKeyFromObject obj))))
      else
        let crbObj := mkCrb (gvkToString gvk) (GetNamespace obj) (GetName obj) "" ov None None None (bucketID s) in
        match crbStatusUpdate (statusClientFor s gvk) crbObj status db with
        | (db, Fail e) =>
            (db, obj, Fail (mapConflictToNotFound gvk (mapCRBError e (ObjectKeyFromObject obj)) obj s db))
        | (db, Panic) => (db, obj, Panic)
        | (db, Ret result) => (db, written obj result, Ret tt)
        end
  end.

Definition Delete (obj : Object) (s : ShardedStore) (db : DB) : DB * result unit :=
  match gvkForObject obj with
  | Fail e => (db, Fail e)
  | Panic => (db, Panic)
  | Ret gvk =>
      let key := ObjectKeyFromObject obj in
      let version :=
        if bool_decide (expectedVersion obj = "") then
          match crbGet (clientFor s gvk) (kNamespace key) (kName key) db with
          | Ret crbObj => Ret (crbResourceVersion crbObj)
          | Fail ErrNotFound => Fail (NotFoundError (keyString key))
          | Fail e => Fail (WrappedError ("get for unconditional delete " +:+ keyString key) (crbErr e))
          | Panic => Panic
          end
        else Ret (expectedVersion obj) in
      match version with
      | Fail e => (db, Fail e)
      | Panic => (db, Panic)
      | Ret ov =>
          let '(spec, status, metadata) := clientToColumns obj in
          let crbObj := mkCrb (gvkToString gvk) (GetNamespace obj) (GetName obj) "" ov
                          (Some spec) (Some status) metadata (bucketID s) in
          match crbDelete (clientFor s gvk) crbObj db with
          | (db, Ret _) => (db, Ret tt)
          | (db, Fail e) => (db, Fail (mapConflictToNotFound gvk (mapCRBError e key) obj s db))
          | (db, Panic) => (db, Panic)
          end
      end
  end.

Definition checkCompactionHorizon (gvk : GVK) (hwm : Z) (s : ShardedStore) (db : DB) : option error :=
  if (hwm =? 0)%Z then None
  else match compactedSeq (bucketID s) (gvkToString gvk) db with
       | None => None
       | Some horizon => if (hwm <=? horizon)%Z then Some (RevisionTooOldError hwm (wrap64 (horizon + 1))) else None
       end.

(** The conversion of a watched row. *)
Definition convertFn (gvk : GVK) (crbObj : crbObject) : result Object :=
  match SchemeNew scheme gvk with
  | Ret (RObject o) => crbToClient crbObj o gvk
  | Ret _ => Panic
  | Fail e => Fail e
  | Panic => Panic
  end.

(** ** The watch bridge *)

(** The inner watch, a [crbridge.WatchInterface]: the events in its channel,
    whether [Stop] was called on it, whether the channel is closed. *)
Record innerWatch : Type := mkInner { iwBuf : list crbEvent; iwStopped : bool; iwClosed : bool }.

Definition stopInner (w : innerWatch) : innerWatch := mkInner (iwBuf w) true (iwClosed w).

(** [watchBridge]: the event being sent, the output channel, whether [stop] is
    closed. The goroutine has ended when the output channel is closed. *)
Record bridge : Type := mkBridge {
  bInner : nat;
  bWatch : innerWatch;
  bGVK : GVK;
  bSelector : option labelsSelector;
  bPending : option Event;
  bOut : chan Event;
  bStopped : bool;
}.

Definition withInner (w : innerWatch) (b : bridge) : bridge :=
  mkBridge (bInner b) w (bGVK b) (bSelector b) (bPending b) (bOut b) (bStopped b).
Definition withPending (p : option Event) (b : bridge) : bridge :=
  mkBridge (bInner b) (bWatch b) (bGVK b) (bSelector b) p (bOut b) (bStopped b).
Definition withOut (c : chan Event) (b : bridge) : bridge :=
  mkBridge (bInner b) (bWatch b) (bGVK b) (bSelector b) (bPending b) c (bStopped b).

(** A new inner watch has delivered nothing yet. *)
Definition newWatchBridge (inner : nat) (gvk : GVK) (sel : option labelsSelector) : bridge :=
  mkBridge inner (mkInner [] false false) gvk sel None (makeChan 256) false.

Definition Watch (lst : ObjectList) (opts : list ListOption) (s : ShardedStore) (db : DB) : DB * result bridge :=
  let listOpts := applyOptions opts in
  let hwm := default 0%Z (fromRevisionOpt opts) in
  match elemGVKForList lst with
  | Fail e => (db, Fail e)
  | Panic => (db, Panic)
  | Ret elemGVK =>
      match checkCompactionHorizon elemGVK hwm s db with
      | Some e => (db, Fail e)
      | None =>
          let rvStr := compositeRV (clusterEpoch s) [(bucketID s, hwm)] in
          match crbWatch (gvkToString elemGVK) [bucketID s] rvStr db with
          | (db, Fail e) => (db, Fail (WrappedError "watch" (crbErr e)))
          | (db, Panic) => (db, Panic)
          | (db, Ret wi) => (db, Ret (newWatchBridge wi elemGVK (loLabelSelector listOpts)))
          end
      end
  end.

(** What the goroutine makes of one inner event: skip it, give up, send, or
    panic because the registered type is not an object. *)
Inductive translated : Type := Skip | GiveUp | Emit (e : Event) | Crash.

Definition eventTypeOf (t : crbEventType) : option EventType :=
  match t with
  | crbEventAdded => Some EventAdded
  | crbEventModified => Some EventModified
  | crbEventDeleted => Some EventDeleted
  | crbEventOther => None
  end.

Definition translateEvent (gvk : GVK) (sel : option labelsSelector) (ev : crbEvent) : translated :=
  match eventTypeOf (ceType ev) with
  | None => Skip
  | Some ty =>
      match convertFn gvk (ceObject ev) with
      | Ret obj =>
          if match sel with Some sel => negb (lsEmpty sel) && negb (lsMatches sel (GetLabels obj)) | None => false end
          then Skip else Emit (mkEvent ty obj)
      | Fail _ => GiveUp
      | Panic => Crash
      end
  end.

(** [defer close(b.out)] *)
Definition closeOut (b : bridge) : option bridge := (fun c => withOut c b) <$> closeChan (bOut b).

(** [Stop]: close [b.stop] once and stop the inner watch. *)
Definition Stop (b : bridge) : bridge :=
  mkBridge (bInner b) (stopInner (bWatch b)) (bGVK b) (bSelector b) (bPending b) (bOut b) true.

(** [for ev := range b.inner.ResultChan()]: the next event. *)
Definition takeStep (b : bridge) : option (crbEvent * bridge) :=
  if chClosed (bOut b) then None
  else match bPending b, iwBuf (bWatch b) with
       | None, ev :: evs =>
           let b := withInner (mkInner evs (iwStopped (bWatch b)) (iwClosed (bWatch b))) b in
           pair ev <$>
             match translateEvent (bGVK b) (bSelector b) ev with
             | Skip => Some b
             | GiveUp => closeOut (Stop b)
             | Emit e => Some (withPending (Some e) b)
             | Crash => None
             end
       | _, _ => None
       end.

(** [case b.out <- event] *)
Definition sendStep (b : bridge) : option bridge :=
  match bPending b with
  | None => None
  | Some e => match trySend (bOut b) e with Sent c => Some (withPending None (withOut c b)) | _ => None end
  end.

(** [case <-b.stop: return]; the event being sent is dropped. *)
Definition stopStep (b : bridge) : option bridge :=
  if bStopped b && bool_decide (is_Some (bPending b)) then closeOut (withPending None b) else None.

(** The range ends when the inner channel is closed and drained. *)
Definition endStep (b : bridge) : option bridge :=
  match bPending b, iwBuf (bWatch b) with
  | None, [] => if iwClosed (bWatch b) then closeOut b else None
  | _, _ => None
  end.

(** The consumer's receive from [ResultChan()]. *)
Definition consumeStep (b : bridge) : option (bridge * Event) :=
  match recv (bOut b) with
  | Received e c => Some (withOut c b, e)
  | _ => None
  end.

End store.
End PG.
