(* ===== verification/PostgresFacts.v ===== *)
(** * Objects through table columns

    Storing an object in the columns spec, status and metadata and building it
    again from the row gives the object back, with the row's identity, for types
    whose fields are spec and status. *)

From S2P Require Import Prelude GoStrconv GoJson GoJsonFacts Objects ObjectFacts SpecStatus NormalForms Backend.
From S2P Require Import PostgresVersion PostgresLease Postgres.

Import PGL PG.

(** ** The metadata column *)

(** The metadata a column keeps. *)
Definition keptAnnotations (m : ObjectMeta) : gmap string string :=
  delete annotationObjectVersion (default ∅ (mAnnotations m)).

Definition keptMeta (m : ObjectMeta) : ObjectMeta :=
  mkMeta (mName m) (mNamespace m) "" "" (mGeneration m) (mLabels m)
    (if bool_decide (keptAnnotations m = ∅) then None else Some (keptAnnotations m)).

Definition metaFields : list field := match metaType with GStruct fs => fs | _ => [] end.
Definition metaVals (m : ObjectMeta) : list gval := match metaVal m with VStruct vs => vs | _ => [] end.

Lemma meta_member m i f v :
  in_int64 (mGeneration m) = true -> metaFields !! i = Some f -> metaVals m !! i = Some v ->
  option_list (rawMap (marshal metaType (metaVal m)) !! fkey f) = member f v.
Proof.
  intros Hg Hf Hv. unfold metaFields, metaVals, metaType, metaVal in *. rewrite marshal_struct, rawMap_lookup.
  - eapply struct_members; [|apply has_type_struct|exact Hf|exact Hv]; [by apply (bool_decide_unpack _)|].
    change (has_type metaType (metaVal m) = true). by rewrite has_type_metaVal.
  - apply marshal_fields_NoDup. by apply (bool_decide_unpack _).
Qed.

Section column.
Context (m : ObjectMeta).
Hypothesis Hg : in_int64 (mGeneration m) = true.

Definition columnMap : gmap string json :=
  stripAnnotation (delete "resourceVersion" (delete "uid" (rawMap (marshal metaType (metaVal m))))).

Lemma metadataColumn_eq : metadataColumn (marshal metaType (metaVal m)) = mapJson columnMap.
Proof. done. Qed.

Lemma annotations_member :
  option_list (rawMap (marshal metaType (metaVal m)) !! "annotations") =
  member (("annotations", true), GStrMap) (VMap (mAnnotations m)).
Proof using Hg. by apply (meta_member m 6 (("annotations", true), GStrMap)). Qed.

Lemma strip_lookup (M : gmap string json) k : k <> "annotations" -> stripAnnotation M !! k = M !! k.
Proof.
  intros Hk. unfold stripAnnotation. repeat case_match; try done; by rewrite ?lookup_delete_ne, ?lookup_insert_ne.
Qed.

Lemma columnMap_annotations :
  option_list (columnMap !! "annotations") =
  member (("annotations", true), GStrMap) (VMap (mAnnotations (keptMeta m))).
Proof using Hg.
  pose proof annotations_member as Ha. unfold columnMap, stripAnnotation. rewrite !lookup_delete_ne by done.
  unfold member in Ha. cbn [fomit fst snd andb isEmptyValue fty] in Ha.
  destruct (rawMap (marshal metaType (metaVal m)) !! "annotations") as [j|] eqn:Ej.
  - case_bool_decide as Ee; [done|]. injection Ha as ->.
    destruct (mAnnotations m) as [a|] eqn:Ea; [|done]. cbn [marshal unmarshal].
    rewrite decode_strmap_map. cbn [fmap option_fmap option_map compose default].
    rewrite (right_id_L ∅ (∪)). unfold keptMeta, keptAnnotations, member. rewrite Ea. cbn.
    case_bool_decide as Ed; [by rewrite lookup_delete_eq|].
    rewrite lookup_insert_eq. cbn. by rewrite bool_decide_false.
  - rewrite !lookup_delete_ne, Ej by done. unfold keptMeta, keptAnnotations, member. cbn.
    case_bool_decide as Ee; [|done]. rewrite Ee, delete_empty. done.
Qed.

Lemma metadataColumn_decode :
  normalMap (mLabels m) ->
  unmarshal metaType (metadataColumn (marshal metaType (metaVal m))) (metaVal zeroMeta) = Some (metaVal (keptMeta m)).
Proof using Hg.
  intros Hl. rewrite metadataColumn_eq. unfold mapJson.
  change metaType with (GStruct metaFields) at 1.
  change (metaVal zeroMeta) with (VStruct [VStr ""; VStr ""; VStr ""; VStr ""; VInt 0; VMap None; VMap None]).
  rewrite unmarshal_struct.
  assert (forall i f v, metaFields !! i = Some f -> metaVals m !! i = Some v -> fkey f <> "annotations" ->
     fkey f <> "uid" -> fkey f <> "resourceVersion" ->
     named (fkey f) (map_to_list columnMap) = member f v) as Hm.
  { intros i f v Hf Hv H1 H2 H3. rewrite named_mapJson. unfold columnMap.
    rewrite strip_lookup, !lookup_delete_ne by congruence. by apply (meta_member m i). }
  rewrite (unmarshal_fields_Forall3 _ _ _
    [VStr (mName m); VStr (mNamespace m); VStr ""; VStr ""; VInt (mGeneration m); VMap (mLabels m);
     VMap (mAnnotations (keptMeta m))]); [done|].
  assert (forall s, overStr s "" = s) as Hstr by (intros s; unfold overStr; by case_bool_decide).
  repeat constructor.
  - rewrite (Hm 0 _ (VStr (mName m))) by done. unfold fty. simpl (_.2). by rewrite decode_over_str, Hstr.
  - rewrite (Hm 1 _ (VStr (mNamespace m))) by done. unfold fty. simpl (_.2). by rewrite decode_over_str, Hstr.
  - rewrite named_mapJson. unfold columnMap. rewrite strip_lookup, lookup_delete_ne, lookup_delete_eq by done. done.
  - rewrite named_mapJson. unfold columnMap. rewrite strip_lookup, lookup_delete_eq by done. done.
  - rewrite (Hm 4 _ (VInt (mGeneration m))) by done. unfold fty. simpl (_.2). rewrite decode_over_int by done.
    unfold overInt. destruct (Z.eqb_spec (mGeneration m) 0) as [->|]; done.
  - rewrite (Hm 5 _ (VMap (mLabels m))) by done. unfold fty. simpl (_.2). rewrite decode_over_map. do 2 f_equal.
    unfold overMap. case_bool_decide as E.
    + destruct (mLabels m) as [l|]; [|done]. simpl in E. subst l. by exfalso.
    + destruct (mLabels m) as [l|]; [|done]. simpl. by rewrite (right_id_L ∅ (∪)).
  - rewrite named_mapJson. unfold fkey. simpl (_.1). rewrite columnMap_annotations. unfold fty. simpl (_.2).
    rewrite decode_over_map. do 2 f_equal. unfold overMap, keptMeta. simpl.
    destruct (decide (keptAnnotations m = ∅)) as [E|E]; [by rewrite !(bool_decide_true (keptAnnotations m = ∅))|].
    rewrite !(bool_decide_false (keptAnnotations m = ∅)) by done. simpl.
    by rewrite ?(bool_decide_false (keptAnnotations m = ∅)), (right_id_L ∅ (∪)).
Qed.

(** The labels of the column are the object's. *)
Lemma extractLabels_column :
  extractLabels (Some (metadataColumn (marshal metaType (metaVal m)))) = default ∅ (mLabels m).
Proof using Hg.
  unfold extractLabels. rewrite metadataColumn_eq. unfold mapJson. rewrite unmarshal_struct.
  rewrite (unmarshal_fields_Forall3 _ _ _ [VMap (overMap (mLabels m) None)]).
  - unfold overMap. simpl. case_bool_decide as E; [by rewrite E|]. simpl. by rewrite (right_id_L ∅ (∪)).
  - repeat constructor. rewrite named_mapJson. unfold columnMap, fkey, fty. simpl (_.1). simpl (_.2).
    rewrite strip_lookup, !lookup_delete_ne by done.
    change "labels" with (fkey (("labels", true), GStrMap)). rewrite (meta_member m 5 _ (VMap (mLabels m))) by done.
    apply decode_over_map.
Qed.
End column.

(** ** Rows *)

(** Types the columns represent: fields spec and status that are always encoded. *)
Definition columnField (f : field) : bool :=
  (bool_decide (fkey f = "spec") || bool_decide (fkey f = "status")) &&
  (negb (fomit f) || match fty f with GStruct _ => true | _ => false end).

Definition columnType (t : GoType) : bool := forallb columnField (tFields t).

(** The row with an object's columns. *)
Definition rowOf (gvk : GVK) (uid rv : string) (bucket : Z) (obj : Object) : crbObject :=
  let '(spec, status, metadata) := clientToColumns obj in
  mkCrb (gvkToString gvk) (GetNamespace obj) (GetName obj) uid rv (Some spec) (Some status) metadata bucket.

(** The object a reader gets from it. *)
Definition readBack (gvk : GVK) (uid rv : string) (obj : Object) : Object :=
  mkObject (oType obj)
    (mkBase (mkTypeMeta (gKind gvk) (apiVersionStr gvk))
      (mkMeta (GetName obj) (GetNamespace obj) uid rv (GetGeneration obj) (mLabels (oMeta obj))
        (Some (<[annotationObjectVersion := rv]> (GetAnnotations obj)))))
    (oBody obj).

Lemma columnField_encoded f v : columnField f = true -> has_type (fty f) v = true -> member f v = [marshal (fty f) v].
Proof.
  unfold columnField, member. intros H Hv. apply andb_true_iff in H as [_ H]. apply orb_true_iff in H as [H|H].
  - apply negb_true_iff in H. by rewrite H.
  - destruct (fty f) eqn:E; try done. apply has_type_struct_inv in Hv as (vs & -> & _). by rewrite andb_false_r.
Qed.

Lemma clientToColumns_eq obj : wfObject obj = true ->
  clientToColumns obj = (default (JObj []) (rawField "spec" obj), default (JObj []) (rawField "status" obj),
    Some (metadataColumn (marshal metaType (metaVal (oMeta obj))))).
Proof. intros Hw. unfold clientToColumns. fold (rawField "metadata" obj). by rewrite rawField_metadata. Qed.

Lemma shell_named gvk uid rv b obj md sp st :
  clientToColumns obj = (sp, st, Some md) ->
  exists kvs, shellJson (rowOf gvk uid rv b obj) gvk = JObj kvs /\
    named "kind" kvs = [JStr (gKind gvk)] /\ named "apiVersion" kvs = [JStr (apiVersionStr gvk)] /\
    named "metadata" kvs = [md] /\ named "spec" kvs = [sp] /\ named "status" kvs = [st].
Proof. intros E. unfold shellJson, rowOf. rewrite E. eexists. split; [done|]. by split_and!. Qed.

Lemma columns_roundtrip gvk uid rv b obj :
  wfObject obj = true -> normalObject obj -> columnType (oType obj) = true ->
  crbToClient (rowOf gvk uid rv b obj) (zeroObject (oType obj)) gvk = Ret (readBack gvk uid rv obj).
Proof.
  intros Hw Hn Hc. pose proof Hw as (_ & Hwt & Hg & HT)%wfObject_spec.
  apply normalObject_spec in Hn as (Hl & Ha & Hb); [|done].
  pose proof (clientToColumns_eq obj Hw) as Ecol.
  destruct (shell_named gvk uid rv b obj _ _ _ Ecol) as (kvs & Es & Ek & Eav & Em & Esp & Est).
  unfold crbToClient. rewrite Es. unfold UnmarshalObject. rewrite objectVal_zeroObject.
  change (oType (zeroObject (oType obj))) with (oType obj).
  change (zero (objectType (oType obj))) with
    (VStruct (VStr "" :: VStr "" :: metaVal zeroMeta :: map (fun f => zero (fty f)) (tFields (oType obj)))).
  unfold objectType. rewrite unmarshal_struct.
  rewrite (unmarshal_fields_Forall3 _ _ _
    (VStr (gKind gvk) :: VStr (apiVersionStr gvk) :: metaVal (keptMeta (oMeta obj)) :: oBody obj)).
  - cbn [fmap option_fmap option_map mbind option_bind valObject]. rewrite valMeta_metaVal.
    assert (rowOf gvk uid rv b obj = mkCrb (gvkToString gvk) (GetNamespace obj) (GetName obj) uid rv
      (crbSpec (rowOf gvk uid rv b obj)) (crbStatus (rowOf gvk uid rv b obj)) (crbMetadata (rowOf gvk uid rv b obj)) b) as ->
      by (unfold rowOf; by rewrite Ecol).
    unfold readBack, setOVAnnotation, GetAnnotations. cbn. do 5 f_equal.
    unfold keptAnnotations. case_bool_decide as E; cbn; [|by rewrite insert_delete_eq].
    rewrite <- (insert_delete_eq (default ∅ (mAnnotations (oMeta obj)))). by rewrite E.
  - unfold baseFields. simpl app. repeat constructor.
    + unfold fkey. simpl (_.1). by rewrite Ek.
    + unfold fkey. simpl (_.1). by rewrite Eav.
    + unfold fkey, fty. simpl (_.1). simpl (_.2). rewrite Em. unfold decode_all. by rewrite metadataColumn_decode.
    + apply Forall3_lookup_build; [by rewrite length_map|symmetry; by eapply Forall2_length|].
      intros i f v u Hf Hv Hu. rewrite list_lookup_fmap, Hf in Hv. injection Hv as <-.
      pose proof (Forall2_lookup_lr _ _ _ _ _ _ HT Hf Hu) as Hu'.
      pose proof (Forall2_lookup_lr _ _ _ _ _ _ Hb Hf Hu) as Hnu.
      unfold columnType in Hc. rewrite forallb_forall in Hc. specialize (Hc f (proj1 (list_elem_of_In _ _) (list_elem_of_lookup_2 _ _ _ Hf))).
      pose proof (rawField_at obj Hw (3 + i) f u Hf Hu) as Er. rewrite columnField_encoded in Er by done.
      apply (option_list_inj _ (Some _)) in Er.
      assert (named (fkey f) kvs = [marshal (fty f) u]) as ->.
      { unfold columnField in Hc. apply andb_true_iff in Hc as [Hk _].
        apply orb_true_iff in Hk as [Hk%bool_decide_eq_true_1|Hk%bool_decide_eq_true_1]; rewrite Hk in *;
          [rewrite Esp|rewrite Est]; by rewrite Er. }
      unfold decode_all. rewrite unmarshal_zero by (done || rewrite Forall_lookup in Hwt; eauto).
      pose proof (columnField_encoded f u Hc Hu') as Hme. unfold normalField in Hnu. unfold member in Hme.
      destruct (fomit f && isEmptyValue u); [done|]. by rewrite Hnu.
Qed.
