(* ===== verification/PostgresInterface.v ===== *)
(** * What the PostgreSQL backend relies on

    [CrbLaws] states what crbridge and its stored procedure are documented to do
    (DESIGN.md, testdata/schema.sql) in terms of the table of objects. A column
    is read back as the JSON value that was written, and columns are equal when
    their values are. *)

From S2P Require Import Prelude GoStrconv GoJson GoJsonFacts Objects ObjectFacts SpecStatus NormalForms Backend.
From S2P Require Import PostgresVersion PostgresLease Postgres PostgresFacts.

Import PGL PG.

(** [PRIMARY KEY (gvk, namespace, name)] *)
Abbreviation rowKey := (string * string * string)%type.
Definition keyOfRow (o : crbObject) : rowKey := (crbGVK o, crbNamespace o, crbName o).

(** The columns of a row are those of a write request. *)
Definition sameColumns (r o : crbObject) : bool :=
  bool_decide (crbSpec r = crbSpec o) && bool_decide (crbStatus r = crbStatus o) &&
  bool_decide (crbMetadata r = crbMetadata o).

(** A row after a write: its identity, the new columns and version. *)
Definition withColumns (r o : crbObject) (version : string) : crbObject :=
  mkCrb (crbGVK r) (crbNamespace r) (crbName r) (crbUID r) version (crbSpec o) (crbStatus o) (crbMetadata o) (crbBucketID r).
Definition withStatus (r : crbObject) (st : json) (version : string) : crbObject :=
  mkCrb (crbGVK r) (crbNamespace r) (crbName r) (crbUID r) version (crbSpec r) (Some st) (crbMetadata r) (crbBucketID r).

(** A version that can be expected of a row and increased. *)
Definition validVersion (n : Z) : Prop := (0 < n < max_int64)%Z.

(** A request with all columns. *)
Definition complete (o : crbObject) : Prop := is_Some (crbSpec o) /\ is_Some (crbStatus o) /\ is_Some (crbMetadata o).

Section laws.
Context {DB : Type} `{CrbDB DB}.

(** A call that succeeds, what it reports and the rows it leaves. *)
Definition succeeds (rows : DB -> gmap rowKey (bool * crbObject)) (call : DB * outcome crbError crbObject)
    (version : string) (after : gmap rowKey (bool * crbObject)) : Prop :=
  exists db res, call = (db, Ret res) /\ crbResourceVersion res = version /\ rows db = after.
End laws.

(** [rows] are the objects by key, soft-deleted ones marked, and [seqLeft] says
    that the counter of a bucket and GVK has a next number. A write is refused
    without the lease; one that changes no column succeeds without effect;
    otherwise it needs the row's version, and "not found" and "version mismatch"
    are the same error. The laws are about calls that reach the database. *)
Class CrbLaws (DB : Type) `{CrbDB DB} := {
  rows : DB -> gmap rowKey (bool * crbObject);
  fenced : string -> crbClient -> Z -> DB -> bool;
  seqLeft : Z -> string -> DB -> Prop;
  law_rows : forall db k deleted r, rows db !! k = Some (deleted, r) -> keyOfRow r = k /\ exists n, crbResourceVersion r = FormatInt n;
  law_get : forall c ns name db,
    crbGet c ns name db = match rows db !! (ccGVK c, ns, name) with Some (false, r) => Ret r | _ => Fail ErrNotFound end;
  law_create : forall c ns name sp st md db db' res,
    crbCreate c ns name sp st (Some md) db = (db', Ret res) ->
    exists uid rv b, crbUID res = uid /\ crbResourceVersion res = rv /\
      rows db' = <[(ccGVK c, ns, name) := (false, mkCrb (ccGVK c) ns name uid rv (Some sp) (Some st) (Some md) b)]> (rows db);
  law_update : forall c o n db,
    ccGVK c = crbGVK o -> complete o -> crbResourceVersion o = FormatInt n -> validVersion n -> seqLeft (crbBucketID o) (crbGVK o) db ->
    if fenced "spec" c (crbBucketID o) db then crbUpdate c o db = (db, Fail ErrFenced)
    else match rows db !! keyOfRow o with
         | None => crbUpdate c o db = (db, Fail ErrConflict)
         | Some (deleted, r) =>
             if negb deleted && sameColumns r o then exists res, crbUpdate c o db = (db, Ret res) /\ crbResourceVersion res = crbResourceVersion r
             else if bool_decide (crbResourceVersion r = crbResourceVersion o)
             then succeeds rows (crbUpdate c o db) (FormatInt (n + 1)) (<[keyOfRow o := (false, withColumns r o (FormatInt (n + 1)))]> (rows db))
             else crbUpdate c o db = (db, Fail ErrConflict)
         end;
  law_status : forall c o st n db,
    ccGVK c = crbGVK o -> crbResourceVersion o = FormatInt n -> validVersion n -> seqLeft (crbBucketID o) (crbGVK o) db ->
    if fenced "status" c (crbBucketID o) db then crbStatusUpdate c o st db = (db, Fail ErrFenced)
    else match rows db !! keyOfRow o with
         | None => crbStatusUpdate c o st db = (db, Fail ErrConflict)
         | Some (deleted, r) =>
             if bool_decide (crbStatus r = Some st) then exists res, crbStatusUpdate c o st db = (db, Ret res) /\ crbResourceVersion res = crbResourceVersion r
             else if bool_decide (crbResourceVersion r = crbResourceVersion o)
             then succeeds rows (crbStatusUpdate c o st db) (FormatInt (n + 1)) (<[keyOfRow o := (deleted, withStatus r st (FormatInt (n + 1)))]> (rows db))
             else crbStatusUpdate c o st db = (db, Fail ErrConflict)
         end;
  (** Deleting a soft-deleted row again succeeds at its version and keeps it
      deleted; at another version it is a conflict, or without effect when the row has
      these columns and was deleted at this very time. *)
  law_delete : forall c o n db,
    ccGVK c = crbGVK o -> complete o -> crbResourceVersion o = FormatInt n -> validVersion n -> seqLeft (crbBucketID o) (crbGVK o) db ->
    if fenced "spec" c (crbBucketID o) db then crbDelete c o db = (db, Fail ErrFenced)
    else match rows db !! keyOfRow o with
         | None => crbDelete c o db = (db, Fail ErrConflict)
         | Some (true, r) =>
             if bool_decide (crbResourceVersion r = crbResourceVersion o)
             then exists db' r', crbDelete c o db = (db', Ret tt) /\ rows db' = <[keyOfRow o := (true, r')]> (rows db)
             else crbDelete c o db = (db, Fail ErrConflict) \/ (sameColumns r o = true /\ crbDelete c o db = (db, Ret tt))
         | Some (false, r) =>
             if bool_decide (crbResourceVersion r = crbResourceVersion o)
             then exists db' r', crbDelete c o db = (db', Ret tt) /\ rows db' = <[keyOfRow o := (true, r')]> (rows db)
             else crbDelete c o db = (db, Fail ErrConflict)
         end;
}.
