(* ===== verification/PostgresSchema.v ===== *)
(** * The stored procedure: postgres/testdata/schema.sql

    The tables [kubernetes_resources], [gvk_bucket_counters], [bucket_leases] and
    [compaction_horizon] and the procedure [pgctl_write] every write goes
    through: fence, no-op suppression, counter and upsert in one transaction, so
    an exception leaves the tables as they were. Timings are left out.

    A client that passes its calls to this procedure satisfies [CrbLaws]. *)

From S2P Require Import Prelude GoStrconv GoJson GoJsonFacts Objects ObjectFacts SpecStatus NormalForms Backend.
From S2P Require Import PostgresVersion PostgresLease Postgres PostgresFacts PostgresInterface.

Import PGL PG.

Module Schema.

(** A row of [kubernetes_resources] without its key. *)
Record resource : Type := mkResource {
  uid : string;
  bucket_id : Z;
  gvk_bucket_seq : Z;
  object_version : Z;
  rspec : json;
  rstatus : json;
  rmetadata : json;
  deletion_timestamp : option Z;
}.

Record tables : Type := mkTables {
  kubernetes_resources : gmap rowKey resource;
  gvk_bucket_counters : gmap (Z * string) Z;
  bucket_leases : leases;
  compaction_horizon : gmap (Z * string) Z;
  cluster_epoch : Z;
  now : Z;
}.

Inductive exception : Type := P0001 | P0002 | P0003 | P0004 | OutOfRange.

(** BIGINT arithmetic *)
Definition plusOne (n : Z) : option Z := if (n <? max_int64)%Z then Some (n + 1)%Z else None.

Section write.
(** [gen_random_uuid()] *)
Context (gen_random_uuid : tables -> string).

Definition setRow (k : rowKey) (r : resource) (bucket_id : Z) (seq : Z) (t : tables) : tables :=
  mkTables (<[k := r]> (kubernetes_resources t)) (<[(bucket_id, k.1.1) := seq]> (gvk_bucket_counters t))
    (bucket_leases t) (compaction_horizon t) (cluster_epoch t) (now t).

(** The early return of a write that changes nothing. *)
Definition suppressed (domain : string) (sp st md : json) (deletion : option Z) (r : resource) : bool :=
  if bool_decide (domain = "status") then bool_decide (rstatus r = st)
  else bool_decide (rspec r = sp) && bool_decide (rstatus r = st) && bool_decide (rmetadata r = md) &&
       bool_decide (deletion_timestamp r = deletion).

(** The result is [out_uid] and [out_version]. *)
Definition pgctl_write (domain : string) (k : rowKey) (bucket : Z) (holder : string) (epoch expected_version : Z)
    (force_write : bool) (sp st md : json) (deletion : option Z) (t : tables) : tables * (string * Z + exception) :=
  if negb (fenceOk (now t) (bucket_leases t) bucket domain holder epoch) then (t, inr P0001)
  else
    let existing := kubernetes_resources t !! k in
    match (if force_write then None else existing ≫= fun r => if suppressed domain sp st md deletion r then Some r else None) with
    | Some r => (t, inl (uid r, object_version r))
    | None =>
        match plusOne (default 0%Z (gvk_bucket_counters t !! (bucket, k.1.1))) with
        | None => (t, inr OutOfRange)
        | Some seq =>
            if bool_decide (domain = "status") then
              if (expected_version =? 0)%Z then (t, inr P0004)
              else match existing with
                   | Some r =>
                       if (object_version r =? expected_version)%Z then
                         match plusOne (object_version r) with
                         | Some v => (setRow k (mkResource (uid r) (bucket_id r) seq v (rspec r) st (rmetadata r) (deletion_timestamp r)) bucket seq t,
                                      inl (uid r, v))
                         | None => (t, inr OutOfRange)
                         end
                       else (t, inr P0002)
                   | None => (t, inr P0002)
                   end
            else if (expected_version =? 0)%Z then
              match existing with
              | Some _ => (t, inr P0003)
              | None =>
                  let u := gen_random_uuid t in
                  (setRow k (mkResource u bucket seq 1 sp st md deletion) bucket seq t, inl (u, 1%Z))
              end
            else match existing with
                 | Some r =>
                     if (object_version r =? expected_version)%Z then
                       match plusOne (object_version r) with
                       | Some v => (setRow k (mkResource (uid r) (bucket_id r) seq v sp st md deletion) bucket seq t, inl (uid r, v))
                       | None => (t, inr OutOfRange)
                       end
                     else (t, inr P0002)
                 | None => (t, inr P0002)
                 end
        end
    end.

(** ** A client of the procedure *)

Context (assign : string -> string -> Z).

Definition rowObject (k : rowKey) (r : resource) : crbObject :=
  mkCrb k.1.1 k.1.2 k.2 (uid r) (FormatInt (object_version r)) (Some (rspec r)) (Some (rstatus r)) (Some (rmetadata r)) (bucket_id r).

Definition liveRow (k : rowKey) (r : resource) : bool * crbObject :=
  (bool_decide (is_Some (deletion_timestamp r)), rowObject k r).

Definition rowsOf (t : tables) : gmap rowKey (bool * crbObject) :=
  map_imap (fun k r => Some (liveRow k r)) (kubernetes_resources t).

Definition exceptionError (e : exception) : crbError :=
  match e with
  | P0001 => ErrFenced
  | P0002 => ErrConflict
  | P0003 => ErrAlreadyExists
  | P0004 => ErrCrb "WriteStatus requires ExpectedVersion > 0"
  | OutOfRange => ErrCrb "bigint out of range"
  end.

(** What a write reports: the request with the row's uid and version. *)
Definition reported (o : crbObject) (res : tables * (string * Z + exception)) : tables * outcome crbError crbObject :=
  match res with
  | (t, inl (u, v)) => (t, Ret (mkCrb (crbGVK o) (crbNamespace o) (crbName o) u (FormatInt v) (crbSpec o) (crbStatus o) (crbMetadata o) (crbBucketID o)))
  | (t, inr e) => (t, Fail (exceptionError e))
  end.

Definition writeObject (domain : string) (c : crbClient) (o : crbObject) (expected : Z) (deletion : option Z) (t : tables)
    : tables * outcome crbError crbObject :=
  match crbSpec o, crbStatus o, crbMetadata o with
  | Some sp, Some st, Some md =>
      reported o (pgctl_write domain (keyOfRow o) (crbBucketID o) (ccHolder c) (ccEpoch c) expected false sp st md deletion t)
  | _, _, _ => (t, Fail (ErrCrb "null value in column"))
  end.

Definition withVersion (o : crbObject) (t : tables) (f : Z -> tables * outcome crbError crbObject) : tables * outcome crbError crbObject :=
  match parsed (crbResourceVersion o) with Some n => f n | None => (t, Fail (ErrCrb "invalid resource version")) end.

Definition discard (res : tables * outcome crbError crbObject) : tables * outcome crbError unit :=
  match res with (t, Ret _) => (t, Ret tt) | (t, Fail e) => (t, Fail e) | (t, Panic) => (t, Panic) end.

#[export] Instance tablesDB : CrbDB tables := {|
  crbGet c ns name t :=
    match rowsOf t !! (ccGVK c, ns, name) with Some (false, r) => Ret r | _ => Fail ErrNotFound end;
  crbCreate c ns name sp st md t :=
    writeObject "spec" c (mkCrb (ccGVK c) ns name "" "" (Some sp) (Some st) md (assign ns name)) 0 None t;
  crbUpdate c o t := withVersion o t (fun n => writeObject "spec" c o n None t);
  crbStatusUpdate c o st t :=
    withVersion o t (fun n =>
      reported o (pgctl_write "status" (keyOfRow o) (crbBucketID o) (ccHolder c) (ccEpoch c) n false (JObj []) st (JObj []) None t));
  crbDelete c o t := discard (withVersion o t (fun n => writeObject "spec" c o n (Some (now t)) t));
  crbList gvk buckets t :=
    Ret (compositeRV (cluster_epoch t) ((fun b => (b, default 0%Z (gvk_bucket_counters t !! (b, gvk)))) <$> buckets),
         snd <$> filter (fun r : bool * crbObject => r.1 = false /\ crbGVK r.2 = gvk /\ crbBucketID r.2 ∈ buckets)
                   (snd <$> map_to_list (rowsOf t)));
  crbWatch _ _ _ t := (t, Ret 0);
  compactedSeq b gvk t := compaction_horizon t !! (b, gvk);
|}.

(** *** The laws *)

Lemma rowsOf_lookup t k : rowsOf t !! k = liveRow k <$> kubernetes_resources t !! k.
Proof. unfold rowsOf. rewrite map_lookup_imap. by destruct (_ !! k). Qed.

Lemma rowsOf_setRow k r b seq t : rowsOf (setRow k r b seq t) = <[k := liveRow k r]> (rowsOf t).
Proof.
  apply map_eq. intros k'. rewrite rowsOf_lookup. simpl.
  destruct (decide (k' = k)) as [->|Hne]; [by rewrite !lookup_insert_eq|by rewrite !lookup_insert_ne, rowsOf_lookup by done].
Qed.

Definition seqLeftOf (b : Z) (gvk : string) (t : tables) : Prop :=
  (default 0%Z (gvk_bucket_counters t !! (b, gvk)) < max_int64)%Z.

Definition fencedOf (domain : string) (c : crbClient) (b : Z) (t : tables) : bool :=
  negb (fenceOk (now t) (bucket_leases t) b domain (ccHolder c) (ccEpoch c)).

(** What a write to an expected version does, in both domains. *)
Definition newRow (domain : string) (r : resource) (seq v : Z) (sp st md : json) (deletion : option Z) : resource :=
  if bool_decide (domain = "status") then mkResource (uid r) (bucket_id r) seq v (rspec r) st (rmetadata r) (deletion_timestamp r)
  else mkResource (uid r) (bucket_id r) seq v sp st md deletion.

Lemma pgctl_write_expected domain k b h e n sp st md del t :
  validVersion n -> seqLeftOf b k.1.1 t ->
  pgctl_write domain k b h e n false sp st md del t =
  if negb (fenceOk (now t) (bucket_leases t) b domain h e) then (t, inr P0001)
  else match kubernetes_resources t !! k with
       | None => (t, inr P0002)
       | Some r =>
           if suppressed domain sp st md del r then (t, inl (uid r, object_version r))
           else if (object_version r =? n)%Z
           then let seq := (default 0%Z (gvk_bucket_counters t !! (b, k.1.1)) + 1)%Z in
                (setRow k (newRow domain r seq (n + 1) sp st md del) b seq t, inl (uid r, (n + 1)%Z))
           else (t, inr P0002)
       end.
Proof.
  intros [Hn Hmax] Hs. unfold pgctl_write, seqLeftOf in *. destruct (fenceOk _ _ _ _ _ _); [|done]. simpl.
  assert (plusOne (default 0%Z (gvk_bucket_counters t !! (b, k.1.1))) =
    Some (default 0%Z (gvk_bucket_counters t !! (b, k.1.1)) + 1)%Z) as Hp by (unfold plusOne; case_match; [done|lia]).
  unfold newRow. destruct (Z.eqb_spec n 0); [lia|]. destruct (kubernetes_resources t !! k) as [r|]; simpl.
  - destruct (suppressed _ _ _ _ _ r); [done|]. rewrite Hp. destruct (Z.eqb_spec (object_version r) n) as [->|]; [|by case_bool_decide].
    assert (plusOne n = Some (n + 1)%Z) as -> by (unfold plusOne; case_match; [done|lia]). by case_bool_decide.
  - rewrite Hp. by case_bool_decide.
Qed.

Lemma parsed_version o n : crbResourceVersion o = FormatInt n -> validVersion n -> parsed (crbResourceVersion o) = Some n.
Proof.
  intros -> [? ?]. apply parsed_FormatInt. unfold in_int64, min_int64, max_int64 in *.
  apply andb_true_iff. split; apply Z.leb_le; lia.
Qed.

Lemma version_eqb r n k : (object_version r =? n)%Z = bool_decide (crbResourceVersion (rowObject k r) = FormatInt n).
Proof.
  simpl. destruct (Z.eqb_spec (object_version r) n) as [->|Hne]; symmetry; [by apply bool_decide_true|].
  apply bool_decide_false. simpl. intros H%(inj FormatInt). done.
Qed.

Lemma liveRow_deleted k r : (liveRow k r).1 = bool_decide (is_Some (deletion_timestamp r)).
Proof. done. Qed.

(** A write of all columns is suppressed when a live row has them. *)
Lemma suppressed_spec k r o sp st md :
  crbSpec o = Some sp -> crbStatus o = Some st -> crbMetadata o = Some md ->
  suppressed "spec" sp st md None r = negb (liveRow k r).1 && sameColumns (liveRow k r).2 o.
Proof.
  intros H1 H2 H3. unfold suppressed, sameColumns. simpl. rewrite H1, H2, H3, andb_comm.
  assert (forall a b : json, bool_decide (Some a = Some b) = bool_decide (a = b)) as Hs
    by (intros a b; apply bool_decide_ext; split; [by intros [=]|by intros ->]).
  rewrite !Hs. f_equal. destruct (deletion_timestamp r) as [d|]; [|done].
  by rewrite bool_decide_false, bool_decide_true by eauto.
Qed.

Lemma writeObject_expected c o n del t sp st md :
  crbSpec o = Some sp -> crbStatus o = Some st -> crbMetadata o = Some md ->
  crbResourceVersion o = FormatInt n -> validVersion n -> seqLeftOf (crbBucketID o) (crbGVK o) t ->
  withVersion o t (fun n => writeObject "spec" c o n del t) =
  if fencedOf "spec" c (crbBucketID o) t then (t, Fail ErrFenced)
  else match kubernetes_resources t !! keyOfRow o with
       | None => (t, Fail ErrConflict)
       | Some r =>
           if suppressed "spec" sp st md del r then reported o (t, inl (uid r, object_version r))
           else if (object_version r =? n)%Z
           then let seq := (default 0%Z (gvk_bucket_counters t !! (crbBucketID o, crbGVK o)) + 1)%Z in
                reported o (setRow (keyOfRow o) (mkResource (uid r) (bucket_id r) seq (n + 1) sp st md del) (crbBucketID o) seq t,
                            inl (uid r, (n + 1)%Z))
           else (t, Fail ErrConflict)
       end.
Proof.
  intros H1 H2 H3 Hv Hn Hs. unfold withVersion. rewrite (parsed_version o n) by done.
  unfold writeObject. rewrite H1, H2, H3, pgctl_write_expected by done. unfold fencedOf.
  destruct (fenceOk _ _ _ _ _ _); [|done]. simpl. destruct (_ !! keyOfRow o); [|done]. by repeat case_match.
Qed.

#[export] Program Instance tablesLaws : CrbLaws tables := {|
  rows := rowsOf;
  fenced := fencedOf;
  seqLeft := seqLeftOf;
|}.
Next Obligation.
  intros t k deleted r. rewrite rowsOf_lookup. intros (r' & _ & [= _ ->])%fmap_Some.
  split; [by destruct k as [[? ?] ?]|by eexists].
Qed.
Next Obligation. done. Qed.
Next Obligation.
  intros c ns name sp st md t t' res. simpl. unfold writeObject, pgctl_write, keyOfRow. simpl.
  destruct (fenceOk _ _ _ _ _ _); [|done]. simpl.
  destruct (kubernetes_resources t !! (ccGVK c, ns, name)) as [r|] eqn:Er; simpl.
  - destruct (suppressed "spec" sp st md None r) eqn:Es; [|by case_match].
    injection 1 as <- <-. exists (uid r), (FormatInt (object_version r)), (bucket_id r). split_and!; [done..|].
    symmetry. apply insert_id. rewrite rowsOf_lookup. rewrite Er. simpl. f_equal.
    unfold suppressed in Es. simpl in Es. rewrite !andb_true_iff, !bool_decide_eq_true in Es.
    destruct Es as (((<- & <-) & <-) & Hd). unfold liveRow, rowObject. by rewrite Hd.
  - case_match; [|done]. injection 1 as <- <-. do 3 eexists. split_and!; [done..|]. by rewrite rowsOf_setRow.
Qed.
Next Obligation.
  intros c o n t _ ((sp & H1) & (st & H2) & (md & H3)) Hv Hn Hs.
  pose proof (writeObject_expected c o n None t sp st md H1 H2 H3 Hv Hn Hs) as E. simpl in E |- *. rewrite E. clear E.
  destruct (fencedOf _ _ _ _); [done|]. rewrite rowsOf_lookup.
  destruct (kubernetes_resources t !! keyOfRow o) as [r|] eqn:Er; [|done]. simpl.
  rewrite (suppressed_spec (keyOfRow o) r o) by done. simpl. rewrite (version_eqb r n (keyOfRow o)), Hv. simpl.
  destruct (_ && _); [by eexists|]. case_bool_decide; [|done].
  eexists _, _. split_and!; [done..|]. rewrite rowsOf_setRow. unfold withColumns. rewrite H1, H2, H3.
  by destruct o.
Qed.
Next Obligation.
  intros c o st n t _ Hv Hn Hs. unfold crbStatusUpdate, tablesDB, withVersion. rewrite (parsed_version o n) by done.
  rewrite pgctl_write_expected by done. unfold fencedOf. destruct (fenceOk _ _ _ _ _ _); [|done]. simpl.
  rewrite rowsOf_lookup. destruct (kubernetes_resources t !! keyOfRow o) as [r|] eqn:Er; [|done]. simpl.
  unfold suppressed. simpl. rewrite (version_eqb r n (keyOfRow o)), Hv. simpl.
  destruct (decide (rstatus r = st)) as [->|Hne]; [rewrite !bool_decide_true by done; by eexists|].
  rewrite !(bool_decide_false (_ = st)), (bool_decide_false (Some _ = Some _)) by congruence.
  case_bool_decide; [|done]. eexists _, _. split_and!; [done..|]. by rewrite rowsOf_setRow.
Qed.
Next Obligation.
  intros c o n t _ ((sp & H1) & (st & H2) & (md & H3)) Hv Hn Hs.
  pose proof (writeObject_expected c o n (Some (now t)) t sp st md H1 H2 H3 Hv Hn Hs) as E. simpl in E |- *. rewrite E. clear E.
  destruct (fencedOf _ _ _ _); [done|]. rewrite rowsOf_lookup.
  destruct (kubernetes_resources t !! keyOfRow o) as [r|] eqn:Er; [|done]. simpl.
  rewrite (version_eqb r n (keyOfRow o)), Hv. simpl. destruct (deletion_timestamp r) as [d|] eqn:Ed.
  - assert (rowsOf t !! keyOfRow o = Some (true, rowObject (keyOfRow o) r)) as El
      by (rewrite rowsOf_lookup, Er; unfold liveRow; simpl; by rewrite Ed).
    rewrite bool_decide_true by eauto.
    destruct (suppressed _ _ _ _ _ r) eqn:Es.
    + simpl. case_bool_decide.
      * eexists t, _. split; [done|]. symmetry. by apply insert_id.
      * right. split; [|done]. unfold suppressed in Es. simpl in Es. rewrite !andb_true_iff, !bool_decide_eq_true in Es.
        destruct Es as (((<- & <-) & <-) & _). unfold sameColumns. simpl. rewrite H1, H2, H3. by rewrite !bool_decide_true.
    + destruct (bool_decide _); simpl; [|by left]. eexists _, _. split; [done|]. by rewrite rowsOf_setRow.
  - rewrite bool_decide_false by (by intros [? ?]).
    assert (suppressed "spec" sp st md (Some (now t)) r = false) as ->
      by (unfold suppressed; simpl; rewrite Ed; by rewrite andb_false_r).
    case_bool_decide; [|done]. eexists _, _. split; [done|]. by rewrite rowsOf_setRow.
Qed.
End write.
End Schema.
