(* ===== verification/PostgresTheorems.v ===== *)
(** * What the PostgreSQL backend promises

    Theorems about postgres/store.go: shard leases are exclusive and fence off
    former holders, list versions parse back, objects survive their columns,
    writes report missing, stale and fenced objects apart, and the watch bridge
    neither loses nor reorders events. What crbridge does is assumed
    through [CrbLaws]. *)

From S2P Require Import Prelude GoStrconv GoJson GoJsonFacts Objects ObjectFacts SpecStatus NormalForms Backend.
From S2P Require Import PostgresVersion PostgresLease Postgres PostgresFacts PostgresInterface.

Import PGL PG.

(** ** Leases *)

(** C20: a bucket has at most one owner. Whatever calls any processes made before,
    once a holder's lease stands it keeps both domains of the bucket, under its name and an epoch that does not
    decrease, until the lease expires, unless it releases them itself; and an acquisition by
    another holder in that time fails and leaves the table as it is. *)
Theorem pg_lease_exclusive start calls now t b r calls' now' t' :
  leaseRun (start, ∅) calls (now, t) -> t !! (b, "spec") = Some r ->
  leaseRun (now, t) calls' (now', t') -> noRelease b (holder r) calls' -> (now' <= expires_at r)%Z ->
  (exists r', t' !! (b, "spec") = Some r' /\ t' !! (b, "status") = Some r' /\ holder r' = holder r /\ (epoch r <= epoch r')%Z) /\
  forall h ttl qf cf, h <> holder r ->
    (acquireBothLeases now' ttl b h qf cf t').1 = t' /\ is_ret (acquireBothLeases now' ttl b h qf cf t').2 = false.
Proof.
  intros Hr Hrow Hr' Hno Hexp. destruct (leaseRun_ok _ _ _ _ Hr (leasesOk_empty start)) as [Hok _].
  destruct (leaseRun_ok _ _ _ _ Hr' Hok) as [[Hp _] _].
  destruct (lease_kept _ _ _ _ b r Hr' Hok Hrow Hno Hexp) as (r' & Hr1 & Hh & Hx & He). split.
  - exists r'. split_and!; try done. by rewrite <- (Hp b).
  - intros h ttl qf cf Hne. destruct (acquire_spec now' ttl b h t' (Hp b) qf cf) as [E Hf].
    assert (granted now' ttl h (t' !! (b, "spec")) = None) as Hg.
    { rewrite Hr1. unfold granted. rewrite bool_decide_false by congruence.
      destruct (Z.ltb_spec (expires_at r') now'); [lia|done]. }
    rewrite Hg in E. split; [by rewrite E|by apply Hf].
Qed.

(** C21: a holder that lost its bucket is fenced off. While nobody releases the bucket, once
    another holder has taken it over, no write with the old holder's name and epoch passes the fence again, in
    either domain. *)
Theorem pg_fencing start calls now t b r calls1 now1 t1 r1 calls2 now2 t2 d :
  leaseRun (start, ∅) calls (now, t) -> t !! (b, "spec") = Some r ->
  leaseRun (now, t) calls1 (now1, t1) -> t1 !! (b, "spec") = Some r1 -> holder r1 <> holder r ->
  leaseRun (now1, t1) calls2 (now2, t2) -> (forall h, noRelease b h (calls1 ++ calls2)) ->
  d = "spec" \/ d = "status" ->
  fenceOk now2 t2 b d (holder r) (epoch r) = false.
Proof.
  intros Hr Hrow Hr1 Hrow1 Hne Hr2 Hno Hd.
  destruct (leaseRun_ok _ _ _ _ Hr (leasesOk_empty start)) as [Hok _].
  destruct (leaseRun_ok _ _ _ _ Hr1 Hok) as [Hok1 _]. destruct (leaseRun_ok _ _ _ _ Hr2 Hok1) as [[Hp2 _] _].
  destruct (epoch_grows _ _ _ _ b r Hr1 Hok Hrow) as (r1' & E1 & He1 & Hh1);
    [intros h; by destruct (proj1 (Forall_app _ _ _) (Hno h))|]. rewrite Hrow1 in E1. injection E1 as <-.
  destruct (epoch_grows _ _ _ _ b r1 Hr2 Hok1 Hrow1) as (r2 & E2 & He2 & _);
    [intros h; by destruct (proj1 (Forall_app _ _ _) (Hno h))|].
  assert (t2 !! (b, d) = Some r2) as Ed by (destruct Hd as [->| ->]; [done|by rewrite <- (Hp2 b)]).
  unfold fenceOk. rewrite Ed. rewrite (bool_decide_false (epoch r2 = epoch r)); [by rewrite andb_false_r|].
  intros E. apply Hne, Hh1. lia.
Qed.

(** ** Writes *)

Definition objKey (gvk : GVK) (obj : Object) : rowKey := (gvkToString gvk, GetNamespace obj, GetName obj).

Lemma rowOf_key gvk uid rv b obj : keyOfRow (rowOf gvk uid rv b obj) = objKey gvk obj.
Proof. unfold rowOf. by destruct (clientToColumns obj) as [[? ?] ?]. Qed.

Lemma columns_metadata obj : wfObject obj = true ->
  exists sp st md, clientToColumns obj = (sp, st, Some md).
Proof.
  intros Hw. rewrite clientToColumns_eq by done. by do 3 eexists.
Qed.

Lemma rowOf_complete gvk uid rv b obj : wfObject obj = true -> complete (rowOf gvk uid rv b obj).
Proof. intros (sp & st & md & E)%columns_metadata. unfold rowOf. rewrite E. split_and!; by eexists. Qed.

Lemma rowOf_fields gvk uid rv b obj :
  let o := rowOf gvk uid rv b obj in
  crbGVK o = gvkToString gvk /\ crbBucketID o = b /\ crbResourceVersion o = rv /\
  forall r, sameColumns r o = sameColumns r (rowOf gvk "" "" 0 obj).
Proof. unfold rowOf. by destruct (clientToColumns obj) as [[? ?] ?]. Qed.

Lemma withColumns_rowOf gvk uid rv b obj r v :
  keyOfRow r = objKey gvk obj -> withColumns r (rowOf gvk uid rv b obj) v = rowOf gvk (crbUID r) v (crbBucketID r) obj.
Proof. unfold keyOfRow, objKey, withColumns, rowOf. intros [= -> -> ->]. by destruct (clientToColumns obj) as [[? ?] ?]. Qed.

Lemma sameColumns_rowOf gvk uid rv b obj r :
  keyOfRow r = objKey gvk obj -> sameColumns r (rowOf gvk uid rv b obj) = true ->
  r = rowOf gvk (crbUID r) (crbResourceVersion r) (crbBucketID r) obj.
Proof.
  unfold keyOfRow, objKey, sameColumns, rowOf. intros Hk Hs. destruct r, (clientToColumns obj) as [[? ?] ?]. simpl in *.
  rewrite !andb_true_iff, !bool_decide_eq_true in Hs. destruct Hs as [[-> ->] ->]. by simplify_eq.
Qed.

Section writes.
Context `{CrbLaws DB} (scheme : Scheme) (obj : Object) (gvk : GVK) (s : ShardedStore) (db : DB).
Hypothesis Hgvk : gvkForObject scheme obj = Ret gvk.

Lemma conflict_error k db' :
  mapConflictToNotFound gvk (ConflictError k) obj s db' =
  match rows db' !! objKey gvk obj with Some (false, _) => ConflictError k | _ => NotFoundError (keyString (ObjectKeyFromObject obj)) end.
Proof.
  unfold mapConflictToNotFound. rewrite law_get. unfold objKey. simpl.
  by destruct (rows db' !! _) as [[[] ?]|].
Qed.

(** The version of a row, in the request and in the row. *)
Lemma Update_eq n :
  expectedVersion obj = FormatInt n ->
  Update scheme obj s db =
  match crbUpdate (clientFor s gvk) (rowOf gvk "" (FormatInt n) (bucketID s) obj) db with
  | (db, Fail e) => (db, obj, Fail (mapConflictToNotFound gvk (mapCRBError e (ObjectKeyFromObject obj)) obj s db))
  | (db, Panic) => (db, obj, Panic)
  | (db, Ret result) => (db, written obj result, Ret tt)
  end.
Proof using Hgvk.
  intros E. unfold Update, rowOf. rewrite Hgvk, E. destruct (clientToColumns obj) as [[sp st] md].
  by rewrite bool_decide_false by auto with sc.
Qed.
End writes.

(** C23: [Update] on every branch. Without an expected version the object counts as not
    found; without the lease the write is fenced; a live row with these columns already is left alone and reports its
    version, also when another version was expected; the row at the expected version gets all columns of the object, its
    status and its generation among them, and the next version (also when it was soft-deleted); any other
    row is a conflict, or not found if it is deleted or absent. The caller's object gets the version on success and is
    untouched otherwise. (The documented contract has [Update] keep the stored status, count generations and check the version.) *)
Theorem pg_Update `{CrbLaws DB} scheme obj gvk s (db : DB) :
  gvkForObject scheme obj = Ret gvk -> wfObject obj = true ->
  (expectedVersion obj = "" -> Update scheme obj s db = (db, obj, Fail (NotFoundError (keyString (ObjectKeyFromObject obj))))) /\
  forall n, expectedVersion obj = FormatInt n -> validVersion n -> seqLeft (bucketID s) (gvkToString gvk) db ->
  if fenced "spec" (clientFor s gvk) (bucketID s) db then Update scheme obj s db = (db, obj, Fail (FencedError 0))
  else match rows db !! objKey gvk obj with
       | None => Update scheme obj s db = (db, obj, Fail (NotFoundError (keyString (ObjectKeyFromObject obj))))
       | Some (deleted, r) =>
           if negb deleted && sameColumns r (rowOf gvk "" "" 0 obj) then
             exists res, Update scheme obj s db = (db, written obj res, Ret tt) /\ crbResourceVersion res = crbResourceVersion r
           else if bool_decide (crbResourceVersion r = FormatInt n) then
             exists db' res, Update scheme obj s db = (db', written obj res, Ret tt) /\ crbResourceVersion res = FormatInt (n + 1) /\
               rows db' = <[objKey gvk obj := (false, rowOf gvk (crbUID r) (FormatInt (n + 1)) (crbBucketID r) obj)]> (rows db)
           else Update scheme obj s db =
             (db, obj, Fail (if deleted then NotFoundError (keyString (ObjectKeyFromObject obj))
                             else ConflictError (keyString (ObjectKeyFromObject obj))))
       end.
Proof.
  intros Hg Hw. split.
  { intros E. unfold Update. rewrite Hg, E. by destruct (clientToColumns obj) as [[? ?] ?]. }
  intros n E Hn Hs. rewrite (Update_eq scheme obj gvk s db Hg n E).
  pose proof (rowOf_key gvk "" (FormatInt n) (bucketID s) obj) as Hk.
  set (o := rowOf gvk "" (FormatInt n) (bucketID s) obj) in *.
  destruct (rowOf_fields gvk "" (FormatInt n) (bucketID s) obj) as (Ho1 & Ho2 & Ho3 & Hsame). fold o in Ho1, Ho2, Ho3, Hsame.
  pose proof (law_update (clientFor s gvk) o n db (eq_sym Ho1) (rowOf_complete _ _ _ _ _ Hw) Ho3 Hn) as Hl.
  rewrite Ho1, Ho2, Ho3, Hk in Hl. specialize (Hl Hs). destruct (fenced _ _ _ _); [by rewrite Hl|].
  destruct (rows db !! objKey gvk obj) as [[deleted r]|] eqn:Er.
  - rewrite <- Hsame. destruct (negb deleted && sameColumns r o); [destruct Hl as (res & -> & Hv); by exists res|].
    case_bool_decide.
    + destruct Hl as (db' & res & -> & Hv & Hr). exists db', res. split_and!; [done..|]. rewrite Hr.
      destruct (law_rows _ _ _ _ Er) as [Hkr _]. unfold o. by rewrite withColumns_rowOf.
    + rewrite Hl. cbn [mapCRBError]. rewrite conflict_error, Er. by destruct deleted.
  - rewrite Hl. cbn [mapCRBError]. by rewrite conflict_error, Er.
Qed.

(** [UpdateStatus]: the same, for the status alone. *)
Lemma UpdateStatus_eq `{CrbLaws DB} scheme obj gvk s (db : DB) n :
  gvkForObject scheme obj = Ret gvk -> expectedVersion obj = FormatInt n ->
  UpdateStatus scheme obj s db =
  match crbStatusUpdate (statusClientFor s gvk)
          (mkCrb (gvkToString gvk) (GetNamespace obj) (GetName obj) "" (FormatInt n) None None None (bucketID s))
          (clientToColumns obj).1.2 db with
  | (db, Fail e) => (db, obj, Fail (mapConflictToNotFound gvk (mapCRBError e (ObjectKeyFromObject obj)) obj s db))
  | (db, Panic) => (db, obj, Panic)
  | (db, Ret result) => (db, written obj result, Ret tt)
  end.
Proof.
  intros Hg E. unfold UpdateStatus. rewrite Hg, E. destruct (clientToColumns obj) as [[sp st] md].
  by rewrite bool_decide_false by auto with sc.
Qed.

(** C24: [UpdateStatus] on every branch. Without an expected version the object counts as
    not found. Otherwise it is fenced by the status lease, writes the status column alone, so spec, metadata and identity of the
    row stay as they are whatever the object holds, changes nothing and succeeds when the status is the stored one, whatever
    version is expected, and reports conflicts and missing objects like [Update]; a soft-deleted row at the expected version is
    written too and stays deleted. (The documented contract promises not-found for it, and a version check.) *)
Theorem pg_UpdateStatus `{CrbLaws DB} scheme obj gvk s (db : DB) :
  let st := (clientToColumns obj).1.2 in
  gvkForObject scheme obj = Ret gvk ->
  (expectedVersion obj = "" -> UpdateStatus scheme obj s db = (db, obj, Fail (NotFoundError (keyString (ObjectKeyFromObject obj))))) /\
  forall n, expectedVersion obj = FormatInt n -> validVersion n -> seqLeft (bucketID s) (gvkToString gvk) db ->
  if fenced "status" (statusClientFor s gvk) (bucketID s) db then UpdateStatus scheme obj s db = (db, obj, Fail (FencedError 0))
  else match rows db !! objKey gvk obj with
       | None => UpdateStatus scheme obj s db = (db, obj, Fail (NotFoundError (keyString (ObjectKeyFromObject obj))))
       | Some (deleted, r) =>
           if bool_decide (crbStatus r = Some st) then
             exists res, UpdateStatus scheme obj s db = (db, written obj res, Ret tt) /\ crbResourceVersion res = crbResourceVersion r
           else if bool_decide (crbResourceVersion r = FormatInt n) then
             exists db' res, UpdateStatus scheme obj s db = (db', written obj res, Ret tt) /\
               crbResourceVersion res = FormatInt (n + 1) /\
               rows db' = <[objKey gvk obj := (deleted, withStatus r st (FormatInt (n + 1)))]> (rows db)
           else UpdateStatus scheme obj s db =
             (db, obj, Fail (if (deleted : bool) then NotFoundError (keyString (ObjectKeyFromObject obj))
                             else ConflictError (keyString (ObjectKeyFromObject obj))))
       end.
Proof.
  intros st Hg. split.
  { intros E. unfold UpdateStatus. rewrite Hg, E. by destruct (clientToColumns obj) as [[? ?] ?]. }
  intros n E Hn Hs. rewrite (UpdateStatus_eq scheme obj gvk s db n Hg E). fold st.
  set (o := mkCrb _ _ _ _ _ _ _ _ _). pose proof (law_status (statusClientFor s gvk) o st n db eq_refl eq_refl Hn Hs) as Hl.
  change (crbBucketID o) with (bucketID s) in Hl. change (crbResourceVersion o) with (FormatInt n) in Hl.
  change (keyOfRow o) with (objKey gvk obj) in Hl. destruct (fenced _ _ _ _); [by rewrite Hl|].
  destruct (rows db !! objKey gvk obj) as [[deleted r]|] eqn:Er.
  - case_bool_decide; [destruct Hl as (res & -> & Hv); by exists res|]. case_bool_decide.
    + destruct Hl as (db' & res & -> & Hv & Hr). by exists db', res.
    + rewrite Hl. cbn [mapCRBError]. rewrite conflict_error, Er. by destruct deleted.
  - rewrite Hl. cbn [mapCRBError]. by rewrite conflict_error, Er.
Qed.

(** What the row at a key says to a reader. *)
Lemma Get_row `{CrbLaws DB} scheme obj gvk s (db : DB) uid rv b :
  gvkForObject scheme obj = Ret gvk -> wfObject obj = true -> normalObject obj -> columnType (oType obj) = true ->
  rows db !! objKey gvk obj = Some (false, rowOf gvk uid rv b obj) ->
  Get scheme (ObjectKeyFromObject obj) (zeroObject (oType obj)) s db = (readBack gvk uid rv obj, Ret tt).
Proof.
  intros Hg Hw Hn Hc Hr. unfold Get. change (gvkForObject scheme (zeroObject (oType obj))) with (gvkForObject scheme obj).
  rewrite Hg, law_get. unfold objKey in Hr. simpl. rewrite Hr. by rewrite columns_roundtrip.
Qed.

Lemma update_stored `{CrbLaws DB} obj gvk s (db db' : DB) n res :
  wfObject obj = true -> validVersion n -> seqLeft (bucketID s) (gvkToString gvk) db ->
  crbUpdate (clientFor s gvk) (rowOf gvk "" (FormatInt n) (bucketID s) obj) db = (db', Ret res) ->
  exists deleted r, rows db !! objKey gvk obj = Some (deleted, r) /\
    rows db' !! objKey gvk obj = Some (false, rowOf gvk (crbUID r) (crbResourceVersion res) (crbBucketID r) obj).
Proof.
  intros Hw Hn Hs Hu. destruct (rowOf_fields gvk "" (FormatInt n) (bucketID s) obj) as (Ho1 & Ho2 & Ho3 & Hsame).
  pose proof (law_update (clientFor s gvk) _ n db (eq_sym Ho1) (rowOf_complete _ _ _ _ _ Hw) Ho3 Hn) as Hl.
  rewrite Ho1, Ho2, Ho3, rowOf_key, Hu in Hl. specialize (Hl Hs). destruct (fenced _ _ _ _); [done|].
  destruct (rows db !! objKey gvk obj) as [[deleted r]|] eqn:Er; [|done]. destruct (law_rows _ _ _ _ Er) as [Hk _].
  destruct (negb deleted && _) eqn:Ec.
  - destruct Hl as (res' & [= <- <-] & ->). apply andb_true_iff in Ec as [Ed Ec]. destruct deleted; [done|].
    rewrite Hsame in Ec. rewrite Er. exists false, r. split; [done|]. by rewrite <- (sameColumns_rowOf gvk "" "" 0 obj).
  - case_bool_decide; [|done]. destruct Hl as (db1 & res' & [= <- <-] & -> & ->). rewrite lookup_insert_eq.
    rewrite withColumns_rowOf by done. by exists deleted, r.
Qed.

(** C22: after a successful [Create] or [Update] of an object whose type has the fields spec
    and status, whoever reads the object gets what was written: spec, status, labels, generation and annotations of the writer's
    object come back from the columns, with the version the writer's object now carries and the next write has to
    expect. The UID is the one [Create] put into the object, and the one the row had before an
    [Update]. (So the generation is the caller's, and an [Update] replaces the status, both against the documented contract.) *)
Theorem pg_read_your_writes `{CrbLaws DB} scheme obj gvk s (db db' : DB) obj' :
  let reads uid := expectedVersion obj' = GetResourceVersion obj' /\ forall s',
    Get scheme (ObjectKeyFromObject obj) (zeroObject (oType obj)) s' db' = (readBack gvk uid (GetResourceVersion obj') obj, Ret tt) in
  gvkForObject scheme obj = Ret gvk -> wfObject obj = true -> normalObject obj -> columnType (oType obj) = true ->
  (Create scheme obj s db = (db', obj', Ret tt) -> reads (GetUID obj')) /\
  (forall n, Update scheme obj s db = (db', obj', Ret tt) -> seqLeft (bucketID s) (gvkToString gvk) db ->
     expectedVersion obj = FormatInt n -> validVersion n ->
     exists deleted r, rows db !! objKey gvk obj = Some (deleted, r) /\ reads (crbUID r)).
Proof.
  intros reads Hg Hw Hn Hc.
  assert (forall o rv, expectedVersion (setOVAnnotation (SetResourceVersion rv o) rv) = rv) as Hov.
  { intros o rv. unfold expectedVersion, getOVAnnotation, setOVAnnotation, GetAnnotations. simpl. rewrite lookup_insert_eq.
    simpl. by case_bool_decide. }
  split.
  - intros Hwr. unfold Create in Hwr. rewrite Hg in Hwr. destruct (columns_metadata obj Hw) as (sp & st & md & Ecol). rewrite Ecol in Hwr.
    destruct (crbCreate _ _ _ _ _ _ _) as [db1 [res|e|]] eqn:Ecr; try done. injection Hwr as <- <-.
    destruct (law_create _ _ _ _ _ _ _ _ _ Ecr) as (uid & rv & b & <- & <- & Hr). split; [apply Hov|]. intros s'.
    apply (Get_row _ _ _ _ _ _ _ b); try done. rewrite Hr. unfold objKey, rowOf. by rewrite Ecol, lookup_insert_eq.
  - intros n Hwr Hs E Hv. rewrite (Update_eq scheme obj gvk s db Hg n E) in Hwr.
    destruct (crbUpdate _ _ _) as [db1 [res|e|]] eqn:Eu; try done. injection Hwr as <- <-.
    destruct (update_stored obj gvk s db db1 n res Hw Hv Hs Eu) as (deleted & r & Hr & Hr').
    exists deleted, r. split; [done|]. split; [apply Hov|]. intros s'. by apply (Get_row _ _ _ _ _ _ _ (crbBucketID r)).
Qed.

(** What [Delete] does once it knows the version. *)
Lemma delete_at `{CrbLaws DB} obj gvk s (db : DB) n :
  wfObject obj = true -> validVersion n -> seqLeft (bucketID s) (gvkToString gvk) db ->
  let call := crbDelete (clientFor s gvk) (rowOf gvk "" (FormatInt n) (bucketID s) obj) db in
  if fenced "spec" (clientFor s gvk) (bucketID s) db then call = (db, Fail ErrFenced)
  else match rows db !! objKey gvk obj with
       | None => call = (db, Fail ErrConflict)
       | Some (true, r) =>
           if bool_decide (crbResourceVersion r = FormatInt n)
           then exists db' r', call = (db', Ret tt) /\ rows db' = <[objKey gvk obj := (true, r')]> (rows db)
           else call = (db, Fail ErrConflict) \/ (sameColumns r (rowOf gvk "" "" 0 obj) = true /\ call = (db, Ret tt))
       | Some (false, r) =>
           if bool_decide (crbResourceVersion r = FormatInt n)
           then exists db' r', call = (db', Ret tt) /\ rows db' = <[objKey gvk obj := (true, r')]> (rows db)
           else call = (db, Fail ErrConflict)
       end.
Proof.
  intros Hw Hn Hs call. destruct (rowOf_fields gvk "" (FormatInt n) (bucketID s) obj) as (Ho1 & Ho2 & Ho3 & Hsame).
  pose proof (law_delete (clientFor s gvk) _ n db (eq_sym Ho1) (rowOf_complete _ _ _ _ _ Hw) Ho3 Hn) as Hl.
  rewrite Ho1, Ho2, Ho3, rowOf_key in Hl. specialize (Hl Hs). destruct (fenced _ _ _ _); [done|].
  destruct (rows db !! objKey gvk obj) as [[[] r]|]; [|done|done]. by rewrite Hsame in Hl.
Qed.

Definition deleteResult `{CrbDB DB} (obj : Object) (gvk : GVK) (s : ShardedStore) (call : DB * outcome crbError unit) : DB * result unit :=
  match call with
  | (db, Ret _) => (db, Ret tt)
  | (db, Fail e) => (db, Fail (mapConflictToNotFound gvk (mapCRBError e (ObjectKeyFromObject obj)) obj s db))
  | (db, Panic) => (db, Panic)
  end.

Lemma Delete_eq `{CrbLaws DB} scheme obj gvk s (db : DB) :
  gvkForObject scheme obj = Ret gvk ->
  Delete scheme obj s db =
  if bool_decide (expectedVersion obj = "") then
    match rows db !! objKey gvk obj with
    | Some (false, r) =>
        deleteResult obj gvk s (crbDelete (clientFor s gvk) (rowOf gvk "" (crbResourceVersion r) (bucketID s) obj) db)
    | _ => (db, Fail (NotFoundError (keyString (ObjectKeyFromObject obj))))
    end
  else deleteResult obj gvk s (crbDelete (clientFor s gvk) (rowOf gvk "" (expectedVersion obj) (bucketID s) obj) db).
Proof.
  intros Hg. unfold Delete, rowOf, deleteResult. rewrite Hg, law_get. unfold objKey. simpl.
  destruct (clientToColumns obj) as [[sp st] md]. case_bool_decide; [|by repeat case_match].
  destruct (rows db !! _) as [[[] r]|]; [done| |done]. by repeat case_match.
Qed.

(** C25: [Delete] on every branch. With an expected version it needs the lease and the row at
    that version, and reports conflicts and missing objects apart; without one it deletes the row whatever its version.
    A row that is soft-deleted already can be deleted again at its version, with success (the documented contract promises
    not-found); at another version it is not found, unless it was deleted with these columns
    at this very time. After every success the object reads as not found and no other row has changed. *)
Theorem pg_Delete `{CrbLaws DB} scheme obj gvk s (db : DB) :
  let missing := (db, Fail (NotFoundError (keyString (ObjectKeyFromObject obj)))) in
  let deletes := exists db' r', Delete scheme obj s db = (db', Ret tt) /\ rows db' = <[objKey gvk obj := (true, r')]> (rows db) /\
    forall o s', oType o = oType obj ->
      Get scheme (ObjectKeyFromObject obj) o s' db' = (o, Fail (NotFoundError (keyString (ObjectKeyFromObject obj)))) in
  gvkForObject scheme obj = Ret gvk -> wfObject obj = true -> seqLeft (bucketID s) (gvkToString gvk) db ->
  (forall n, expectedVersion obj = FormatInt n -> validVersion n ->
     if fenced "spec" (clientFor s gvk) (bucketID s) db then Delete scheme obj s db = (db, Fail (FencedError 0))
     else match rows db !! objKey gvk obj with
          | None => Delete scheme obj s db = missing
          | Some (true, r) =>
              if bool_decide (crbResourceVersion r = FormatInt n) then deletes
              else Delete scheme obj s db = missing \/ (sameColumns r (rowOf gvk "" "" 0 obj) = true /\ deletes)
          | Some (false, r) =>
              if bool_decide (crbResourceVersion r = FormatInt n) then deletes
              else Delete scheme obj s db = (db, Fail (ConflictError (keyString (ObjectKeyFromObject obj))))
          end) /\
  (expectedVersion obj = "" ->
     match rows db !! objKey gvk obj with
     | Some (false, r) => forall n, crbResourceVersion r = FormatInt n -> validVersion n ->
         if fenced "spec" (clientFor s gvk) (bucketID s) db then Delete scheme obj s db = (db, Fail (FencedError 0)) else deletes
     | _ => Delete scheme obj s db = missing
     end).
Proof.
  intros missing deletes Hg Hw Hs.
  assert (forall db' r', Delete scheme obj s db = (db', Ret tt) -> rows db' = <[objKey gvk obj := (true, r')]> (rows db) -> deletes) as Hdel.
  { intros db' r' Hd Hr. exists db', r'. split_and!; [done..|]. intros o s' Ho. unfold Get.
    replace (gvkForObject scheme o) with (gvkForObject scheme obj) by (unfold gvkForObject; by rewrite Ho).
    rewrite Hg, law_get, Hr. unfold objKey. simpl. by rewrite lookup_insert_eq. }
  split.
  - intros n E Hn. pose proof (Delete_eq scheme obj gvk s db Hg) as Hd. rewrite E, bool_decide_false in Hd by auto with sc.
    pose proof (delete_at obj gvk s db n Hw Hn Hs) as Hl. destruct (fenced _ _ _ _); [by rewrite Hd, Hl|].
    destruct (rows db !! objKey gvk obj) as [[[] r]|] eqn:Er.
    + case_bool_decide.
      * destruct Hl as (db' & r' & Hl & Hr). apply (Hdel db' r'); [by rewrite Hd, Hl|done].
      * destruct Hl as [Hl|[Hsame Hl]].
        -- left. rewrite Hd, Hl. unfold deleteResult. cbn [mapCRBError]. by rewrite conflict_error, Er.
        -- right. split; [done|]. apply (Hdel db r); [by rewrite Hd, Hl|]. symmetry. by apply insert_id.
    + case_bool_decide.
      * destruct Hl as (db' & r' & Hl & Hr). apply (Hdel db' r'); [by rewrite Hd, Hl|done].
      * rewrite Hd, Hl. unfold deleteResult. cbn [mapCRBError]. by rewrite conflict_error, Er.
    + rewrite Hd, Hl. unfold deleteResult. cbn [mapCRBError]. by rewrite conflict_error, Er.
  - intros E. pose proof (Delete_eq scheme obj gvk s db Hg) as Hd. rewrite bool_decide_true in Hd by done.
    destruct (rows db !! objKey gvk obj) as [[[] r]|] eqn:Er; [done| |done]. intros n Hv Hn. rewrite Hv in Hd.
    pose proof (delete_at obj gvk s db n Hw Hn Hs) as Hl. destruct (fenced _ _ _ _); [by rewrite Hd, Hl|].
    rewrite Er, bool_decide_true in Hl by done. destruct Hl as (db' & r' & Hl & Hr). apply (Hdel db' r'); [by rewrite Hd, Hl|done].
Qed.

(** ** Lists *)

(** A row and the object it was written from. *)
Definition storedRow : Type := string * string * Z * Object.
Definition tableRow (gvk : GVK) (x : storedRow) : crbObject := let '(uid, rv, b, o) := x in rowOf gvk uid rv b o.
Definition readRow (gvk : GVK) (x : storedRow) : Object := let '(uid, rv, _, o) := x in readBack gvk uid rv o.

Definition okRow (t : GoType) (x : storedRow) : Prop := wfObject x.2 = true /\ normalObject x.2 /\ oType x.2 = t.

(** The objects a listing asks for. *)
Definition wanted (lo : ListOptions) (x : storedRow) : bool :=
  (bool_decide (loNamespace lo = "") || bool_decide (GetNamespace x.2 = loNamespace lo)) &&
  match loLabelSelector lo with Some sel => lsEmpty sel || lsMatches sel (GetLabels x.2) | None => true end.

Section list.
Context (scheme : Scheme) (gvk : GVK) (t : GoType) (lo : ListOptions).
Hypothesis Hnew : SchemeNew scheme gvk = Ret (RObject (zeroObject t)).
Hypothesis Hcol : columnType t = true.

Lemma listRow_spec x :
  okRow t x -> listRow scheme gvk lo (tableRow gvk x) = Ret (if wanted lo x then Some (readRow gvk x) else None).
Proof using Hnew Hcol.
  destruct x as [[[uid rv] b] o]. intros (Hw & Hn & Ht). cbn [snd] in Hw, Hn, Ht.
  unfold listRow, wanted, tableRow, readRow. cbn [snd].
  assert (crbNamespace (rowOf gvk uid rv b o) = GetNamespace o /\ extractLabels (crbMetadata (rowOf gvk uid rv b o)) = GetLabels o)
    as [-> ->].
  { pose proof Hw as (_ & _ & Hg & _)%wfObject_spec. unfold rowOf. rewrite clientToColumns_eq by done.
    split; [done|]. by apply extractLabels_column. }
  destruct (decide (loNamespace lo = "")) as [E|E].
  1: rewrite (bool_decide_false (loNamespace lo <> "")) by auto; rewrite (bool_decide_true (loNamespace lo = "")) by done.
  2: rewrite (bool_decide_true (loNamespace lo <> "")) by done; rewrite (bool_decide_false (loNamespace lo = "")) by done;
     destruct (decide (GetNamespace o = loNamespace lo)) as [E'|E'];
     [rewrite (bool_decide_false (GetNamespace o <> _)) by auto; rewrite (bool_decide_true (GetNamespace o = _)) by done
     |by rewrite (bool_decide_true (GetNamespace o <> _)), (bool_decide_false (GetNamespace o = _)) by done].
  all: cbn [andb orb negb]; rewrite Hnew, <- Ht, columns_roundtrip by (done || by rewrite Ht);
       destruct (loLabelSelector lo) as [sel|]; [by destruct (lsEmpty sel), (lsMatches sel _)|done].
Qed.

Lemma listRows_spec xs :
  Forall (okRow t) xs ->
  listRows scheme gvk lo (map (tableRow gvk) xs) = Ret (map (readRow gvk) (List.filter (wanted lo) xs)).
Proof using Hnew Hcol.
  induction 1 as [|x xs Hx _ IH]; [done|]. simpl. rewrite listRow_spec, IH by done. by destruct (wanted lo x).
Qed.

Lemma readRow_type xs : Forall (okRow t) xs ->
  forallb (fun o => bool_decide (tName (oType o) = tName t)) (map (readRow gvk) (List.filter (wanted lo) xs)) = true.
Proof.
  induction 1 as [|[[[uid rv] b] o] xs (_ & _ & Ht) _ IH]; [done|]. simpl in *. case_match; [|done]. simpl.
  by rewrite Ht, bool_decide_true.
Qed.
End list.

(** The end of [Watch]: the inner watch and its bridge. *)
Definition startWatch `{CrbDB DB} (gvk : GVK) (opts : list ListOption) (bucket : Z) (rv : string) (db : DB) : DB * result bridge :=
  match crbWatch (gvkToString gvk) [bucket] rv db with
  | (db, Ret wi) => (db, Ret (newWatchBridge wi gvk (loLabelSelector (applyOptions opts))))
  | (db, Fail e) => (db, Fail (WrappedError "watch" (crbErr e)))
  | (db, Panic) => (db, Panic)
  end.

(** C26: a listing holds exactly the bucket's objects that match namespace and labels, with
    the bucket's position in the composite version as its resource version. Watching from that version later asks the database for
    the changes of this bucket after that position, in the epoch of the listing; only if
    changes up to the position were compacted away is it refused, with the oldest position that is left. *)
Theorem pg_list_then_watch `{CrbDB DB} scheme gvk t lst opts s (db : DB) epoch buckets xs :
  let hwm := default 0%Z (hwmOf (bucketID s) buckets) in
  elemGVKForList scheme lst = Ret gvk -> lItemsField lst = ItemsOf t ->
  SchemeNew scheme gvk = Ret (RObject (zeroObject t)) -> columnType t = true -> Forall (okRow t) xs ->
  in_int64 epoch = true -> (0 < epoch)%Z -> (clusterEpoch s <= epoch)%Z -> Forall (fun bh => in_int64 bh.2 = true) buckets ->
  crbList (gvkToString gvk) [bucketID s] db = Ret (compositeRV epoch buckets, map (tableRow gvk) xs) ->
  exists s' lst',
    List scheme lst opts s db = (s', lst', Ret tt) /\
    lItems lst' = map (readRow gvk) (List.filter (wanted (applyOptions opts)) xs) /\
    lResourceVersion lst' = FormatInt hwm /\
    forall opts' (db' : DB),
      Watch scheme lst' (opts' ++ [WatchFromRevision hwm]) s' db' =
      match (if (hwm =? 0)%Z then None else compactedSeq (bucketID s) (gvkToString gvk) db') with
      | Some horizon =>
          if (hwm <=? horizon)%Z then (db', Fail (RevisionTooOldError hwm (wrap64 (horizon + 1))))
          else startWatch gvk (opts' ++ [WatchFromRevision hwm]) (bucketID s) (compositeRV epoch [(bucketID s, hwm)]) db'
      | None => startWatch gvk (opts' ++ [WatchFromRevision hwm]) (bucketID s) (compositeRV epoch [(bucketID s, hwm)]) db'
      end.
Proof.
  intros hwm He Hi Hnew Hcol Hxs Hin Hpos Hcl Hb Hl.
  set (items := map (readRow gvk) (List.filter (wanted (applyOptions opts)) xs)).
  exists (setClusterEpoch epoch s), (SetListResourceVersion (FormatInt hwm) (SetItems items lst)).
  assert (clusterEpoch (if (clusterEpoch s <? epoch)%Z then setClusterEpoch epoch s else s) = epoch) as Hce
    by (destruct (Z.ltb_spec (clusterEpoch s) epoch); simpl; lia).
  assert ((if (clusterEpoch s <? epoch)%Z then setClusterEpoch epoch s else s) = setClusterEpoch epoch s) as Hset.
  { destruct (Z.ltb_spec (clusterEpoch s) epoch); [done|]. simpl in Hce. destruct s. simpl in *. by rewrite <- Hce. }
  split_and!; [|done..|].
  - unfold List. rewrite He, Hl, parseBucketHWM_composite by done.
    rewrite bool_decide_true by done. destruct (Z.ltb_spec 0 epoch); [|lia]. simpl. rewrite Hset.
    rewrite (listRows_spec scheme gvk t _ Hnew Hcol xs Hxs). fold items. unfold populateList. rewrite Hi.
    unfold items. by rewrite readRow_type.
  - intros opts' db'. unfold Watch, startWatch, checkCompactionHorizon.
    assert (fromRevisionOpt (opts' ++ [WatchFromRevision hwm]) = Some hwm) as -> by (unfold fromRevisionOpt; by rewrite foldl_app).
    change (elemGVKForList scheme _) with (elemGVKForList scheme lst). rewrite He. simpl.
    destruct (hwm =? 0)%Z; [done|]. destruct (compactedSeq _ _ _) as [horizon|]; [|done]. by destruct (hwm <=? horizon)%Z.
Qed.

