(* ===== verification/PostgresBridge.v ===== *)
(** * The PostgreSQL watch bridge: postgres/store.go, watchBridge

    The goroutine that translates the events of a crbridge watch, its consumer,
    [Stop], and the inner watch, of which only this is assumed: it puts events into
    its channel until it is stopped or closes the channel, and it closes the
    channel after it was stopped. *)

From S2P Require Import Prelude Inevitable GoStrconv GoJson GoJsonFacts Objects ObjectFacts SpecStatus NormalForms Backend.
From S2P Require Import PostgresVersion PostgresLease Postgres PostgresFacts PostgresInterface PostgresTheorems.

Import PGL PG.

Section bridge.
Context (scheme : Scheme) (gvk : GVK) (sel : option labelsSelector).

(** ** What a consumer should see of an inner event *)

Definition selected (labels : gmap string string) : bool :=
  match sel with Some sel => lsEmpty sel || lsMatches sel labels | None => true end.

Definition announcement (ty : crbEventType) (obj : Object) : list Event :=
  match ty with
  | crbEventAdded => [mkEvent EventAdded obj]
  | crbEventModified => [mkEvent EventModified obj]
  | crbEventDeleted => [mkEvent EventDeleted obj]
  | crbEventOther => []
  end.

(** Nothing is announced of a row that does not decode. *)
Definition announced (ev : crbEvent) : list Event :=
  match convertFn scheme gvk (ceObject ev) with
  | Ret obj => if selected (GetLabels obj) then announcement (ceType ev) obj else []
  | _ => []
  end.

Lemma translate_announced ev :
  match translateEvent scheme gvk sel ev with Emit e => announced ev = [e] | Crash => True | _ => announced ev = [] end.
Proof.
  unfold translateEvent, announced, selected. destruct (ceType ev); simpl; [..|by repeat case_match];
    (destruct (convertFn scheme gvk (ceObject ev)); [|done|done]; destruct sel as [s|]; [|done];
     destruct (lsEmpty s); [done|]; by destruct (lsMatches s _)).
Qed.

(** A row this backend wrote is announced as the object it was written from. *)
Lemma announced_row t x ty :
  SchemeNew scheme gvk = Ret (RObject (zeroObject t)) -> columnType t = true -> okRow t x ->
  announced (mkCrbEvent ty (tableRow gvk x)) = if selected (GetLabels x.2) then announcement ty (readRow gvk x) else [].
Proof.
  destruct x as [[[uid rv] b] o]. intros Hnew Hcol (Hw & Hn & Ht). cbn [snd] in *. unfold announced, convertFn. simpl.
  rewrite Hnew, <- Ht, columns_roundtrip by (done || by rewrite Ht). done.
Qed.

(** ** Interleavings

    Of the goroutine (taking, sending, giving up, ending), the consumer, [Stop] and
    the inner watch, with the events the inner watch delivered, those the goroutine
    took and those the consumer received. *)
Inductive bridgeRun : bridge -> list crbEvent -> list crbEvent -> list Event -> Prop :=
| br_new inner : bridgeRun (newWatchBridge inner gvk sel) [] [] []
| br_deliver b delivered taken got ev :
    bridgeRun b delivered taken got -> iwStopped (bWatch b) = false -> iwClosed (bWatch b) = false ->
    bridgeRun (withInner (mkInner (iwBuf (bWatch b) ++ [ev]) false false) b) (delivered ++ [ev]) taken got
| br_closes b delivered taken got :
    bridgeRun b delivered taken got ->
    bridgeRun (withInner (mkInner (iwBuf (bWatch b)) (iwStopped (bWatch b)) true) b) delivered taken got
| br_take b b' delivered taken got ev :
    bridgeRun b delivered taken got -> takeStep scheme b = Some (ev, b') -> bridgeRun b' delivered (taken ++ [ev]) got
| br_send b b' delivered taken got : bridgeRun b delivered taken got -> sendStep b = Some b' -> bridgeRun b' delivered taken got
| br_giveup b b' delivered taken got : bridgeRun b delivered taken got -> stopStep b = Some b' -> bridgeRun b' delivered taken got
| br_end b b' delivered taken got : bridgeRun b delivered taken got -> endStep b = Some b' -> bridgeRun b' delivered taken got
| br_stop b delivered taken got : bridgeRun b delivered taken got -> bridgeRun (Stop b) delivered taken got
| br_consume b b' delivered taken got e :
    bridgeRun b delivered taken got -> consumeStep b = Some (b', e) -> bridgeRun b' delivered taken (got ++ [e]).

(** The state between two steps. Giving up loses the event being sent. *)
Record bridgeInv (b : bridge) (delivered taken : list crbEvent) (got : list Event) : Prop := {
  bi_gvk : bGVK b = gvk;
  bi_sel : bSelector b = sel;
  bi_delivered : taken ++ iwBuf (bWatch b) = delivered;
  bi_stream : exists lost, got ++ buf (bOut b) ++ option_list (bPending b) ++ lost = concat (map announced taken) /\
    length lost <= 1 /\ (lost <> [] -> bStopped b = true /\ chClosed (bOut b) = true);
  bi_ended : chClosed (bOut b) = true -> bPending b = None /\
    (bStopped b = false -> iwBuf (bWatch b) = [] /\ iwClosed (bWatch b) = true);
  bi_cap : cap (bOut b) = 256 /\ length (buf (bOut b)) <= 256;
}.

Lemma takeStep_inv b b' delivered taken got ev :
  bridgeInv b delivered taken got -> takeStep scheme b = Some (ev, b') -> bridgeInv b' delivered (taken ++ [ev]) got.
Proof.
  intros [Hg Hs Hd (lost & Hst & Hl & Hlost) He Hc]. unfold takeStep. destruct (chClosed (bOut b)) eqn:Ecl; [done|].
  assert (lost = []) as -> by (destruct lost; [done|destruct Hlost; done]).
  destruct (bPending b) eqn:Ep; [done|]. destruct (iwBuf (bWatch b)) as [|ev' evs] eqn:Eb; [done|]. cbn [withInner bGVK bSelector].
  rewrite Hg, Hs. simpl in Hst. rewrite app_nil_r in Hst. pose proof (translate_announced ev') as Ha.
  assert (concat (map announced (taken ++ [ev'])) = concat (map announced taken) ++ announced ev') as Hcat
    by (rewrite map_app, concat_app; simpl; by rewrite app_nil_r).
  intros (b1 & E & [= -> ->])%fmap_Some. assert ((taken ++ [ev']) ++ evs = delivered) as Hd' by (by rewrite <- app_assoc).
  destruct (translateEvent scheme gvk sel ev') as [| |e|]; [| | |done].
  - injection E as <-. split; simpl; try done; [|by rewrite Ecl]. exists []. rewrite Hcat, <- Hst, Ep, Ha, !app_nil_r. by split_and!.
  - unfold closeOut, closeChan in E. simpl in E. rewrite Ecl in E. injection E as <-. split; simpl; try done.
    exists []. rewrite Hcat, <- Hst, Ep, Ha, !app_nil_r. by split_and!.
  - injection E as <-. split; simpl; try done; [|by rewrite Ecl]. exists []. rewrite Hcat, <- Hst, Ha, <- app_assoc. by split_and!.
Qed.

Lemma bridgeRun_inv b delivered taken got : bridgeRun b delivered taken got -> bridgeInv b delivered taken got.
Proof.
  induction 1 as [inner|b delivered taken got ev _ IH Es Ec|b delivered taken got _ IH|b b' delivered taken got ev _ IH Hs
    |b b' delivered taken got _ IH Hs|b b' delivered taken got _ IH Hs|b b' delivered taken got _ IH Hs
    |b delivered taken got _ IH|b b' delivered taken got e _ IH Hs].
  - split; simpl; try done; [|lia]. exists []. by split_and!; [|simpl; lia|].
  - destruct IH as [Hg Hsel Hd Hst He Hc]. split; simpl; try done.
    + by rewrite app_assoc, Hd.
    + intros Hcl. destruct (He Hcl) as [Hp Hn]. split; [done|]. intros Hns. destruct (Hn Hns). congruence.
  - destruct IH as [Hg Hsel Hd Hst He Hc]. split; simpl; try done. intros Hcl. destruct (He Hcl) as [Hp Hn]. split; [done|].
    intros Hns. by destruct (Hn Hns).
  - by eapply takeStep_inv.
  - destruct IH as [Hg Hsel Hd (lost & Hst & Hl & Hlost) He [Hcap Hlen]]. unfold sendStep, trySend in Hs.
    destruct (bPending b) as [e|] eqn:Ep; [|done]. destruct (chClosed (bOut b)) eqn:Ecl; [done|]. case_bool_decide; [|done].
    injection Hs as <-. rewrite Hcap in *. split; simpl; try done; [|rewrite length_app; simpl; lia].
    assert (lost = []) as -> by (destruct lost; [done|destruct Hlost; done]).
    exists []. rewrite <- !app_assoc. by split_and!.
  - destruct IH as [Hg Hsel Hd (lost & Hst & Hl & Hlost) He Hc]. unfold stopStep in Hs. destruct (bStopped b) eqn:Es; [|done]. simpl in Hs.
    case_bool_decide as Hp; [|done]. destruct Hp as [e Ep]. unfold closeOut, closeChan in Hs. simpl in Hs.
    destruct (chClosed (bOut b)) eqn:Ecl; [done|]. injection Hs as <-. rewrite Ep in Hst.
    assert (lost = []) as -> by (destruct lost; [done|destruct Hlost; done]). split; simpl; try done; [|by rewrite Es].
    exists [e]. rewrite app_nil_r in Hst. rewrite Es. by split_and!; [|simpl; lia|].
  - destruct IH as [Hg Hsel Hd (lost & Hst & Hl & Hlost) He Hc]. unfold endStep in Hs. destruct (bPending b) eqn:Ep; [done|].
    destruct (iwBuf (bWatch b)) eqn:Eb; [|done]. destruct (iwClosed (bWatch b)) eqn:Ei; [|done]. unfold closeOut, closeChan in Hs.
    destruct (chClosed (bOut b)) eqn:Ecl; [done|]. injection Hs as <-. split; simpl; try done; [by rewrite Eb|].
    exists lost. rewrite Ep. split_and!; [done|done|]. intros Hl2. by destruct (Hlost Hl2).
  - destruct IH as [Hg Hsel Hd (lost & Hst & Hl & Hlost) He Hc]. split; simpl; try done.
    + exists lost. split_and!; [done|done|]. intros Hl2. by destruct (Hlost Hl2).
    + intros Hcl. by destruct (He Hcl).
  - destruct IH as [Hg Hsel Hd (lost & Hst & Hl & Hlost) He [Hcap Hlen]]. unfold consumeStep, recv in Hs.
    destruct (buf (bOut b)) as [|e' q] eqn:Eb; [by destruct (chClosed (bOut b))|]. injection Hs as <- <-.
    split; simpl in *; try done; [|split; [done|lia]]. exists lost. rewrite <- app_assoc. by split_and!.
Qed.

(** ** After Stop *)

(** The goroutine, the consumer, and an inner watch that closes its channel once
    it was stopped. *)
Inductive bridgeStep : bridge -> bridge -> Prop :=
| bs_take b b' ev : takeStep scheme b = Some (ev, b') -> bridgeStep b b'
| bs_send b b' : sendStep b = Some b' -> bridgeStep b b'
| bs_giveup b b' : stopStep b = Some b' -> bridgeStep b b'
| bs_end b b' : endStep b = Some b' -> bridgeStep b b'
| bs_consume b b' e : consumeStep b = Some (b', e) -> bridgeStep b b'
| bs_closes b : iwStopped (bWatch b) = true -> iwClosed (bWatch b) = false ->
    bridgeStep b (withInner (mkInner (iwBuf (bWatch b)) true true) b).

Definition bridgeRank (b : bridge) : nat :=
  3 * length (iwBuf (bWatch b)) + 2 * length (option_list (bPending b)) + length (buf (bOut b)) +
  (if iwClosed (bWatch b) then 0 else 1) + (if chClosed (bOut b) then 0 else 1).

Record stoppedBridge (b : bridge) : Prop := {
  sb_gvk : bGVK b = gvk;
  sb_sel : bSelector b = sel;
  sb_stop : bStopped b = true;
  sb_inner : iwStopped (bWatch b) = true;
}.

Lemma bridgeStep_ok b b' : stoppedBridge b -> bridgeStep b b' -> stoppedBridge b' /\ bridgeRank b' < bridgeRank b.
Proof.
  intros [Hg Hsel Hs Hi] Hst. unfold bridgeRank. destruct Hst as [b b' ev E|b b' E|b b' E|b b' E|b b' e E|b E1 E2].
  - unfold takeStep in E. destruct (chClosed (bOut b)) eqn:Ecl; [done|]. destruct (bPending b) eqn:Ep; [done|].
    destruct (iwBuf (bWatch b)) as [|ev' evs] eqn:Eb; [done|]. apply fmap_Some in E as (b1 & E & [= -> ->]).
    destruct (translateEvent _ _ _ _) as [| |e|]; [| | |done].
    + injection E as <-. split; [by split|]. simpl. rewrite Ep, Ecl. simpl. lia.
    + unfold closeOut, closeChan in E. simpl in E. rewrite Ecl in E. injection E as <-. split; [by split|]. simpl. rewrite Ep. simpl. lia.
    + injection E as <-. split; [by split|]. simpl. rewrite Ecl. lia.
  - unfold sendStep, trySend in E. destruct (bPending b) as [e|] eqn:Ep; [|done]. destruct (chClosed (bOut b)) eqn:Ecl; [done|].
    case_bool_decide; [|done]. injection E as <-. split; [by split|]. simpl. rewrite length_app. simpl. lia.
  - unfold stopStep in E. destruct (_ && _); [|done]. unfold closeOut, closeChan in E. simpl in E.
    destruct (chClosed (bOut b)) eqn:Ecl; [done|]. injection E as <-. split; [by split|]. simpl. lia.
  - unfold endStep in E. destruct (bPending b) eqn:Ep; [done|]. destruct (iwBuf (bWatch b)) eqn:Eb; [|done].
    destruct (iwClosed (bWatch b)) eqn:Ei; [|done]. unfold closeOut, closeChan in E. destruct (chClosed (bOut b)) eqn:Ecl; [done|].
    injection E as <-. split; [by split|]. simpl. rewrite Ep, Eb, Ei. simpl. lia.
  - unfold consumeStep, recv in E. destruct (buf (bOut b)) as [|e' q] eqn:Eb; [by destruct (chClosed (bOut b))|].
    injection E as <- <-. split; [by split|]. simpl. lia.
  - split; [by split|]. simpl. rewrite E2. lia.
Qed.

Hypothesis Hobject : exists o, SchemeNew scheme gvk = Ret (RObject o).

Lemma convert_total row : convertFn scheme gvk row <> Panic.
Proof using Hobject.
  destruct Hobject as [o Ho]. unfold convertFn, crbToClient. rewrite Ho. by destruct (UnmarshalObject _ _).
Qed.

Lemma translate_total ev : translateEvent scheme gvk sel ev <> Crash.
Proof using Hobject.
  pose proof (convert_total (ceObject ev)). unfold translateEvent. repeat case_match; done.
Qed.

Lemma stoppedBridge_moves b : stoppedBridge b -> (exists b', bridgeStep b b') \/ chClosed (bOut b) = true.
Proof using Hobject.
  intros [Hg Hsel Hs Hi]. destruct (chClosed (bOut b)) eqn:Ecl; [by right|]. left.
  assert (forall b', bOut b' = bOut b -> is_Some (closeOut b')) as Hclose.
  { intros b' Eo. unfold closeOut, closeChan. rewrite Eo, Ecl. by eexists. }
  destruct (bPending b) as [e|] eqn:Ep.
  - destruct (Hclose (withPending None b) eq_refl) as [b' E]. exists b'. apply bs_giveup. unfold stopStep.
    rewrite Hs, Ep. simpl. exact E.
  - destruct (iwBuf (bWatch b)) as [|ev evs] eqn:Eb.
    + destruct (iwClosed (bWatch b)) eqn:Ei; [|exact (ex_intro _ _ (bs_closes b Hi Ei))].
      destruct (Hclose b eq_refl) as [b' E]. exists b'. apply bs_end. unfold endStep. by rewrite Ep, Eb, Ei.
    + assert (is_Some (takeStep scheme b)) as [[ev' b'] E]; [|exists b'; by eapply bs_take].
      unfold takeStep. rewrite Ecl, Ep, Eb. cbn [withInner bGVK bSelector]. rewrite Hg, Hsel. apply fmap_is_Some.
      pose proof (translate_total ev). destruct (translateEvent scheme gvk sel ev); [by eexists|by apply Hclose|by eexists|done].
Qed.

Lemma stoppedBridge_ends b : stoppedBridge b -> inevitably bridgeStep (fun b' => chClosed (bOut b') = true) b.
Proof using Hobject.
  apply (inevitable _ _ _ bridgeRank (fun _ => 0) (fun _ => 0)); [apply stoppedBridge_moves|].
  intros b1 b2 H1 Hst. destruct (bridgeStep_ok b1 b2 H1 Hst). split; [done|by left].
Qed.
End bridge.

(** C27: the watch bridge neither loses, duplicates nor reorders, and it ends. In every
    interleaving of its goroutine, its consumer, [Stop] and the inner watch, the events received, those in the channel (at most 256), the
    one being sent and at most one that [Stop] made it give up are what the inner events taken so far announce, in order:
    each added, modified or deleted row whose labels are selected, as the object it was written from, and nothing
    else. If the stream ends without [Stop] and without an undecodable row, everything the inner watch delivered was handed over.
    Once [Stop] was called the goroutine ends under every schedule, whether the consumer receives or not, given that the inner
    watch closes its channel when it is stopped and the scheme knows the type. *)
Theorem pg_bridge_stream scheme gvk sel b delivered taken got :
  bridgeRun scheme gvk sel b delivered taken got ->
  (exists lost, got ++ buf (bOut b) ++ option_list (bPending b) ++ lost = concat (map (announced scheme gvk sel) taken) /\
     length lost <= 1 /\ (lost <> [] -> bStopped b = true)) /\
  length (buf (bOut b)) <= 256 /\
  (chClosed (bOut b) = true -> bStopped b = false -> got ++ buf (bOut b) = concat (map (announced scheme gvk sel) delivered)) /\
  (forall t x ty, SchemeNew scheme gvk = Ret (RObject (zeroObject t)) -> columnType t = true -> okRow t x ->
     announced scheme gvk sel (mkCrbEvent ty (tableRow gvk x)) =
     if selected sel (GetLabels x.2) then announcement ty (readRow gvk x) else []) /\
  ((exists o, SchemeNew scheme gvk = Ret (RObject o)) ->
     inevitably (bridgeStep scheme) (fun b' => chClosed (bOut b') = true) (Stop b)).
Proof.
  intros Hr. destruct (bridgeRun_inv _ _ _ _ _ _ _ Hr) as [Hg Hsel Hd (lost & Hst & Hl & Hlost) He [_ Hlen]]. split_and!.
  - exists lost. split_and!; [done|done|]. intros Hne. by destruct (Hlost Hne).
  - done.
  - intros Hc Hs. destruct (He Hc) as [Hp Hn]. destruct (Hn Hs) as [Hb _]. rewrite Hb, app_nil_r in Hd. subst delivered.
    rewrite <- Hst, Hp. assert (lost = []) as -> by (destruct lost; [done|by destruct Hlost; [|congruence]]). by rewrite !app_nil_r.
  - intros t x ty. apply announced_row.
  - intros Ho. eapply stoppedBridge_ends; [exact Ho|]. by split.
Qed.
