(* ===== verification/PostgresWitnesses.v ===== *)
(** * The PostgreSQL theorems at concrete runs

    Two processes that compete for a bucket, a table with one widget behind the
    stored procedure of schema.sql, and a watch bridge that delivers an event. *)

From S2P Require Import Prelude Inevitable GoStrconv GoJson GoJsonFacts Objects ObjectFacts SpecStatus NormalForms Backend Fixtures.
From S2P Require Import PostgresVersion PostgresLease Postgres PostgresFacts PostgresInterface PostgresSchema PostgresTheorems PostgresBridge.

Import PGL PG.

(** ** Leases *)

Definition acquireCall (h : string) : leaseCall := mkCall OpAcquire 0 h Works Works.

Lemma acquire_row now h t r :
  leasesOk now t -> granted now leaseTTL h (t !! (0%Z, "spec")) = Some r ->
  applyLease now (acquireCall h) t !! (0%Z, "spec") = Some r.
Proof.
  intros [Hp _] Hg. unfold applyLease, acquireCall. cbn [lcOp lcBucket lcHolder lcFault lcCleanupFault].
  destruct (acquire_spec now leaseTTL 0 h t (Hp 0%Z) Works Works) as [-> _]. rewrite Hg. simpl.
  rewrite lookup_insert_ne by done. apply lookup_insert_eq.
Qed.

(** "a" takes the bucket at 0; "b" tries at 10 and again at 31, after the lease ran out. *)
Definition leases0 : leases := applyLease 0 (acquireCall "a") ∅.
Definition leases10 : leases := applyLease 10 (acquireCall "b") leases0.
Definition leases31 : leases := applyLease 31 (acquireCall "b") leases0.

Lemma run0 : leaseRun (0%Z, ∅) [acquireCall "a"] (0%Z, leases0).
Proof. apply (lrun_snoc _ [] 0 ∅ 0); [constructor|lia]. Qed.
Lemma run10 : leaseRun (0%Z, leases0) [acquireCall "b"] (10%Z, leases10).
Proof. apply (lrun_snoc _ [] 0 leases0 10); [constructor|lia]. Qed.
Lemma run31 : leaseRun (0%Z, leases0) [acquireCall "b"] (31%Z, leases31).
Proof. apply (lrun_snoc _ [] 0 leases0 31); [constructor|lia]. Qed.

Lemma ok0 : leasesOk 0 leases0.
Proof. exact (proj1 (leaseRun_ok _ _ _ _ run0 (leasesOk_empty 0))). Qed.

Lemma row0 : leases0 !! (0%Z, "spec") = Some (mkLease "a" 1 30).
Proof. apply acquire_row; [apply leasesOk_empty|done]. Qed.

Lemma row31 : leases31 !! (0%Z, "spec") = Some (mkLease "b" 2 61).
Proof.
  apply acquire_row; [|by rewrite row0]. destruct ok0 as [Hp He]. split; [done|]. intros b r Hr. apply He in Hr. lia.
Qed.

Lemma keeps_bucket h h' : noRelease 0 h [acquireCall h'].
Proof. constructor; [by intros [? _]|constructor]. Qed.

Lemma pg_lease_exclusive_witness : exists r, leases10 !! (0%Z, "spec") = Some r /\ holder r = "a".
Proof.
  destruct (pg_lease_exclusive 0 _ 0 leases0 0 _ _ 10 leases10 run0 row0 run10 (keeps_bucket _ _)) as [(r & Hr & _ & Hh & _) _];
    [done|]. by exists r.
Defined.

Lemma pg_fencing_witness : fenceOk 31 leases31 0 "spec" "a" 1 = false.
Proof.
  apply (pg_fencing 0 _ 0 leases0 0 _ _ 31 leases31 _ [] 31 leases31 "spec" run0 row0 run31 row31);
    [done|constructor|intros h; apply keeps_bucket|by left].
Defined.

(** ** Writes *)

Definition w : Object := SetResourceVersion "1" (newTestWidget "w" "red" 1).
Definition store : ShardedStore := mkStore 0 "a" (mkEpochs 1 1) 0.

Definition columns (o : Object) : json * json * json :=
  let '(sp, st, md) := clientToColumns o in (sp, st, default JNull md).

(** The stored widget has another colour. *)
Definition stored : Schema.resource :=
  let '(sp, st, md) := columns (newTestWidget "w" "blue" 1) in Schema.mkResource "u1" 0 1 1 sp st md None.

Definition tablesWith (m : gmap rowKey Schema.resource) : Schema.tables := Schema.mkTables m ∅ leases0 ∅ 1 5.
Definition emptyTables : Schema.tables := tablesWith ∅.
Definition widgetTables : Schema.tables := tablesWith {[objKey widgetGVK w := stored]}.

#[local] Instance theDB : CrbDB Schema.tables := Schema.tablesDB (fun _ => "u1") (fun _ _ => 0%Z).
#[local] Instance theLaws : CrbLaws Schema.tables := Schema.tablesLaws (fun _ => "u1") (fun _ _ => 0%Z).

Lemma w_typed : gvkForObject testScheme w = Ret widgetGVK /\ wfObject w = true /\ columnType (oType w) = true.
Proof. by vm_compute. Qed.

Lemma w_normal : normalObject w.
Proof. by vm_compute. Qed.

Lemma w_version : expectedVersion w = FormatInt 1 /\ validVersion 1.
Proof. done. Qed.

Lemma room : seqLeft (bucketID store) (gvkToString widgetGVK) widgetTables.
Proof. done. Qed.

Lemma held m d : d = "spec" \/ d = "status" ->
  Schema.fencedOf d (mkClient (gvkToString widgetGVK) "a" 1) 0 (tablesWith m) = false.
Proof.
  intros Hd. unfold Schema.fencedOf, fenceOk. simpl.
  assert (leases0 !! (0%Z, d) = Some (mkLease "a" 1 30)) as ->; [|done].
  destruct Hd as [->| ->]; [apply row0|]. destruct ok0 as [Hp _]. rewrite <- (Hp 0%Z). apply row0.
Qed.

Lemma held_spec m : fenced "spec" (clientFor store widgetGVK) (bucketID store) (tablesWith m) = false.
Proof. apply held. by left. Qed.
Lemma held_status m : fenced "status" (statusClientFor store widgetGVK) (bucketID store) (tablesWith m) = false.
Proof. apply held. by right. Qed.

Lemma widget_row : exists r, rows widgetTables !! objKey widgetGVK w = Some (false, r) /\ crbResourceVersion r = FormatInt 1 /\
  crbStatus r = Some (clientToColumns (newTestWidget "w" "blue" 1)).1.2.
Proof.
  exists (Schema.rowObject (objKey widgetGVK w) stored). split; [|by vm_compute].
  change (Schema.rowsOf widgetTables !! objKey widgetGVK w = Some (Schema.liveRow (objKey widgetGVK w) stored)).
  rewrite Schema.rowsOf_lookup. unfold widgetTables, tablesWith. cbn [Schema.kubernetes_resources]. by rewrite lookup_singleton_eq.
Qed.

Lemma pg_Update_witness : exists t o, Update testScheme w store widgetTables = (t, o, Ret tt).
Proof.
  destruct w_typed as (Hg & Hw & _), w_version as [Hv Hn], widget_row as (r & Hr & Hrv & _).
  destruct (pg_Update testScheme w widgetGVK store widgetTables Hg Hw) as [_ H].
  specialize (H 1%Z Hv Hn room). rewrite (held_spec _ : fenced _ _ _ widgetTables = _), Hr in H.
  destruct (negb _ && _); [destruct H as (res & -> & _); by do 2 eexists|].
  rewrite bool_decide_true in H by done. destruct H as (t & res & -> & _). by do 2 eexists.
Defined.

(** The same widget with a status that is not the stored one. *)
Definition wReady : Object :=
  mkObject testWidget (oBase w) [VStruct [VStr "red"; VInt 1]; VStruct [VBool true; VStr "running"]].

(** The status is written, the red spec of the request is not. *)
Lemma pg_UpdateStatus_witness : exists t o r, UpdateStatus testScheme wReady store widgetTables = (t, o, Ret tt) /\
  GetResourceVersion o = FormatInt 2 /\ rows widgetTables !! objKey widgetGVK w = Some (false, r) /\
  rows t = <[objKey widgetGVK w := (false, withStatus r (clientToColumns wReady).1.2 (FormatInt 2))]> (rows widgetTables).
Proof.
  destruct w_version as [Hv Hn], widget_row as (r & Hr & Hrv & Hst).
  destruct (pg_UpdateStatus testScheme wReady widgetGVK store widgetTables ltac:(by vm_compute)) as [_ H].
  specialize (H 1%Z ltac:(by vm_compute) Hn room). rewrite (held_status _ : fenced _ _ _ widgetTables = _) in H.
  change (objKey widgetGVK wReady) with (objKey widgetGVK w) in H. rewrite Hr in H.
  rewrite bool_decide_false in H by (rewrite Hst; by vm_compute). rewrite bool_decide_true in H by done.
  destruct H as (t & res & E & Ev & Et). exists t, (written wReady res), r. split; [exact E|]. split; [exact Ev|]. split; [exact Hr|exact Et].
Defined.

Lemma pg_Delete_witness : exists t, Delete testScheme w store widgetTables = (t, Ret tt).
Proof.
  destruct w_typed as (Hg & Hw & _), w_version as [Hv Hn], widget_row as (r & Hr & Hrv & _).
  destruct (pg_Delete testScheme w widgetGVK store widgetTables Hg Hw room) as [H _].
  specialize (H 1%Z Hv Hn). rewrite (held_spec _ : fenced _ _ _ widgetTables = _), Hr, bool_decide_true in H by done.
  destruct H as (t & r' & -> & _). by eexists.
Defined.

Lemma creates : exists t o, Create testScheme w store emptyTables = (t, o, Ret tt).
Proof.
  destruct w_typed as (Hg & Hw & _). destruct (columns_metadata w Hw) as (sp & st & md & Ec).
  unfold Create. rewrite Hg, Ec. cbn [crbCreate theDB Schema.tablesDB]. unfold Schema.writeObject, Schema.pgctl_write.
  cbn [crbSpec crbStatus crbMetadata crbBucketID ccHolder ccEpoch clientFor].
  pose proof (held ∅ "spec" (or_introl eq_refl)) as Hh. unfold Schema.fencedOf in Hh. simpl in Hh |- *. rewrite Hh.
  simpl. by do 2 eexists.
Qed.

Lemma updates : exists t o, Update testScheme w store widgetTables = (t, o, Ret tt).
Proof.
  destruct w_typed as (Hg & Hw & _), w_version as [Hv Hn], widget_row as (r & Hr & Hrv & _).
  rewrite (Update_eq testScheme w widgetGVK store widgetTables Hg 1 Hv).
  destruct (rowOf_fields widgetGVK "" (FormatInt 1) (bucketID store) w) as (Ho1 & Ho2 & Ho3 & _).
  pose proof (law_update (clientFor store widgetGVK) _ 1 widgetTables (eq_sym Ho1) (rowOf_complete _ _ _ _ _ Hw) Ho3 Hn) as H.
  rewrite Ho1, Ho2, Ho3, rowOf_key in H. specialize (H room). rewrite (held_spec _ : fenced _ _ _ widgetTables = _), Hr in H.
  destruct (negb _ && _); [destruct H as (res & -> & _); by do 2 eexists|].
  rewrite bool_decide_true in H by done. destruct H as (t & res & -> & _). by do 2 eexists.
Qed.

Lemma pg_read_your_writes_witness :
  (exists t o, Get testScheme (ObjectKeyFromObject w) (zeroObject testWidget) store t =
    (readBack widgetGVK (GetUID o) (GetResourceVersion o) w, Ret tt)) /\
  (exists t o r, rows widgetTables !! objKey widgetGVK w = Some (false, r) /\
    Get testScheme (ObjectKeyFromObject w) (zeroObject testWidget) store t = (readBack widgetGVK (crbUID r) (GetResourceVersion o) w, Ret tt)).
Proof.
  destruct w_typed as (Hg & Hw & Hc). split.
  - destruct creates as (t & o & E).
    destruct (pg_read_your_writes testScheme w widgetGVK store emptyTables t o Hg Hw w_normal Hc) as [H _].
    destruct (H E) as [_ H1]. exists t, o. apply H1.
  - destruct updates as (t & o & E), w_version as [Hv Hn], widget_row as (r & Hr & _).
    destruct (pg_read_your_writes testScheme w widgetGVK store widgetTables t o Hg Hw w_normal Hc) as [_ H].
    destruct (H 1%Z E room Hv Hn) as (d & r' & Hr' & _ & H1). rewrite Hr in Hr'. injection Hr' as <- <-.
    exists t, o, r. split; [exact Hr|apply H1].
Defined.

(** ** The bridge *)

Definition addedRow : crbEvent := mkCrbEvent crbEventAdded (rowOf widgetGVK "u1" "1" 0 w).
Definition addedEvent : Event := mkEvent EventAdded (readBack widgetGVK "u1" "1" w).
Definition bridgeWith (w : innerWatch) (p : option Event) (q : list Event) : bridge :=
  mkBridge 0 w widgetGVK None p (Chan q 256 false) false.
Definition inner (evs : list crbEvent) : innerWatch := mkInner evs false false.

Lemma translate_addedRow : translateEvent testScheme widgetGVK None addedRow = Emit addedEvent.
Proof.
  destruct w_typed as (_ & Hw & Hc). unfold translateEvent, convertFn.
  assert (SchemeNew testScheme widgetGVK = Ret (RObject (zeroObject (oType w)))) as -> by done.
  cbn [ceType ceObject addedRow eventTypeOf]. by rewrite (columns_roundtrip _ _ _ _ _ Hw w_normal Hc).
Qed.

(** Two events arrive, one is taken, sent and received; the other is in the inner
    channel when [Stop] is called. *)
Lemma bridge_run : bridgeRun testScheme widgetGVK None (bridgeWith (inner [addedRow]) None []) [addedRow; addedRow] [addedRow] [addedEvent].
Proof.
  apply (br_consume _ _ _ (bridgeWith (inner [addedRow]) None [addedEvent]) _ _ _ [] addedEvent); [|done].
  apply (br_send _ _ _ (bridgeWith (inner [addedRow]) (Some addedEvent) [])); [|done].
  apply (br_take _ _ _ (bridgeWith (inner [addedRow; addedRow]) None []) _ _ []).
  - apply (br_deliver _ _ _ (bridgeWith (inner [addedRow]) None []) [addedRow] [] [] addedRow); [|done|done].
    apply (br_deliver _ _ _ (bridgeWith (inner []) None []) [] [] [] addedRow); [apply br_new|done|done].
  - unfold takeStep. cbn [chClosed bOut bridgeWith bPending bWatch inner iwBuf withInner bGVK bSelector]. by rewrite translate_addedRow.
Qed.

Lemma pg_bridge_stream_witness :
  (exists lost, [addedEvent] ++ lost = announced testScheme widgetGVK None addedRow) /\
  inevitably (bridgeStep testScheme) (fun b => chClosed (bOut b) = true) (Stop (bridgeWith (inner [addedRow]) None [])).
Proof.
  destruct (pg_bridge_stream _ _ _ _ _ _ _ bridge_run) as ((lost & H & _) & _ & _ & _ & He). split.
  - exists lost. cbn [map concat] in H. rewrite app_nil_r in H. exact H.
  - apply He. by exists (zeroObject testWidget).
Defined.

(** ** A listing *)

Definition written1 : Schema.resource :=
  let '(sp, st, md) := columns w in Schema.mkResource "u1" 0 1 1 sp st md None.
Definition listedTables : Schema.tables := tablesWith {[objKey widgetGVK w := written1]}.

Lemma listed_row : Schema.liveRow (objKey widgetGVK w) written1 = (false, rowOf widgetGVK "u1" "1" 0 w).
Proof.
  destruct w_typed as (_ & Hw & _). unfold Schema.liveRow, written1, columns, rowOf. by rewrite clientToColumns_eq.
Qed.

Lemma listed_rows : crbList (gvkToString widgetGVK) [bucketID store] listedTables =
  Ret (compositeRV 1 [(0%Z, 0%Z)], map (tableRow widgetGVK) [("u1", "1", 0%Z, w)]).
Proof.
  assert (Schema.rowsOf listedTables = {[objKey widgetGVK w := (false, rowOf widgetGVK "u1" "1" 0 w)]}) as E.
  { apply map_eq. intros k. rewrite Schema.rowsOf_lookup. unfold listedTables, tablesWith. cbn [Schema.kubernetes_resources].
    destruct (decide (k = objKey widgetGVK w)) as [->|Hne]; [by rewrite !lookup_singleton_eq, <- listed_row|].
    by rewrite !lookup_singleton_ne by done. }
  cbn [crbList theDB Schema.tablesDB]. rewrite E, map_to_list_singleton. cbn [fmap list_fmap snd].
  rewrite filter_cons_True; [done|]. destruct (rowOf_fields widgetGVK "u1" "1" 0 w) as (Hk & Hb & _).
  cbn [fst snd]. rewrite Hk, Hb. split_and!; [done..|]. by apply list_elem_of_singleton.
Qed.

Lemma pg_list_then_watch_witness : exists s lst, List testScheme testWidgetList [] store listedTables = (s, lst, Ret tt) /\
  lItems lst = [readBack widgetGVK "u1" "1" w].
Proof.
  destruct w_typed as (_ & Hw & Hc).
  destruct (pg_list_then_watch testScheme widgetGVK testWidget testWidgetList [] store listedTables 1 [(0%Z, 0%Z)] [("u1", "1", 0%Z, w)])
    as (s & lst & Hl & Hi & _); [done..| |done|done|done| |apply listed_rows|].
  - constructor; [|constructor]. split_and!; [exact Hw|exact w_normal|done].
  - by repeat constructor.
  - exists s, lst. split; [exact Hl|]. rewrite Hi. unfold List.filter.
    assert (wanted (applyOptions []) ("u1", "1", 0%Z, w) = true) as -> by reflexivity. cbn [map readRow]. reflexivity.
Defined.
