(* ===== verification/Suite.v ===== *)
(** * The conformance suite's language: storetest/storetest.go

    A test of the suite is a program that calls a store, looks at what comes
    back and fails or goes on. [Test] is the free monad of such programs: a call
    with its answer, [t.Fatalf], [t.Errorf], and waiting for other goroutines. A
    store gives the calls their meaning ([TestedStore]); [passed] is the verdict
    of a sequential test, [poolOk] says that a set of goroutines passes in every
    interleaving of their calls, a call being atomic (the stores hold a lock).

    A [select] with a timeout takes an event that is there; the timeout fires
    when there is none, which is what happens when nothing else runs. *)

From S2P Require Import Prelude GoStrconv GoJson GoJsonFacts Objects ObjectFacts Backend Fixtures.

Module Suite.

(** ** Calls *)

Inductive call : Type :=
| CGet (key : ObjectKey) (obj : Object)
| CList (lst : ObjectList) (opts : list ListOption)
| CCreate (obj : Object)
| CUpdate (obj : Object)
| CUpdateStatus (obj : Object)
| CDelete (obj : Object)
| CWatch (lst : ObjectList) (opts : list ListOption)
| CReceive (w : nat)
| CStop (w : nat).

(** What a receive finds. *)
Inductive received : Type := Got (evt : Event) | ChanClosed | Nothing.

(** Calls that fill an argument return it as well. *)
Definition answer (c : call) : Type :=
  match c with
  | CGet _ _ | CCreate _ | CUpdate _ | CUpdateStatus _ => Object * result unit
  | CList _ _ => ObjectList * result unit
  | CDelete _ => result unit
  | CWatch _ _ => result nat
  | CReceive _ => received
  | CStop _ => unit
  end.

(** A store under test; [None] is a call that never returns. *)
Class TestedStore (S : Type) := exec : forall c : call, S -> option (S * answer c).

(** ** Programs *)

Inductive Test (A : Type) : Type :=
| TRet (a : A)
| TFatal
| TError (k : Test A)
| TCall (c : call) (k : answer c -> Test A)
| TBlock (w : nat) (k : received -> Test A)
| TJoin (js : list nat) (k : list nat -> Test A).
Arguments TRet {A} a.
Arguments TFatal {A}.
Arguments TError {A} k.
Arguments TCall {A} c k.
Arguments TBlock {A} w k.
Arguments TJoin {A} js k.

Fixpoint tbind {A B} (t : Test A) (f : A -> Test B) : Test B :=
  match t with
  | TRet a => f a
  | TFatal => TFatal
  | TError k => TError (tbind k f)
  | TCall c k => TCall c (fun a => tbind (k a) f)
  | TBlock w k => TBlock w (fun a => tbind (k a) f)
  | TJoin js k => TJoin js (fun a => tbind (k a) f)
  end.

Declare Scope test_scope.
Delimit Scope test_scope with test.
Notation "'let*' x := t 'in' u" := (tbind t (fun x => u)) (at level 10, x name, t at level 100, u at level 200) : test_scope.
Notation "'let*' ' p := t 'in' u" := (tbind t (fun x => match x with p => u end)) (at level 10, p strict pattern, t at level 100, u at level 200) : test_scope.
Notation "t ;* u" := (tbind t (fun _ => u)) (at level 100, u at level 200, right associativity) : test_scope.
#[global] Open Scope test_scope.

Definition do (c : call) : Test (answer c) := TCall c TRet.

(** [t.Fatal], [t.Error] under a condition. *)
Definition fatalIf (b : bool) : Test unit := if b then TFatal else TRet tt.
Definition errorIf (b : bool) : Test unit := if b then TError (TRet tt) else TRet tt.

(** [if err := ...; err != nil { t.Fatalf(...) }]; a panic ends the test too. *)
Definition ok {A} (r : result A) : Test A := match r with Ret a => TRet a | _ => TFatal end.

(** A call that must succeed, with the object it fills. *)
Definition must (t : Test (Object * result unit)) : Test Object :=
  let* '(obj, r) := t in ok r ;* TRet obj.

Fixpoint forEach {A} (l : list A) (body : A -> Test unit) : Test unit :=
  match l with
  | [] => TRet tt
  | x :: l => body x ;* forEach l body
  end.

(** ** The store's methods in tests *)

Definition Create (obj : Object) := do (CCreate obj).
Definition Update (obj : Object) := do (CUpdate obj).
Definition UpdateStatus (obj : Object) := do (CUpdateStatus obj).
Definition Delete (obj : Object) := do (CDelete obj).
Definition Get (key : ObjectKey) : Test (Object * result unit) := do (CGet key (zeroObject testWidget)).
Definition List (opts : list ListOption) : Test (ObjectList * result unit) := do (CList testWidgetList opts).
Definition Watch (opts : list ListOption) : Test (result nat) := do (CWatch testWidgetList opts).
Definition Receive (w : nat) := do (CReceive w).
Definition Stop (w : nat) := do (CStop w).

Definition mustList (opts : list ListOption) : Test ObjectList := let* '(lst, r) := List opts in ok r ;* TRet lst.
Definition mustWatch (opts : list ListOption) : Test nat := let* r := Watch opts in ok r.

(** ** Errors *)

(** [errors.IsNotFound] and the like: the reason of the status, which the
    errors of storectrl have. *)
Definition hasReason (reason : string) (r : result unit) : bool :=
  match r with
  | Fail e => match errorStatus e with Some s => bool_decide (sReason s = reason) | None => false end
  | _ => false
  end.
Definition IsNotFound := hasReason "NotFound".
Definition IsAlreadyExists := hasReason "AlreadyExists".
Definition IsConflict := hasReason "Conflict".

(** [errors.As] for the error types of storectrl. *)
Fixpoint asNotFound (e : error) : bool :=
  match e with NotFoundError _ => true | WrappedError _ e => asNotFound e | _ => false end.
Fixpoint asAlreadyExists (e : error) : bool :=
  match e with AlreadyExistsError _ => true | WrappedError _ e => asAlreadyExists e | _ => false end.
Fixpoint asConflict (e : error) : bool :=
  match e with ConflictError _ => true | WrappedError _ e => asConflict e | _ => false end.
Fixpoint asRevision (e : error) : option Z :=
  match e with RevisionTooOldError r _ => Some r | WrappedError _ e => asRevision e | _ => None end.

Definition As {A} (as_ : error -> bool) (r : result A) : bool := match r with Fail e => as_ e | _ => false end.

(** ** Fields of the test objects *)

Definition Color (o : Object) : string := match oBody o with [VStruct [VStr c; _]; _] => c | _ => "" end.
Definition Size (o : Object) : Z := match oBody o with [VStruct [_; VInt n]; _] => n | _ => 0 end.
Definition Ready (o : Object) : bool := match oBody o with [_; VStruct [VBool b; _]] => b | _ => false end.
Definition Phase (o : Object) : string := match oBody o with [_; VStruct [_; VStr p]] => p | _ => "" end.

Definition withBody (f : list gval -> list gval) (o : Object) : Object := mkObject (oType o) (oBase o) (f (oBody o)).
Definition setColor (c : string) : Object -> Object :=
  withBody (fun b => match b with [VStruct [_; n]; st] => [VStruct [VStr c; n]; st] | _ => b end).
Definition setSize (n : Z) : Object -> Object :=
  withBody (fun b => match b with [VStruct [c; _]; st] => [VStruct [c; VInt n]; st] | _ => b end).
Definition setReady (r : bool) : Object -> Object :=
  withBody (fun b => match b with [sp; VStruct [_; p]] => [sp; VStruct [VBool r; p]] | _ => b end).
Definition setPhase (p : string) : Object -> Object :=
  withBody (fun b => match b with [sp; VStruct [r; _]] => [sp; VStruct [r; VStr p]] | _ => b end).
Definition setNamespace (ns : string) : Object -> Object :=
  withMeta (fun m => mkMeta (mName m) ns (mUID m) (mResourceVersion m) (mGeneration m) (mLabels m) (mAnnotations m)).
Definition setLabels (l : gmap string string) : Object -> Object :=
  withMeta (fun m => mkMeta (mName m) (mNamespace m) (mUID m) (mResourceVersion m) (mGeneration m) (Some l) (mAnnotations m)).

(** [fmt.Sprintf("...%d", i)] *)
Definition numbered (prefix : string) (i : nat) : string := prefix +:+ FormatInt (Z.of_nat i).

(** ** Verdicts *)

(** A sequential test: a failure is final for the verdict. *)
Fixpoint passed {S} `{TestedStore S} {A} (t : Test A) (s : S) : bool :=
  match t with
  | TRet _ => true
  | TFatal | TError _ => false
  | TCall c k => match exec c s with Some (s, a) => passed (k a) s | None => false end
  | TBlock w k =>
      match exec (CReceive w) s with
      | Some (s, Nothing) => false
      | Some (s, a) => passed (k a) s
      | None => false
      end
  | TJoin _ _ => false
  end.

(** ** Goroutines *)

(** The test function, first, and the goroutines it has started; a goroutine's
    result is what it adds to a shared counter. *)
Abbreviation pool := (list (Test nat)).

Definition finished (t : Test nat) : option nat := match t with TRet n => Some n | _ => None end.
Definition failed (t : Test nat) : bool := match t with TFatal | TError _ => true | _ => false end.

(** The results of some goroutines, once they have all returned. *)
Definition results (ts : pool) (js : list nat) : option (list nat) := mapM (fun j => ts !! j ≫= finished) js.

(** A step of goroutine [i], if it can make one. *)
Definition threadStep {S} `{TestedStore S} (ts : pool) (i : nat) (s : S) : option (pool * S) :=
  match ts !! i with
  | Some (TCall c k) => (fun sa => (<[i := k sa.2]> ts, sa.1)) <$> exec c s
  | Some (TBlock w k) =>
      match exec (CReceive w) s with
      | Some (_, Nothing) | None => None
      | Some (s, a) => Some (<[i := k a]> ts, s)
      end
  | Some (TJoin js k) => (fun l => (<[i := k l]> ts, s)) <$> results ts js
  | _ => None
  end.

(** Whatever the scheduler does, nothing fails, the goroutines do not get stuck
    and they all return after finitely many steps. *)
Inductive poolOk {S} `{TestedStore S} (ts : pool) (s : S) : Prop :=
| pool_done : Forall (fun t => is_Some (finished t)) ts -> poolOk ts s
| pool_next :
    Forall (fun t => failed t = false) ts ->
    (exists i, is_Some (threadStep ts i s)) ->
    (forall i ts' s', threadStep ts i s = Some (ts', s') -> poolOk ts' s') ->
    poolOk ts s.

(** The part of a test before its goroutines start. *)
Fixpoint setUp {S} `{TestedStore S} {A} (t : Test A) (s : S) : option (A * S) :=
  match t with
  | TRet a => Some (a, s)
  | TCall c k => match exec c s with Some (s, a) => setUp (k a) s | None => None end
  | TBlock w k =>
      match exec (CReceive w) s with
      | Some (_, Nothing) | None => None
      | Some (s, a) => setUp (k a) s
      end
  | _ => None
  end.

Definition passedConcurrent {S} `{TestedStore S} (t : Test pool) (s : S) : Prop :=
  exists ts s', setUp t s = Some (ts, s') /\ poolOk ts s'.

(** A scheduler's choices, one goroutine per step. *)
Fixpoint schedule {S} `{TestedStore S} (choices : list nat) (ts : pool) (s : S) : option (pool * S) :=
  match choices with
  | [] => Some (ts, s)
  | i :: choices => match threadStep ts i s with Some (ts, s) => schedule choices ts s | None => None end
  end.

End Suite.
