(* ===== verification/Storetest.v ===== *)
(** * The conformance suite: storetest/storetest.go

    One definition per subtest, in the order of the source. A [defer
    watcher.Stop()] is at the end of its test. Texts of failures are left out. *)

From S2P Require Import Prelude GoStrconv GoJson GoJsonFacts Objects ObjectFacts Backend Fixtures Suite.

Module Storetest.
Import Suite.

(** What a backend supports. *)
Record Config (S : Type) : Type := mkConfig {
  NewStore : S;
  NewSmallEventLogStore : option S;
  SkipWatchOverflow : bool;
  SkipWatchEventHistory : bool;
  SkipConcurrencyWatchCount : bool;
  SkipGlobalRevisionMonotonicity : bool;
}.
Arguments mkConfig {S} _ _ _ _ _ _.
Arguments NewStore {S} _.
Arguments NewSmallEventLogStore {S} _.
Arguments SkipWatchOverflow {S} _.
Arguments SkipWatchEventHistory {S} _.
Arguments SkipConcurrencyWatchCount {S} _.
Arguments SkipGlobalRevisionMonotonicity {S} _.

(** ** Create *)

Definition create_sets_UID_and_ResourceVersion : Test unit :=
  let w := newTestWidget "w1" "blue" 1 in
  let* w := must (Create w) in
  errorIf (bool_decide (GetUID w = "")) ;*
  errorIf (bool_decide (GetResourceVersion w = "")).

Definition create_duplicate : Test unit :=
  let w := newTestWidget "w1" "blue" 1 in
  let* w := must (Create w) in
  let w2 := newTestWidget "w1" "red" 2 in
  let* '(w2, err) := Create w2 in
  fatalIf (negb (As asAlreadyExists err)) ;*
  errorIf (negb (IsAlreadyExists err)).

(** ** Get *)

Definition get_by_key : Test unit :=
  let w := newTestWidget "w1" "blue" 42 in
  let* w := must (Create w) in
  let* got := must (Get (mkKey "default" "w1")) in
  errorIf (bool_decide (Color got <> "blue") || bool_decide (Size got <> 42%Z)).

Definition get_missing : Test unit :=
  let* '(_, err) := Get (mkKey "default" "ghost") in
  fatalIf (negb (As asNotFound err)) ;*
  errorIf (negb (IsNotFound err)).

(** ** Update *)

Definition update_bumps_ResourceVersion : Test unit :=
  let w := newTestWidget "w1" "blue" 1 in
  let* w := must (Create w) in
  let originalRV := GetResourceVersion w in
  let w := setColor "red" w in
  let* w := must (Update w) in
  errorIf (bool_decide (GetResourceVersion w = originalRV)) ;*
  let* got := must (Get (ObjectKeyFromObject w)) in
  errorIf (bool_decide (Color got <> "red")).

Definition update_stale : Test unit :=
  let w := newTestWidget "w1" "blue" 1 in
  let* w := must (Create w) in
  let key := ObjectKeyFromObject w in
  let* r1 := must (Get key) in
  let* r2 := must (Get key) in
  let r1 := setSize 20 r1 in
  let* r1 := must (Update r1) in
  let r2 := setSize 30 r2 in
  let* '(r2, err) := Update r2 in
  fatalIf (negb (As asConflict err)) ;*
  errorIf (negb (IsConflict err)) ;*
  let* got := must (Get key) in
  errorIf (bool_decide (Size got <> 20%Z)).

Definition update_missing : Test unit :=
  let w := newTestWidget "ghost" "blue" 1 in
  let w := SetResourceVersion "1" w in
  let* '(w, err) := Update w in
  errorIf (negb (IsNotFound err)).

(** ** Delete *)

Definition delete_removes_object : Test unit :=
  let w := newTestWidget "w1" "blue" 1 in
  let* w := must (Create w) in
  let* r := Delete w in
  ok r ;*
  let* '(_, err) := Get (ObjectKeyFromObject w) in
  errorIf (negb (IsNotFound err)).

Definition delete_missing : Test unit :=
  let w := newTestWidget "ghost" "blue" 1 in
  let* err := Delete w in
  fatalIf (negb (As asNotFound err)) ;*
  errorIf (negb (IsNotFound err)).

(** ** List *)

Definition createNumbered (prefix : string) (i : nat) : Test unit :=
  let* _ := must (Create (newTestWidget (numbered prefix i) "blue" (Z.of_nat i))) in TRet tt.

Definition list_all_objects : Test unit :=
  forEach (seq 0 3) (createNumbered "w") ;*
  let* lst := mustList [] in
  errorIf (bool_decide (length (lItems lst) <> 3)).

Definition list_empty_store : Test unit :=
  let* lst := mustList [] in
  errorIf (bool_decide (length (lItems lst) <> 0)).

Definition list_by_namespace : Test unit :=
  let w1 := setNamespace "ns-a" (newTestWidget "w1" "blue" 1) in
  let* w1 := must (Create w1) in
  let w2 := setNamespace "ns-b" (newTestWidget "w2" "red" 2) in
  let* w2 := must (Create w2) in
  let* lst := mustList [InNamespace "ns-a"] in
  errorIf (bool_decide (length (lItems lst) <> 1)).

Section parse.
(** [labels.Parse] *)
Context (labelsParse : string -> result labelsSelector).

Definition list_by_label_selector : Test unit :=
  let w1 := setLabels {["color" := "blue"]} (newTestWidget "w1" "blue" 1) in
  let* w1 := must (Create w1) in
  let w2 := setLabels {["color" := "red"]} (newTestWidget "w2" "red" 2) in
  let* w2 := must (Create w2) in
  let* sel := ok (labelsParse "color=blue") in
  let* lst := mustList [MatchingLabelsSelector sel] in
  errorIf (bool_decide (length (lItems lst) <> 1)).
End parse.

Definition list_sets_ResourceVersion : Test unit :=
  let* lst := mustList [] in
  errorIf (bool_decide (lResourceVersion lst <> "0")) ;*
  let w := newTestWidget "w1" "blue" 1 in
  let* w := must (Create w) in
  let* lst := mustList [] in
  errorIf (bool_decide (lResourceVersion lst <> "1")).

(** ** Watch *)

Definition expectEvent (watcher : nat) (wantType : EventType) (wantName : string) : Test unit :=
  let* r := Receive watcher in
  match r with
  | Got evt =>
      errorIf (bool_decide (evType evt <> wantType)) ;*
      errorIf (bool_decide (wantName <> "") && bool_decide (GetName (evObject evt) <> wantName))
  | ChanClosed | Nothing => TFatal
  end.

(** The [select] of tests that look at one event; receiving from a closed
    channel gives an event without object, which the tests cannot use. *)
Definition nextEvent (watcher : nat) (body : Event -> Test unit) : Test unit :=
  let* r := Receive watcher in
  match r with Got evt => body evt | ChanClosed | Nothing => TFatal end.

(** Expecting the timeout. *)
Definition noEvent (watcher : nat) : Test unit :=
  let* r := Receive watcher in
  match r with Nothing => TRet tt | Got _ | ChanClosed => TError (TRet tt) end.

Definition watch_streams_events : Test unit :=
  let* watcher := mustWatch [] in
  let w := newTestWidget "w1" "blue" 1 in
  let* w := must (Create w) in
  expectEvent watcher EventAdded "w1" ;*
  let w := setColor "red" w in
  let* w := must (Update w) in
  expectEvent watcher EventModified "w1" ;*
  let* r := Delete w in
  ok r ;*
  expectEvent watcher EventDeleted "w1" ;*
  Stop watcher.

Definition watch_replays : Test unit :=
  let* w1 := must (Create (newTestWidget "w1" "blue" 1)) in
  let* w2 := must (Create (newTestWidget "w2" "red" 2)) in
  let* watcher := mustWatch [WatchFromRevision 0] in
  forEach (seq 0 2) (fun _ => nextEvent watcher (fun evt => errorIf (bool_decide (evType evt <> EventAdded)))) ;*
  let* w3 := must (Create (newTestWidget "w3" "green" 3)) in
  expectEvent watcher EventAdded "w3" ;*
  Stop watcher ;*
  let* watcher2 := mustWatch [WatchFromRevision 2] in
  nextEvent watcher2 (fun evt =>
    errorIf (bool_decide (evType evt <> EventAdded) || bool_decide (GetName (evObject evt) <> "w3"))) ;*
  Stop watcher2.

Definition watch_no_gap : Test unit :=
  let* w1 := must (Create (newTestWidget "w1" "blue" 1)) in
  let* watcher := mustWatch [WatchFromRevision 1] in
  let* w2 := must (Create (newTestWidget "w2" "red" 2)) in
  expectEvent watcher EventAdded "w2" ;*
  Stop watcher.

Definition replay_mixed_event_types : Test unit :=
  let w := newTestWidget "w1" "blue" 1 in
  let* w := must (Create w) in
  let w := setColor "red" w in
  let* w := must (Update w) in
  let* r := Delete w in
  ok r ;*
  let* watcher := mustWatch [WatchFromRevision 0] in
  forEach [EventAdded; EventModified; EventDeleted]
    (fun want => nextEvent watcher (fun evt => errorIf (bool_decide (evType evt <> want)))) ;*
  Stop watcher.

Definition newTestGadget (name : string) : Object :=
  mkObject testGadget (mkBase (mkTypeMeta "Gadget" (gadgetGV.1 +:+ "/" +:+ gadgetGV.2)) (mkMeta name "default" "" "" 0 None None)) [].

Definition replay_filters_by_GVK : Test unit :=
  let* w := must (Create (newTestWidget "w1" "blue" 1)) in
  let* g := must (Create (newTestGadget "g1")) in
  let* watcher := mustWatch [WatchFromRevision 0] in
  expectEvent watcher EventAdded "w1" ;*
  noEvent watcher ;*
  Stop watcher.

(** [for { select { case evt := <-ch: ...; case <-time.After(...): goto done } }]:
    the events until the timeout, at most [fuel] of them. *)
Fixpoint collect (fuel : nat) (watcher : nat) (got : list Event) : Test (list Event) :=
  match fuel with
  | 0 => TFatal
  | S fuel =>
      let* r := Receive watcher in
      match r with
      | Got evt => collect fuel watcher (got ++ [evt])
      | ChanClosed => TFatal
      | Nothing => TRet got
      end
  end.

Section label_replay.
Context (labelsParse : string -> result labelsSelector).

Definition label_selector_replay : Test unit :=
  let* blue := must (Create (setLabels {["color" := "blue"]} (newTestWidget "w-blue" "blue" 1))) in
  let* red := must (Create (setLabels {["color" := "red"]} (newTestWidget "w-red" "red" 2))) in
  let* blue2 := must (Create (setLabels {["color" := "blue"]} (newTestWidget "w-blue2" "blue" 3))) in
  let* sel := ok (labelsParse "color=blue") in
  (* filtered *)
  let* watcher := mustWatch [WatchFromRevision 0; MatchingLabelsSelector sel] in
  let* evts := collect 10 watcher [] in
  let names := map (fun evt => GetName (evObject evt)) evts in
  errorIf (bool_decide (length names <> 2)) ;*
  forEach names (fun name => errorIf (bool_decide (name <> "w-blue") && bool_decide (name <> "w-blue2"))) ;*
  Stop watcher ;*
  (* no_selector_replays_all *)
  let* watcher := mustWatch [WatchFromRevision 0] in
  let* evts := collect 10 watcher [] in
  errorIf (bool_decide (length evts <> 3)) ;*
  Stop watcher.
End label_replay.

(** On a store with a small event log. *)
Definition revision_too_old : Test unit :=
  forEach (seq 0 10) (createNumbered "w") ;*
  let* err := Watch [WatchFromRevision 1] in
  match err with
  | Fail e =>
      match asRevision e with
      | None => TFatal
      | Some requested =>
          errorIf (bool_decide (requested <> 1%Z)) ;*
          errorIf (negb (hasReason "Gone" (Fail e)))
      end
  | _ => TFatal
  end ;*
  let* watcher := mustWatch [WatchFromRevision 5] in
  forEach (seq 0 5) (fun _ => nextEvent watcher (fun evt => errorIf (bool_decide (evType evt <> EventAdded)))) ;*
  Stop watcher.

(** [for evt := range watcher.ResultChan()]: count and last revision; [fuel]
    bounds the number of events. *)
Fixpoint drainCount (fuel : nat) (watcher : nat) (count : nat) (lastRV : Z) : Test (nat * Z) :=
  match fuel with
  | 0 => TFatal
  | S fuel =>
      TBlock watcher (fun r =>
        match r with
        | Got evt => drainCount fuel watcher (S count) (ParseInt (GetResourceVersion (evObject evt))).1
        | ChanClosed => TRet (count, lastRV)
        | Nothing => TFatal
        end)
  end.

Definition overflow_closes_watch : Test unit :=
  let* watcher := mustWatch [] in
  forEach (seq 0 200) (createNumbered "overflow-") ;*
  let* '(count, lastRV) := drainCount 300 watcher 0 0 in
  errorIf (bool_decide (count = 0)) ;*
  errorIf (bool_decide (200 <= count)) ;*
  let* watcher2 := mustWatch [WatchFromRevision lastRV] in
  Stop watcher2.

(** ** UpdateStatus *)

Definition status_writes_status_only : Test unit :=
  let w := newTestWidget "w1" "blue" 42 in
  let* w := must (Create w) in
  let w := setPhase "running" (setReady true w) in
  let* w := must (UpdateStatus w) in
  let* got := must (Get (ObjectKeyFromObject w)) in
  errorIf (negb (Ready got) || bool_decide (Phase got <> "running")) ;*
  errorIf (bool_decide (Color got <> "blue") || bool_decide (Size got <> 42%Z)).

Definition status_preserves_spec : Test unit :=
  let w := newTestWidget "w1" "blue" 42 in
  let* w := must (Create w) in
  let w := setReady true (setColor "red" w) in
  let* w := must (UpdateStatus w) in
  let* got := must (Get (ObjectKeyFromObject w)) in
  errorIf (bool_decide (Color got <> "blue")) ;*
  errorIf (negb (Ready got)).

Definition status_bumps_ResourceVersion : Test unit :=
  let w := newTestWidget "w1" "blue" 1 in
  let* w := must (Create w) in
  let rvBefore := GetResourceVersion w in
  let w := setReady true w in
  let* w := must (UpdateStatus w) in
  errorIf (bool_decide (GetResourceVersion w = rvBefore)).

Definition status_stale : Test unit :=
  let w := newTestWidget "w1" "blue" 1 in
  let* w := must (Create w) in
  let key := ObjectKeyFromObject w in
  let* r1 := must (Get key) in
  let* r2 := must (Get key) in
  let r1 := setReady true r1 in
  let* r1 := must (UpdateStatus r1) in
  let r2 := setPhase "failed" r2 in
  let* '(r2, err) := UpdateStatus r2 in
  fatalIf (negb (As asConflict err)).

Definition status_missing : Test unit :=
  let w := newTestWidget "ghost" "blue" 1 in
  let w := SetResourceVersion "1" w in
  let* '(w, err) := UpdateStatus w in
  errorIf (negb (IsNotFound err)).

Definition status_noop_suppresses_event : Test unit :=
  let w := newTestWidget "noop-status" "blue" 42 in
  let* w := must (Create w) in
  let* watcher := mustWatch [WatchFromRevision 1] in
  let rvBefore := GetResourceVersion w in
  let* w := must (UpdateStatus w) in
  errorIf (bool_decide (GetResourceVersion w <> rvBefore)) ;*
  noEvent watcher ;*
  Stop watcher.

(** ** Generation *)

Definition generation_create_sets_1 : Test unit :=
  let w := newTestWidget "w1" "blue" 1 in
  let* w := must (Create w) in
  errorIf (bool_decide (GetGeneration w <> 1%Z)).

Definition generation_spec_change_increments : Test unit :=
  let w := newTestWidget "w1" "blue" 1 in
  let* w := must (Create w) in
  let w := setColor "red" w in
  let* w := must (Update w) in
  errorIf (bool_decide (GetGeneration w <> 2%Z)).

Definition generation_status_update_unchanged : Test unit :=
  let w := newTestWidget "w1" "blue" 1 in
  let* w := must (Create w) in
  let w := setReady true w in
  let* w := must (UpdateStatus w) in
  let* got := must (Get (ObjectKeyFromObject w)) in
  errorIf (bool_decide (GetGeneration got <> 1%Z)).

Definition generation_noop_update_unchanged : Test unit :=
  let w := newTestWidget "w1" "blue" 1 in
  let* w := must (Create w) in
  let* w := must (Update w) in
  errorIf (bool_decide (GetGeneration w <> 1%Z)).

(** ** SpecStatusSplit *)

Definition split_update_preserves_status : Test unit :=
  let w := newTestWidget "w1" "blue" 42 in
  let* w := must (Create w) in
  let w := setPhase "running" (setReady true w) in
  let* w := must (UpdateStatus w) in
  let* got := must (Get (ObjectKeyFromObject w)) in
  let got := setColor "red" got in
  let* got := must (Update got) in
  let* final := must (Get (ObjectKeyFromObject w)) in
  errorIf (bool_decide (Color final <> "red")) ;*
  errorIf (negb (Ready final) || bool_decide (Phase final <> "running")).

Definition split_update_ignores_input_status : Test unit :=
  let w := newTestWidget "w1" "blue" 42 in
  let* w := must (Create w) in
  let w := setReady true w in
  let* w := must (UpdateStatus w) in
  let* got := must (Get (ObjectKeyFromObject w)) in
  let got := setReady false (setColor "red" got) in
  let* got := must (Update got) in
  let* final := must (Get (ObjectKeyFromObject w)) in
  errorIf (negb (Ready final)).

Definition split_update_status_preserves_spec : Test unit :=
  let w := newTestWidget "w1" "blue" 42 in
  let* w := must (Create w) in
  let w := setReady true (setColor "red" w) in
  let* w := must (UpdateStatus w) in
  let* got := must (Get (ObjectKeyFromObject w)) in
  errorIf (bool_decide (Color got <> "blue")).

(** Objects are values here, so that the store keeps its copy is a fact of the
    model; the backends' use of copies is in their definitions. *)
Definition split_deep_copy_isolation : Test unit :=
  let w := newTestWidget "w1" "blue" 42 in
  let* w := must (Create w) in
  let w := setColor "MUTATED" w in
  let* got := must (Get (ObjectKeyFromObject w)) in
  errorIf (bool_decide (Color got <> "blue")).

Definition split_delete_without_resource_version : Test unit :=
  let w := newTestWidget "w1" "blue" 1 in
  let* w := must (Create w) in
  let w := SetResourceVersion "" w in
  let* r := Delete w in
  ok r ;*
  let* '(_, err) := Get (ObjectKeyFromObject w) in
  errorIf (negb (IsNotFound err)).

Definition split_delete_with_resource_version : Test unit :=
  let w := newTestWidget "w1" "blue" 1 in
  let* w := must (Create w) in
  let* r := Delete w in
  ok r.

(** ** Invariants *)

Fixpoint monotone (n : nat) (watcher : nat) (prevRV : Z) : Test unit :=
  match n with
  | 0 => TRet tt
  | S n =>
      let* r := Receive watcher in
      match r with
      | Got evt =>
          match ParseInt (GetResourceVersion (evObject evt)) with
          | (_, Some _) => TFatal
          | (rv, None) => errorIf (rv <=? prevRV)%Z ;* monotone n watcher rv
          end
      | ChanClosed | Nothing => TFatal
      end
  end.

Definition revision_monotonicity_in_watch : Test unit :=
  let* watcher := mustWatch [] in
  forEach (seq 0 10) (createNumbered "mono-") ;*
  monotone 10 watcher 0 ;*
  Stop watcher.

Definition noop_update_suppresses_event : Test unit :=
  let w := newTestWidget "noop" "blue" 42 in
  let* w := must (Create w) in
  let* watcher := mustWatch [WatchFromRevision 1] in
  let rvBefore := GetResourceVersion w in
  let* w := must (Update w) in
  let rvAfter := GetResourceVersion w in
  errorIf (bool_decide (rvAfter <> rvBefore)) ;*
  noEvent watcher ;*
  Stop watcher.

Definition list_returns_consistent_snapshot : Test unit :=
  forEach (seq 0 5) (createNumbered "snap-") ;*
  let* lst := mustList [] in
  match ParseInt (lResourceVersion lst) with
  | (_, Some _) => TFatal
  | (listRV, None) =>
      forEach (lItems lst) (fun item =>
        match ParseInt (GetResourceVersion item) with
        | (_, Some _) => TFatal
        | (objRV, None) => errorIf (listRV <? objRV)%Z
        end)
  end.

Definition watch_resumption_no_gap : Test unit :=
  let* w1 := must (Create (newTestWidget "gap-1" "blue" 1)) in
  let* w2 := must (Create (newTestWidget "gap-2" "red" 2)) in
  let* watcher := mustWatch [WatchFromRevision 1] in
  nextEvent watcher (fun evt => errorIf (bool_decide (GetName (evObject evt) <> "gap-2"))) ;*
  Stop watcher ;*
  let* w3 := must (Create (newTestWidget "gap-3" "green" 3)) in
  let* watcher2 := mustWatch [WatchFromRevision 2] in
  nextEvent watcher2 (fun evt => errorIf (bool_decide (GetName (evObject evt) <> "gap-3"))) ;*
  Stop watcher2.

Definition resourceversion_is_numeric : Test unit :=
  let w := newTestWidget "rv-numeric" "blue" 1 in
  let* w := must (Create w) in
  errorIf (bool_decide ((ParseInt (GetResourceVersion w)).2 <> None)) ;*
  let* lst := mustList [] in
  errorIf (bool_decide ((ParseInt (lResourceVersion lst)).2 <> None)).

(** ** Goroutines *)

(** [specErrors], [statusErrors]: the result is 1 after an error that is no
    conflict. *)
Fixpoint specWriter (retries : nat) (key : ObjectKey) (id : nat) : Test nat :=
  match retries with
  | 0 => TRet 0
  | S retries =>
      let* '(got, err) := Get key in
      match err with
      | Ret _ =>
          let got := setColor (numbered "color-" id) got in
          let* '(_, err) := Update got in
          match err with
          | Ret _ => TRet 0
          | Fail e => if asConflict e then specWriter retries key id else TRet 1
          | Panic => TFatal
          end
      | Fail _ => specWriter retries key id
      | Panic => TFatal
      end
  end.

Fixpoint statusWriter (retries : nat) (key : ObjectKey) (id : nat) : Test nat :=
  match retries with
  | 0 => TRet 0
  | S retries =>
      let* '(got, err) := Get key in
      match err with
      | Ret _ =>
          let got := setPhase (numbered "phase-" id) got in
          let* '(_, err) := UpdateStatus got in
          match err with
          | Ret _ => TRet 0
          | Fail e => if asConflict e then statusWriter retries key id else TRet 1
          | Panic => TFatal
          end
      | Fail _ => statusWriter retries key id
      | Panic => TFatal
      end
  end.

Definition concurrent_spec_and_status_writers : Test pool :=
  let writers := 10 in
  let w := newTestWidget "w1" "blue" 1 in
  let* w := must (Create w) in
  let key := ObjectKeyFromObject w in
  let main := TJoin (seq 1 (2 * writers)) (fun errs =>
    errorIf (bool_decide (0 < sum_list (take writers errs))) ;*
    errorIf (bool_decide (0 < sum_list (drop writers errs))) ;*
    let* final := must (Get key) in
    errorIf (bool_decide (Color final = "blue")) ;*
    errorIf (bool_decide (Phase final = "")) ;*
    TRet 0) in
  TRet (main :: map (specWriter 10 key) (seq 0 writers) ++ map (statusWriter 10 key) (seq 0 writers)).

(** [for range watcher.ResultChan() { eventCount.Add(1) }]; [fuel] bounds the
    number of events. *)
Fixpoint eventCounter (fuel : nat) (watcher : nat) (eventCount : nat) : Test nat :=
  match fuel with
  | 0 => TFatal
  | S fuel =>
      TBlock watcher (fun r =>
        match r with
        | Got _ => eventCounter fuel watcher (S eventCount)
        | ChanClosed => TRet eventCount
        | Nothing => TFatal
        end)
  end.

(** A call of a goroutine that reports an error and returns. *)
Definition orError {A} (r : result A) (k : Test nat) : Test nat :=
  match r with Ret _ => k | Fail _ => TError (TRet 0) | Panic => TFatal end.

Definition crudWorker (id : nat) : Test nat :=
  let w := newTestWidget (numbered "concurrent-" id) "blue" (Z.of_nat id) in
  let* '(w, err) := Create w in
  orError err (
    let w := setColor "red" w in
    let* '(w, err) := Update w in
    orError err (
      let* err := Delete w in
      orError err (TRet 0))).

(** Sleeping while [eventCount] is zero leaves the interleavings as they are. *)
Definition concurrent_CRUD_with_watcher {S} (cfg : Config S) : Test pool :=
  let goroutines := 10 in
  let* watcher := mustWatch [] in
  let main := TJoin (seq 2 goroutines) (fun _ =>
    Stop watcher ;*
    TJoin [1] (fun counts =>
      let count := sum_list counts in
      (if SkipConcurrencyWatchCount cfg then errorIf (bool_decide (count = 0))
       else errorIf (bool_decide (count <> goroutines * 3))) ;*
      TRet 0)) in
  TRet (main :: eventCounter 100 watcher 0 :: map crudWorker (seq 0 goroutines)).

Definition monotonicityWorker (id : nat) : Test nat :=
  let w := newTestWidget (numbered "cmon-" id) "blue" (Z.of_nat id) in
  let* '(w, err) := Create w in
  orError err (
    let w := setColor "red" w in
    let* '(w, err) := Update w in
    orError err (TRet 0)).

(** Until the channel is closed or nothing has come for a while. *)
Fixpoint drainViolations (fuel : nat) (watcher : nat) (prevRV : Z) (violations : nat) : Test nat :=
  match fuel with
  | 0 => TFatal
  | S fuel =>
      let* r := Receive watcher in
      match r with
      | Got evt =>
          let rv := (ParseInt (GetResourceVersion (evObject evt))).1 in
          drainViolations fuel watcher rv (if (rv <=? prevRV)%Z then S violations else violations)
      | ChanClosed | Nothing => TRet violations
      end
  end.

Definition concurrent_updates_preserve_monotonicity : Test pool :=
  let writers := 5 in
  let* watcher := mustWatch [] in
  let main := TJoin (seq 1 writers) (fun _ =>
    let* violations := drainViolations 100 watcher 0 0 in
    errorIf (bool_decide (0 < violations)) ;*
    Stop watcher ;*
    TRet 0) in
  TRet (main :: map monotonicityWorker (seq 0 writers)).

(** ** The suite *)

Section suite.
Context (labelsParse : string -> result labelsSelector).

Definition testCreate := [create_sets_UID_and_ResourceVersion; create_duplicate].
Definition testGet := [get_by_key; get_missing].
Definition testUpdate := [update_bumps_ResourceVersion; update_stale; update_missing].
Definition testDelete := [delete_removes_object; delete_missing].
Definition testList :=
  [list_all_objects; list_empty_store; list_by_namespace; list_by_label_selector labelsParse; list_sets_ResourceVersion].
Definition testWatch {S} (cfg : Config S) :=
  [watch_streams_events; watch_replays; watch_no_gap] ++
  (if SkipWatchEventHistory cfg then [] else [replay_mixed_event_types]) ++
  [replay_filters_by_GVK; label_selector_replay labelsParse] ++
  (if SkipWatchOverflow cfg then [] else [overflow_closes_watch]).
Definition testUpdateStatus :=
  [status_writes_status_only; status_preserves_spec; status_bumps_ResourceVersion; status_stale; status_missing;
   status_noop_suppresses_event].
Definition testGeneration :=
  [generation_create_sets_1; generation_spec_change_increments; generation_status_update_unchanged;
   generation_noop_update_unchanged].
Definition testSpecStatusSplit :=
  [split_update_preserves_status; split_update_ignores_input_status; split_update_status_preserves_spec;
   split_deep_copy_isolation; split_delete_without_resource_version; split_delete_with_resource_version].
Definition testInvariants {S} (cfg : Config S) :=
  (if SkipGlobalRevisionMonotonicity cfg then [] else [revision_monotonicity_in_watch]) ++
  [noop_update_suppresses_event; list_returns_consistent_snapshot; watch_resumption_no_gap; resourceversion_is_numeric].

(** The sequential subtests, each on a fresh store. *)
Definition sequential {S} (cfg : Config S) : list (Test unit) :=
  testCreate ++ testGet ++ testUpdate ++ testDelete ++ testList ++ testWatch cfg ++ testUpdateStatus ++
  testGeneration ++ testSpecStatusSplit ++ testInvariants cfg.

(** The concurrent subtests, each on a fresh store. *)
Definition concurrent {S} (cfg : Config S) : list (Test pool) :=
  [concurrent_spec_and_status_writers; concurrent_CRUD_with_watcher cfg] ++
  (if SkipGlobalRevisionMonotonicity cfg then [] else [concurrent_updates_preserve_monotonicity]).

(** [TestStore], the concurrent subtests apart. *)
Definition TestStore {S} `{TestedStore S} (cfg : Config S) : bool :=
  forallb (fun t => passed t (NewStore cfg)) (sequential cfg) &&
  match NewSmallEventLogStore cfg with
  | None => true
  | Some s => passed revision_too_old s
  end.
End suite.

End Storetest.
