(* ===== verification/SuiteSpec.v ===== *)
(** * What the suite's calls do to a store, abstractly

    The reference semantics of the conformance suite: a store is its history of
    changes, the size of its event log and its watchers. [specPost c r Q] holds
    when every outcome the contract allows for the call [c] in state [r]
    satisfies [Q]: a created object gets some UID, a listing comes in some order,
    everything else is determined. [wp] extends it to programs.

    A backend [Refines] the semantics when each of its calls has one of the
    allowed outcomes; then it passes every test that is correct abstractly. *)

From S2P Require Import Prelude GoStrconv GoJson GoJsonFacts Objects ObjectFacts NormalForms StoreSpec Backend.
From S2P Require Import MemoryStore FilesystemDisk Fixtures Suite.

Import Suite.

(** ** Objects *)

(** The object of a key after a history. *)
Definition applyAt (g : GVK) (k : ObjectKey) (acc : option Object) (c : change) : option Object :=
  if bool_decide (cGVK c = g) && bool_decide (ObjectKeyFromObject (evObject (cEvent c)) = k) then
    match evType (cEvent c) with
    | EventAdded | EventModified => Some (evObject (cEvent c))
    | EventDeleted => None
    | EventBookmark => acc
    end
  else acc.

Definition current (g : GVK) (k : ObjectKey) (H : list change) : option Object := foldl (applyAt g k) None H.

Lemma current_snoc g k H c : current g k (H ++ [c]) = applyAt g k (current g k H) c.
Proof. unfold current. by rewrite foldl_app. Qed.

(** The objects of a GVK, in some order. *)
Definition applyAlive (g : GVK) (l : list (ObjectKey * Object)) (c : change) : list (ObjectKey * Object) :=
  if bool_decide (cGVK c = g) then
    let o := evObject (cEvent c) in
    let k := ObjectKeyFromObject o in
    match evType (cEvent c) with
    | EventAdded | EventModified => List.filter (fun ko => negb (bool_decide (ko.1 = k))) l ++ [(k, o)]
    | EventDeleted => List.filter (fun ko => negb (bool_decide (ko.1 = k))) l
    | EventBookmark => l
    end
  else l.

Definition alive (g : GVK) (H : list change) : list (ObjectKey * Object) := foldl (applyAlive g) [] H.

(** Objects the suite uses: widgets and gadgets with simple names. *)
Definition widgetBody (b : list gval) : bool :=
  match b with [VStruct [VStr _; VInt n]; VStruct [VBool _; VStr _]] => in_int64 n | _ => false end.

Record testObject (o : Object) : Prop := {
  to_type : (oType o = testWidget /\ widgetBody (oBody o) = true) \/ (oType o = testGadget /\ oBody o = []);
  to_key : okKey (ObjectKeyFromObject o) = true;
  to_labels : mLabels (oMeta o) <> Some ∅;
  to_annotations : mAnnotations (oMeta o) = None;
  to_generation : in_int64 (GetGeneration o) = true;
}.

Definition kindOf (o : Object) : GVK := if bool_decide (tName (oType o) = "testWidget") then widgetGVK else gadgetGVK.

(** The caller's object differs from the stored one in spec, status and UID only. *)
Record twin (obj st : Object) : Prop := {
  tw_type : oType obj = testWidget;
  tw_kind : bTypeMeta (oBase obj) = bTypeMeta (oBase st);
  tw_labels : mLabels (oMeta obj) = mLabels (oMeta st);
  tw_generation : GetGeneration obj = GetGeneration st;
}.

Definition sameSpec (a b : Object) : bool := bool_decide (Color a = Color b) && (Size a =? Size b)%Z.
Definition sameStatus (a b : Object) : bool := Bool.eqb (Ready a) (Ready b) && bool_decide (Phase a = Phase b).

(** The spec of [a] with the status of [b], as a new version of [st]. *)
Definition combined (a b st : Object) (rv gen : Z) : Object :=
  mkObject (oType st)
    (mkBase (bTypeMeta (oBase st))
       (mkMeta (GetName st) (GetNamespace st) (GetUID st) (FormatInt rv) gen (mLabels (oMeta st)) (mAnnotations (oMeta st))))
    (option_list (oBody a !! 0) ++ option_list (oBody b !! 1)).

(** ** States *)

Record spec : Type := mkSpec {
  sHist : list change;
  sMax : Z;
  sWatch : list Mem.memoryWatcher;
}.

Definition nextRevision (r : spec) : Z := (Z.of_nat (length (sHist r)) + 1)%Z.

Definition deliver (g : GVK) (ev : Event) (w : Mem.memoryWatcher) : Mem.memoryWatcher :=
  if bool_decide (Mem.wGVK w = g) then default w (Mem.send w ev) else w.

(** A change: the history grows, the watchers of the GVK get the event. *)
Definition commit (g : GVK) (ev : Event) (r : spec) : spec :=
  mkSpec (sHist r ++ [mkChange (nextRevision r) g ev]) (sMax r) (map (deliver g ev) (sWatch r)).

Definition createdAs (uid : string) (obj : Object) (rv : Z) : Object :=
  SetResourceVersion (FormatInt rv) (SetGeneration 1 (SetUID uid obj)).

(** How many changes the log has dropped. *)
Definition dropped (r : spec) : Z := Z.max 0 (Z.of_nat (length (sHist r)) - sMax r).

Definition setWatcher (p : nat) (w : Mem.memoryWatcher) (r : spec) : spec :=
  mkSpec (sHist r) (sMax r) (<[p := w]> (sWatch r)).

Definition openWatcher (g : GVK) (replay : list Event) (r : spec) : spec :=
  mkSpec (sHist r) (sMax r)
    (sWatch r ++ [Mem.mkWatcher g (Chan replay (if bool_decide (100 < length replay) then length replay + 100 else 100) false) false]).

(** ** Calls *)

Definition callOk (c : call) (r : spec) : Prop :=
  (Z.of_nat (length (sHist r)) < 1000000)%Z /\
  match c with
  | CGet key obj => obj = zeroObject testWidget /\ okKey key = true
  | CList lst _ => lst = testWidgetList
  | CCreate obj => testObject obj /\ GetUID obj = ""
  | CUpdate obj | CUpdateStatus obj =>
      testObject obj /\
      forall st, current (kindOf obj) (ObjectKeyFromObject obj) (sHist r) = Some st ->
        GetResourceVersion obj = GetResourceVersion st -> twin obj st
  | CDelete obj => testObject obj
  | CWatch lst opts => lst = testWidgetList /\ from_option in_int64 true (fromRevisionOpt opts) = true
  | CReceive p | CStop p => p < length (sWatch r)
  end.

Definition specPost (c : call) (r : spec) : (answer c -> spec -> Prop) -> Prop :=
  match c with
  | CGet key obj => fun Q =>
      match current widgetGVK key (sHist r) with
      | Some st => Q (st, Ret tt) r
      | None => Q (obj, Fail (NotFoundError (keyString key))) r
      end
  | CList lst opts => fun Q =>
      forall items,
        items ≡ₚ (List.filter (fun ko => listed (applyOptions opts) ko.1 ko.2) (alive widgetGVK (sHist r))).*2 ->
        Q (mkList (lName lst) (lItemsField lst) (FormatInt (Z.of_nat (length (sHist r)))) items, Ret tt) r
  | CCreate obj => fun Q =>
      let key := ObjectKeyFromObject obj in
      match current (kindOf obj) key (sHist r) with
      | Some _ => Q (obj, Fail (AlreadyExistsError (keyString key))) r
      | None =>
          forall uid, uid <> "" ->
            let o := createdAs uid obj (nextRevision r) in
            Q (o, Ret tt) (commit (kindOf obj) (mkEvent EventAdded o) r)
      end
  | CUpdate obj => fun Q =>
      let key := ObjectKeyFromObject obj in
      match current (kindOf obj) key (sHist r) with
      | None => Q (obj, Fail (NotFoundError (keyString key))) r
      | Some st =>
          if bool_decide (GetResourceVersion obj <> GetResourceVersion st)
          then Q (obj, Fail (ConflictError (keyString key))) r
          else if sameSpec obj st then Q (st, Ret tt) r
          else let new := combined obj st st (nextRevision r) (wrap64 (GetGeneration st + 1)) in
               Q (new, Ret tt) (commit (kindOf obj) (mkEvent EventModified new) r)
      end
  | CUpdateStatus obj => fun Q =>
      let key := ObjectKeyFromObject obj in
      match current (kindOf obj) key (sHist r) with
      | None => Q (obj, Fail (NotFoundError (keyString key))) r
      | Some st =>
          if bool_decide (GetResourceVersion obj <> GetResourceVersion st)
          then Q (obj, Fail (ConflictError (keyString key))) r
          else if sameStatus obj st then Q (st, Ret tt) r
          else let new := combined st obj st (nextRevision r) (GetGeneration st) in
               Q (new, Ret tt) (commit (kindOf obj) (mkEvent EventModified new) r)
      end
  | CDelete obj => fun Q =>
      let key := ObjectKeyFromObject obj in
      match current (kindOf obj) key (sHist r) with
      | None => Q (Fail (NotFoundError (keyString key))) r
      | Some st =>
          if bool_decide (GetResourceVersion obj <> "") && bool_decide (GetResourceVersion obj <> GetResourceVersion st)
          then Q (Fail (ConflictError (keyString key))) r
          else Q (Ret tt) (commit (kindOf obj) (mkEvent EventDeleted (SetResourceVersion (FormatInt (nextRevision r)) st)) r)
      end
  | CWatch lst opts => fun Q =>
      match fromRevisionOpt opts with
      | Some from =>
          if (from <? dropped r)%Z then Q (Fail (RevisionTooOldError from (dropped r + 1))) r
          else Q (Ret (length (sWatch r))) (openWatcher widgetGVK (replayOf opts widgetGVK (sHist r)) r)
      | None => Q (Ret (length (sWatch r))) (openWatcher widgetGVK [] r)
      end
  | CReceive p => fun Q =>
      match sWatch r !! p with
      | None => False
      | Some w =>
          match recv (Mem.wCh w) with
          | Received e c => Q (Got e) (setWatcher p (Mem.mkWatcher (Mem.wGVK w) c (Mem.wClosed w)) r)
          | RecvClosed => Q ChanClosed r
          | WouldBlock => Q Nothing r
          end
      end
  | CStop p => fun Q =>
      match sWatch r !! p with
      | None => False
      | Some w => Q tt (setWatcher p (default w (Mem.closeWatcher w)) r)
      end
  end.

(** ** Programs *)

Fixpoint wp {A} (t : Test A) (Q : A -> spec -> Prop) (r : spec) : Prop :=
  match t with
  | TRet a => Q a r
  | TFatal | TError _ => False
  | TCall c k => callOk c r /\ specPost c r (fun a r => wp (k a) Q r)
  | TBlock w k =>
      callOk (CReceive w) r /\
      specPost (CReceive w) r (fun a r => match a with Nothing => False | _ => wp (k a) Q r end)
  | TJoin _ _ => False
  end.

Lemma specPost_mono c r (Q Q' : answer c -> spec -> Prop) :
  (forall a r, Q a r -> Q' a r) -> specPost c r Q -> specPost c r Q'.
Proof. intros H. destruct c; simpl; repeat case_match; auto. Qed.

Lemma wp_mono {A} (t : Test A) (Q Q' : A -> spec -> Prop) r :
  (forall a r, Q a r -> Q' a r) -> wp t Q r -> wp t Q' r.
Proof.
  intros H. revert r. induction t as [a| |k IH|c k IH|w k IH|js k IH]; simpl; intros r; [apply H|done|done| | |done].
  - intros [Hc Hp]. split; [done|]. eapply specPost_mono; [|exact Hp]. intros a r'. apply IH.
  - intros [Hc Hp]. split; [done|]. destruct (sWatch r !! w) as [x|]; [|done].
    destruct (recv (Mem.wCh x)); [by apply IH|by apply IH|done].
Qed.

Lemma wp_bind {A B} (t : Test A) (f : A -> Test B) Q r :
  wp t (fun a r => wp (f a) Q r) r -> wp (tbind t f) Q r.
Proof.
  revert r. induction t as [a| |k IH|c k IH|w k IH|js k IH]; simpl; intros r; [done|done|done| | |done].
  - intros [Hc Hp]. split; [done|]. eapply specPost_mono; [|exact Hp]. intros a r'. apply IH.
  - intros [Hc Hp]. split; [done|]. destruct (sWatch r !! w) as [x|]; [|done].
    destruct (recv (Mem.wCh x)); [by apply IH|by apply IH|done].
Qed.

(** ** Refinement *)

Class Refines (S : Type) `{TestedStore S} (sim : spec -> S -> Prop) : Prop :=
  refines : forall c r s Q, sim r s -> callOk c r -> specPost c r Q ->
    exists s' a r', exec c s = Some (s', a) /\ Q a r' /\ sim r' s'.

(** A test that is correct abstractly passes on every backend. *)
Lemma wp_passed {S} `{TestedStore S} (sim : spec -> S -> Prop) `{!Refines S sim} {A} (t : Test A) Q r s :
  sim r s -> wp t Q r -> passed t s = true.
Proof.
  revert r s. induction t as [a| |k IH|c k IH|w k IH|js k IH]; simpl; intros r s Hs Hw; try done.
  - destruct Hw as [Hc Hp]. destruct (refines c r s _ Hs Hc Hp) as (s' & a & r' & -> & Hw & Hs'). by eapply IH.
  - destruct Hw as [Hc Hp].
    destruct (refines (CReceive w) r s (fun a r => match a with Nothing => False | _ => wp (k a) Q r end) Hs Hc Hp)
      as (s' & a & r' & -> & Hw & Hs'). destruct a; [by eapply IH..|done].
Qed.
