(* ===== verification/StoretestProofs.v ===== *)
(** * The conformance suite is correct for the contract

    Every sequential test of the suite succeeds in the reference semantics, on a
    fresh store. Most tests are closed programs over a handful of calls and are
    run symbolically: only the UIDs and the order of listings are left open. *)

From S2P Require Import Prelude GoStrconv GoJson GoJsonFacts Objects ObjectFacts NormalForms StoreSpec Backend.
From S2P Require Import MemoryStore FilesystemDisk Fixtures Suite Storetest SuiteSpec.

Import Suite Storetest.

Definition fresh (size : Z) : spec := mkSpec [] size [].

Definition correct (size : Z) (t : Test unit) : Prop := wp t (fun _ _ => True) (fresh size).

(** One obligation of a run: a condition on a call. *)
Ltac call_condition :=
  lazymatch goal with
  | |- testObject _ => split; [first [by left | by right]|reflexivity|discriminate|reflexivity|reflexivity]
  | |- twin _ _ => split; reflexivity
  | |- forall st, Some _ = Some st -> _ => intros ? [= <-] E; first [discriminate E | split; reflexivity]
  | |- forall st, None = Some st -> _ => intros ? [=]
  | |- _ = _ => reflexivity
  | |- True => exact I
  | |- _ /\ _ => split
  | |- forall u : string, (u = "" -> False) -> _ => intros ? ?
  | |- (_ <= _)%nat => lia
  | |- (_ < _)%Z => reflexivity
  | |- callOk _ _ => unfold callOk
  end.

Ltac run_test := unfold correct; vm_compute; repeat call_condition.

Lemma create_duplicate_ok : correct 1000 create_duplicate.
Proof. run_test. Qed.
Lemma get_by_key_ok : correct 1000 get_by_key.
Proof. run_test. Qed.
Lemma get_missing_ok : correct 1000 get_missing.
Proof. run_test. Qed.
Lemma update_bumps_ResourceVersion_ok : correct 1000 update_bumps_ResourceVersion.
Proof. run_test. Qed.
Lemma update_stale_ok : correct 1000 update_stale.
Proof. run_test. Qed.
Lemma update_missing_ok : correct 1000 update_missing.
Proof. run_test. Qed.
Lemma delete_removes_object_ok : correct 1000 delete_removes_object.
Proof. run_test. Qed.
Lemma delete_missing_ok : correct 1000 delete_missing.
Proof. run_test. Qed.
Lemma watch_streams_events_ok : correct 1000 watch_streams_events.
Proof. run_test. Qed.
Lemma watch_replays_ok : correct 1000 watch_replays.
Proof. run_test. Qed.
Lemma watch_no_gap_ok : correct 1000 watch_no_gap.
Proof. run_test. Qed.
Lemma replay_mixed_event_types_ok : correct 1000 replay_mixed_event_types.
Proof. run_test. Qed.
Lemma replay_filters_by_GVK_ok : correct 1000 replay_filters_by_GVK.
Proof. run_test. Qed.
Lemma status_writes_status_only_ok : correct 1000 status_writes_status_only.
Proof. run_test. Qed.
Lemma status_preserves_spec_ok : correct 1000 status_preserves_spec.
Proof. run_test. Qed.
Lemma status_bumps_ResourceVersion_ok : correct 1000 status_bumps_ResourceVersion.
Proof. run_test. Qed.
Lemma status_stale_ok : correct 1000 status_stale.
Proof. run_test. Qed.
Lemma status_missing_ok : correct 1000 status_missing.
Proof. run_test. Qed.
Lemma status_noop_suppresses_event_ok : correct 1000 status_noop_suppresses_event.
Proof. run_test. Qed.
Lemma generation_create_sets_1_ok : correct 1000 generation_create_sets_1.
Proof. run_test. Qed.
Lemma generation_spec_change_increments_ok : correct 1000 generation_spec_change_increments.
Proof. run_test. Qed.
Lemma generation_status_update_unchanged_ok : correct 1000 generation_status_update_unchanged.
Proof. run_test. Qed.
Lemma generation_noop_update_unchanged_ok : correct 1000 generation_noop_update_unchanged.
Proof. run_test. Qed.
Lemma split_update_preserves_status_ok : correct 1000 split_update_preserves_status.
Proof. run_test. Qed.
Lemma split_update_ignores_input_status_ok : correct 1000 split_update_ignores_input_status.
Proof. run_test. Qed.
Lemma split_update_status_preserves_spec_ok : correct 1000 split_update_status_preserves_spec.
Proof. run_test. Qed.
Lemma split_deep_copy_isolation_ok : correct 1000 split_deep_copy_isolation.
Proof. run_test. Qed.
Lemma split_delete_without_resource_version_ok : correct 1000 split_delete_without_resource_version.
Proof. run_test. Qed.
Lemma split_delete_with_resource_version_ok : correct 1000 split_delete_with_resource_version.
Proof. run_test. Qed.
Lemma revision_monotonicity_in_watch_ok : correct 1000 revision_monotonicity_in_watch.
Proof. run_test. Qed.
Lemma noop_update_suppresses_event_ok : correct 1000 noop_update_suppresses_event.
Proof. run_test. Qed.
Lemma watch_resumption_no_gap_ok : correct 1000 watch_resumption_no_gap.
Proof. run_test. Qed.
Lemma revision_too_old_ok : correct 5 revision_too_old.
Proof. run_test. Qed.

(** ** Tests about UIDs and listings *)

Lemma create_sets_UID_and_ResourceVersion_ok : correct 1000 create_sets_UID_and_ResourceVersion.
Proof.
  unfold correct, create_sets_UID_and_ResourceVersion. cbn. split; [by repeat call_condition|].
  intros uid Hu. change (GetUID _) with uid. rewrite bool_decide_false by done. exact I.
Qed.

(** A listing at the end of a test that only looks at the number of items. *)
Lemma list_count opts n r :
  (Z.of_nat (length (sHist r)) < 1000000)%Z ->
  length (List.filter (fun ko => listed (applyOptions opts) ko.1 ko.2) (alive widgetGVK (sHist r))) = n ->
  wp (let* lst := mustList opts in errorIf (bool_decide (length (lItems lst) <> n))) (fun _ _ => True) r.
Proof.
  intros Hr <-. simpl. split; [done|]. intros items Hp. simpl.
  apply Permutation_length in Hp. rewrite length_fmap in Hp. rewrite bool_decide_false; [done|tauto].
Qed.

(** What [list_count] needs of a state, for symbolic runs. *)
Definition lists (opts : list ListOption) (n : nat) (r : spec) : Prop :=
  (Z.of_nat (length (sHist r)) < 1000000)%Z /\
  length (List.filter (fun ko => listed (applyOptions opts) ko.1 ko.2) (alive widgetGVK (sHist r))) = n.

Lemma then_list {A} (t : Test A) opts n r :
  wp t (fun _ r => lists opts n r) r ->
  wp (t ;* (let* lst := mustList opts in errorIf (bool_decide (length (lItems lst) <> n)))) (fun _ _ => True) r.
Proof. intros H. apply wp_bind. eapply wp_mono; [|exact H]. intros _ r' [H1 H2]. by apply list_count. Qed.

Lemma list_all_objects_ok : correct 1000 list_all_objects.
Proof. apply then_list. run_test. Qed.

Lemma list_empty_store_ok : correct 1000 list_empty_store.
Proof. by apply list_count. Qed.

Lemma list_by_namespace_ok : correct 1000 list_by_namespace.
Proof.
  apply (then_list (let* w1 := must (Create (setNamespace "ns-a" (newTestWidget "w1" "blue" 1))) in
                    must (Create (setNamespace "ns-b" (newTestWidget "w2" "red" 2))))). run_test.
Qed.

Lemma list_sets_ResourceVersion_ok : correct 1000 list_sets_ResourceVersion.
Proof.
  unfold correct, list_sets_ResourceVersion. cbn. split; [done|]. intros items _.
  split; [by repeat call_condition|]. intros uid _. split; [done|]. by intros items' _.
Qed.

Lemma resourceversion_is_numeric_ok : correct 1000 resourceversion_is_numeric.
Proof.
  unfold correct, resourceversion_is_numeric. cbn. split; [by repeat call_condition|].
  intros uid _. split; [done|]. by intros items' _.
Qed.

Lemma forEach_Forall {A} (l : list A) body r :
  Forall (fun x => wp (body x) (fun _ r' => r' = r) r) l -> wp (forEach l body) (fun _ _ => True) r.
Proof.
  induction 1 as [|x l Hx _ IH]; [exact I|]. simpl. apply wp_bind. eapply wp_mono; [|exact Hx]. by intros _ ? ->.
Qed.

Lemma list_returns_consistent_snapshot_ok : correct 1000 list_returns_consistent_snapshot.
Proof.
  apply wp_bind. eapply (wp_mono _ (fun _ r => length (sHist r) = 5 /\
    map (fun ko => ParseInt (GetResourceVersion ko.2)) (alive widgetGVK (sHist r)) =
    map (fun z => (z, None)) [1; 2; 3; 4; 5]%Z)); [|run_test].
  intros _ r [H5 Hrv]. cbn -[ParseInt FormatInt forEach]. split; [unfold callOk; by rewrite H5|].
  rewrite H5. intros items Hp.
  change (ParseInt (FormatInt _)) with (5%Z, @None numError). cbv iota. apply forEach_Forall.
  rewrite filter_all in Hp by (apply Forall_true; intros x; reflexivity).
  apply Forall_forall. intros item Hitem. rewrite Hp in Hitem. apply list_elem_of_fmap in Hitem as ([k o] & -> & Hin). simpl.
  assert (ParseInt (GetResourceVersion o) ∈ map (fun z => (z, None)) [1; 2; 3; 4; 5]%Z) as Hz.
  { rewrite <- Hrv. by apply (list_elem_of_fmap_2 (fun ko => ParseInt (GetResourceVersion ko.2)) _ (k, o)). }
  apply list_elem_of_In, in_map_iff in Hz as (z & <- & Hz%list_elem_of_In). cbv iota.
  repeat (apply elem_of_cons in Hz as [->|Hz]; [done|]). by apply elem_of_nil in Hz.
Qed.

Section labels.
Context (labelsParse : string -> result labelsSelector).

(** The selector of "color=blue". *)
Definition colorBlue : labelsSelector := mkLabelsSelector (fun m => bool_decide (m !! "color" = Some "blue")) false.

Hypothesis Hparse : labelsParse "color=blue" = Ret colorBlue.

Lemma list_by_label_selector_ok : correct 1000 (list_by_label_selector labelsParse).
Proof using Hparse.
  unfold correct, list_by_label_selector. rewrite Hparse.
  apply (then_list (let* w1 := must (Create (setLabels {["color" := "blue"]} (newTestWidget "w1" "blue" 1))) in
                    must (Create (setLabels {["color" := "red"]} (newTestWidget "w2" "red" 2))))). run_test.
Qed.

Lemma label_selector_replay_ok : correct 1000 (label_selector_replay labelsParse).
Proof using Hparse. unfold correct, label_selector_replay. rewrite Hparse. run_test. Qed.
End labels.

Lemma overflow_closes_watch_ok : correct 1000 overflow_closes_watch.
Proof. run_test. Qed.

(** ** All of them *)

Create HintDb suite.
#[export] Hint Resolve
  create_duplicate_ok get_by_key_ok get_missing_ok update_bumps_ResourceVersion_ok update_stale_ok
  update_missing_ok delete_removes_object_ok delete_missing_ok watch_streams_events_ok watch_replays_ok
  watch_no_gap_ok replay_mixed_event_types_ok replay_filters_by_GVK_ok status_writes_status_only_ok
  status_preserves_spec_ok status_bumps_ResourceVersion_ok status_stale_ok status_missing_ok
  status_noop_suppresses_event_ok generation_create_sets_1_ok generation_spec_change_increments_ok
  generation_status_update_unchanged_ok generation_noop_update_unchanged_ok split_update_preserves_status_ok
  split_update_ignores_input_status_ok split_update_status_preserves_spec_ok split_deep_copy_isolation_ok
  split_delete_without_resource_version_ok split_delete_with_resource_version_ok
  revision_monotonicity_in_watch_ok noop_update_suppresses_event_ok watch_resumption_no_gap_ok
  create_sets_UID_and_ResourceVersion_ok list_all_objects_ok list_empty_store_ok list_by_namespace_ok
  list_sets_ResourceVersion_ok resourceversion_is_numeric_ok list_returns_consistent_snapshot_ok
  list_by_label_selector_ok label_selector_replay_ok overflow_closes_watch_ok : suite.

Lemma correct_skip size (skip : bool) l : Forall (correct size) l -> Forall (correct size) (if skip then [] else l).
Proof. by destruct skip. Qed.

(** The sequential tests of the suite, whatever the configuration skips. *)
Lemma sequential_correct labelsParse {S} (cfg : Config S) :
  labelsParse "color=blue" = Ret colorBlue -> Forall (correct 1000) (sequential labelsParse cfg).
Proof.
  intros Hp. unfold sequential, testCreate, testGet, testUpdate, testDelete, testList, testWatch, testUpdateStatus,
    testGeneration, testSpecStatusSplit, testInvariants.
  repeat first [apply Forall_app_2|apply correct_skip|apply Forall_cons_2|apply Forall_nil_2]; auto with suite.
Qed.
