(* ===== verification/SuiteObjects.v ===== *)
(** * The suite's objects

    Widgets and gadgets are well formed, registered and survive an encoding; what
    merging and copying does to widgets that agree on their identity; the
    objects and the listing of a history. *)

From S2P Require Import Prelude GoStrconv GoJson GoJsonFacts Objects ObjectFacts SpecStatus NormalForms StoreSpec Backend.
From S2P Require Import MemoryStore MemoryStoreFacts FilesystemDisk FilesystemFacts Fixtures Suite SuiteSpec.

Import Suite.

(** ** Shape *)

(** A widget, by its parts. *)
Definition widgetOf (tm : TypeMeta) (m : ObjectMeta) (color : string) (size : Z) (ready : bool) (phase : string) : Object :=
  mkObject testWidget (mkBase tm m) [VStruct [VStr color; VInt size]; VStruct [VBool ready; VStr phase]].

Lemma widget_parts o :
  oType o = testWidget -> widgetBody (oBody o) = true ->
  o = widgetOf (bTypeMeta (oBase o)) (oMeta o) (Color o) (Size o) (Ready o) (Phase o) /\ in_int64 (Size o) = true.
Proof.
  destruct o as [t [tm m] b]. simpl. intros -> Hb. unfold widgetBody in Hb.
  by repeat (case_match; try done).
Qed.

Lemma wf_widget o :
  oType o = testWidget -> widgetBody (oBody o) = true -> in_int64 (GetGeneration o) = true -> wfObject o = true.
Proof.
  intros Ht Hb Hg. destruct (widget_parts o Ht Hb) as [E Hs]. apply wfObject_spec. rewrite Ht.
  split_and!; [by apply (bool_decide_unpack _)|by repeat constructor|done|].
  rewrite E. unfold widgetOf. simpl. repeat constructor. unfold fty. simpl. by rewrite Hs.
Qed.

Lemma testObject_wf o : testObject o -> wfObject o = true.
Proof.
  intros [[[Ht Hb]|[Ht Hb]] _ _ _ Hg]; [by apply wf_widget|].
  apply wfObject_spec. rewrite Ht, Hb. split_and!; [by apply (bool_decide_unpack _)|constructor|done|constructor].
Qed.

Lemma testObject_kind o : testObject o -> gvkForObject testScheme o = Ret (kindOf o).
Proof. intros [[[Ht _]|[Ht _]] _ _ _ _]; unfold gvkForObject, kindOf; by rewrite Ht. Qed.

Lemma testObject_ok o : testObject o -> okObject testScheme o.
Proof.
  intros Ho. split; [by apply testObject_wf|]. intros g. rewrite (testObject_kind o Ho). intros [= <-].
  destruct Ho as [[[Ht _]|[Ht _]] _ _ _ _]; unfold kindOf; by rewrite Ht.
Qed.

Lemma kindOf_type a b : testObject a -> testObject b -> kindOf a = kindOf b -> oType a = oType b.
Proof.
  intros [[[Ha _]|[Ha _]] _ _ _ _] [[[Hb _]|[Hb _]] _ _ _ _]; unfold kindOf; by rewrite Ha, Hb.
Qed.

Lemma testObject_normal o : testObject o -> normalObject o.
Proof.
  intros Ho. apply normalObject_spec; [by apply testObject_wf|].
  destruct Ho as [Hty _ Hl Ha _]. rewrite Ha. split_and!; [done|done|].
  destruct Hty as [[Ht Hb]|[Ht Hb]]; [|rewrite Ht, Hb; constructor].
  destruct (widget_parts o Ht Hb) as [E _]. rewrite E. unfold widgetOf. simpl. by repeat constructor.
Qed.

Lemma testObject_fs o : testObject o -> fsObject o.
Proof. intros Ho. split; [apply Ho|by apply testObject_normal]. Qed.

(** ** Widgets by their fields *)

Section widget.
Context (o : Object).
Hypothesis Ht : oType o = testWidget.
Hypothesis Hb : widgetBody (oBody o) = true.
Hypothesis Hg : in_int64 (GetGeneration o) = true.

Lemma rawField_spec :
  rawField "spec" o = Some (marshal testWidgetSpec (VStruct [VStr (Color o); VInt (Size o)])).
Proof using All.
  apply option_list_inj. destruct (widget_parts o Ht Hb) as [E _].
  apply (rawField_at o (wf_widget o Ht Hb Hg) 3 (("spec", false), testWidgetSpec)); [by rewrite Ht|by rewrite E].
Qed.

Lemma rawField_status :
  rawField "status" o = Some (marshal testWidgetStatus (VStruct [VBool (Ready o); VStr (Phase o)])).
Proof using All.
  apply option_list_inj. destruct (widget_parts o Ht Hb) as [E _].
  apply (rawField_at o (wf_widget o Ht Hb Hg) 4 (("status", false), testWidgetStatus)); [by rewrite Ht|by rewrite E].
Qed.
End widget.

Lemma sameSpec_iff a b : sameSpec a b = true <-> Color a = Color b /\ Size a = Size b.
Proof. unfold sameSpec. rewrite andb_true_iff, bool_decide_eq_true, Z.eqb_eq. done. Qed.
Lemma sameStatus_iff a b : sameStatus a b = true <-> Ready a = Ready b /\ Phase a = Phase b.
Proof. unfold sameStatus. rewrite andb_true_iff, bool_decide_eq_true, Bool.eqb_true_iff. done. Qed.

Definition isWidget (o : Object) : Prop :=
  oType o = testWidget /\ widgetBody (oBody o) = true /\ in_int64 (GetGeneration o) = true.

Lemma testObject_widget o : testObject o -> oType o = testWidget -> isWidget o.
Proof. by intros [[[Ht Hb]|[Ht Hb]] _ _ _ Hg] E; [|rewrite E in Ht]. Qed.

Lemma same_rawField_spec a b : isWidget a -> isWidget b -> rawField "spec" a = rawField "spec" b <-> sameSpec a b = true.
Proof.
  intros (?&?&?) (?&?&?). rewrite !rawField_spec, sameSpec_iff by done.
  split; [by intros [= -> ->]|by intros [-> ->]].
Qed.

Lemma same_rawField_status a b :
  isWidget a -> isWidget b -> rawField "status" a = rawField "status" b <-> sameStatus a b = true.
Proof.
  intros (?&?&?) (?&?&?). rewrite !rawField_status, sameStatus_iff by done.
  split; [by intros [= -> ->]|by intros [-> ->]].
Qed.

(** ** Merging and copying widgets *)

Lemma wf_isWidget o : isWidget o -> wfObject o = true.
Proof. intros (?&?&?). by apply wf_widget. Qed.

Lemma widget_ext a b :
  isWidget a -> isWidget b -> oBase a = oBase b -> sameSpec a b = true -> sameStatus a b = true -> a = b.
Proof.
  intros (Ha & Ha' & _) (Hb & Hb' & _) Em [Hc Hs]%sameSpec_iff [Hr Hp]%sameStatus_iff.
  destruct (widget_parts a Ha Ha') as [-> _], (widget_parts b Hb Hb') as [-> _].
  unfold oMeta. by rewrite Em, Hc, Hs, Hr, Hp.
Qed.

Lemma widget_body a b : isWidget a -> isWidget b ->
  option_list (oBody a !! 0) ++ option_list (oBody b !! 1) =
  [VStruct [VStr (Color a); VInt (Size a)]; VStruct [VBool (Ready b); VStr (Phase b)]].
Proof.
  intros (Ha & Ha' & _) (Hb & Hb' & _).
  destruct (widget_parts a Ha Ha') as [-> _], (widget_parts b Hb Hb') as [-> _]. done.
Qed.

(** The body a decoding from a spec and a status member gives. *)
Lemma widget_decoded g d a b us :
  isWidget d -> isWidget a -> isWidget b ->
  bodyDecoded g (oType d) (oBody d) us ->
  g "spec" = option_list (rawField "spec" a) -> g "status" = option_list (rawField "status" b) ->
  us = option_list (oBody a !! 0) ++ option_list (oBody b !! 1).
Proof.
  intros Hd Ha Hb HB Hs Ht. rewrite (widget_body a b Ha Hb).
  pose proof (Forall3_length_lr _ _ _ _ HB) as Hl. rewrite (proj1 Hd) in Hl.
  assert (us !! 0 = Some (VStruct [VStr (Color a); VInt (Size a)])) as E0.
  { eapply (bodyDecoded_value g d us a 0 (("spec", false), testWidgetSpec)); try done;
      [by apply wf_isWidget..|by rewrite (proj1 Ha), (proj1 Hd)|right; by rewrite (proj1 Hd)|by rewrite (proj1 Hd)|].
    destruct Ha as (Ha & Ha' & _). by destruct (widget_parts a Ha Ha') as [-> _]. }
  assert (us !! 1 = Some (VStruct [VBool (Ready b); VStr (Phase b)])) as E1.
  { eapply (bodyDecoded_value g d us b 1 (("status", false), testWidgetStatus)); try done;
      [by apply wf_isWidget..|by rewrite (proj1 Hb), (proj1 Hd)|right; by rewrite (proj1 Hd)|by rewrite (proj1 Hd)|].
    destruct Hb as (Hb & Hb' & _). by destruct (widget_parts b Hb Hb') as [-> _]. }
  destruct us as [|u0 [|u1 [|]]]; try done. simpl in E0, E1. congruence.
Qed.

Lemma unmarshal_merged_widget base other dst :
  isWidget base -> isWidget other -> isWidget dst ->
  UnmarshalObject (mapJson (mergeStatus base other)) dst =
  Some (mkObject testWidget
    (mkBase (overTypeMeta (bTypeMeta (oBase base)) (bTypeMeta (oBase dst))) (overMeta (oMeta base) (oMeta dst)))
    (option_list (oBody base !! 0) ++ option_list (oBody other !! 1))).
Proof.
  intros Hb Ho Hd.
  destruct (unmarshal_mergeStatus_eq base other dst) as (us & Hus & ->);
    [by apply wf_isWidget..|by rewrite (proj1 Hb), (proj1 Hd)|by rewrite (proj1 Ho), (proj1 Hd)|].
  rewrite (proj1 Hd). do 2 f_equal. eapply (widget_decoded _ dst); [done..|exact Hus| |].
  - simpl. by rewrite mergeStatus_lookup.
  - simpl. by rewrite mergeStatus_lookup.
Qed.

Lemma overStr_ne a b : a <> "" -> overStr a b = a.
Proof. intros H. unfold overStr. by rewrite bool_decide_false. Qed.

(** An object of the store that callers get their copies of. *)
Record stored (o : Object) : Prop := {
  st_object : testObject o;
  st_uid : GetUID o <> "";
  st_rv : GetResourceVersion o <> "";
  st_generation : GetGeneration o <> 0%Z;
}.

(** Copying a stored object over one with its identity gives the object. *)
Lemma copy_over src dst :
  stored src -> testObject dst -> oType src = testWidget -> oType dst = testWidget ->
  bTypeMeta (oBase dst) = bTypeMeta (oBase src) \/ bTypeMeta (oBase dst) = mkTypeMeta "" "" ->
  ObjectKeyFromObject dst = ObjectKeyFromObject src \/ ObjectKeyFromObject dst = mkKey "" "" ->
  mLabels (oMeta dst) = mLabels (oMeta src) \/ mLabels (oMeta dst) = None ->
  copyObject src dst = (src, Ret tt).
Proof.
  intros [Hs Hu Hr Hg] Hd Ts Td Htm Hk Hl. pose proof (testObject_widget _ Hs Ts) as Ws.
  pose proof (testObject_widget _ Hd Td) as Wd. unfold copyObject.
  destruct (UnmarshalObject_copy src dst) as (us & -> & Hus); [by apply wf_isWidget..|by rewrite Ts, Td|].
  pose proof (widget_decoded _ dst src src us Wd Ws Ws Hus eq_refl eq_refl) as ->. f_equal.
  destruct (widget_parts src Ts (proj1 (proj2 Ws))) as [E _].
  rewrite Td. transitivity (mkObject testWidget (oBase src) (oBody src)); [|by destruct src; simpl in Ts; subst].
  f_equal; [|by rewrite E].
  assert (overTypeMeta (bTypeMeta (oBase src)) (bTypeMeta (oBase dst)) = bTypeMeta (oBase src)) as ->.
  { destruct Htm as [->| ->]; [apply overTypeMeta_self|]. unfold overTypeMeta, overStr. simpl.
    destruct (bTypeMeta (oBase src)); simpl. repeat case_bool_decide; by subst. }
  assert (overMeta (oMeta src) (oMeta dst) = oMeta src) as ->; [|by destruct src as [? [] ?]].
  unfold overMeta. unfold GetUID, GetResourceVersion, GetGeneration in *.
  rewrite !(overStr_ne _ _ Hu), !(overStr_ne _ _ Hr). unfold overInt. rewrite (proj2 (Z.eqb_neq _ _) Hg).
  assert (overStr (mName (oMeta src)) (mName (oMeta dst)) = mName (oMeta src) /\
          overStr (mNamespace (oMeta src)) (mNamespace (oMeta dst)) = mNamespace (oMeta src)) as [-> ->].
  { unfold ObjectKeyFromObject, GetName, GetNamespace in Hk. unfold overStr.
    destruct Hk as [[= -> ->]|[= -> ->]]; split; by case_bool_decide. }
  assert (overMap (mLabels (oMeta src)) (mLabels (oMeta dst)) = mLabels (oMeta src)) as ->.
  { destruct Hl as [->| ->]; [apply overMap_self|]. unfold overMap. pose proof (to_labels _ Hs).
    case_bool_decide as E'; [destruct (mLabels (oMeta src)) as [m|]; [|done]; simpl in E'; by subst|].
    destruct (mLabels (oMeta src)) as [m|]; [|done]. simpl. by rewrite (right_id_L ∅ (∪)). }
  rewrite (to_annotations _ Hs), (to_annotations _ Hd), overMap_self. rewrite <- (to_annotations _ Hs).
  by destruct (oMeta src).
Qed.

(** ** Updates of twins *)

Lemma oMeta_mk t tm m b : oMeta (mkObject t (mkBase tm m) b) = m.
Proof. done. Qed.

Section twins.
Context (obj st : Object).
Hypothesis Ho : testObject obj.
Hypothesis Hs : stored st.
Hypothesis Tst : oType st = testWidget.
Hypothesis Hk : ObjectKeyFromObject st = ObjectKeyFromObject obj.
Hypothesis Hrv : GetResourceVersion obj = GetResourceVersion st.
Hypothesis Htw : twin obj st.

Lemma twin_widgets : isWidget obj /\ isWidget st.
Proof using All. split; apply testObject_widget; [done|apply Htw|apply Hs|done]. Qed.

Lemma twin_annotations : mAnnotations (oMeta obj) = mAnnotations (oMeta st).
Proof using All. by rewrite (to_annotations _ Ho), (to_annotations _ (st_object _ Hs)). Qed.

Lemma twin_names : mName (oMeta st) = mName (oMeta obj) /\ mNamespace (oMeta st) = mNamespace (oMeta obj).
Proof using All. unfold ObjectKeyFromObject, GetName, GetNamespace in Hk. by injection Hk. Qed.

(** What an update without effect merges to. *)
Lemma merged_same m : mergedStored obj st obj st = Some m -> sameSpec obj st = true -> m = st.
Proof using All.
  destruct twin_widgets as [Wo Ws]. intros Em [Hc Hz]%sameSpec_iff. unfold mergedStored in Em.
  rewrite unmarshal_merged_widget in Em by done. injection Em as <-.
  destruct (widget_parts st Tst (proj1 (proj2 Ws))) as [E _]. rewrite (widget_body obj st Wo Ws), Hc, Hz.
  destruct Htw as [_ Etm El Eg], twin_names as [En Ens]. rewrite overMeta_self, overTypeMeta_self, Etm.
  etransitivity; [|symmetry; exact E]. unfold widgetOf, SetUID, SetResourceVersion, withMeta. simpl. do 2 f_equal.
  unfold GetGeneration in Eg. rewrite !oMeta_mk, <- En, <- Ens, El, Eg, twin_annotations.
  unfold GetUID, GetResourceVersion, GetGeneration. by destruct (oMeta st).
Qed.

Lemma status_merged_same m :
  mergedStored st obj obj st = Some m -> sameStatus obj st = true -> SetGeneration (GetGeneration st) m = st.
Proof using All.
  destruct twin_widgets as [Wo Ws]. intros Em [Hc Hz]%sameStatus_iff. unfold mergedStored in Em.
  rewrite unmarshal_merged_widget in Em by done. injection Em as <-.
  destruct (widget_parts st Tst (proj1 (proj2 Ws))) as [E _]. rewrite (widget_body st obj Ws Wo), Hc, Hz.
  destruct Htw as [_ Etm El Eg], twin_names as [En Ens]. rewrite Etm, overTypeMeta_self.
  etransitivity; [|symmetry; exact E]. unfold widgetOf, SetUID, SetGeneration, SetResourceVersion, withMeta. simpl. do 2 f_equal.
  rewrite <- En, <- Ens, El, twin_annotations, !overStr_self, !overMap_self. unfold GetUID, GetResourceVersion, GetGeneration. by destruct (oMeta st).
Qed.

Lemma contentEqual_self o : wfObject o = true -> contentEqual o o = true.
Proof using. intros Hw. unfold contentEqual. rewrite Set_same. by apply bool_decide_eq_true_2. Qed.

Lemma noop_sameSpec m : mergedStored obj st obj st = Some m -> contentEqual st m = sameSpec obj st.
Proof using All.
  destruct twin_widgets as [Wo Ws]. intros Em. destruct (sameSpec obj st) eqn:E.
  - rewrite (merged_same m Em E). by apply contentEqual_self, wf_isWidget.
  - apply not_true_is_false. intros Ec. apply (not_true_iff_false (sameSpec obj st)) in E. apply E.
    apply same_rawField_spec; [done..|]. eapply (noop_unchanged obj st m); try done; try by apply wf_isWidget.
    + by rewrite Tst, (tw_type _ _ Htw).
    + by apply (bool_decide_unpack _).
Qed.

Lemma noop_sameStatus m :
  mergedStored st obj obj st = Some m -> contentEqual st (SetGeneration (GetGeneration st) m) = sameStatus obj st.
Proof using All.
  destruct twin_widgets as [Wo Ws]. intros Em. destruct (sameStatus obj st) eqn:E.
  - rewrite (status_merged_same m Em E). by apply contentEqual_self, wf_isWidget.
  - apply not_true_is_false. intros Ec. apply (not_true_iff_false (sameStatus obj st)) in E. apply E.
    apply same_rawField_status; [done..|]. eapply (status_noop_unchanged obj st m); try done; try by apply wf_isWidget.
    by rewrite Tst, (tw_type _ _ Htw).
Qed.

Lemma okObject_widget new : okObject testScheme new -> oType new = testWidget -> isWidget new.
Proof using.
  intros [Hw _] Ht. pose proof Hw as (_ & _ & Hg & HT)%wfObject_spec. split_and!; [done| |done].
  rewrite Ht in HT. simpl in HT. repeat (apply Forall2_cons_inv_l in HT as (?v & ? & ? & HT & ->)).
  apply Forall2_nil_inv_l in HT as ->. unfold fty in *. simpl (_.2) in *.
  repeat match goal with
  | H : has_type (GStruct _) _ = true |- _ => apply has_type_struct_inv in H as (? & -> & H)
  | H : has_type testWidgetSpec _ = true |- _ => apply has_type_struct_inv in H as (? & -> & H)
  | H : has_type testWidgetStatus _ = true |- _ => apply has_type_struct_inv in H as (? & -> & H)
  | H : Forall2 _ (_ :: _) _ |- _ => apply Forall2_cons_inv_l in H as (?v & ? & ? & H & ->)
  | H : Forall2 _ [] _ |- _ => apply Forall2_nil_inv_l in H as ->
  end.
  unfold fty in *. simpl in *. repeat match goal with v : gval |- _ => destruct v; try done end.
Qed.

Lemma combined_eq new a b rv gen :
  isWidget new -> isWidget a -> isWidget b -> bTypeMeta (oBase new) = bTypeMeta (oBase st) ->
  oMeta new = mkMeta (GetName st) (GetNamespace st) (GetUID st) (FormatInt rv) gen (mLabels (oMeta st)) (mAnnotations (oMeta st)) ->
  rawField "spec" new = rawField "spec" a -> rawField "status" new = rawField "status" b ->
  new = combined a b st rv gen.
Proof using Tst.
  intros Wn Wa Wb Etm Em [Hc Hz]%same_rawField_spec%sameSpec_iff [Hr Hp]%same_rawField_status%sameStatus_iff; [|done..].
  destruct (widget_parts new (proj1 Wn) (proj1 (proj2 Wn))) as [E _].
  unfold combined. rewrite (widget_body a b Wa Wb), Tst, E. unfold widgetOf. by rewrite Em, Etm, Hc, Hz, Hr, Hp.
Qed.

Lemma updateOf_combined gen new rev :
  updateOf testScheme gen obj st new rev -> new = combined obj st st (rev + 1) gen.
Proof using All.
  destruct twin_widgets as [Wo Ws]. intros [Hok Ht Hkey Hv Hu Hgen Hl Ha Hf Hst Htm].
  apply combined_eq; [|done|done|rewrite Htm; apply Htw| | |].
  - apply okObject_widget; [done|]. rewrite Ht. apply Htw.
  - unfold ObjectKeyFromObject in Hkey, Hk. rewrite <- Hk in Hkey. injection Hkey as En Ens.
    rewrite twin_annotations in Ha. rewrite (tw_labels _ _ Htw) in Hl.
    unfold GetName, GetNamespace, GetUID, GetResourceVersion, GetGeneration in *. destruct (oMeta new). simpl in *. congruence.
  - apply Hf; [|done]. by apply (bool_decide_unpack _).
  - apply Hst. by rewrite (proj1 Wo).
Qed.

Lemma statusUpdateOf_combined new rev :
  statusUpdateOf testScheme obj st new rev -> new = combined st obj st (rev + 1) (GetGeneration st).
Proof using All.
  destruct twin_widgets as [Wo Ws]. intros [Hok Ht Hkey Hv Hu Hgen Hl Ha Hf Hst Htm].
  apply combined_eq; [|done|done| | | |done].
  - apply okObject_widget; [done|]. rewrite Ht. apply Htw.
  - rewrite Htm, (tw_kind _ _ Htw). apply overTypeMeta_self.
  - unfold ObjectKeyFromObject in Hkey, Hk. rewrite <- Hk in Hkey. injection Hkey as En Ens.
    rewrite twin_annotations, overMap_self in Ha. rewrite (tw_labels _ _ Htw), overMap_self in Hl.
    unfold GetName, GetNamespace, GetUID, GetResourceVersion, GetGeneration in *. destruct (oMeta new). simpl in *. congruence.
  - apply Hf; [by apply (bool_decide_unpack _)|done|]. by rewrite (proj1 Wo).
Qed.

Lemma combined_stored a b rv gen :
  isWidget a -> isWidget b -> in_int64 gen = true -> gen <> 0%Z -> stored (combined a b st rv gen).
Proof using Hs Tst.
  intros Wa Wb Hg Hn. destruct Hs as [[_ Hkey Hl Ha _] Hu _ _].
  unfold combined. rewrite (widget_body a b Wa Wb), Tst.
  split; [|done|apply FormatInt_nonempty|done]. split; try done.
  left. split; [done|]. simpl. by destruct (widget_parts a (proj1 Wa) (proj1 (proj2 Wa))).
Qed.

(** The caller's copy of the object after an update. *)
Lemma copy_combined a b rv gen :
  isWidget a -> isWidget b -> in_int64 gen = true -> gen <> 0%Z ->
  copyObject (combined a b st rv gen) obj = (combined a b st rv gen, Ret tt).
Proof using All.
  intros Wa Wb Hg Hn. pose proof (combined_stored a b rv gen Wa Wb Hg Hn) as Hc.
  apply copy_over; [done|done|done|apply Htw|left; apply Htw|left; by rewrite <- Hk|left; apply Htw].
Qed.

Lemma copy_stored : copyObject st obj = (st, Ret tt).
Proof using All.
  apply copy_over; [done|done|done|apply Htw|left; apply Htw|left; by rewrite <- Hk|left; apply Htw].
Qed.
End twins.
