(* ===== verification/SuiteHistory.v ===== *)
(** * The suite's reference semantics and the histories of backends

    The functions the reference semantics computes with are the ones the
    backends' invariants are stated with; the objects of a suite's history are
    well formed. *)

From S2P Require Import Prelude GoStrconv GoJson GoJsonFacts Objects ObjectFacts SpecStatus NormalForms StoreSpec Backend.
From S2P Require Import MemoryStore MemoryStoreFacts MemoryStoreRuns MemoryStoreWitnesses FilesystemDisk FilesystemFacts Fixtures Suite SuiteSpec SuiteObjects.

Import Suite.

(** ** Reading a history *)

Lemma current_view g k H : current g k H = view g H !! k.
Proof.
  unfold current. induction H as [|c H IH] using rev_ind; [done|].
  rewrite foldl_app, view_snoc. simpl. rewrite IH. unfold applyAt.
  destruct (decide (g = cGVK c)) as [->|E]; [rewrite bool_decide_true by done|by rewrite bool_decide_false by done].
  unfold applyEvent. simpl. case_bool_decide as Ek; destruct (evType (cEvent c)); try done.
  - by rewrite Ek, lookup_insert_eq.
  - by rewrite Ek, lookup_insert_eq.
  - by rewrite Ek, lookup_delete_eq.
  - by rewrite lookup_insert_ne.
  - by rewrite lookup_insert_ne.
  - by rewrite lookup_delete_ne.
Qed.

Lemma alive_snoc g H c : alive g (H ++ [c]) = applyAlive g (alive g H) c.
Proof. unfold alive. by rewrite foldl_app. Qed.

Lemma without_key (k : ObjectKey) (m : gmap ObjectKey Object) l :
  l ≡ₚ map_to_list m ->
  List.filter (fun ko => negb (bool_decide (ko.1 = k))) l ≡ₚ map_to_list (delete k m).
Proof.
  intros Hl. apply NoDup_Permutation.
  - apply NoDup_ListNoDup, List.NoDup_filter, NoDup_ListNoDup. rewrite Hl. apply NoDup_map_to_list.
  - apply NoDup_map_to_list.
  - intros [k' o]. rewrite elem_of_map_to_list, lookup_delete_Some, list_elem_of_In, List.filter_In, <- list_elem_of_In.
    rewrite Hl, elem_of_map_to_list. simpl. case_bool_decide; naive_solver.
Qed.

Lemma alive_view g H : alive g H ≡ₚ map_to_list (view g H).
Proof.
  induction H as [|c H IH] using rev_ind; [done|].
  rewrite alive_snoc, view_snoc. unfold applyAlive.
  case_bool_decide; [rewrite decide_True by done|by rewrite decide_False].
  unfold applyEvent. destruct (evType (cEvent c)); [| | |done].
  1-2: rewrite without_key by done; rewrite <- insert_delete_eq, map_to_list_insert by apply lookup_delete_eq;
    apply Permutation_sym, Permutation_cons_append.
  by rewrite without_key.
Qed.

Lemma filter_perm {A} (f : A -> bool) l l' : l ≡ₚ l' -> List.filter f l ≡ₚ List.filter f l'.
Proof.
  induction 1 as [|x l l' _ IH|x y l|l1 l2 l3 _ IH1 _ IH2]; simpl; [done| | |by rewrite IH1].
  - destruct (f x); [by rewrite IH|done].
  - destruct (f x), (f y); try done. apply perm_swap.
Qed.

(** ** The objects of a suite's history *)

Definition storedOk (H : list change) : Prop :=
  forall g k o, view g H !! k = Some o ->
    testObject o /\ kindOf o = g /\ GetUID o <> "" /\ (1 <= GetGeneration o <= Z.of_nat (length H))%Z.

Lemma storedOk_lookup H g k o :
  wfHistory H -> storedOk H -> view g H !! k = Some o ->
  stored o /\ kindOf o = g /\ ObjectKeyFromObject o = k /\ (1 <= GetGeneration o <= Z.of_nat (length H))%Z.
Proof.
  intros Hwf Hok Hv. destruct (Hok g k o Hv) as (Ht & Hg & Hu & Hn).
  destruct (view_lookup g H k o Hwf Hv) as (Hk & i & c & _ & _ & _ & Hrv).
  split_and!; [|done|done|lia..]. split; [done|done| |lia]. rewrite Hrv. apply FormatInt_nonempty.
Qed.

Lemma storedOk_snoc H rv g ev :
  storedOk H ->
  (evType ev <> EventDeleted ->
     testObject (evObject ev) /\ kindOf (evObject ev) = g /\ GetUID (evObject ev) <> "" /\
     (1 <= GetGeneration (evObject ev) <= Z.of_nat (length H) + 1)%Z) ->
  storedOk (H ++ [mkChange rv g ev]).
Proof.
  intros Hok Hev g' k o. rewrite view_snoc, length_app. simpl. case_decide as E; [subst g'|].
  - intros [(-> & _ & Hne)|Hv]%applyEvent_lookup.
    + destruct (Hev Hne) as (? & ? & ? & ?). split_and!; try done; lia.
    + destruct (Hok g k o Hv) as (? & ? & ? & ?). split_and!; try done; lia.
  - intros Hv. destruct (Hok g' k o Hv) as (? & ? & ? & ?). split_and!; try done; lia.
Qed.

Lemma testObject_created uid obj rv : testObject obj -> testObject (createdAs uid obj rv).
Proof. intros [Ht Hk Hl Ha Hg]. by split. Qed.

Lemma storedOk_created H rv uid obj n :
  storedOk H -> testObject obj -> uid <> "" ->
  storedOk (H ++ [mkChange rv (kindOf obj) (mkEvent EventAdded (createdAs uid obj n))]).
Proof.
  intros Hok Ho Hu. apply storedOk_snoc; [done|]. intros _. cbn [evObject].
  split_and!; [by apply testObject_created|done|done|..]; change (GetGeneration _) with 1%Z; lia.
Qed.

Lemma kindOf_widget o : testObject o -> oType o = testWidget -> kindOf o = widgetGVK.
Proof. intros _ Ht. unfold kindOf. by rewrite Ht. Qed.

Lemma storedOk_combined H rv g st a b n gen :
  storedOk H -> stored st -> oType st = testWidget -> kindOf st = g -> isWidget a -> isWidget b ->
  (1 <= gen <= Z.of_nat (length H) + 1)%Z -> in_int64 gen = true ->
  storedOk (H ++ [mkChange rv g (mkEvent EventModified (combined a b st n gen))]).
Proof.
  intros Hok Hst Ht Hk Wa Wb Hgen Hi. apply storedOk_snoc; [done|]. intros _.
  destruct (combined_stored st Hst Ht a b n gen Wa Wb Hi) as [? ? ? ?]; [lia|]. split_and!; [done| |done|apply Hgen..].
  by rewrite <- Hk.
Qed.

(** ** Backends with the in-memory store's log and watchers *)

Record simulates (r : spec) (m : Mem.MemoryStore) : Prop := {
  sim_inv : Inv testScheme m (sHist r);
  sim_registered : registered m;
  sim_full : fullLog m (sHist r);
  sim_max : Mem.eventLogMax m = sMax r;
  sim_next : Mem.nextPtr m = length (sWatch r);
  sim_heap : forall p, Mem.heap m !! p = sWatch r !! p;
  sim_stored : storedOk (sHist r);
}.

Lemma sim_next_revision r m : simulates r m -> (Mem.revision m + 1)%Z = nextRevision r.
Proof. intros Hs. unfold nextRevision. by rewrite (inv_revision _ _ _ (sim_inv _ _ Hs)). Qed.

(** A committed change, with what it stores. *)
Lemma simulates_commit r m g ev m' :
  simulates r m -> committed testScheme m (sHist r) g ev m' ->
  storedOk (sHist r ++ [mkChange (nextRevision r) g ev]) -> simulates (commit g ev r) m'.
Proof.
  intros Hs Hc Hok. pose proof (sim_next_revision r m Hs) as Er. destruct Hs as [HI Hreg Hf Hm Hn Hh _].
  destruct (committed_streams testScheme m _ g ev m' HI Hreg Hc) as [Hreg' _].
  pose proof (committed_full testScheme m _ g ev m' Hc Hf) as Hf'. destruct Hc as [HI' [Hd0 Hd] Hm' Hn' _ _].
  rewrite Er in *. split; try done; simpl.
  - congruence.
  - by rewrite Hn', length_map.
  - intros p. change (map (deliver g ev) (sWatch r)) with (deliver g ev <$> sWatch r). rewrite list_lookup_fmap, <- Hh.
    destruct (Mem.heap m !! p) as [w|] eqn:Ep; [|by rewrite Hd0]. destruct (Hd p w Ep) as (w' & -> & _ & Hs).
    simpl. f_equal. unfold deliver. destruct (inv_watchers _ _ _ HI) as [_ _ Hl _ _].
    case_bool_decide as Hin.
    + assert (Mem.wGVK w = g) as Eg.
      { destruct (Mem.watchers m !! g) eqn:E; simpl in Hin; [|set_solver].
        destruct (Hl _ _ _ E Hin) as (w2 & Hw2 & ?). congruence. }
      by rewrite bool_decide_true, Hs.
    + subst w'. case_bool_decide as Eg; [|done]. unfold Mem.send. destruct (Mem.wClosed w) eqn:Ec; [done|].
      destruct Hin. rewrite <- Eg. by apply Hreg.
Qed.

Lemma sim_trimmed r m : simulates r m -> trimmed m = dropped r.
Proof.
  intros Hs. pose proof (sim_full _ _ Hs) as Hf. pose proof (inv_max _ _ _ (sim_inv _ _ Hs)) as Hm.
  unfold trimmed, dropped. rewrite (inv_revision _ _ _ (sim_inv _ _ Hs)), <- (sim_max _ _ Hs).
  unfold fullLog in Hf. apply (f_equal length) in Hf. rewrite length_map in Hf. rewrite Hf.
  unfold lastn. rewrite length_drop. lia.
Qed.

Lemma simulates_watching r m replay m' :
  simulates r m -> room (sHist r) -> watching m widgetGVK replay m' -> simulates (openWatcher widgetGVK replay r) m'.
Proof.
  intros Hs Hroom Hw. destruct Hs as [HI Hreg Hf Hm Hn Hh Hok].
  destruct (watching_step testScheme testScheme_total m _ HI Hroom Hreg _ _ m' Hw) as [HI' _ Hm' Hreg' _ Hf'].
  rewrite app_nil_r in HI', Hf'. destruct Hw as (n & Eh & En & _ & _ & Ep & _).
  split; simpl; [done|done|auto|congruence|rewrite length_app; simpl; lia| |done].
  intros p. rewrite Eh, Hn, En. destruct (decide (p = length (sWatch r))) as [->|Hne].
  - by rewrite lookup_insert_eq, list_lookup_middle.
  - rewrite lookup_insert_ne by done. rewrite Hh. destruct (decide (p < length (sWatch r))).
    + by rewrite lookup_app_l.
    + rewrite !lookup_ge_None_2; [done|rewrite length_app; simpl; lia|lia].
Qed.

(** Replacing the struct of one watcher. *)
Lemma simulates_setHeap r m p w' :
  simulates r m -> is_Some (sWatch r !! p) ->
  Inv testScheme (Mem.setHeap (<[p := w']> (Mem.heap m)) m) (sHist r) ->
  registered (Mem.setHeap (<[p := w']> (Mem.heap m)) m) ->
  simulates (setWatcher p w' r) (Mem.setHeap (<[p := w']> (Mem.heap m)) m).
Proof.
  intros [HI Hreg Hf Hm Hn Hh Hok] Hp HI' Hreg'. split; simpl; try done; [by rewrite length_insert|].
  intros q. destruct (decide (q = p)) as [->|].
  - rewrite lookup_insert_eq, list_lookup_insert_eq; [done|]. by apply lookup_lt_is_Some.
  - by rewrite lookup_insert_ne, list_lookup_insert_ne, Hh.
Qed.

Section watcher_calls.
Context (r : spec) (m : Mem.MemoryStore) (p : nat) (w : Mem.memoryWatcher).
Hypothesis Hs : simulates r m.
Hypothesis Hroom : room (sHist r).
Hypothesis Hp : sWatch r !! p = Some w.

Lemma simulates_receive :
  match recv (Mem.wCh w) with
  | Received e c => exists m', Mem.receive p m = (m', Received e c) /\
      simulates (setWatcher p (Mem.mkWatcher (Mem.wGVK w) c (Mem.wClosed w)) r) m'
  | RecvClosed => Mem.receive p m = (m, RecvClosed)
  | WouldBlock => Mem.receive p m = (m, WouldBlock)
  end.
Proof using All.
  assert (Mem.heap m !! p = Some w) as Hh by (by rewrite (sim_heap _ _ Hs)).
  assert (Mem.receive p m = match recv (Mem.wCh w) with
      | Received v c => (Mem.setHeap (<[p := Mem.mkWatcher (Mem.wGVK w) c (Mem.wClosed w)]> (Mem.heap m)) m, Received v c)
      | r => (m, r) end) as E by (unfold Mem.receive; by rewrite Hh).
  destruct (recv (Mem.wCh w)) as [e c| |]; [|done..]. eexists. split; [exact E|].
  destruct (receive_step testScheme testScheme_total m _ (sim_inv _ _ Hs) Hroom (sim_registered _ _ Hs) p _ _ _ E) as [HI _ _ Hr _ _].
  rewrite app_nil_r in HI. by apply simulates_setHeap.
Qed.

Lemma simulates_Stop :
  exists m', Mem.Stop p m = Some m' /\ simulates (setWatcher p (default w (Mem.closeWatcher w)) r) m'.
Proof using All.
  assert (Mem.heap m !! p = Some w) as Hh by (by rewrite (sim_heap _ _ Hs)). pose proof (sim_inv _ _ Hs) as HI.
  destruct (stopClose_step testScheme testScheme_total m _ HI Hroom (sim_registered _ _ Hs) p w Hh) as (m1 & E & [HI1 _ _ Hr1 _ _]).
  rewrite app_nil_r in HI1. unfold Mem.Stop. rewrite Hh, E. eexists. split; [done|].
  unfold Mem.stopClose in E. rewrite Hh in E. destruct (Mem.closeWatcher w) as [w'|] eqn:Ew; [|done]. injection E as <-.
  pose proof (simulates_setHeap r m p w' Hs (mk_is_Some _ _ Hp) HI1 Hr1) as Hs1.
  assert (Mem.wGVK w' = Mem.wGVK w /\ Mem.wClosed w' = true) as [<- Hc].
  { unfold Mem.closeWatcher in Ew. destruct (Mem.wClosed w) eqn:Ec; [by simplify_eq|].
    destruct (closeChan (Mem.wCh w)); [|done]. by simplify_eq/=. }
  destruct (removeWatcher_step testScheme testScheme_total _ _ HI1 Hroom Hr1 p w') as [HI2 _ _ Hr2 _ _];
    [by rewrite (sim_heap _ _ Hs1); simpl; rewrite list_lookup_insert_eq by (by eapply lookup_lt_Some)|done|].
  rewrite app_nil_r in HI2. destruct Hs1 as [_ _ Hf Hm Hn Hhp Hok]. by split.
Qed.
End watcher_calls.

(** ** What an update finds *)

Lemma callOk_room c r : callOk c r -> room (sHist r).
Proof. intros [H _]. unfold room, max_int64. lia. Qed.

(** The stored object an update goes over. *)
Record over (r : spec) (obj st : Object) : Prop := {
  ov_object : testObject obj;
  ov_stored : stored st;
  ov_type : oType st = testWidget;
  ov_kind : kindOf st = kindOf obj;
  ov_key : ObjectKeyFromObject st = ObjectKeyFromObject obj;
  ov_rv : GetResourceVersion obj = GetResourceVersion st;
  ov_twin : twin obj st;
  ov_generation : (1 <= GetGeneration st <= Z.of_nat (length (sHist r)))%Z;
  ov_small : (Z.of_nat (length (sHist r)) < 1000000)%Z;
}.

Lemma callOk_over r obj st :
  wfHistory (sHist r) -> storedOk (sHist r) -> callOk (CUpdate obj) r ->
  view (kindOf obj) (sHist r) !! ObjectKeyFromObject obj = Some st ->
  GetResourceVersion obj = GetResourceVersion st -> over r obj st.
Proof.
  intros Hwf Hok [Hl [Ho Htw]] Hv E.
  destruct (storedOk_lookup _ _ _ _ Hwf Hok Hv) as (Hst & Hk & Hkey & Hg).
  rewrite current_view in Htw. specialize (Htw st Hv E). split; try done.
  rewrite (kindOf_type st obj) by (done || apply Hst). apply Htw.
Qed.

Section over.
Context (r : spec) (obj st : Object).
Hypothesis Hov : over r obj st.

Lemma over_widgets : isWidget obj /\ isWidget st.
Proof using All. destruct Hov. by apply twin_widgets. Qed.

Lemma over_next : wrap64 (GetGeneration st + 1) = (GetGeneration st + 1)%Z.
Proof using All. destruct Hov. apply wrap64_succ. unfold max_int64, min_int64. lia. Qed.

Lemma over_int : in_int64 (GetGeneration st) = true /\ in_int64 (GetGeneration st + 1) = true.
Proof using All. destruct Hov. rewrite !in_int64_spec. unfold max_int64, min_int64. lia. Qed.

Lemma over_update_stored rv :
  storedOk (sHist r) ->
  storedOk (sHist r ++ [mkChange rv (kindOf obj)
    (mkEvent EventModified (combined obj st st (nextRevision r) (wrap64 (GetGeneration st + 1))))]).
Proof using All.
  intros Hok. destruct over_widgets, over_int. rewrite over_next. destruct Hov. apply storedOk_combined; try done. lia.
Qed.

Lemma over_status_stored rv :
  storedOk (sHist r) ->
  storedOk (sHist r ++ [mkChange rv (kindOf obj)
    (mkEvent EventModified (combined st obj st (nextRevision r) (GetGeneration st)))]).
Proof using All.
  intros Hok. destruct over_widgets, over_int. destruct Hov. apply storedOk_combined; try done. lia.
Qed.

Lemma over_copy_update :
  let new := combined obj st st (nextRevision r) (wrap64 (GetGeneration st + 1)) in copyObject new obj = (new, Ret tt).
Proof using All.
  simpl. destruct over_widgets, over_int. rewrite over_next. destruct Hov. apply copy_combined; try done. lia.
Qed.

Lemma over_copy_status :
  let new := combined st obj st (nextRevision r) (GetGeneration st) in copyObject new obj = (new, Ret tt).
Proof using All.
  simpl. destruct over_widgets, over_int. destruct Hov. apply copy_combined; try done. lia.
Qed.

Lemma over_copy_stored : copyObject st obj = (st, Ret tt).
Proof using All. destruct Hov. by apply copy_stored. Qed.
End over.
