(* ===== verification/SuiteMemory.v ===== *)
(** * The in-memory backend behind the conformance suite *)

From S2P Require Import Prelude GoStrconv GoJson GoJsonFacts Objects ObjectFacts SpecStatus NormalForms StoreSpec Backend.
From S2P Require Import MemoryStore MemoryStoreFacts MemoryStoreRuns MemoryStoreTheorems MemoryStoreWitnesses.
From S2P Require Import FilesystemDisk Fixtures Suite SuiteSpec SuiteObjects SuiteHistory.

Import Suite.

(** What a test sees of a receive. *)
Definition seen (r : recvResult Event) : received :=
  match r with Received e _ => Got e | RecvClosed => ChanClosed | WouldBlock => Nothing end.

#[export] Instance Mem_TestedStore : TestedStore Mem.MemoryStore := fun c s =>
  match c with
  | CGet key obj => Some (s, Mem.Get testScheme key obj s)
  | CList lst opts => Some (s, Mem.List testScheme lst opts s)
  | CCreate obj => let '(s, obj, r) := Mem.Create testScheme obj s in Some (s, (obj, r))
  | CUpdate obj => let '(s, obj, r) := Mem.Update testScheme obj s in Some (s, (obj, r))
  | CUpdateStatus obj => let '(s, obj, r) := Mem.UpdateStatus testScheme obj s in Some (s, (obj, r))
  | CDelete obj => Some (Mem.Delete testScheme obj s)
  | CWatch lst opts => Mem.Watch testScheme lst opts s
  | CReceive p => let (s, r) := Mem.receive p s in Some (s, seen r)
  | CStop p => (fun s => (s, tt)) <$> Mem.Stop p s
  end.

Lemma zeroWidget : testObject (zeroObject testWidget).
Proof. by split; [left|vm_compute|..]. Qed.

(** Reading a stored widget into a fresh one gives the stored object. *)
Lemma copy_fresh H k st :
  wfHistory H -> storedOk H -> view widgetGVK H !! k = Some st -> copyObject st (zeroObject testWidget) = (st, Ret tt).
Proof.
  intros Hwf Hok Hv. destruct (storedOk_lookup _ _ _ _ Hwf Hok Hv) as (Hst & Hk & _ & _).
  apply copy_over; [done|apply zeroWidget| |done|by right..].
  apply (kindOf_type st (zeroObject testWidget)); [apply Hst|apply zeroWidget|done].
Qed.

Lemma widgetList_kind : gvkForList testScheme testWidgetList = Ret widgetGVK.
Proof. by vm_compute. Qed.

Lemma widgetList_ok : okList testScheme widgetGVK testWidgetList.
Proof. by exists testWidget. Qed.

Section calls.
Context (r : spec) (s : Mem.MemoryStore).
Hypothesis Hs : simulates r s.

Lemma mem_history : wfHistory (sHist r).
Proof using All. apply (sim_inv _ _ Hs). Qed.

Lemma memCall_Get key obj Q :
  callOk (CGet key obj) r -> specPost (CGet key obj) r Q ->
  exists s' a r', exec (CGet key obj) s = Some (s', a) /\ Q a r' /\ simulates r' s'.
Proof using All.
  intros [_ [-> _]]. unfold exec, Mem_TestedStore. simpl. rewrite current_view.
  pose proof (lookup_stored testScheme s _ widgetGVK key (sim_inv _ _ Hs)) as Hl. unfold Mem.Get.
  assert (gvkForObject testScheme (zeroObject testWidget) = Ret widgetGVK) as -> by done.
  destruct (view widgetGVK (sHist r) !! key) as [st|] eqn:Ev; intros HQ; exists s.
  - destruct (Mem.objects s !! widgetGVK) as [m|]; [|done]. rewrite Hl.
    rewrite (copy_fresh _ key st mem_history (sim_stored _ _ Hs) Ev). eauto.
  - destruct (Mem.objects s !! widgetGVK); [rewrite Hl|]; eauto.
Qed.

Lemma memCall_List lst opts Q :
  callOk (CList lst opts) r -> specPost (CList lst opts) r Q ->
  exists s' a r', exec (CList lst opts) s = Some (s', a) /\ Q a r' /\ simulates r' s'.
Proof using All.
  intros [_ ->] HQ. unfold exec, Mem_TestedStore. simpl. eexists s, _, r. split; [reflexivity|]. split; [|done].
  rewrite (List_items testScheme s _ widgetGVK testWidgetList opts (sim_inv _ _ Hs) widgetList_kind widgetList_ok).
  rewrite (inv_revision _ _ _ (sim_inv _ _ Hs)). apply HQ. apply fmap_Permutation, filter_perm.
  rewrite (objectsOf_view testScheme s _ _ (sim_inv _ _ Hs)). symmetry. apply alive_view.
Qed.

Lemma created_uid obj : GetUID obj = "" ->
  exists uid, uid <> "" /\ created obj s = createdAs uid obj (nextRevision r).
Proof using All.
  intros E. unfold created. rewrite bool_decide_true, (sim_next_revision r s Hs) by done. eexists. by split; [|done].
Qed.

Lemma memCall_Create obj Q :
  callOk (CCreate obj) r -> specPost (CCreate obj) r Q ->
  exists s' a r', exec (CCreate obj) s = Some (s', a) /\ Q a r' /\ simulates r' s'.
Proof using All.
  intros Hc. pose proof (callOk_room _ _ Hc) as Hroom. destruct Hc as [_ [Ho Hu]]. unfold exec, Mem_TestedStore. simpl. rewrite current_view.
  pose proof (Create_spec testScheme obj s _ _ (sim_inv _ _ Hs) Hroom (testObject_ok _ Ho) (testObject_kind _ Ho)) as Hsp.
  destruct (view (kindOf obj) (sHist r) !! ObjectKeyFromObject obj); intros HQ.
  - rewrite Hsp. eauto 10.
  - destruct Hsp as (s' & -> & Hcm), (created_uid obj Hu) as (uid & Hne & Ec). rewrite Ec in *.
    eexists s', _, _. split; [done|]. split; [by apply HQ|]. apply (simulates_commit r s); [done|done|].
    apply storedOk_created; [apply Hs|done|done].
Qed.

Lemma memCall_Update obj Q :
  callOk (CUpdate obj) r -> specPost (CUpdate obj) r Q ->
  exists s' a r', exec (CUpdate obj) s = Some (s', a) /\ Q a r' /\ simulates r' s'.
Proof using All.
  intros Hc. pose proof (callOk_room _ _ Hc) as Hroom. pose proof Hc as [_ [Ho _]]. unfold exec, Mem_TestedStore. simpl. rewrite current_view.
  pose proof (Update_spec testScheme obj s _ _ (sim_inv _ _ Hs) Hroom (testObject_ok _ Ho) (testObject_kind _ Ho)) as Hsp.
  cbv zeta in Hsp. destruct (view (kindOf obj) (sHist r) !! ObjectKeyFromObject obj) as [st|] eqn:Ev; [|rewrite Hsp; eauto 10].
  case_bool_decide as Hrv; [rewrite Hsp; eauto 10|].
  pose proof (callOk_over r obj st mem_history (sim_stored _ _ Hs) Hc Ev Hrv) as Hov. destruct (over_widgets _ _ _ Hov) as [Wo Ws].
  destruct Hsp as (m & new & Em & Hup & Hw). unfold wrote in Hw.
  assert (contentEqual st m = sameSpec obj st) as Ec by (destruct Hov; by apply noop_sameSpec).
  rewrite Ec in Hw. destruct (sameSpec obj st) eqn:Esp; intros HQ.
  - rewrite (over_copy_stored r obj st Hov) in Hw. destruct Hw as (o & Eo & ->). injection Eo as <-. eauto 10.
  - assert (new = combined obj st st (nextRevision r) (wrap64 (GetGeneration st + 1))) as ->.
    { rewrite <- (sim_next_revision r s Hs). destruct Hov. apply updateOf_combined; try done.
      unfold specGeneration in Hup. rewrite decide_False in Hup; [done|].
      intros E. apply (not_true_iff_false (sameSpec obj st)) in Esp. by apply Esp, same_rawField_spec. }
    destruct Hw as (s' & o & Hcm & Eo & ->). rewrite (over_copy_update r obj st Hov) in Eo. injection Eo as <-.
    eexists s', _, _. split; [done|]. split; [exact HQ|]. apply (simulates_commit r s); [done|done|].
    apply over_update_stored; [done|apply Hs].
Qed.

Lemma memCall_UpdateStatus obj Q :
  callOk (CUpdateStatus obj) r -> specPost (CUpdateStatus obj) r Q ->
  exists s' a r', exec (CUpdateStatus obj) s = Some (s', a) /\ Q a r' /\ simulates r' s'.
Proof using All.
  intros Hc. pose proof (callOk_room _ _ Hc) as Hroom. pose proof Hc as [_ [Ho _]]. unfold exec, Mem_TestedStore. simpl. rewrite current_view.
  pose proof (UpdateStatus_spec testScheme obj s _ _ (sim_inv _ _ Hs) Hroom (testObject_ok _ Ho) (testObject_kind _ Ho)) as Hsp.
  cbv zeta in Hsp. destruct (view (kindOf obj) (sHist r) !! ObjectKeyFromObject obj) as [st|] eqn:Ev; [|rewrite Hsp; eauto 10].
  case_bool_decide as Hrv; [rewrite Hsp; eauto 10|].
  pose proof (callOk_over r obj st mem_history (sim_stored _ _ Hs) Hc Ev Hrv) as Hov. destruct (over_widgets _ _ _ Hov) as [Wo Ws].
  destruct Hsp as (m & new & Em & Hup & Hw). unfold wrote in Hw.
  assert (contentEqual st (SetGeneration (GetGeneration st) m) = sameStatus obj st) as Ec by (destruct Hov; by apply noop_sameStatus).
  rewrite Ec in Hw. destruct (sameStatus obj st) eqn:Esp; intros HQ.
  - rewrite (over_copy_stored r obj st Hov) in Hw. destruct Hw as (o & Eo & ->). injection Eo as <-. eauto 10.
  - assert (new = combined st obj st (nextRevision r) (GetGeneration st)) as ->.
    { rewrite <- (sim_next_revision r s Hs). destruct Hov. by apply statusUpdateOf_combined. }
    destruct Hw as (s' & o & Hcm & Eo & ->). rewrite (over_copy_status r obj st Hov) in Eo. injection Eo as <-.
    eexists s', _, _. split; [done|]. split; [exact HQ|]. apply (simulates_commit r s); [done|done|].
    apply over_status_stored; [done|apply Hs].
Qed.

Lemma memCall_Delete obj Q :
  callOk (CDelete obj) r -> specPost (CDelete obj) r Q ->
  exists s' a r', exec (CDelete obj) s = Some (s', a) /\ Q a r' /\ simulates r' s'.
Proof using All.
  intros Hc. pose proof (callOk_room _ _ Hc) as Hroom. pose proof Hc as [_ Ho]. unfold exec, Mem_TestedStore. simpl. rewrite current_view.
  pose proof (Delete_spec testScheme obj s _ _ (sim_inv _ _ Hs) Hroom (testObject_kind _ Ho)) as Hsp. cbv zeta in Hsp.
  destruct (view (kindOf obj) (sHist r) !! ObjectKeyFromObject obj) as [st|] eqn:Ev; [|rewrite Hsp; eauto 10].
  destruct (_ && _); intros HQ; [rewrite Hsp; eauto 10|]. destruct Hsp as (s' & -> & Hcm).
  rewrite (sim_next_revision r s Hs) in Hcm. eexists s', _, _. split; [done|]. split; [exact HQ|].
  apply (simulates_commit r s); [done|done|]. apply storedOk_snoc; [apply Hs|done].
Qed.

Lemma memCall_Watch lst opts Q :
  callOk (CWatch lst opts) r -> specPost (CWatch lst opts) r Q ->
  exists s' a r', exec (CWatch lst opts) s = Some (s', a) /\ Q a r' /\ simulates r' s'.
Proof using All.
  intros Hc. pose proof (callOk_room _ _ Hc) as Hroom. pose proof Hc as [_ [-> Hf]]. unfold exec, Mem_TestedStore. simpl.
  pose proof (Watch_spec testScheme testWidgetList opts s _ _ (sim_inv _ _ Hs) Hroom widgetList_kind) as Hsp.
  cbv zeta in Hsp. rewrite (sim_trimmed r s Hs), (sim_next _ _ Hs) in Hsp. unfold replayOf in *.
  destruct (fromRevisionOpt opts) as [from|]; simpl in Hf.
  - specialize (Hsp ltac:(by intros ? [= <-])). destruct (from <? dropped r)%Z; intros HQ; [rewrite Hsp; eauto 10|].
    destruct Hsp as (s' & -> & Hw). eexists s', _, _. split; [done|]. split; [exact HQ|]. by apply (simulates_watching r s).
  - specialize (Hsp ltac:(done)). intros HQ. destruct Hsp as (s' & -> & Hw).
    eexists s', _, _. split; [done|]. split; [exact HQ|]. by apply (simulates_watching r s).
Qed.
End calls.

#[export] Instance Mem_Refines : Refines Mem.MemoryStore simulates.
Proof.
  intros c r s Q Hs Hc HQ. pose proof (callOk_room _ _ Hc) as Hroom.
  destruct c as [key obj|lst opts|obj|obj|obj|obj|lst opts|p|p];
    [by apply (memCall_Get r)|by apply (memCall_List r)|by apply (memCall_Create r)|by apply (memCall_Update r)|by apply (memCall_UpdateStatus r)|
     by apply (memCall_Delete r)|by apply (memCall_Watch r)|..]; simpl in HQ; destruct (sWatch r !! p) as [w|] eqn:Hp; try done; unfold exec, Mem_TestedStore.
  - pose proof (simulates_receive r s p w Hs Hroom Hp) as Hr. destruct (recv (Mem.wCh w)) as [e c| |].
    + destruct Hr as (s' & -> & Hs'). eauto 10.
    + rewrite Hr. eauto 10.
    + rewrite Hr. eauto 10.
  - destruct (simulates_Stop r s p w Hs Hroom Hp) as (s' & -> & Hs'). simpl. eauto 10.
Qed.
