(* ===== verification/SuiteFilesystem.v ===== *)
(** * The filesystem backend behind the conformance suite

    On a disk whose calls work. The event log and the watchers are those of the
    in-memory backend, so the watch calls are simulated through [toMem]. *)

From S2P Require Import Prelude GoStrconv GoJson GoJsonFacts Objects ObjectFacts SpecStatus NormalForms StoreSpec Backend.
From S2P Require Import MemoryStore MemoryStoreFacts MemoryStoreRuns MemoryStoreWitnesses.
From S2P Require Import FileTree Filesystem FilesystemDisk FilesystemFacts FilesystemList FilesystemRuns FilesystemInterface FilesystemWitnesses.
From S2P Require Import Fixtures Suite SuiteSpec SuiteObjects SuiteHistory SuiteMemory.

Import Suite.

#[export] Instance FS_TestedStore : TestedStore FS.FileStore := fun c s =>
  match c with
  | CGet key obj => let '(s, obj, r) := FS.Get testScheme key (s, obj) in Some (s, (obj, r))
  | CList lst opts => let '(s, lst, r) := FS.List testScheme opts (s, lst) in Some (s, (lst, r))
  | CCreate obj => let '(s, obj, r) := FS.Create testScheme (s, obj) in Some (s, (obj, r))
  | CUpdate obj => let '(s, obj, r) := FS.Update testScheme (s, obj) in Some (s, (obj, r))
  | CUpdateStatus obj => let '(s, obj, r) := FS.UpdateStatus testScheme (s, obj) in Some (s, (obj, r))
  | CDelete obj => let '(s, _, r) := FS.Delete testScheme (s, obj) in Some (s, r)
  | CWatch lst opts => FS.Watch testScheme lst opts s
  | CReceive p => let (s, r) := FS.receive p s in Some (s, seen r)
  | CStop p => (fun s => (s, tt)) <$> FS.Stop p s
  end.

Record fsSimulates (r : spec) (s : FS.FileStore) : Prop := {
  fs_sim_inv : FSInv testScheme s (sHist r);
  fs_sim_mem : exists objs, simulates r (toMem objs s);
}.

Lemma fsSimulates_commit r s g ev s' :
  fsSimulates r s -> fsCommitted testScheme s (sHist r) g ev s' ->
  storedOk (sHist r ++ [mkChange (nextRevision r) g ev]) -> fsSimulates (commit g ev r) s'.
Proof.
  intros [HI [objs0 Hm]] [HI' (objs & objs' & Hi & Hc) _] Hok. pose proof (sim_next_revision _ _ Hm) as En.
  change (Mem.revision (toMem objs0 s)) with (FS.revision s) in En. rewrite En in HI'. split; [done|].
  exists objs'. apply (simulates_commit r (toMem objs s)); [|done|done]. by destruct Hm; split.
Qed.

(** A call that changes the watchers only. *)
Lemma fsSimulates_mem r r' s m :
  fsSimulates r s -> sHist r' = sHist r -> simulates r' m ->
  Mem.revision m = FS.revision s -> Mem.uidCounter m = FS.uidCounter s -> fsSimulates r' (withMem m s).
Proof.
  intros [[_ Hd Hf Hst Hu] _] Eh Hm Er Eu. split; [|exists (Mem.objects m); by rewrite toMem_withMem].
  rewrite Eh. split; [|cbn; by rewrite Er, Eu|done|done|cbn; by rewrite Eu].
  exists (Mem.objects m). rewrite toMem_withMem, <- Eh. apply Hm.
Qed.

Section calls.
Context (r : spec) (s : FS.FileStore).
Hypothesis Hs : fsSimulates r s.

Lemma fs_history : wfHistory (sHist r) /\ storedOk (sHist r).
Proof using All. destruct Hs as [_ [objs Hm]]. split; apply Hm. Qed.

Lemma fs_next : (FS.revision s + 1)%Z = nextRevision r.
Proof using All. destruct Hs as [_ [objs Hm]]. exact (sim_next_revision _ _ Hm). Qed.

Lemma ok_kindOf o : okGVK (kindOf o) = true.
Proof using. unfold kindOf. by case_bool_decide; vm_compute. Qed.

Lemma fsCall_Get key obj Q :
  callOk (CGet key obj) r -> specPost (CGet key obj) r Q ->
  exists s' a r', exec (CGet key obj) s = Some (s', a) /\ Q a r' /\ fsSimulates r' s'.
Proof using All.
  intros [_ [-> Hk]]. unfold exec, FS_TestedStore. simpl. rewrite current_view.
  pose proof (Get_run testScheme s _ key (zeroObject testWidget) widgetGVK (fs_sim_inv _ _ Hs) Hk ltac:(by vm_compute)
    (testObject_ok _ zeroWidget) (testObject_kind _ zeroWidget)) as Hr.
  destruct (view widgetGVK (sHist r) !! key) as [st|] eqn:Ev; intros HQ; [|rewrite Hr; eauto 10].
  destruct Hr as (o & Eo & ->), fs_history as [Hw Hok]. pose proof (copy_fresh _ key st Hw Hok Ev) as Ec.
  unfold copyObject in Ec. rewrite Eo in Ec. injection Ec as ->. eauto 10.
Qed.

Lemma fsCall_List lst opts Q :
  callOk (CList lst opts) r -> specPost (CList lst opts) r Q ->
  exists s' a r', exec (CList lst opts) s = Some (s', a) /\ Q a r' /\ fsSimulates r' s'.
Proof using All.
  intros [_ ->] HQ. unfold exec, FS_TestedStore.
  destruct (List_run testScheme s _ widgetGVK testWidgetList opts (fs_sim_inv _ _ Hs) ltac:(by vm_compute) widgetList_kind widgetList_ok)
    as (items & -> & Hp).
  eexists s, _, r. split; [reflexivity|]. split; [|done]. rewrite (fs_revision testScheme s _ (fs_sim_inv _ _ Hs)). apply HQ.
  rewrite Hp. apply fmap_Permutation, filter_perm. symmetry. apply alive_view.
Qed.

Lemma fsCall_Create obj Q :
  callOk (CCreate obj) r -> specPost (CCreate obj) r Q ->
  exists s' a r', exec (CCreate obj) s = Some (s', a) /\ Q a r' /\ fsSimulates r' s'.
Proof using All.
  intros Hc. pose proof (callOk_room _ _ Hc) as Hroom. destruct Hc as [_ [Ho Hu]]. unfold exec, FS_TestedStore. simpl.
  rewrite current_view.
  pose proof (Create_run testScheme s _ _ (fs_sim_inv _ _ Hs) Hroom (ok_kindOf obj) obj (testObject_ok _ Ho) (testObject_fs _ Ho)
    (testObject_kind _ Ho)) as Hr.
  destruct (view (kindOf obj) (sHist r) !! ObjectKeyFromObject obj); intros HQ; [rewrite Hr; eauto 10|].
  destruct Hr as (s' & -> & Hcm).
  assert (exists uid, uid <> "" /\ fsCreated s obj = createdAs uid obj (nextRevision r)) as (uid & Hne & Ec).
  { destruct Hs as [_ [objs Hm]]. destruct (created_uid r (toMem objs s) Hm obj Hu) as (uid & Hne & Ec). by exists uid. }
  rewrite Ec in *. eexists s', _, _. split; [done|]. split; [by apply HQ|]. apply (fsSimulates_commit r s); [done|done|].
  apply storedOk_created; [apply fs_history|done|done].
Qed.

Lemma fsCall_Update obj Q :
  callOk (CUpdate obj) r -> specPost (CUpdate obj) r Q ->
  exists s' a r', exec (CUpdate obj) s = Some (s', a) /\ Q a r' /\ fsSimulates r' s'.
Proof using All.
  intros Hc. pose proof (callOk_room _ _ Hc) as Hroom. pose proof Hc as [_ [Ho _]]. unfold exec, FS_TestedStore. simpl.
  rewrite current_view. destruct fs_history as [Hwf Hok].
  pose proof (Update_run testScheme s _ _ (fs_sim_inv _ _ Hs) Hroom (ok_kindOf obj) obj (testObject_ok _ Ho) (testObject_fs _ Ho)
    (testObject_kind _ Ho)) as Hr. cbv zeta in Hr.
  destruct (view (kindOf obj) (sHist r) !! ObjectKeyFromObject obj) as [st|] eqn:Ev; [|rewrite Hr; eauto 10].
  case_bool_decide as Hrv; [rewrite Hr; eauto 10|].
  pose proof (callOk_over r obj st Hwf Hok Hc Ev Hrv) as Hov. destruct (over_widgets _ _ _ Hov) as [Wo Ws].
  destruct Hr as (s' & o & -> & [(-> & Hun & Eo)|(new & Hup & [_ (m & Em & Ed)] & Eo & Hcm)]).
  - rewrite (over_copy_stored r obj st Hov) in Eo. injection Eo as <-.
    assert (sameSpec obj st = true) as ->; [|eauto 10]. apply same_rawField_spec; [done..|].
    apply Hun; [by apply (bool_decide_unpack _)|done].
  - destruct (sameSpec obj st) eqn:Esp.
    { assert (m = st) as -> by (destruct Hov; by eapply merged_same).
      replace (SetGeneration (GetGeneration st) st) with st in Ed by (by destruct st as [? [? []] ?]).
      by rewrite (contentEqual_self st (wf_isWidget _ Ws)) in Ed. }
    assert (textGeneration obj st = wrap64 (GetGeneration st + 1)) as Eg.
    { unfold textGeneration. rewrite decide_False; [done|]. intros [E _].
      apply (not_true_iff_false (sameSpec obj st)) in Esp. by apply Esp, same_rawField_spec. }
    rewrite Eg in Hup. assert (new = combined obj st st (nextRevision r) (wrap64 (GetGeneration st + 1))) as ->.
    { rewrite <- fs_next. destruct Hov. by apply updateOf_combined. }
    rewrite (over_copy_update r obj st Hov) in Eo. injection Eo as <-. intros HQ.
    eexists s', _, _. split; [done|]. split; [exact HQ|]. apply (fsSimulates_commit r s); [done|done|].
    by apply over_update_stored.
Qed.

Lemma fsCall_UpdateStatus obj Q :
  callOk (CUpdateStatus obj) r -> specPost (CUpdateStatus obj) r Q ->
  exists s' a r', exec (CUpdateStatus obj) s = Some (s', a) /\ Q a r' /\ fsSimulates r' s'.
Proof using All.
  intros Hc. pose proof (callOk_room _ _ Hc) as Hroom. pose proof Hc as [_ [Ho _]]. unfold exec, FS_TestedStore. simpl.
  rewrite current_view. destruct fs_history as [Hwf Hok].
  pose proof (UpdateStatus_run testScheme s _ _ (fs_sim_inv _ _ Hs) Hroom (ok_kindOf obj) obj (testObject_ok _ Ho) (testObject_fs _ Ho)
    (testObject_kind _ Ho)) as Hr. cbv zeta in Hr.
  destruct (view (kindOf obj) (sHist r) !! ObjectKeyFromObject obj) as [st|] eqn:Ev; [|rewrite Hr; eauto 10].
  case_bool_decide as Hrv; [rewrite Hr; eauto 10|].
  pose proof (callOk_over r obj st Hwf Hok Hc Ev Hrv) as Hov. destruct (over_widgets _ _ _ Hov) as [Wo Ws].
  destruct Hr as (s' & o & -> & [(-> & Hun & Eo)|(new & Hup & [_ (m & Em & Ed)] & Eo & Hcm)]).
  - rewrite (over_copy_stored r obj st Hov) in Eo. injection Eo as <-.
    assert (sameStatus obj st = true) as ->; [|eauto 10]. by apply same_rawField_status.
  - assert (sameStatus obj st = false) as -> by (rewrite <- Ed; symmetry; destruct Hov; by apply noop_sameStatus).
    assert (new = combined st obj st (nextRevision r) (GetGeneration st)) as ->.
    { rewrite <- fs_next. destruct Hov. by apply statusUpdateOf_combined. }
    rewrite (over_copy_status r obj st Hov) in Eo. injection Eo as <-. intros HQ.
    eexists s', _, _. split; [done|]. split; [exact HQ|]. apply (fsSimulates_commit r s); [done|done|].
    by apply over_status_stored.
Qed.

Lemma fsCall_Delete obj Q :
  callOk (CDelete obj) r -> specPost (CDelete obj) r Q ->
  exists s' a r', exec (CDelete obj) s = Some (s', a) /\ Q a r' /\ fsSimulates r' s'.
Proof using All.
  intros Hc. pose proof (callOk_room _ _ Hc) as Hroom. pose proof Hc as [_ Ho]. unfold exec, FS_TestedStore. simpl.
  rewrite current_view.
  pose proof (Delete_run testScheme s _ _ (fs_sim_inv _ _ Hs) Hroom (ok_kindOf obj) obj (to_key _ Ho) (testObject_kind _ Ho)) as Hr.
  cbv zeta in Hr. destruct (view (kindOf obj) (sHist r) !! ObjectKeyFromObject obj) as [st|] eqn:Ev; [|rewrite Hr; eauto 10].
  destruct (_ && _); intros HQ; [rewrite Hr; eauto 10|]. destruct Hr as (s' & -> & Hcm). rewrite fs_next in Hcm.
  eexists s', _, _. split; [done|]. split; [exact HQ|].
  apply (fsSimulates_commit r s); [done|done|]. apply storedOk_snoc; [apply fs_history|done].
Qed.
End calls.

(** ** Calls on watchers, through the in-memory store *)

Definition watcherCall (c : call) : bool :=
  match c with CWatch _ _ | CReceive _ | CStop _ => true | _ => false end.

Lemma watcherCall_toMem c objs s :
  watcherCall c = true -> exec c s = (fun ma => (withMem ma.1 s, ma.2)) <$> exec c (toMem objs s).
Proof.
  unfold exec, FS_TestedStore, Mem_TestedStore. destruct c as [| | | | | |lst opts|p|p]; try done; intros _.
  - apply Watch_toMem.
  - rewrite (receive_toMem objs). by destruct (Mem.receive p (toMem objs s)).
  - unfold FS.Stop, Mem.Stop. change (FS.heap s !! p) with (Mem.heap (toMem objs s) !! p).
    destruct (Mem.heap (toMem objs s) !! p) as [w|]; [|done]. rewrite (stopClose_toMem objs).
    by destruct (Mem.stopClose p (toMem objs s)).
Qed.

Lemma watcherCall_kept c m m' a :
  watcherCall c = true -> exec c m = Some (m', a) ->
  Mem.revision m' = Mem.revision m /\ Mem.uidCounter m' = Mem.uidCounter m.
Proof.
  unfold exec, Mem_TestedStore. destruct c as [| | | | | |lst opts|p|p]; try done; intros _.
  - unfold Mem.Watch. repeat case_match; try done; by intros [= <- _].
  - destruct (Mem.receive p m) as [m1 r1] eqn:E. apply receive_kept in E. by intros [= <- _].
  - unfold Mem.Stop. destruct (Mem.heap m !! p) as [w|]; [|done].
    destruct (Mem.stopClose p m) as [m1|] eqn:E; [|done]. apply stopClose_kept in E. by intros [= <- _].
Qed.

Lemma watcherCall_hist c r Q :
  watcherCall c = true -> specPost c r Q -> specPost c r (fun a r' => Q a r' /\ sHist r' = sHist r).
Proof. destruct c; try done; intros _; simpl; repeat case_match; done. Qed.

#[export] Instance FS_Refines : Refines FS.FileStore fsSimulates.
Proof.
  intros c r s Q Hs Hc HQ. destruct (watcherCall c) eqn:Ew.
  - destruct Hs as [HI [objs Hm]]. rewrite (watcherCall_toMem c objs s Ew).
    destruct (Mem_Refines c r _ _ Hm Hc (watcherCall_hist c r Q Ew HQ)) as (m & a & r' & E & [Ha Eh] & Hm').
    rewrite E. destruct (watcherCall_kept c _ _ _ Ew E). simpl. eexists _, a, r'. split_and!; [done|done|].
    apply (fsSimulates_mem r); try done. by split; [|exists objs].
  - destruct c; [by apply (fsCall_Get r)|by apply (fsCall_List r)|by apply (fsCall_Create r)|by apply (fsCall_Update r)|
      by apply (fsCall_UpdateStatus r)|by apply (fsCall_Delete r)|done..].
Qed.
