(* ===== verification/SuitePool.v ===== *)
(** * Goroutines over a backend that refines the reference semantics

    An invariant with a measure, preserved by the steps of every goroutine in the
    reference semantics, makes a pool pass on every refining backend; a schedule
    that fails in the reference semantics fails there too. *)

From S2P Require Import Prelude GoStrconv GoJson GoJsonFacts Objects ObjectFacts NormalForms StoreSpec Backend.
From S2P Require Import MemoryStore FilesystemDisk Fixtures Suite SuiteSpec.

Import Suite.

(** What goroutine [i] may do next, in the reference semantics. *)
Definition threadPost (ts : pool) (i : nat) (r : spec) (Q : pool -> spec -> Prop) : Prop :=
  match ts !! i with
  | Some (TCall c k) => callOk c r /\ specPost c r (fun a r => Q (<[i := k a]> ts) r)
  | Some (TBlock w k) =>
      callOk (CReceive w) r /\
      specPost (CReceive w) r (fun a r => match a with Nothing => True | _ => Q (<[i := k a]> ts) r end)
  | Some (TJoin js k) => match results ts js with Some l => Q (<[i := k l]> ts) r | None => True end
  | _ => True
  end.

Definition enabled (ts : pool) (i : nat) (r : spec) : Prop :=
  match ts !! i with
  | Some (TCall c k) => True
  | Some (TBlock w k) => exists x, sWatch r !! w = Some x /\ recv (Mem.wCh x) <> WouldBlock
  | Some (TJoin js k) => is_Some (results ts js)
  | _ => False
  end.

Section refinement.
Context {S} `{TestedStore S} (sim : spec -> S -> Prop) `{!Refines S sim}.

Lemma threadPost_step ts i r s Q ts' s' :
  sim r s -> threadPost ts i r Q -> threadStep ts i s = Some (ts', s') -> exists r', Q ts' r' /\ sim r' s'.
Proof using All.
  intros Hs. unfold threadPost, threadStep. destruct (ts !! i) as [[a| |k|c k|w k|js k]|]; try done.
  - intros [Hc Hp] E. destruct (refines c r s _ Hs Hc Hp) as (s2 & a & r' & Ex & HQ & Hs2).
    rewrite Ex in E. simpl in E. simplify_eq. eauto.
  - intros [Hc Hp] E. destruct (refines (CReceive w) r s (fun a r => match a with Nothing => True | _ => Q (<[i := k a]> ts) r end) Hs Hc Hp)
      as (s2 & a & r' & Ex & HQ & Hs2).
    rewrite Ex in E. destruct a; try done; simplify_eq; eauto.
  - destruct (results ts js) as [l|]; [|done]. simpl. intros HQ E. simplify_eq. eauto.
Qed.

Lemma enabled_step ts i r s Q :
  sim r s -> threadPost ts i r Q -> enabled ts i r -> is_Some (threadStep ts i s).
Proof using All.
  intros Hs. unfold threadPost, threadStep, enabled. destruct (ts !! i) as [[a| |k|c k|w k|js k]|]; try done.
  - intros [Hc Hp] _. destruct (refines c r s _ Hs Hc Hp) as (s2 & a & r' & -> & _). eauto.
  - intros [Hc _] (x & Hx & Hne).
    destruct (refines (CReceive w) r s (fun a _ => a <> Nothing) Hs Hc) as (s2 & a & r' & -> & Ha & _).
    { simpl. rewrite Hx. by destruct (recv (Mem.wCh x)). }
    destruct a; eauto. done.
  - intros _ [l Hl]. rewrite Hl. simpl. eauto.
Qed.

(** Goroutines that have returned make no step. *)
Lemma only_first t ts i s ts' s' :
  Forall (fun t => is_Some (finished t)) ts -> threadStep (t :: ts) i s = Some (ts', s') -> i = 0.
Proof using.
  intros Hts. destruct i as [|i]; [done|]. unfold threadStep. simpl. destruct (ts !! i) as [u|] eqn:E; [|done].
  rewrite Forall_lookup in Hts. destruct (Hts i u E) as [x Hx]. by destruct u.
Qed.

Lemma finished_not_failed ts :
  Forall (fun t => is_Some (finished t)) ts -> Forall (fun t => failed t = false) ts.
Proof using. intros Hts. eapply Forall_impl; [exact Hts|]. intros u [x Hx]. by destruct u. Qed.

(** One step of the only goroutine left. *)
Lemma pool_first t ts s t' s' :
  Forall (fun t => is_Some (finished t)) ts -> failed t = false ->
  threadStep (t :: ts) 0 s = Some (t' :: ts, s') -> poolOk (t' :: ts) s' -> poolOk (t :: ts) s.
Proof using.
  intros Hts Hf E Hok. apply pool_next; [constructor; [done|by apply finished_not_failed]|by exists 0; rewrite E|].
  intros i ts2 s2 Ei. pose proof (only_first _ _ _ _ _ _ Hts Ei) as ->. rewrite E in Ei. by simplify_eq.
Qed.

(** A goroutine among others that have returned runs as a sequential test. *)
Lemma pool_alone t ts r s :
  sim r s -> wp t (fun _ _ => True) r -> Forall (fun t => is_Some (finished t)) ts -> poolOk (t :: ts) s.
Proof using All.
  intros Hs Hw Hts. revert r s Hs Hw. induction t as [a| |k IH|c k IH|w k IH|js k IH]; simpl; intros r s Hs Hw; try done.
  - apply pool_done. by constructor.
  - destruct Hw as [Hc Hp]. destruct (refines c r s _ Hs Hc Hp) as (s2 & a & r' & Ex & Hw & Hs2).
    eapply pool_first; [done|done|unfold threadStep; simpl; by rewrite Ex|by eapply IH].
  - destruct Hw as [Hc Hp].
    destruct (refines (CReceive w) r s (fun a r => match a with Nothing => False | _ => wp (k a) (fun _ _ => True) r end) Hs Hc Hp)
      as (s2 & a & r' & Ex & Hw & Hs2).
    eapply (pool_first _ _ _ (k a)); [done|done|unfold threadStep; simpl; rewrite Ex; by destruct a|]. destruct a; by eapply IH.
Qed.

(** ** Invariants *)

(** Ghost states [G] describe the pool and the reference state; each step of
    each goroutine leads to a smaller one. *)
Lemma pool_invariant {G} (I : G -> pool -> spec -> Prop) (measure : G -> nat) :
  (forall g ts r, I g ts r ->
     (forall s, sim r s -> poolOk ts s) \/
     (Forall (fun t => failed t = false) ts /\
      (forall i, threadPost ts i r (fun ts' r' => exists g', I g' ts' r' /\ measure g' < measure g)) /\
      exists i, enabled ts i r)) ->
  forall g ts r s, I g ts r -> sim r s -> poolOk ts s.
Proof using All.
  intros Hstep g. remember (measure g) as n eqn:En. revert g En.
  induction (lt_wf n) as [n _ IH]. intros g -> ts r s HI Hs.
  destruct (Hstep g ts r HI) as [Hok|(Hf & Hpost & i & Hen)]; [by apply Hok|].
  apply pool_next; [done|exists i; by eapply enabled_step|].
  intros j ts' s' E. destruct (threadPost_step ts j r s _ ts' s' Hs (Hpost j) E) as (r' & (g' & HI' & Hlt) & Hs').
  by eapply (IH (measure g')).
Qed.

(** ** Test functions *)

Lemma setUp_wp {A} (t : Test A) Q r s :
  sim r s -> wp t Q r -> exists a r' s', setUp t s = Some (a, s') /\ Q a r' /\ sim r' s'.
Proof using All.
  revert r s. induction t as [a| |k IH|c k IH|w k IH|js k IH]; simpl; intros r s Hs Hw; try done; [eauto 10|..];
    destruct Hw as [Hc Hp].
  - destruct (refines c r s _ Hs Hc Hp) as (s' & a & r' & -> & Hw & Hs'). by eapply IH.
  - destruct (refines (CReceive w) r s (fun a r => match a with Nothing => False | _ => wp (k a) Q r end) Hs Hc Hp)
      as (s' & a & r' & -> & Hw & Hs'). destruct a; [by eapply IH..|done].
Qed.

(** ** Schedules *)

Fixpoint schedulePost (choices : list nat) (ts : pool) (r : spec) (Q : pool -> spec -> Prop) : Prop :=
  match choices with
  | [] => Q ts r
  | i :: choices => enabled ts i r /\ threadPost ts i r (fun ts r => schedulePost choices ts r Q)
  end.

Lemma schedule_post choices ts r s Q :
  sim r s -> schedulePost choices ts r Q ->
  exists ts' r' s', schedule choices ts s = Some (ts', s') /\ Q ts' r' /\ sim r' s'.
Proof using All.
  revert ts r s. induction choices as [|i choices IH]; simpl; intros ts r s Hs; [eauto 10|]. intros [Hen Hp].
  destruct (enabled_step ts i r s _ Hs Hp Hen) as [[ts1 s1] E]. rewrite E.
  destruct (threadPost_step ts i r s _ ts1 s1 Hs Hp E) as (r1 & Hq & Hs1). by eapply IH.
Qed.
End refinement.
