(* ===== verification/SuiteConcurrent.v ===== *)
(** * The concurrent tests of the suite

    Goroutines that create, recolour and delete widgets of their own pass in
    every interleaving, with a consumer counting the events or with the test
    function checking the order of the events afterwards. The writers of the
    third test can starve: a schedule makes it fail on a correct store. *)

From S2P Require Import Prelude GoStrconv GoJson GoJsonFacts Objects ObjectFacts NormalForms StoreSpec Backend.
From S2P Require Import MemoryStore FilesystemDisk Fixtures Suite Storetest SuiteSpec SuitePool.

Import Suite Storetest.

(** ** Goroutines with a widget of their own *)

(** The goroutines of both tests: create and recolour, perhaps delete. *)
Definition worker (prefix : string) (del : bool) (id : nat) : Test nat :=
  let w := newTestWidget (numbered prefix id) "blue" (Z.of_nat id) in
  let* '(w, err) := Create w in
  orError err (
    let w := setColor "red" w in
    let* '(w, err) := Update w in
    orError err (if del then let* err := Delete w in orError err (TRet 0) else TRet 0)).

Lemma crudWorker_eq id : crudWorker id = worker "concurrent-" true id.
Proof. reflexivity. Qed.
Lemma monotonicityWorker_eq id : monotonicityWorker id = worker "cmon-" false id.
Proof. reflexivity. Qed.

(** Where a goroutine is: before the creation, between creation and update,
    after the update, after the deletion. *)
Inductive wstate : Type := Starting | Created (uid : string) (rv : Z) | Updated (uid : string) (rv rv' : Z) | Deleted.

Definition progress (w : wstate) : nat :=
  match w with Starting => 0 | Created _ _ => 1 | Updated _ _ _ => 2 | Deleted => 3 end.

Lemma sum_insert {A} (f : A -> nat) l i x y :
  l !! i = Some x -> sum_list_with f (<[i := y]> l) + f x = sum_list_with f l + f y.
Proof. revert i. induction l as [|z l IH]; intros [|i]; simpl; [done|done|intros [= ->]; lia|]. intros H. specialize (IH i H). lia. Qed.

Lemma sum_bound {A} (f : A -> nat) l b : Forall (fun x => f x <= b) l -> sum_list_with f l <= length l * b.
Proof. induction 1; simpl; lia. Qed.

Lemma sum_full {A} (f : A -> nat) l b : Forall (fun x => f x = b) l -> sum_list_with f l = length l * b.
Proof. induction 1; simpl; lia. Qed.

Section workers.
Context (prefix : string) (del : bool) (n : nat).

Definition blank (i : nat) : Object := newTestWidget (numbered prefix i) "blue" (Z.of_nat i).
Definition blue (i : nat) (uid : string) (rv : Z) : Object := createdAs uid (blank i) rv.
Definition red (i : nat) (uid : string) (rv rv' : Z) : Object :=
  combined (setColor "red" (blue i uid rv)) (blue i uid rv) (blue i uid rv) rv' 2.
Definition keyOf (i : nat) : ObjectKey := mkKey "default" (numbered prefix i).

Definition prog (i : nat) (w : wstate) : Test nat :=
  match w with
  | Starting => worker prefix del i
  | Created uid rv =>
      let* '(w, err) := Update (setColor "red" (blue i uid rv)) in
      orError err (if del then let* err := Delete w in orError err (TRet 0) else TRet 0)
  | Updated uid rv rv' => if del then let* err := Delete (red i uid rv rv') in orError err (TRet 0) else TRet 0
  | Deleted => TRet 0
  end.

(** How far goroutines go. *)
Definition lastStep : nat := if del then 3 else 2.

Definition holds (i : nat) (w : wstate) : option Object :=
  match w with
  | Starting | Deleted => None
  | Created uid rv => Some (blue i uid rv)
  | Updated uid rv rv' => Some (red i uid rv rv')
  end.

Hypothesis Hn : n <= 1000.
Hypothesis Hkeys : forall i, i < n -> okKey (keyOf i) = true.
Hypothesis Hnames : forall i j, i < n -> j < n -> keyOf i = keyOf j -> i = j.

(** The goroutines and the objects of the store. *)
Record workersAt (ws : list wstate) (r : spec) : Prop := {
  wa_length : length ws = n;
  wa_last : Forall (fun w => progress w <= lastStep) ws;
  wa_stored : forall i w, ws !! i = Some w -> current widgetGVK (keyOf i) (sHist r) = holds i w;
  wa_hist : length (sHist r) = sum_list_with progress ws;
}.

Lemma size_ok i : i < n -> in_int64 (Z.of_nat i) = true.
Proof using Hn. intros Hi. apply in_int64_spec. unfold min_int64, max_int64. lia. Qed.

Ltac test_object Hi :=
  split; [left; split; [reflexivity|exact (size_ok _ Hi)]|exact (Hkeys _ Hi)|discriminate|reflexivity|reflexivity].

Lemma testObject_blank i : i < n -> testObject (blank i).
Proof using Hn Hkeys. intros Hi. test_object Hi. Qed.
Lemma testObject_blue i uid rv : i < n -> testObject (setColor "red" (blue i uid rv)).
Proof using Hn Hkeys. intros Hi. test_object Hi. Qed.
Lemma testObject_red i uid rv rv' : i < n -> testObject (red i uid rv rv').
Proof using Hn Hkeys. intros Hi. test_object Hi. Qed.

(** What a goroutine's change leaves for the others. *)
Lemma workersAt_commit ws r i w w' ev :
  workersAt ws r -> ws !! i = Some w -> progress w' = S (progress w) -> progress w' <= lastStep ->
  ObjectKeyFromObject (evObject ev) = keyOf i ->
  holds i w' = match evType ev with EventAdded | EventModified => Some (evObject ev) | _ => None end ->
  evType ev <> EventBookmark ->
  workersAt (<[i := w']> ws) (commit widgetGVK ev r).
Proof using All.
  intros [Hl Hlast Hst Hh] Hi Hp Hp' Hk Hs Hne. pose proof (lookup_lt_Some _ _ _ Hi) as Hlt.
  split; simpl; [by rewrite length_insert|by apply Forall_insert| |].
  - intros j wj Hj. rewrite current_snoc. unfold applyAt. cbn [cGVK cEvent]. rewrite (bool_decide_true (widgetGVK = widgetGVK)) by done.
    rewrite Hk. destruct (decide (j = i)) as [->|Hji].
    + rewrite list_lookup_insert_eq in Hj by done. simplify_eq. rewrite bool_decide_true, Hs by done. by destruct (evType ev).
    + rewrite list_lookup_insert_ne in Hj by done. rewrite bool_decide_false; [by apply Hst|].
      intros E. apply Hji. symmetry. apply Hnames; [lia| |done]. apply lookup_lt_Some in Hj. lia.
  - rewrite length_app, Hh. simpl. pose proof (sum_insert progress ws i w w' Hi). lia.
Qed.

Lemma workersAt_small ws r : workersAt ws r -> (Z.of_nat (length (sHist r)) < 1000000)%Z.
Proof using Hn.
  intros [Hl Hlast _ Hh]. pose proof (sum_bound progress ws lastStep Hlast) as Hb. unfold lastStep in Hb. destruct del; nia.
Qed.

(** The goroutine's next call succeeds, changes its own object and moves it on. *)
Lemma worker_post ws r i w :
  workersAt ws r -> ws !! i = Some w -> progress w < lastStep ->
  exists c k, prog i w = TCall c k /\ callOk c r /\
    specPost c r (fun a r' => exists w' ev, k a = prog i w' /\ progress w' = S (progress w) /\
      r' = commit widgetGVK ev r /\ GetResourceVersion (evObject ev) = FormatInt (nextRevision r) /\
      workersAt (<[i := w']> ws) r').
Proof using All.
  intros Hws Hi Hlt. pose proof (workersAt_small ws r Hws) as Hsmall. pose proof (wa_stored _ _ Hws i w Hi) as Hcur.
  assert (i < n) as Hin by (rewrite <- (wa_length _ _ Hws); by eapply lookup_lt_Some).
  destruct w as [|uid rv|uid rv rv'|]; simpl in Hcur.
  - eexists _, _. split; [reflexivity|]. split; [split; [done|split; [by apply testObject_blank|done]]|].
    simpl. change (kindOf _) with widgetGVK. change (ObjectKeyFromObject _) with (keyOf i). rewrite Hcur.
    intros uid _. exists (Created uid (nextRevision r)). eexists. split; [reflexivity|]. split; [done|]. split; [reflexivity|].
    split; [done|]. by eapply (workersAt_commit ws r i Starting).
  - eexists _, _. split; [reflexivity|].
    split; [split; [done|split; [by apply testObject_blue|]]|].
    { change (kindOf _) with widgetGVK. change (ObjectKeyFromObject _) with (keyOf i). rewrite Hcur. by intros st [= <-] _. }
    simpl. change (kindOf _) with widgetGVK. change (ObjectKeyFromObject _) with (keyOf i). rewrite Hcur.
    rewrite bool_decide_false by tauto.
    assert (sameSpec (setColor "red" (blue i uid rv)) (blue i uid rv) = false) as -> by reflexivity.
    exists (Updated uid rv (nextRevision r)). eexists. split; [reflexivity|]. split; [done|]. split; [reflexivity|].
    split; [done|]. by eapply (workersAt_commit ws r i (Created uid rv)).
  - destruct del eqn:Ed; [|simpl in Hlt; unfold lastStep in Hlt; rewrite Ed in Hlt; lia].
    exists (CDelete (red i uid rv rv')), (fun err => orError err (TRet 0)). split; [unfold prog; by rewrite Ed|].
    split; [split; [done|by apply testObject_red]|].
    simpl. change (kindOf _) with widgetGVK. change (ObjectKeyFromObject _) with (keyOf i). rewrite Hcur.
    rewrite (bool_decide_false (GetResourceVersion _ <> GetResourceVersion _)) by tauto. rewrite andb_false_r.
    exists Deleted. eexists. split; [reflexivity|]. split; [done|]. split; [reflexivity|].
    split; [done|]. by eapply (workersAt_commit ws r i (Updated uid rv rv')).
  - simpl in Hlt. unfold lastStep in Hlt. destruct del; lia.
Qed.
End workers.

(** ** The watcher *)

(** The only watcher, opened before the first change: all events but the first
    [c], which have been received; revisions number the changes. *)
Record watcherAt (c : nat) (closed : bool) (r : spec) : Prop := {
  wt_watch : sWatch r = [Mem.mkWatcher widgetGVK (Chan (drop c (map cEvent (sHist r))) 100 closed) closed];
  wt_count : c <= length (sHist r);
  wt_rv : forall j ch, sHist r !! j = Some ch -> GetResourceVersion (evObject (cEvent ch)) = FormatInt (Z.of_nat j + 1);
}.

Lemma watcherAt_commit c ev r :
  watcherAt c false r -> length (sHist r) < 100 -> GetResourceVersion (evObject ev) = FormatInt (nextRevision r) ->
  watcherAt c false (commit widgetGVK ev r).
Proof.
  intros [Hw Hc Hrv] Hl Hev. split; simpl.
  - rewrite Hw, map_app. unfold deliver. cbn [map Mem.wGVK]. rewrite (bool_decide_true (widgetGVK = widgetGVK)) by done.
    unfold Mem.send, trySend. cbn [Mem.wClosed Mem.wCh chClosed buf cap]. rewrite bool_decide_true by (rewrite length_drop, length_map; lia).
    cbn. by rewrite drop_app_le by (rewrite length_map; lia).
  - rewrite length_app. simpl. lia.
  - intros j ch [Hj|[Hge Hj]]%lookup_app_Some; [by apply Hrv|].
    destruct (j - length (sHist r)) as [|m] eqn:E; simpl in Hj; simplify_eq/=. rewrite Hev. unfold nextRevision. f_equal. lia.
Qed.

Lemma watcherAt_receive c closed r :
  watcherAt c closed r ->
  match recv (Chan (drop c (map cEvent (sHist r))) 100 closed) with
  | Received e ch => c < length (sHist r) /\ GetResourceVersion (evObject e) = FormatInt (Z.of_nat c + 1) /\
      watcherAt (S c) closed (setWatcher 0 (Mem.mkWatcher widgetGVK ch closed) r)
  | RecvClosed => closed = true /\ c = length (sHist r)
  | WouldBlock => closed = false /\ c = length (sHist r)
  end.
Proof.
  intros [Hw Hc Hrv]. destruct (decide (c < length (sHist r))) as [Hlt|Hge].
  - destruct (lookup_lt_is_Some_2 _ _ Hlt) as [ch Hch].
    erewrite (drop_S _ _ c) by (change (map cEvent (sHist r)) with (cEvent <$> sHist r); by rewrite list_lookup_fmap, Hch).
    simpl. split_and!; [done|by apply Hrv|]. split; simpl; [by rewrite Hw|lia|done].
  - rewrite drop_ge by (rewrite length_map; lia). simpl. destruct closed; split; [done|lia|done|lia].
Qed.

(** ** Pools *)

Lemma imap_insert {A B} (f : nat -> A -> B) l i x : i < length l -> imap f (<[i := x]> l) = <[i := f i x]> (imap f l).
Proof.
  intros Hi. apply list_eq. intros j. rewrite list_lookup_imap. destruct (decide (j = i)) as [->|].
  - rewrite !list_lookup_insert_eq by (by rewrite ?length_imap). done.
  - by rewrite !list_lookup_insert_ne, list_lookup_imap by done.
Qed.

Lemma prog_finished prefix del i w x :
  finished (prog prefix del i w) = Some x -> progress w <= lastStep del -> x = 0 /\ progress w = lastStep del.
Proof. unfold lastStep. by destruct w, del; simpl; intros [= <-]; try lia. Qed.

Lemma prog_last prefix del i w : progress w = lastStep del -> prog prefix del i w = TRet 0.
Proof. unfold lastStep. by destruct w, del. Qed.

Lemma prog_failed prefix del i w : failed (prog prefix del i w) = false.
Proof. by destruct w, del. Qed.

Section join.
Context (prefix : string) (del : bool) (front : list (Test nat)) (ws : list wstate).
Hypothesis Hlast : Forall (fun w => progress w <= lastStep del) ws.

(** Waiting for the goroutines returns when all of them are through. *)
Lemma results_all :
  is_Some (results (front ++ imap (prog prefix del) ws) (seq (length front) (length ws))) <->
  Forall (fun w => progress w = lastStep del) ws.
Proof using All.
  unfold results. rewrite mapM_is_Some, !Forall_lookup. split.
  - intros H i w Hi. pose proof (lookup_lt_Some _ _ _ Hi) as Hlt.
    destruct (H i (length front + i)) as [x Hx]; [by apply lookup_seq_lt|]. simpl in Hx.
    rewrite lookup_app_r, list_lookup_imap in Hx by lia. replace (length front + i - length front) with i in Hx by lia.
    rewrite Hi in Hx. simpl in Hx. rewrite Forall_lookup in Hlast. by apply prog_finished in Hx as [_ ?]; [|eauto].
  - intros H i j Hj. apply lookup_seq in Hj as [-> Hlt]. simpl. rewrite lookup_app_r, list_lookup_imap by lia.
    replace (length front + i - length front) with i by lia.
    destruct (lookup_lt_is_Some_2 _ _ Hlt) as [w Hw]. rewrite Hw. simpl. rewrite (prog_last _ _ _ _ (H i w Hw)). by eexists.
Qed.

Lemma workers_running : ~ Forall (fun w => progress w = lastStep del) ws -> exists i w, ws !! i = Some w /\ progress w < lastStep del.
Proof using All.
  intros H. apply not_Forall_Exists in H; [|intros w; apply _]. apply Exists_exists in H as (w & Hw & Hne).
  apply list_elem_of_lookup in Hw as [i Hi]. exists i, w. split; [done|]. rewrite Forall_lookup in Hlast.
  specialize (Hlast i w Hi). simpl in Hlast, Hne. lia.
Qed.
End join.

Section pools.
Context (prefix : string) (del : bool) (n : nat).
Hypothesis Hn : n <= 1000.
Hypothesis Hkeys : forall i, i < n -> okKey (keyOf prefix i) = true.
Hypothesis Hnames : forall i j, i < n -> j < n -> keyOf prefix i = keyOf prefix j -> i = j.

Definition poolOf (front : list (Test nat)) (ws : list wstate) : pool := front ++ imap (prog prefix del) ws.

(** A step of one of the goroutines behind [front]. *)
Lemma poolOf_worker front ws r i Q :
  workersAt prefix del n ws r -> length front <= i ->
  (forall j w w' ev, ws !! j = Some w -> progress w' = S (progress w) ->
     GetResourceVersion (evObject ev) = FormatInt (nextRevision r) ->
     workersAt prefix del n (<[j := w']> ws) (commit widgetGVK ev r) ->
     Q (poolOf front (<[j := w']> ws)) (commit widgetGVK ev r)) ->
  threadPost (poolOf front ws) i r Q.
Proof using All.
  intros Hws Hi HQ. unfold threadPost, poolOf. rewrite lookup_app_r, list_lookup_imap by done.
  destruct (ws !! (i - length front)) as [w|] eqn:Hw; [|done]. simpl.
  set (j := i - length front) in *. pose proof (lookup_lt_Some _ _ _ Hw) as Hlt.
  assert (progress w <= lastStep del) as Hle by (pose proof (wa_last _ _ _ _ _ Hws) as Hl; rewrite Forall_lookup in Hl; eauto).
  destruct (decide (progress w = lastStep del)) as [E|E]; [by rewrite prog_last|].
  destruct (worker_post prefix del n Hn Hkeys Hnames ws r j w Hws Hw) as (c & k & -> & Hc & Hp); [lia|].
  split; [done|]. eapply specPost_mono; [|exact Hp]. intros a r' (w' & ev & -> & Hpr & -> & Hrv & Hws').
  replace i with (length front + j) by lia. rewrite insert_app_r, <- imap_insert by done. by apply (HQ j w w' ev).
Qed.

Lemma poolOf_enabled front ws r :
  workersAt prefix del n ws r -> ~ Forall (fun w => progress w = lastStep del) ws -> exists i, enabled (poolOf front ws) i r.
Proof using All.
  intros Hws Hnot. destruct (workers_running prefix del front ws (wa_last _ _ _ _ _ Hws) Hnot) as (j & w & Hw & Hlt).
  exists (length front + j). unfold enabled, poolOf. rewrite lookup_app_r, list_lookup_imap by lia.
  replace (length front + j - length front) with j by lia. rewrite Hw. simpl.
  by destruct (worker_post prefix del n Hn Hkeys Hnames ws r j w Hws Hw Hlt) as (c & k & -> & _).
Qed.

Lemma poolOf_failed front ws :
  Forall (fun t => failed t = false) front -> Forall (fun t => failed t = false) (poolOf front ws).
Proof using.
  intros Hf. apply Forall_app_2; [done|]. apply Forall_lookup. intros i t. rewrite list_lookup_imap.
  destruct (ws !! i); [|done]. simpl. intros [= <-]. apply prog_failed.
Qed.

Lemma poolOf_finished front ws :
  Forall (fun t => is_Some (finished t)) front -> Forall (fun w => progress w = lastStep del) ws ->
  Forall (fun t => is_Some (finished t)) (poolOf front ws).
Proof using.
  intros Hf Hw. apply Forall_app_2; [done|]. apply Forall_lookup. intros i t. rewrite list_lookup_imap.
  destruct (ws !! i) as [w|] eqn:E; [|done]. simpl. intros [= <-]. rewrite Forall_lookup in Hw.
  rewrite (prog_last _ _ _ _ (Hw i w E)). by eexists.
Qed.
End pools.

Lemma wp_watch {A} (f : nat -> Test A) Q :
  wp (f 0) Q (openWatcher widgetGVK [] (mkSpec [] 1000 [])) -> wp (let* watcher := mustWatch [] in f watcher) Q (mkSpec [] 1000 []).
Proof. intros H. apply wp_bind. simpl. done. Qed.

(** ** Goroutines with an event counter *)

Section crud.
Context {S} `{TestedStore S} (sim : spec -> S -> Prop) `{!Refines S sim} (cfg : Config S).

(** How many events have been counted, whether the counter has returned, how
    far the test function is. *)
Record crud : Type := mkCrud { gWorkers : list wstate; gCount : nat; gDone : bool; gMain : nat }.

Definition checkCount (counts : list nat) : Test nat :=
  let count := sum_list counts in
  (if SkipConcurrencyWatchCount cfg then errorIf (bool_decide (count = 0))
   else errorIf (bool_decide (count <> 10 * 3))) ;*
  TRet 0.
Definition crudMain (m : nat) : Test nat :=
  match m with
  | 0 => TJoin (seq 2 10) (fun _ => Stop 0 ;* TJoin [1] checkCount)
  | 1 => Stop 0 ;* TJoin [1] checkCount
  | 2 => TJoin [1] checkCount
  | _ => TRet 0
  end.
Definition counter (g : crud) : Test nat :=
  if gDone g then TRet (gCount g) else eventCounter (100 - gCount g) 0 (gCount g).
Definition crudPool (g : crud) : pool := poolOf "concurrent-" true [crudMain (gMain g); counter g] (gWorkers g).

Record crudAt (g : crud) (ts : pool) (r : spec) : Prop := {
  ca_pool : ts = crudPool g;
  ca_workers : workersAt "concurrent-" true 10 (gWorkers g) r;
  ca_watcher : watcherAt (gCount g) (bool_decide (2 <= gMain g)) r;
  ca_joined : 1 <= gMain g -> Forall (fun w => progress w = 3) (gWorkers g);
  ca_done : gDone g = true -> 2 <= gMain g /\ gCount g = 30;
  ca_main : gMain g = 3 -> gDone g = true;
  ca_main_le : gMain g <= 3;
}.

Definition crudMeasure (g : crud) : nat :=
  (30 - sum_list_with progress (gWorkers g)) + (30 - gCount g) + (if gDone g then 0 else 1) + (3 - gMain g).

Lemma crud_keys i : i < 10 -> okKey (keyOf "concurrent-" i) = true.
Proof. do 10 (destruct i as [|i]; [reflexivity|]). lia. Qed.

Lemma crud_names i j : i < 10 -> j < 10 -> keyOf "concurrent-" i = keyOf "concurrent-" j -> i = j.
Proof. do 10 (destruct i as [|i]; [do 10 (destruct j as [|j]; [done || discriminate|]); lia|]). lia. Qed.

Lemma crud_length g ts r : crudAt g ts r ->
  length (sHist r) <= 30 /\ gCount g <= 30 /\ length (sHist r) = sum_list_with progress (gWorkers g) /\
  (1 <= gMain g -> length (sHist r) = 30).
Proof.
  intros [_ [Hl Hlast _ Hh] [_ Hc _] Hj _ _ _]. pose proof (sum_bound progress _ _ Hlast) as Hb. rewrite Hl in Hb. simpl in Hb.
  split_and!; [lia|lia|done|]. intros Hm. by rewrite Hh, (sum_full progress _ 3 (Hj Hm)), Hl.
Qed.

Lemma counter_running c : c <= 30 ->
  eventCounter (100 - c) 0 c =
  TBlock 0 (fun r => match r with Got _ => eventCounter (100 - Datatypes.S c) 0 (Datatypes.S c) | ChanClosed => TRet c | Nothing => TFatal end).
Proof. intros Hc. by replace (100 - c) with (Datatypes.S (100 - Datatypes.S c)) by lia. Qed.

Lemma crud_main_post g ts r : crudAt g ts r ->
  threadPost ts 0 r (fun ts' r' => exists g', crudAt g' ts' r' /\ crudMeasure g' < crudMeasure g).
Proof.
  intros Hg. destruct (crud_length g ts r Hg) as (Hl30 & Hc30 & Hsum & Hfull).
  pose proof Hg as [-> Hws Hwt Hj Hd Hm Hle]. destruct g as [ws c d m]. unfold threadPost. simpl in *.
  change (crudPool _ !! 0) with (Some (crudMain m)). destruct m as [|[|[|m]]]; unfold crudMain.
  - destruct (results _ _) as [l|] eqn:Er; [|done].
    assert (Forall (fun w => progress w = 3) ws) as Hall.
    { apply (results_all "concurrent-" true [crudMain 0; counter (mkCrud ws c d 0)] ws (wa_last _ _ _ _ _ Hws)).
      rewrite (wa_length _ _ _ _ _ Hws). by exists l. }
    exists (mkCrud ws c d 1). split; [|unfold crudMeasure; simpl; lia].
    split; simpl; try done; [intros Hdt; destruct (Hd Hdt); lia|lia].
  - split; [split; [lia|rewrite (wt_watch _ _ _ Hwt); simpl; lia]|].
    simpl. rewrite (wt_watch _ _ _ Hwt). simpl.
    exists (mkCrud ws c d 2). split; [|unfold crudMeasure; simpl; lia].
    split; simpl; try done; [by destruct Hws| |by auto|intros Hdt; destruct (Hd Hdt); lia|lia].
    destruct Hwt as [Hw Hcc Hrv]. split; simpl; [by rewrite Hw|done|done].
  - destruct d.
    2: { unfold results, crudPool, poolOf, counter. simpl. by rewrite counter_running. }
    destruct (Hd eq_refl) as [_ ->]. change (results _ [1]) with (Some [30]). cbv iota.
    exists (mkCrud ws 30 true 3). split; [|unfold crudMeasure; simpl; lia].
    split; simpl; [|done|done|auto with lia|auto with lia|done|lia]. unfold checkCount. by destruct (SkipConcurrencyWatchCount cfg).
  - done.
Qed.

Lemma crud_counter_post g ts r : crudAt g ts r ->
  threadPost ts 1 r (fun ts' r' => exists g', crudAt g' ts' r' /\ crudMeasure g' < crudMeasure g).
Proof.
  intros Hg. destruct (crud_length g ts r Hg) as (Hl30 & Hc30 & Hsum & Hfull).
  pose proof Hg as [-> Hws Hwt Hj Hd Hm Hle]. destruct g as [ws c d m]. unfold threadPost. simpl in *.
  change (crudPool _ !! 1) with (Some (counter (mkCrud ws c d m))). unfold counter. destruct d; [done|]. cbn [gDone gCount].
  rewrite (counter_running c Hc30). split; [split; [lia|rewrite (wt_watch _ _ _ Hwt); simpl; lia]|].
  simpl. rewrite (wt_watch _ _ _ Hwt). cbn [lookup list_lookup Mem.wCh Mem.wGVK Mem.wClosed].
  pose proof (watcherAt_receive c _ r Hwt) as Hr. destruct (recv _) as [e ch| |]; [| |done].
  - destruct Hr as (Hlt & _ & Hwt'). exists (mkCrud ws (Datatypes.S c) false m).
    split; [|unfold crudMeasure; simpl; lia]. split; simpl; try done. by destruct Hws.
  - destruct Hr as [Hcl ->]. apply bool_decide_eq_true in Hcl. exists (mkCrud ws (length (sHist r)) true m).
    split; [|unfold crudMeasure; simpl; lia]. split; simpl; try done. intros _. split; [done|]. apply Hfull. lia.
Qed.

Lemma crud_worker_post g ts r i : crudAt g ts r ->
  threadPost ts (2 + i) r (fun ts' r' => exists g', crudAt g' ts' r' /\ crudMeasure g' < crudMeasure g).
Proof.
  intros Hg. destruct (crud_length g ts r Hg) as (Hl30 & Hc30 & Hsum & Hfull).
  pose proof Hg as [-> Hws Hwt Hj Hd Hm Hle]. destruct g as [ws c d m]. simpl in *.
  apply (poolOf_worker "concurrent-" true 10 ltac:(lia) crud_keys crud_names); [done|simpl; lia|].
  intros j w w' ev Hw Hp Hev Hws'. pose proof (sum_insert progress ws j w w' Hw) as Hins.
  assert (progress w' <= 3) as Hw'.
  { pose proof (wa_last _ _ _ _ _ Hws') as Hlast. rewrite Forall_lookup in Hlast.
    apply (Hlast j). apply list_lookup_insert_eq. by eapply lookup_lt_Some. }
  assert (m = 0) as ->.
  { destruct m; [done|]. specialize (Hj ltac:(lia)). rewrite Forall_lookup in Hj. specialize (Hj j w Hw). simpl in Hj. lia. }
  assert (d = false) as -> by (destruct d; [destruct (Hd eq_refl); lia|done]).
  assert (sum_list_with progress (<[j := w']> ws) <= 30) as Hle30.
  { pose proof (sum_bound progress _ _ (wa_last _ _ _ _ _ Hws')) as Hb. rewrite (wa_length _ _ _ _ _ Hws') in Hb. exact Hb. }
  exists (mkCrud (<[j := w']> ws) c false 0). split; [|unfold crudMeasure; simpl; lia].
  split; simpl; try done; [|lia]. apply watcherAt_commit; [done|lia|done].
Qed.

Lemma crud_step g ts r : crudAt g ts r ->
  (forall s, sim r s -> poolOk ts s) \/
  (Forall (fun t => failed t = false) ts /\
   (forall i, threadPost ts i r (fun ts' r' => exists g', crudAt g' ts' r' /\ crudMeasure g' < crudMeasure g)) /\
   exists i, enabled ts i r).
Proof.
  intros Hg. destruct (crud_length g ts r Hg) as (Hl30 & Hc30 & Hsum & Hfull).
  pose proof Hg as [-> Hws Hwt Hj Hd Hm Hle]. destruct (decide (gMain g = 3)) as [E|E].
  { left. intros s _. apply pool_done. apply poolOf_finished; [|apply Hj; lia].
    unfold counter. rewrite E, (Hm E). repeat constructor; by eexists. }
  right. split; [|split].
  - apply poolOf_failed. constructor; [destruct (gMain g) as [|[|[|]]]; done|constructor; [|done]].
    unfold counter. destruct (gDone g); [done|]. by rewrite counter_running.
  - intros [|[|i]]; [by apply crud_main_post|by apply crud_counter_post|by apply crud_worker_post].
  - destruct (decide (Forall (fun w => progress w = 3) (gWorkers g))) as [Hall|Hnot];
      [|by apply (poolOf_enabled "concurrent-" true 10 ltac:(lia) crud_keys crud_names)].
    destruct g as [ws c d m]. simpl in *. destruct m as [|[|[|m]]]; [exists 0|by exists 0| |lia].
    + unfold enabled. change (crudPool _ !! 0) with (Some (crudMain 0)). unfold crudMain.
      rewrite <- (wa_length _ _ _ _ _ Hws). unfold crudPool, poolOf.
      by apply (results_all "concurrent-" true [_; _] ws (wa_last _ _ _ _ _ Hws)).
    + destruct d; [exists 0; unfold enabled; simpl; eauto|]. exists 1. unfold enabled.
      change (crudPool _ !! 1) with (Some (counter (mkCrud ws c false 2))). unfold counter. cbn [gDone gCount].
      rewrite counter_running by done. eexists. split; [by rewrite (wt_watch _ _ _ Hwt)|]. cbn [Mem.wCh].
      pose proof (watcherAt_receive _ _ _ Hwt) as Hr. cbn [gMain] in Hr. intros E'. rewrite E' in Hr. by destruct Hr.
Qed.

(** The test passes in every interleaving. *)
Lemma crud_passes s : sim (mkSpec [] 1000 []) s -> passedConcurrent (concurrent_CRUD_with_watcher cfg) s.
Proof using Refines0.
  intros Hs. destruct (setUp_wp sim (concurrent_CRUD_with_watcher cfg) (fun ts r =>
    crudAt (mkCrud (replicate 10 Starting) 0 false 0) ts r) (mkSpec [] 1000 []) s Hs) as (ts & r & s' & E & Hr & Hs').
  - simpl. split; [done|]. split; [done|..|done|done|simpl; lia]; cbn [gWorkers gCount gMain].
    + split; [done|apply (Forall_replicate _ 10); simpl; lia|intros i w Hi; by apply (lookup_replicate 10) in Hi as [-> _]|done].
    + split; [done|done|]. by intros j ch Hj.
    + lia.
  - exists ts, s'. split; [done|]. by eapply (pool_invariant sim crudAt crudMeasure crud_step).
Qed.
End crud.

(** ** Goroutines and the order of their events *)

Lemma drain_in_order fuel c r :
  watcherAt c false r -> length (sHist r) <= 10 -> length (sHist r) - c < fuel ->
  wp (drainViolations fuel 0 (Z.of_nat c) 0) (fun violations r' => violations = 0 /\ watcherAt (length (sHist r')) false r' /\
    length (sHist r') <= 10) r.
Proof.
  revert c r. induction fuel as [|fuel IH]; intros c r Hwt Hl Hf; [lia|]. simpl.
  split; [split; [lia|rewrite (wt_watch _ _ _ Hwt); simpl; lia]|].
  rewrite (wt_watch _ _ _ Hwt). cbn [lookup list_lookup Mem.wCh Mem.wGVK Mem.wClosed].
  pose proof (watcherAt_receive c false r Hwt) as Hr. destruct (recv _) as [e ch| |]; [|by destruct Hr|].
  - destruct Hr as (Hlt & Hrv & Hwt'). simpl. rewrite Hrv, ParseInt_FormatInt by (apply in_int64_spec; unfold min_int64, max_int64; lia).
    cbn [fst]. rewrite (proj2 (Z.leb_gt _ _)) by lia. replace (Z.of_nat c + 1)%Z with (Z.of_nat (S c)) by lia.
    apply IH; simpl; [done|done|lia].
  - destruct Hr as [_ ->]. simpl. done.
Qed.

Section monotonicity.
Context {S} `{TestedStore S} (sim : spec -> S -> Prop) `{!Refines S sim}.

Definition monoRest : Test nat :=
  let* violations := drainViolations 100 0 0 0 in
  errorIf (bool_decide (0 < violations)) ;*
  Stop 0 ;*
  TRet 0.

Lemma monoRest_wp r : watcherAt 0 false r -> length (sHist r) <= 10 -> wp monoRest (fun _ _ => True) r.
Proof.
  intros Hwt Hl. apply wp_bind. eapply wp_mono; [|apply (drain_in_order 100 0); [done|done|lia]].
  intros v r' (-> & Hwt' & Hl'). simpl. split; [split; [lia|rewrite (wt_watch _ _ _ Hwt'); simpl; lia]|].
  by rewrite (wt_watch _ _ _ Hwt').
Qed.

Definition monoPool (joined : bool) (ws : list wstate) : pool :=
  poolOf "cmon-" false [if joined then monoRest else TJoin (seq 1 5) (fun _ => monoRest)] ws.

Record monoAt (g : list wstate * bool) (ts : pool) (r : spec) : Prop := {
  ma_pool : ts = monoPool g.2 g.1;
  ma_workers : workersAt "cmon-" false 5 g.1 r;
  ma_watcher : watcherAt 0 false r;
  ma_joined : g.2 = true -> Forall (fun w => progress w = 2) g.1;
}.

Definition monoMeasure (g : list wstate * bool) : nat := (10 - sum_list_with progress g.1) + (if g.2 then 0 else 1).

Lemma insert_first {A} (x y : A) l : <[0 := y]> (x :: l) = y :: l.
Proof. done. Qed.

Lemma mono_keys i : i < 5 -> okKey (keyOf "cmon-" i) = true.
Proof. do 5 (destruct i as [|i]; [reflexivity|]). lia. Qed.

Lemma mono_names i j : i < 5 -> j < 5 -> keyOf "cmon-" i = keyOf "cmon-" j -> i = j.
Proof. do 5 (destruct i as [|i]; [do 5 (destruct j as [|j]; [done || discriminate|]); lia|]). lia. Qed.

Lemma mono_length g ts r : monoAt g ts r -> length (sHist r) <= 10 /\ length (sHist r) = sum_list_with progress g.1.
Proof.
  intros [_ [Hl Hlast _ Hh] _ _]. pose proof (sum_bound progress _ _ Hlast) as Hb. rewrite Hl in Hb. simpl in Hb. lia.
Qed.

Lemma mono_post g ts r i : monoAt g ts r -> g.2 = false ->
  threadPost ts i r (fun ts' r' => exists g', monoAt g' ts' r' /\ monoMeasure g' < monoMeasure g).
Proof.
  intros Hg Ej. destruct (mono_length g ts r Hg) as [Hl Hsum]. pose proof Hg as [-> Hws Hwt _]. destruct g as [ws j]. simpl in *. subst j.
  destruct i as [|i].
  - unfold threadPost. change (monoPool false ws !! 0) with (Some (TJoin (seq 1 5) (fun _ => monoRest))). cbv iota beta.
    destruct (results _ _) as [l|] eqn:Er; [|done]. exists (ws, true). split; [|unfold monoMeasure; simpl; lia].
    split; [exact (insert_first _ _ _)|exact Hws|exact Hwt|]. intros _. apply (results_all "cmon-" false [TJoin (seq 1 5) (fun _ => monoRest)] ws (wa_last _ _ _ _ _ Hws)).
    simpl length. rewrite (wa_length _ _ _ _ _ Hws). by exists l.
  - apply (poolOf_worker "cmon-" false 5 ltac:(lia) mono_keys mono_names); [done|simpl; lia|].
    intros j w w' ev Hw Hp Hev Hws'. pose proof (sum_insert progress ws j w w' Hw) as Hins.
    pose proof (sum_bound progress _ _ (wa_last _ _ _ _ _ Hws')) as Hb. rewrite (wa_length _ _ _ _ _ Hws') in Hb. simpl in Hb.
    exists (<[j := w']> ws, false). split; [|unfold monoMeasure; simpl; lia].
    split; [reflexivity|exact Hws'| |discriminate]. apply watcherAt_commit; [exact Hwt|lia|exact Hev].
Qed.

Lemma mono_step g ts r : monoAt g ts r ->
  (forall s, sim r s -> poolOk ts s) \/
  (Forall (fun t => failed t = false) ts /\
   (forall i, threadPost ts i r (fun ts' r' => exists g', monoAt g' ts' r' /\ monoMeasure g' < monoMeasure g)) /\
   exists i, enabled ts i r).
Proof using Refines0.
  intros Hg. destruct (mono_length g ts r Hg) as [Hl Hsum]. pose proof Hg as [-> Hws Hwt Hj]. destruct g as [ws [|]]; simpl in *.
  - left. intros s Hs. apply (pool_alone sim monoRest _ r); [done|by apply monoRest_wp|].
    apply (poolOf_finished "cmon-" false []); [constructor|by apply Hj].
  - right. split; [by apply poolOf_failed; repeat constructor|]. split; [intros i; by apply mono_post|].
    destruct (decide (Forall (fun w => progress w = 2) ws)) as [Hall|Hnot];
      [|by apply (poolOf_enabled "cmon-" false 5 ltac:(lia) mono_keys mono_names)].
    exists 0. unfold enabled. change (monoPool false ws !! 0) with (Some (TJoin (seq 1 5) (fun _ => monoRest))). cbv iota.
    rewrite <- (wa_length _ _ _ _ _ Hws). unfold monoPool, poolOf.
    by apply (results_all "cmon-" false [_] ws (wa_last _ _ _ _ _ Hws)).
Qed.

Lemma mono_passes s : sim (mkSpec [] 1000 []) s -> passedConcurrent concurrent_updates_preserve_monotonicity s.
Proof using Refines0.
  intros Hs. destruct (setUp_wp sim concurrent_updates_preserve_monotonicity (fun ts r =>
    monoAt (replicate 5 Starting, false) ts r) (mkSpec [] 1000 []) s Hs) as (ts & r & s' & E & Hr & Hs').
  - apply (wp_watch (fun watcher => TRet _)). split; cbn [fst snd]; [|..|discriminate].
    + unfold monoPool, poolOf, monoRest. cbn [app]. f_equal.
    + split; [done|apply (Forall_replicate _ 5); simpl; lia|intros i w Hi; by apply (lookup_replicate 5) in Hi as [-> _]|done].
    + split; [done|done|]. by intros j ch Hj.
  - exists ts, s'. split; [done|]. by eapply (pool_invariant sim monoAt monoMeasure mono_step).
Qed.
End monotonicity.
