(* ===== verification/SuiteStarvation.v ===== *)
(** * A schedule under which writers starve

    The test of concurrent spec and status writers demands that some spec writer
    gets through, but each gives up after ten conflicts. When a status write
    comes between every read and update of the spec writers, ten status writers
    are enough to make them all give up, and the test fails on a store that does
    what the contract says. *)

From S2P Require Import Prelude GoStrconv GoJson GoJsonFacts Objects ObjectFacts NormalForms StoreSpec Backend.
From S2P Require Import MemoryStore FilesystemDisk Fixtures Suite Storetest SuiteSpec SuitePool StoretestProofs.

Import Suite Storetest.

(** Every spec writer reads, a status writer reads and writes, every spec writer
    tries to update. *)
Definition round (k : nat) : list nat := seq 1 10 ++ [11 + k; 11 + k] ++ seq 1 10.

Definition starving : list nat := flat_map round (seq 0 10) ++ [0; 0].

(** The test function has reported a failure. *)
Definition testFailed (ts : pool) : Prop := exists t, ts !! 0 = Some t /\ failed t = true.

(** ** Schedules in parts *)

Lemma schedulePost_app c1 c2 ts r Q :
  schedulePost c1 ts r (fun ts r => schedulePost c2 ts r Q) -> schedulePost (c1 ++ c2) ts r Q.
Proof.
  revert ts r. induction c1 as [|i c1 IH]; simpl; intros ts r; [done|]. intros [He Hp]. split; [done|].
  revert Hp. unfold threadPost. destruct (ts !! i) as [[a| |t|c t|w t|js t]|]; try done.
  - intros [Hc Hp]. split; [done|]. eapply specPost_mono; [|exact Hp]. intros a r'. apply IH.
  - intros [Hc Hp]. split; [done|]. eapply specPost_mono; [|exact Hp]. intros [] r'; try done; apply IH.
  - destruct (results ts js); [apply IH|done].
Qed.

(** A step whose outcome is known. *)
Lemma schedule_step i ts r cs Q t' r' :
  enabled ts i r -> threadPost ts i r (fun ts' r2 => ts' = <[i := t']> ts /\ r2 = r') ->
  schedulePost cs (<[i := t']> ts) r' Q -> schedulePost (i :: cs) ts r Q.
Proof.
  intros He Hp HQ. split; [done|]. revert Hp. unfold threadPost. destruct (ts !! i) as [[a| |t|c t|w t|js t]|]; try done.
  - intros [Hc Hp]. split; [done|]. eapply specPost_mono; [|exact Hp]. by intros a r2 [-> ->].
  - intros [Hc Hp]. split; [done|]. eapply specPost_mono; [|exact Hp]. by intros [] r2; try done; intros [-> ->].
  - destruct (results ts js); [|done]. by intros [-> ->].
Qed.

(** One step of each goroutine of a group, the store staying as it is. *)
Lemma schedule_group {A} (f g : A -> Test nat) l front rest r cs Q :
  (forall ts i x, x ∈ l -> ts !! i = Some (f x) -> enabled ts i r /\ threadPost ts i r (fun ts' r' => ts' = <[i := g x]> ts /\ r' = r)) ->
  schedulePost cs (front ++ map g l ++ rest) r Q ->
  schedulePost (seq (length front) (length l) ++ cs) (front ++ map f l ++ rest) r Q.
Proof.
  revert front. induction l as [|x l IH]; intros front Hstep HQ; [done|]. simpl.
  assert ((front ++ f x :: map f l ++ rest) !! length front = Some (f x)) as Hx by (by apply list_lookup_middle).
  destruct (Hstep _ _ x ltac:(left) Hx) as [He Hp]. eapply schedule_step; [exact He|exact Hp|].
  assert (<[length front := g x]> (front ++ f x :: map f l ++ rest) = (front ++ [g x]) ++ map f l ++ rest) as ->.
  { rewrite <- (assoc_L (++)). replace (length front) with (length front + 0) by lia. by rewrite insert_app_r. }
  replace (S (length front)) with (length (front ++ [g x])) by (rewrite length_app; simpl; lia).
  apply IH; [|by rewrite <- (assoc_L (++))]. intros ts i y Hy. apply Hstep. by right.
Qed.

Section rounds.
Context (uid : string).

Definition key : ObjectKey := mkKey "default" "w1".

(** The object after [k] status writes. *)
Definition phased (k : nat) : Object :=
  mkObject testWidget
    (mkBase (mkTypeMeta "Widget" "widget.storetest.dev/v1") (mkMeta "w1" "default" uid (FormatInt (Z.of_nat k + 1)) 1 None None))
    [VStruct [VStr "blue"; VInt 1]; VStruct [VBool false; VStr (match k with 0 => "" | S k => numbered "phase-" k end)]].

Definition phaseChange (k : nat) : change :=
  mkChange (Z.of_nat k + 1) widgetGVK (mkEvent (match k with 0 => EventAdded | _ => EventModified end) (phased k)).

Definition roundSpec (k : nat) : spec := mkSpec (map phaseChange (seq 0 (S k))) 1000 [].

Lemma roundSpec_current k : current widgetGVK key (sHist (roundSpec k)) = Some (phased k).
Proof.
  unfold roundSpec, current. cbn [sHist]. rewrite seq_S, map_app, foldl_app. cbn [map foldl]. unfold applyAt at 1. by destruct k.
Qed.

Lemma roundSpec_length k : length (sHist (roundSpec k)) = S k.
Proof. simpl. by rewrite length_map, length_seq. Qed.

Lemma testObject_color k c : testObject (setColor c (phased k)).
Proof. split; [by left|reflexivity|discriminate|reflexivity|reflexivity]. Qed.
Lemma testObject_phase k p : testObject (setPhase p (phased k)).
Proof. split; [by left|reflexivity|discriminate|reflexivity|reflexivity]. Qed.

Lemma phased_rv k : k < 10 -> GetResourceVersion (phased k) <> GetResourceVersion (phased (S k)).
Proof. do 10 (destruct k as [|k]; [done|]). lia. Qed.

Lemma phased_next k : k < 10 ->
  sameStatus (setPhase (numbered "phase-" k) (phased k)) (phased k) = false.
Proof. do 10 (destruct k as [|k]; [done|]). lia. Qed.

(** After the read: the update the writer tries. *)
Definition specUpdate (n : nat) (id : nat) (got : Object) : Test nat :=
  let* '(_, err) := Update (setColor (numbered "color-" id) got) in
  match err with
  | Ret _ => TRet 0
  | Fail e => if asConflict e then specWriter n key id else TRet 1
  | Panic => TFatal
  end.
Definition statusUpdate (n : nat) (id : nat) (got : Object) : Test nat :=
  let* '(_, err) := UpdateStatus (setPhase (numbered "phase-" id) got) in
  match err with
  | Ret _ => TRet 0
  | Fail e => if asConflict e then statusWriter n key id else TRet 1
  | Panic => TFatal
  end.

Lemma read_post k ts i (cont : Object * result unit -> Test nat) :
  k <= 10 -> ts !! i = Some (TCall (CGet key (zeroObject testWidget)) cont) ->
  enabled ts i (roundSpec k) /\
  threadPost ts i (roundSpec k) (fun ts' r' => ts' = <[i := cont (phased k, Ret tt)]> ts /\ r' = roundSpec k).
Proof.
  intros Hk Hi. unfold enabled, threadPost. rewrite Hi. split; [done|].
  split; [split; [rewrite roundSpec_length; lia|done]|]. cbn [specPost]. by rewrite roundSpec_current.
Qed.

Lemma conflict_post k ts i n id :
  k < 10 -> ts !! i = Some (specUpdate n id (phased k)) ->
  enabled ts i (roundSpec (S k)) /\
  threadPost ts i (roundSpec (S k)) (fun ts' r' => ts' = <[i := specWriter n key id]> ts /\ r' = roundSpec (S k)).
Proof.
  intros Hk Hi. unfold enabled, threadPost. rewrite Hi. split; [done|]. cbn -[specWriter roundSpec].
  change (kindOf _) with widgetGVK. change (ObjectKeyFromObject _) with key.
  split; [split; [rewrite roundSpec_length; lia|split; [apply testObject_color|]]|].
  - change (kindOf _) with widgetGVK. change (ObjectKeyFromObject _) with key. rewrite roundSpec_current.
    intros st [= <-] E. by destruct (phased_rv k Hk).
  - rewrite roundSpec_current. rewrite bool_decide_true by exact (phased_rv k Hk). done.
Qed.

Lemma status_post k ts i n :
  k < 10 -> ts !! i = Some (statusUpdate n k (phased k)) ->
  enabled ts i (roundSpec k) /\
  threadPost ts i (roundSpec k) (fun ts' r' => ts' = <[i := TRet 0]> ts /\ r' = roundSpec (S k)).
Proof.
  intros Hk Hi. unfold enabled, threadPost. rewrite Hi. split; [done|]. cbn -[statusWriter roundSpec].
  change (kindOf _) with widgetGVK. change (ObjectKeyFromObject _) with key.
  split; [split; [rewrite roundSpec_length; lia|split; [apply testObject_phase|]]|].
  - change (kindOf _) with widgetGVK. change (ObjectKeyFromObject _) with key. rewrite roundSpec_current. by intros st [= <-] _.
  - rewrite roundSpec_current, bool_decide_false by tauto. rewrite phased_next by done. split; [done|].
    unfold commit, roundSpec. cbn [sHist sMax sWatch map]. rewrite (seq_S (S k)), map_app. f_equal. f_equal.
    unfold nextRevision. cbn [sHist]. rewrite length_map, length_seq. cbn [map]. unfold phaseChange, phased. done.
Qed.

Definition writersMain : Test nat :=
  TJoin (seq 1 20) (fun errs =>
    errorIf (bool_decide (0 < sum_list (take 10 errs))) ;*
    errorIf (bool_decide (0 < sum_list (drop 10 errs))) ;*
    let* final := must (Get key) in
    errorIf (bool_decide (Color final = "blue")) ;*
    errorIf (bool_decide (Phase final = "")) ;*
    TRet 0).

(** The status writers after [k] rounds. *)
Definition statusWriters (k : nat) : pool := map (fun i => if i <? k then TRet 0 else statusWriter 10 key i) (seq 0 10).

Definition roundPool (k : nat) : pool := [writersMain] ++ map (specWriter (10 - k) key) (seq 0 10) ++ statusWriters k.

Lemma statusWriters_next k : k < 10 -> <[k := TRet 0]> (statusWriters k) = statusWriters (S k).
Proof.
  intros Hk. unfold statusWriters. apply list_eq. intros j.
  change (@map nat) with (@fmap list _ nat). destruct (decide (j = k)) as [->|Hne].
  - rewrite list_lookup_insert_eq by (by rewrite length_fmap). rewrite list_lookup_fmap, lookup_seq_lt by done. simpl.
    by rewrite (proj2 (Nat.ltb_lt _ _)) by lia.
  - rewrite list_lookup_insert_ne, !list_lookup_fmap by done. destruct (seq 0 10 !! j) as [x|] eqn:E; [|done].
    apply lookup_seq in E as [-> _]. simpl. do 2 f_equal. destruct (Nat.ltb_spec j k), (Nat.ltb_spec j (S k)); try lia; done.
Qed.

Lemma statusWriters_at k : k < 10 -> statusWriters k !! k = Some (statusWriter 10 key k).
Proof.
  intros Hk. unfold statusWriters. change (@map nat) with (@fmap list _ nat). rewrite list_lookup_fmap, lookup_seq_lt by done. simpl.
  by rewrite (proj2 (Nat.ltb_ge _ _)) by lia.
Qed.

(** The status writer of the round gets through. *)
Lemma status_round k front cs Q :
  k < 10 -> length front = 11 ->
  schedulePost cs (front ++ statusWriters (S k)) (roundSpec (S k)) Q ->
  schedulePost ([11 + k; 11 + k] ++ cs) (front ++ statusWriters k) (roundSpec k) Q.
Proof.
  intros Hk Hf HQ. rewrite <- Hf. cbn [app].
  assert (length (statusWriters k) = 10) as Hl by done.
  assert ((front ++ statusWriters k) !! (length front + k) = Some (statusWriter 10 key k)) as Hi.
  { rewrite lookup_app_r by lia. replace (length front + k - length front) with k by lia. by apply statusWriters_at. }
  destruct (read_post k _ _ _ ltac:(lia) Hi) as [He Hp].
  eapply (schedule_step _ _ _ _ _ (statusUpdate 9 k (phased k))); [exact He|exact Hp|]. clear He Hp.
  destruct (status_post k (<[length front + k := statusUpdate 9 k (phased k)]> (front ++ statusWriters k)) (length front + k) 9 Hk)
    as [He Hp]; [apply list_lookup_insert_eq; rewrite length_app; lia|].
  eapply schedule_step; [exact He|exact Hp|]. rewrite list_insert_insert_eq, insert_app_r, statusWriters_next by done. exact HQ.
Qed.

Lemma round_post k cs Q :
  k < 10 -> schedulePost cs (roundPool (S k)) (roundSpec (S k)) Q -> schedulePost (round k ++ cs) (roundPool k) (roundSpec k) Q.
Proof.
  intros Hk HQ. unfold round. rewrite <- !(assoc_L (++)). unfold roundPool.
  replace (10 - k) with (S (9 - k)) by lia.
  apply (schedule_group (specWriter (S (9 - k)) key) (fun id => specUpdate (9 - k) id (phased k)) (seq 0 10) [writersMain]).
  { intros ts i id _ Hi. by apply (read_post k ts i _ ltac:(lia) Hi). }
  rewrite (assoc_L (++) [writersMain]). apply status_round; [done|done|]. rewrite <- (assoc_L (++) [writersMain]).
  apply (schedule_group (fun id => specUpdate (9 - k) id (phased k)) (specWriter (9 - k) key) (seq 0 10) [writersMain]).
  { intros ts i id _ Hi. by apply conflict_post. }
  unfold roundPool in HQ. by replace (10 - S k) with (9 - k) in HQ by lia.
Qed.

Lemma rounds_post n k rest Q :
  k + n <= 10 -> schedulePost rest (roundPool (k + n)) (roundSpec (k + n)) Q ->
  schedulePost (flat_map round (seq k n) ++ rest) (roundPool k) (roundSpec k) Q.
Proof.
  revert k. induction n as [|n IH]; intros k Hk HQ; cbn [seq flat_map]; [by rewrite Nat.add_0_r in HQ|].
  rewrite <- (assoc_L (++)). apply round_post; [lia|]. apply IH; [lia|]. by replace (S k + n) with (k + S n) by lia.
Qed.

Lemma starving_post : schedulePost starving (roundPool 0) (roundSpec 0) (fun ts _ => testFailed ts).
Proof.
  apply (rounds_post 10 0); [lia|]. vm_compute. split; [by eexists|]. split; [done|].
  split; [by repeat call_condition|]. eexists. split; reflexivity.
Qed.
End rounds.

Section failure.
Context {S} `{TestedStore S} (sim : spec -> S -> Prop) `{!Refines S sim}.

Lemma writers_setUp s :
  sim (mkSpec [] 1000 []) s ->
  exists uid s', setUp concurrent_spec_and_status_writers s = Some (roundPool 0, s') /\ sim (roundSpec uid 0) s'.
Proof using All.
  intros Hs.
  destruct (setUp_wp sim concurrent_spec_and_status_writers (fun ts r => exists uid, ts = roundPool 0 /\ r = roundSpec uid 0)
    (mkSpec [] 1000 []) s Hs) as (ts & r & s' & E & (uid & -> & ->) & Hs'); [|by exists uid, s'].
  cbn -[specWriter statusWriter]. split; [by repeat call_condition|]. intros uid _. exists uid. done.
Qed.

(** The schedule fails the test on every backend that does what the contract says. *)
Lemma writers_starve uid s :
  sim (roundSpec uid 0) s -> exists ts' s', schedule starving (roundPool 0) s = Some (ts', s') /\ testFailed ts'.
Proof using All.
  intros Hs. destruct (schedule_post sim starving _ _ s _ Hs (starving_post uid)) as (ts' & r' & s' & E & Hf & _). eauto.
Qed.
End failure.
