(* ===== verification/SuiteWriters.v ===== *)
(** * Concurrent spec and status writers, in every schedule

    Whatever the scheduler does, the writers see nothing but conflicts, they all
    return within a bounded number of steps, and at least one of them gets
    through: the test can fail because all spec writers or all status writers
    starved, never both. The invariant follows the versions of the object and
    where each writer is. *)

From S2P Require Import Prelude GoStrconv GoJson GoJsonFacts Objects ObjectFacts NormalForms StoreSpec Backend.
From S2P Require Import MemoryStore FilesystemDisk Fixtures Suite Storetest SuiteSpec SuiteObjects SuitePool StoretestProofs SuiteConcurrent SuiteStarvation.

Import Suite Storetest.

(** ** Invariants of schedules *)

Section schedules.
Context {S} `{TestedStore S} (sim : spec -> S -> Prop) `{!Refines S sim}.

(** An invariant with a bound on the steps that are left. *)
Lemma schedule_invariant (I : nat -> pool -> spec -> Prop) choices b ts r s ts' s' :
  (forall b ts r i, I b ts r -> threadPost ts i r (fun ts r => exists b', b' < b /\ I b' ts r)) ->
  I b ts r -> sim r s -> schedule choices ts s = Some (ts', s') ->
  exists b' r', length choices + b' <= b /\ I b' ts' r' /\ sim r' s'.
Proof using All.
  intros Hstep. revert b ts r s. induction choices as [|i choices IH]; simpl; intros b ts r s HI Hs E.
  - simplify_eq. eauto.
  - destruct (threadStep ts i s) as [[ts1 s1]|] eqn:E1; [|done].
    destruct (threadPost_step sim ts i r s _ ts1 s1 Hs (Hstep b ts r i HI) E1) as (r1 & (b1 & Hb & HI1) & Hs1).
    destruct (IH b1 ts1 r1 s1 HI1 Hs1 E) as (b' & r' & Hl & HI' & Hs'). exists b', r'. split_and!; [lia|done|done].
Qed.
End schedules.

(** ** Versions of the object *)

(** The object after [j] writes. *)
Record version (j : nat) (o : Object) : Prop := {
  v_widget : isWidget o;
  v_kind : bTypeMeta (oBase o) = mkTypeMeta "Widget" "widget.storetest.dev/v1";
  v_key : ObjectKeyFromObject o = key;
  v_labels : mLabels (oMeta o) = None;
  v_annotations : mAnnotations (oMeta o) = None;
  v_rv : GetResourceVersion o = FormatInt (Z.of_nat j + 1);
  v_generation : (1 <= GetGeneration o <= Z.of_nat j + 1)%Z;
  v_written : if decide (j = 0) then Color o = "blue" /\ Phase o = "" else Color o <> "blue" \/ Phase o <> "";
}.

(** A history that is the creation and writes of one object. *)
Record versionsAt (vs : list Object) (r : spec) : Prop := {
  va_length : length (sHist r) = length vs;
  va_small : length vs <= 21;
  va_version : forall j o, vs !! j = Some o -> version j o;
  va_current : current widgetGVK key (sHist r) = last vs;
  va_created : vs <> [];
}.

Lemma last_version vs r : versionsAt vs r -> exists o, last vs = Some o /\ vs !! (length vs - 1) = Some o /\ version (length vs - 1) o.
Proof.
  intros Hv. destruct (last vs) as [o|] eqn:E; [|by apply last_None in E; destruct (va_created _ _ Hv)].
  exists o. rewrite last_lookup in E. replace (pred (length vs)) with (length vs - 1) in E by lia.
  split_and!; [done|done|]. by apply (va_version _ _ Hv).
Qed.

(** Versions are told apart by their resource versions. *)
Lemma version_rv vs r i j a b :
  versionsAt vs r -> vs !! i = Some a -> vs !! j = Some b -> GetResourceVersion a = GetResourceVersion b -> a = b.
Proof.
  intros Hv Ha Hb E. pose proof (lookup_lt_Some _ _ _ Ha). pose proof (lookup_lt_Some _ _ _ Hb).
  pose proof (va_small _ _ Hv) as Hs.
  rewrite (v_rv _ _ (va_version _ _ Hv _ _ Ha)), (v_rv _ _ (va_version _ _ Hv _ _ Hb)) in E.
  apply (f_equal (fun s => fst (ParseInt s))) in E.
  rewrite !ParseInt_FormatInt in E by (apply in_int64_spec; unfold min_int64, max_int64; lia). simpl in E.
  assert (i = j) as -> by lia. congruence.
Qed.

Lemma testObject_version j o (f : Object -> Object) :
  version j o -> isWidget (f o) -> oBase (f o) = oBase o -> testObject (f o).
Proof.
  intros [_ _ Hk Hl Ha _ _ _] (Ht & Hb & Hg) E. unfold ObjectKeyFromObject, GetName, GetNamespace, oMeta in *.
  split; unfold ObjectKeyFromObject, GetName, GetNamespace, oMeta; rewrite ?E.
  - by left.
  - by rewrite Hk.
  - by rewrite Hl.
  - done.
  - exact Hg.
Qed.

(** ** Writers *)

(** Ten spec writers, then ten status writers. *)
Definition spec_writer (i : nat) : bool := i <? 10.
Definition writerId (i : nat) : nat := if spec_writer i then i else i - 10.
Definition writer (i n : nat) : Test nat :=
  if spec_writer i then specWriter n key (writerId i) else statusWriter n key (writerId i).
Definition write (i n : nat) (got : Object) : Test nat :=
  if spec_writer i then specUpdate n (writerId i) got else statusUpdate n (writerId i) got.

(** About to read with [n] attempts left, about to write what was read as the
    [j]-th version, through. *)
Inductive stage : Type := Reading (n : nat) | Writing (n j : nat) | Through.

Definition stageProg (vs : list Object) (i : nat) (st : stage) : Test nat :=
  match st with
  | Reading n => writer i n
  | Writing n j => write i n (default (zeroObject testWidget) (vs !! j))
  | Through => TRet 0
  end.

(** A writer that has lost an attempt or got through has seen a write. *)
Definition stageOk (vs : list Object) (st : stage) : Prop :=
  match st with
  | Reading n => n = 10 \/ (n < 10 /\ 2 <= length vs)
  | Writing n j => j < length vs /\ (n = 9 \/ (n < 9 /\ 2 <= length vs))
  | Through => 2 <= length vs
  end.

Definition through (st : stage) : nat := match st with Through => 1 | _ => 0 end.

Inductive mainStage : Type := Waiting | Looking | Judged (final : Object).

Definition judge (final : Object) : Test nat :=
  errorIf (bool_decide (Color final = "blue")) ;*
  errorIf (bool_decide (Phase final = "")) ;*
  TRet 0.
Definition look : Test nat := let* final := must (Get key) in judge final.
Definition mainProg (m : mainStage) : Test nat :=
  match m with Waiting => writersMain | Looking => look | Judged final => judge final end.

Definition writersPool (m : mainStage) (vs : list Object) (sts : list stage) : pool :=
  mainProg m :: imap (stageProg vs) sts.

Definition isDone (st : stage) : bool := match st with Reading 0 | Through => true | _ => false end.

Record writersAt (m : mainStage) (vs : list Object) (sts : list stage) (r : spec) : Prop := {
  wr_versions : versionsAt vs r;
  wr_count : length sts = 20;
  wr_writes : length vs <= 1 + sum_list_with through sts;
  wr_stages : Forall (stageOk vs) sts;
  wr_done : m <> Waiting -> forallb isDone sts = true;
  wr_final : forall final, m = Judged final -> last vs = Some final;
}.

(** How many steps are left at most. *)
Definition stageWork (st : stage) : nat := match st with Reading n => 2 * n | Writing n _ => 2 * n + 1 | Through => 0 end.
Definition work (m : mainStage) (sts : list stage) : nat :=
  match m with Waiting => 2 | Looking => 1 | Judged _ => 0 end + sum_list_with stageWork sts.

Definition writersInv (b : nat) (ts : pool) (r : spec) : Prop :=
  exists m vs sts, ts = writersPool m vs sts /\ writersAt m vs sts r /\ b = work m sts.

(** The states with less work. *)
Definition writersNext (b : nat) (ts : pool) (r : spec) : Prop := exists b', b' < b /\ writersInv b' ts r.

Lemma done_finished vs i st : isDone st = true -> stageProg vs i st = TRet 0.
Proof. destruct st as [[|n]|n j|]; try done. unfold stageProg, writer. by destruct (spec_writer i). Qed.

(** Stages do not depend on versions that come later. *)
Lemma stageProg_snoc vs o i st : stageOk vs st -> stageProg (vs ++ [o]) i st = stageProg vs i st.
Proof. destruct st as [n|n j|]; try done. intros [Hj _]. simpl. by rewrite lookup_app_l. Qed.

Lemma stageOk_snoc vs o st : stageOk vs st -> stageOk (vs ++ [o]) st.
Proof. destruct st; simpl; rewrite length_app; simpl; intros; repeat destruct_and?; lia. Qed.

Lemma imap_stages vs o sts :
  Forall (stageOk vs) sts -> imap (stageProg (vs ++ [o])) sts = imap (stageProg vs) sts.
Proof.
  intros Hs. apply list_eq. intros i. rewrite !list_lookup_imap. destruct (sts !! i) as [st|] eqn:E; [|done]. simpl.
  f_equal. apply stageProg_snoc. rewrite Forall_lookup in Hs. eauto.
Qed.

(** What a writer writes. *)
Definition written (i : nat) (got : Object) : Object :=
  if spec_writer i then setColor (numbered "color-" (writerId i)) got else setPhase (numbered "phase-" (writerId i)) got.

Lemma written_widget i j got : version j got -> testObject (written i got) /\ oType (written i got) = testWidget /\
  bTypeMeta (oBase (written i got)) = bTypeMeta (oBase got) /\ oMeta (written i got) = oMeta got.
Proof.
  intros Hv. destruct (widget_parts got (proj1 (v_widget _ _ Hv)) (proj1 (proj2 (v_widget _ _ Hv)))) as [E Hs].
  pose proof (proj2 (proj2 (v_widget _ _ Hv))) as Hg.
  assert (isWidget (written i got) /\ oBase (written i got) = oBase got) as [Hw Hb].
  { unfold written. destruct (spec_writer i); rewrite E; (split; [split_and!; [done|exact Hs|exact Hg]|done]). }
  split_and!; [|apply Hw|by rewrite Hb|unfold oMeta; by rewrite Hb].
  by apply (testObject_version j got (written i)).
Qed.

Lemma written_color i got :
  spec_writer i = true -> isWidget got -> Color (written i got) = numbered "color-" (writerId i).
Proof. intros Hi (Ht & Hb & _). unfold written. rewrite Hi. by destruct (widget_parts got Ht Hb) as [-> _]. Qed.

Lemma written_phase i got :
  spec_writer i = false -> isWidget got -> Phase (written i got) = numbered "phase-" (writerId i).
Proof. intros Hi (Ht & Hb & _). unfold written. rewrite Hi. by destruct (widget_parts got Ht Hb) as [-> _]. Qed.

(** A write makes the next version. *)
Lemma combined_version j a b st gen :
  version j st -> isWidget a -> isWidget b -> (1 <= gen <= Z.of_nat j + 2)%Z -> j <= 20 ->
  Color a <> "blue" \/ Phase b <> "" -> version (S j) (combined a b st (Z.of_nat (S j) + 1) gen).
Proof.
  intros [(Ht & Hb & _) Hki Hk Hl Han _ _ _] Ha Hbw Hgen Hj Hd.
  unfold combined. rewrite widget_body, Ht by done.
  split; cbn [oType oBase oBody bTypeMeta]; [|exact Hki|exact Hk|exact Hl|exact Han|done|cbn; lia|exact Hd].
  destruct (widget_parts a (proj1 Ha) (proj1 (proj2 Ha))) as [_ Hsz]. split_and!; [done|exact Hsz|].
  apply in_int64_spec. unfold min_int64, max_int64. cbn. lia.
Qed.

(** A read of the object there is. *)
Lemma get_post ts i r k o (Q : pool -> spec -> Prop) :
  ts !! i = Some (TCall (CGet key (zeroObject testWidget)) k) -> (Z.of_nat (length (sHist r)) < 1000000)%Z ->
  current widgetGVK key (sHist r) = Some o -> Q (<[i := k (o, Ret tt)]> ts) r -> threadPost ts i r Q.
Proof.
  intros Hi Hs Hc HQ. unfold threadPost. rewrite Hi. split; [done|]. cbn [specPost]. by rewrite Hc.
Qed.

Section step.
Context (vs : list Object) (sts : list stage) (r : spec).
Hypothesis Hat : writersAt Waiting vs sts r.

#[local] Abbreviation Hv := (wr_versions _ _ _ _ Hat).

(** One writer moves on, the object stays. *)
Lemma stage_moved i st st' :
  sts !! i = Some st -> stageOk vs st' -> through st <= through st' -> stageWork st' < stageWork st ->
  writersNext (work Waiting sts) (<[Datatypes.S i := stageProg vs i st']> (writersPool Waiting vs sts)) r.
Proof using All.
  intros Hi Hok Ht Hwk. exists (work Waiting (<[i := st']> sts)). pose proof (lookup_lt_Some _ _ _ Hi) as Hlt.
  split; [pose proof (sum_insert stageWork sts i st st' Hi); unfold work; lia|].
  exists Waiting, vs, (<[i := st']> sts). split_and!; [| |done].
  - unfold writersPool. simpl. f_equal. symmetry. by apply imap_insert.
  - destruct Hat as [Hve Hc Hw Hs _ _]. split; try done; [by rewrite length_insert| |by apply Forall_insert].
    pose proof (sum_insert through sts i st st' Hi). lia.
Qed.

(** One writer's update is committed. *)
Lemma stage_committed i st new :
  sts !! i = Some st -> through st = 0 -> 0 < stageWork st -> version (length vs) new ->
  writersNext (work Waiting sts) (<[Datatypes.S i := TRet 0]> (writersPool Waiting vs sts)) (commit widgetGVK (mkEvent EventModified new) r).
Proof using All.
  intros Hi Ht Hwk Hnew. pose proof (lookup_lt_Some _ _ _ Hi) as Hlt. destruct Hat as [Hve Hc Hw Hs _ _].
  exists (work Waiting (<[i := Through]> sts)). split; [pose proof (sum_insert stageWork sts i st Through Hi) as E; unfold work; simpl in E; lia|].
  exists Waiting, (vs ++ [new]), (<[i := Through]> sts). split_and!; [| |done].
  - unfold writersPool. cbn [insert list_insert mainProg]. f_equal. rewrite imap_insert by done. by rewrite imap_stages.
  - pose proof (sum_insert through sts i st Through Hi) as Hsum. simpl in Hsum.
    assert (sum_list_with through sts <= length sts * 1) as Hb.
    { apply sum_bound, Forall_true. intros []; simpl; lia. }
    assert (2 <= length vs + 1) as H2 by (destruct vs; [by destruct (va_created _ _ Hve)|simpl; lia]).
    split; try done.
    + destruct Hve as [Hl Hsm Hver Hcur Hne]. split; simpl.
      * rewrite !length_app. simpl. lia.
      * rewrite length_app. simpl.
        assert (sum_list_with through (<[i := Through]> sts) <= length (<[i := Through]> sts) * 1) as Hb'.
        { apply sum_bound, Forall_true. intros []; simpl; lia. }
        rewrite length_insert in Hb'. lia.
      * intros j o [Hj|[Hge Hj]]%lookup_app_Some; [by apply Hver|].
        destruct (j - length vs) as [|m] eqn:E; simpl in Hj; simplify_eq. by replace j with (length vs) by lia.
      * rewrite current_snoc, last_snoc. unfold applyAt. cbn [cGVK cEvent evObject evType].
        rewrite (v_key _ _ Hnew), !bool_decide_true by done. done.
      * by destruct vs.
    + by rewrite length_insert.
    + rewrite length_app. simpl. lia.
    + apply Forall_insert; [eapply Forall_impl; [exact Hs|]; intros x; apply stageOk_snoc|]. simpl. rewrite length_app. simpl. lia.
Qed.

Lemma pool_writer i st : sts !! i = Some st -> writersPool Waiting vs sts !! Datatypes.S i = Some (stageProg vs i st).
Proof using. intros Hi. unfold writersPool. simpl. by rewrite list_lookup_imap, Hi. Qed.

Lemma history_small : (Z.of_nat (length (sHist r)) < 1000000)%Z.
Proof using All. rewrite (va_length _ _ Hv). pose proof (va_small _ _ Hv). lia. Qed.

(** A read gives the latest version. *)
Lemma reading_post i n : sts !! i = Some (Reading n) -> threadPost (writersPool Waiting vs sts) (Datatypes.S i) r (writersNext (work Waiting sts)).
Proof using All.
  intros Hi. destruct (last_version vs r Hv) as (o & Hl & Ho & _). pose proof (va_current _ _ Hv) as Hc. rewrite Hl in Hc.
  pose proof (lookup_lt_Some _ _ _ Ho). pose proof (Forall_lookup_1 _ _ _ _ (wr_stages _ _ _ _ Hat) Hi) as Hok. simpl in Hok.
  pose proof (pool_writer i _ Hi) as Hp. cbn [stageProg] in Hp. unfold writer in Hp.
  destruct n as [|n]; [unfold threadPost; rewrite Hp; by destruct (spec_writer i)|].
  pose proof (stage_moved i _ (Writing n (length vs - 1)) Hi) as Hm. simpl in Hm. unfold write in Hm. rewrite Ho in Hm. simpl in Hm.
  specialize (Hm ltac:(lia) ltac:(lia) ltac:(lia)).
  destruct (spec_writer i); (eapply get_post; [exact Hp|exact history_small|exact Hc|exact Hm]).
Qed.

(** A write of an old version is refused. *)
Lemma writing_conflict i n j :
  sts !! i = Some (Writing n j) -> j < length vs - 1 ->
  writersNext (work Waiting sts) (<[Datatypes.S i := writer i n]> (writersPool Waiting vs sts)) r.
Proof using All.
  intros Hi Hj. pose proof (Forall_lookup_1 _ _ _ _ (wr_stages _ _ _ _ Hat) Hi) as Hok. simpl in Hok.
  apply (stage_moved i _ (Reading n) Hi); simpl; lia.
Qed.

(** A write of the latest version that changes nothing is not the first. *)
Lemma writing_noop i n j st :
  sts !! i = Some (Writing n j) -> last vs = Some st -> Color st <> "blue" \/ Phase st <> "" ->
  writersNext (work Waiting sts) (<[Datatypes.S i := TRet 0]> (writersPool Waiting vs sts)) r.
Proof using All.
  intros Hi Hl Hd. destruct (last_version vs r Hv) as (o & Hl' & Ho & Hver). rewrite Hl in Hl'. simplify_eq.
  pose proof (lookup_lt_Some _ _ _ Ho). apply (stage_moved i _ Through Hi); simpl; [|lia|lia].
  pose proof (v_written _ _ Hver) as Hw. case_decide; [destruct Hw, Hd; congruence|lia].
Qed.

(** What a writer about to write hands the store. *)
Record handed (j : nat) (got st obj : Object) : Prop := {
  h_got : vs !! j = Some got;
  h_last : last vs = Some st;
  h_version : version (length vs - 1) st;
  h_widget : isWidget obj;
  h_object : testObject obj;
  h_kind : kindOf obj = widgetGVK;
  h_key : ObjectKeyFromObject obj = key;
  h_current : current widgetGVK key (sHist r) = Some st;
  h_next : nextRevision r = (Z.of_nat (length vs) + 1)%Z;
  h_twin : GetResourceVersion obj = GetResourceVersion st -> twin obj st;
  h_same : GetResourceVersion obj = GetResourceVersion st -> got = st;
  h_old : GetResourceVersion obj <> GetResourceVersion st -> j < length vs - 1;
}.

#[local] Arguments h_got {_ _ _ _} _.
#[local] Arguments h_last {_ _ _ _} _.
#[local] Arguments h_version {_ _ _ _} _.
#[local] Arguments h_widget {_ _ _ _} _.
#[local] Arguments h_object {_ _ _ _} _.
#[local] Arguments h_kind {_ _ _ _} _.
#[local] Arguments h_key {_ _ _ _} _.
#[local] Arguments h_current {_ _ _ _} _.
#[local] Arguments h_next {_ _ _ _} _.
#[local] Arguments h_twin {_ _ _ _} _.
#[local] Arguments h_same {_ _ _ _} _.
#[local] Arguments h_old {_ _ _ _} _.

Lemma writer_hands i n j :
  sts !! i = Some (Writing n j) -> exists got st, handed j got st (written i got).
Proof using All.
  intros Hi. destruct (last_version vs r Hv) as (st & Hl & Hst & Hver).
  pose proof (Forall_lookup_1 _ _ _ _ (wr_stages _ _ _ _ Hat) Hi) as [Hj _].
  destruct (lookup_lt_is_Some_2 vs j Hj) as [got Hgot]. pose proof (va_version _ _ Hv j got Hgot) as Hgv.
  destruct (written_widget i j got Hgv) as (Ht & Hty & Htm & Hme).
  assert (GetResourceVersion (written i got) = GetResourceVersion got) as Hrv by (unfold GetResourceVersion; by rewrite Hme).
  pose proof (version_rv vs r j (length vs - 1) got st Hv Hgot Hst) as Hsame. rewrite <- Hrv in Hsame.
  exists got, st. split; try done.
  - by apply testObject_widget.
  - unfold kindOf. by rewrite Hty.
  - rewrite <- (v_key _ _ Hgv). unfold ObjectKeyFromObject, GetName, GetNamespace. by rewrite Hme.
  - by rewrite (va_current _ _ Hv).
  - unfold nextRevision. by rewrite (va_length _ _ Hv).
  - intros E. rewrite <- (Hsame E). split; [done|done|by rewrite Hme|unfold GetGeneration; by rewrite Hme].
  - intros E. destruct (decide (j = length vs - 1)) as [->|]; [|lia]. rewrite Hst in Hgot. rewrite Hrv in E. by simplify_eq.
Qed.

Lemma handed_ok j got st obj : handed j got st obj -> callOk (CUpdate obj) r /\ callOk (CUpdateStatus obj) r.
Proof using All.
  intros Hh. unfold callOk. rewrite (h_kind Hh), (h_key Hh), (h_current Hh).
  split; (split; [exact history_small|split; [exact (h_object Hh)|]]); intros ? [= <-]; exact (h_twin Hh).
Qed.

(** A write of the latest version that changes the object is committed. *)
Lemma writing_commit i n j got st obj a b gen :
  sts !! i = Some (Writing n j) -> handed j got st obj -> isWidget a -> isWidget b ->
  (1 <= gen <= GetGeneration st + 1)%Z -> Color a <> "blue" \/ Phase b <> "" ->
  writersNext (work Waiting sts) (<[Datatypes.S i := TRet 0]> (writersPool Waiting vs sts))
    (commit widgetGVK (mkEvent EventModified (combined a b st (nextRevision r) gen)) r).
Proof using All.
  intros Hi Hh Ha Hb Hg Hd. apply (stage_committed i _ _ Hi); [done|simpl; lia|]. rewrite (h_next Hh).
  pose proof (va_small _ _ Hv). pose proof (v_generation _ _ (h_version Hh)).
  assert (length vs = S (length vs - 1)) as ->.
  { pose proof (va_created _ _ Hv). destruct vs; simpl; [done|lia]. }
  apply combined_version; try done; [apply Hh|lia|lia].
Qed.

Lemma writing_post i n j :
  sts !! i = Some (Writing n j) -> threadPost (writersPool Waiting vs sts) (Datatypes.S i) r (writersNext (work Waiting sts)).
Proof using All.
  intros Hi. destruct (writer_hands i n j Hi) as (got & st & Hh). destruct (handed_ok _ _ _ _ Hh) as [Hok1 Hok2].
  pose proof (writing_conflict i n j Hi) as Hconf. pose proof (pool_writer i _ Hi) as Hp.
  cbn [stageProg] in Hp. rewrite (h_got Hh) in Hp. cbn [default id] in Hp. unfold write, writer in *.
  pose proof (va_small _ _ Hv) as Hsm. pose proof (h_version Hh) as Hver. pose proof (v_generation _ _ Hver) as Hgen.
  unfold threadPost. rewrite Hp. destruct (spec_writer i) eqn:Es.
  - assert (written i got = setColor (numbered "color-" (writerId i)) got) as Ew by (unfold written; by rewrite Es).
    unfold specUpdate. rewrite <- Ew. split; [exact Hok1|]. cbn -[specWriter writersPool insert commit combined kindOf].
    rewrite (h_kind Hh), (h_key Hh), (h_current Hh). case_bool_decide as E.
    { apply Hconf, (h_old Hh), E. }
    pose proof (written_color i got Es) as Hcol. pose proof (h_same Hh E) as ->. specialize (Hcol (v_widget _ _ Hver)).
    destruct (sameSpec _ _) eqn:Esame.
    { apply sameSpec_iff in Esame as [Ec _]. apply (writing_noop i n j st Hi (h_last Hh)). left. by rewrite <- Ec, Hcol. }
    eapply (writing_commit i n j _ st _ _ _ _ Hi Hh (h_widget Hh) (v_widget _ _ Hver)); [|left; by rewrite Hcol].
    rewrite wrap64_succ; unfold max_int64; lia.
  - assert (written i got = setPhase (numbered "phase-" (writerId i)) got) as Ew by (unfold written; by rewrite Es).
    unfold statusUpdate. rewrite <- Ew. split; [exact Hok2|]. cbn -[statusWriter writersPool insert commit combined kindOf].
    rewrite (h_kind Hh), (h_key Hh), (h_current Hh). case_bool_decide as E.
    { apply Hconf, (h_old Hh), E. }
    pose proof (written_phase i got Es) as Hph. pose proof (h_same Hh E) as ->. specialize (Hph (v_widget _ _ Hver)).
    destruct (sameStatus _ _) eqn:Esame.
    { apply sameStatus_iff in Esame as [_ Ep]. apply (writing_noop i n j st Hi (h_last Hh)). right. by rewrite <- Ep, Hph. }
    eapply (writing_commit i n j _ st _ _ _ _ Hi Hh (v_widget _ _ Hver) (h_widget Hh)); [lia|right; by rewrite Hph].
Qed.
End step.

(** ** The test function *)

Lemma stage_finished vs i st x : finished (stageProg vs i st) = Some x -> isDone st = true /\ x = 0.
Proof.
  destruct st as [[|n]|n j|]; simpl; unfold writer, write; destruct (spec_writer i); try done; by intros [= <-].
Qed.

(** The results are there when every writer is through or has given up, and
    they count no error. *)
Lemma results_done m vs sts l :
  length sts = 20 -> results (writersPool m vs sts) (seq 1 20) = Some l -> forallb isDone sts = true /\ l = replicate 20 0.
Proof.
  intros Hlen E. apply mapM_Some_1 in E. pose proof (Forall2_length _ _ _ E) as El. rewrite length_seq in El.
  assert (forall i st x, sts !! i = Some st -> l !! i = Some x -> isDone st = true /\ x = 0) as Hat.
  { intros i st x Hi Hx. pose proof (lookup_lt_Some _ _ _ Hi) as Hlt.
    assert (seq 1 20 !! i = Some (1 + i)) as Hs by (apply lookup_seq; lia).
    pose proof (Forall2_lookup_lr _ _ _ _ _ _ E Hs Hx) as Ef. unfold writersPool in Ef. cbn [Nat.add] in Ef.
    change ((?a :: ?t) !! S i) with (t !! i) in Ef. rewrite list_lookup_imap, Hi in Ef. by apply stage_finished in Ef. }
  split.
  - apply forallb_forall. intros st [i Hi]%list_elem_of_In%list_elem_of_lookup.
    destruct (lookup_lt_is_Some_2 l i) as [x Hx]; [apply lookup_lt_Some in Hi; lia|]. by eapply Hat.
  - symmetry. apply replicate_as_Forall. split; [done|]. apply Forall_lookup. intros i x Hx.
    destruct (lookup_lt_is_Some_2 sts i) as [st Hi]; [apply lookup_lt_Some in Hx; lia|]. symmetry. by eapply Hat.
Qed.

Lemma done_results vs sts :
  length sts = 20 -> forallb isDone sts = true -> imap (stageProg vs) sts = replicate 20 (TRet 0).
Proof.
  intros Hlen Hd. symmetry. apply replicate_as_Forall. rewrite length_imap. split; [done|]. apply Forall_lookup. intros i t.
  rewrite list_lookup_imap. intros (st & Hi & ->)%fmap_Some. symmetry. apply done_finished.
  rewrite forallb_forall in Hd. apply Hd, list_elem_of_In, list_elem_of_lookup. eauto.
Qed.

Section main.
Context (vs : list Object) (sts : list stage) (r : spec).

Lemma waiting_post : writersAt Waiting vs sts r -> threadPost (writersPool Waiting vs sts) 0 r (writersNext (work Waiting sts)).
Proof.
  intros Hat. unfold threadPost. change (writersPool Waiting vs sts !! 0) with (Some writersMain). unfold writersMain.
  destruct (results _ _) as [l|] eqn:E; [|done]. destruct (results_done _ _ _ _ (wr_count _ _ _ _ Hat) E) as [Hd ->].
  exists (work Looking sts). split; [unfold work; lia|]. exists Looking, vs, sts. split_and!; [done| |done].
  destruct Hat. by split.
Qed.

Lemma looking_post : writersAt Looking vs sts r -> threadPost (writersPool Looking vs sts) 0 r (writersNext (work Looking sts)).
Proof.
  intros Hat. pose proof (wr_versions _ _ _ _ Hat) as Hv. destruct (last_version vs r Hv) as (o & Hl & _ & _).
  eapply (get_post _ _ _ _ o); [reflexivity| | |].
  - rewrite (va_length _ _ Hv). pose proof (va_small _ _ Hv). lia.
  - by rewrite (va_current _ _ Hv).
  - exists (work (Judged o) sts). split; [unfold work; lia|]. exists (Judged o), vs, sts. split_and!; [done| |done].
    destruct Hat as [Hve Hc Hw Hs Hd _]. split; try done; [intros _; by apply Hd|by intros final [= <-]].
Qed.
End main.

Lemma writers_step b ts r i : writersInv b ts r -> threadPost ts i r (writersNext b).
Proof.
  intros (m & vs & sts & -> & Hat & ->). destruct i as [|i].
  - destruct m; [by apply waiting_post|by apply looking_post|]. unfold threadPost, writersPool, mainProg, judge. simpl.
    by repeat case_bool_decide.
  - destruct (sts !! i) as [st|] eqn:Hi.
    2: { unfold threadPost, writersPool. simpl. by rewrite list_lookup_imap, Hi. }
    assert (m = Waiting \/ m <> Waiting) as [->|Hm] by (destruct m; by auto).
    + destruct st as [n|n j|]; [by eapply reading_post|by eapply writing_post|].
      unfold threadPost. by rewrite (pool_writer _ _ _ _ Hi).
    + unfold threadPost, writersPool. simpl. rewrite list_lookup_imap, Hi. simpl. rewrite done_finished; [done|].
      pose proof (wr_done _ _ _ _ Hat Hm) as Hd. rewrite forallb_forall in Hd. apply Hd, list_elem_of_In, list_elem_of_lookup. eauto.
Qed.

(** ** Verdicts *)

(** When every writer has returned, one of them got through. *)
Lemma done_written vs sts :
  length sts = 20 -> Forall (stageOk vs) sts -> forallb isDone sts = true -> 2 <= length vs.
Proof.
  intros Hlen Hs Hd. destruct sts as [|st sts]; [done|]. apply Forall_cons_1 in Hs as [Hok _].
  apply andb_true_iff in Hd as [Hd _]. destruct st as [[|n]|n j|]; simpl in *; try done. lia.
Qed.

(** Some goroutine can go on, or the test function gives its verdict on the
    last version, which is not the first. *)
Definition verdict (ts : pool) (final : Object) : Prop :=
  ts = judge final :: replicate 20 (TRet 0) /\ (Color final <> "blue" \/ Phase final <> "").

Lemma writers_progress b ts r :
  writersInv b ts r ->
  (exists i, enabled ts i r) \/ exists final, verdict ts final /\ current widgetGVK key (sHist r) = Some final.
Proof.
  intros (m & vs & sts & -> & Hat & _). pose proof Hat as [Hve Hc Hw Hs Hd Hf].
  destruct m as [| |final]; [|left; by exists 0|].
  - left. destruct (forallb isDone sts) eqn:E.
    + exists 0. unfold enabled, writersPool. rewrite (done_results vs sts Hc E). vm_compute. by eexists.
    + assert (~ Forall isDone sts) as Hn by (rewrite <- forallb_True, E; auto).
      apply not_Forall_Exists in Hn; [|solve_decision]. apply Exists_exists in Hn as (st & [i Hi]%list_elem_of_lookup & Hst).
      exists (S i). unfold enabled. rewrite (pool_writer _ _ _ _ Hi).
      destruct st as [[|n]|n j|]; try (by destruct Hst); cbn [stageProg]; unfold writer, write; by destruct (spec_writer i).
  - right. exists final. specialize (Hd ltac:(done)). pose proof (Hf final eq_refl) as Hl.
    split; [|by rewrite (va_current _ _ Hve)]. split; [unfold writersPool; by rewrite (done_results vs sts Hc Hd)|].
    destruct (last_version vs r Hve) as (o & Hl' & _ & Hver). rewrite Hl in Hl'. simplify_eq.
    pose proof (done_written vs sts Hc Hs Hd). pose proof (v_written _ _ Hver) as H0. case_decide; [lia|done].
Qed.

Section writers.
Context (uid : string).

Lemma first_version : version 0 (phased uid 0).
Proof. split; try done; by split_and!. Qed.

Lemma writers_start : writersInv 402 (roundPool 0) (roundSpec uid 0).
Proof.
  exists Waiting, [phased uid 0], (replicate 20 (Reading 10)). split_and!; [reflexivity| |reflexivity].
  split; [|done|simpl; lia| |done|done].
  - split; [done|simpl; lia| |done|done]. intros [|j] o; [|done]. intros [= <-]. exact first_version.
  - apply Forall_replicate. by left.
Qed.
End writers.

Section settle.
Context {S} `{TestedStore S} (sim : spec -> S -> Prop) `{!Refines S sim}.

(** Whatever the schedule, after 402 steps at most the writers have all returned
    without an error and the test function judges the object the store holds,
    to which some writer has written; before that some goroutine can go on. *)
Definition settles (ts : pool) (s : S) : Prop :=
  forall choices ts' s', schedule choices ts s = Some (ts', s') ->
    length choices <= 402 /\
    ((exists i, is_Some (threadStep ts' i s')) \/
     exists final s'', verdict ts' final /\ exec (CGet key (zeroObject testWidget)) s' = Some (s'', (final, Ret tt))).

Lemma writers_settle uid s : sim (roundSpec uid 0) s -> settles (roundPool 0) s.
Proof using All.
  intros Hs choices ts' s' E.
  destruct (schedule_invariant sim writersInv choices 402 _ _ s ts' s' writers_step (writers_start uid) Hs E)
    as (b & r & Hl & HI & Hs'). split; [lia|].
  destruct (writers_progress b ts' r HI) as [[i Hi]|(final & Hv & Hc)].
  - left. exists i. by eapply (enabled_step sim); [|by apply writers_step|].
  - right. pose proof HI as (m & vs & sts & _ & Hat & _). pose proof (wr_versions _ _ _ _ Hat) as Hve.
    destruct (refines (CGet key (zeroObject testWidget)) r s' (fun a _ => a = (final, Ret tt)) Hs') as (s'' & a & r' & Ex & -> & _).
    + split; [|done]. rewrite (va_length _ _ Hve). pose proof (va_small _ _ Hve). lia.
    + simpl. by rewrite Hc.
    + by exists final, s''.
Qed.

Lemma writers_outcome s :
  sim (mkSpec [] 1000 []) s ->
  exists ts s', setUp concurrent_spec_and_status_writers s = Some (ts, s') /\ settles ts s' /\
    exists ts' s'', schedule starving ts s' = Some (ts', s'') /\ testFailed ts'.
Proof using All.
  intros Hs. destruct (writers_setUp sim s Hs) as (uid & s' & E & Hs').
  exists (roundPool 0), s'. split_and!; [done|by eapply writers_settle|by eapply writers_starve].
Qed.
End settle.
