(* ===== verification/SuiteTheorems.v ===== *)
(** * The backends and the conformance suite

    Both backends refine the suite's reference semantics, pass its sequential
    tests and two of its concurrent tests in every interleaving; the third
    concurrent test always ends, but can fail on them. *)

From S2P Require Import Prelude GoStrconv GoJson GoJsonFacts Objects ObjectFacts SpecStatus NormalForms StoreSpec Backend.
From S2P Require Import MemoryStore MemoryStoreFacts MemoryStoreRuns.
From S2P Require Import FileTree Filesystem FilesystemDisk FilesystemFacts FilesystemRuns FilesystemWitnesses.
From S2P Require Import Fixtures Suite Storetest SuiteSpec StoretestProofs SuiteObjects SuiteHistory SuiteMemory SuiteFilesystem.
From S2P Require Import SuitePool SuiteConcurrent SuiteStarvation SuiteWriters.

Import Suite Storetest.

(** ** The configurations the backends' tests use *)

(** [memory/store_test.go] *)
Definition memoryConfig : Config Mem.MemoryStore :=
  mkConfig (Mem.NewStore []) (Some (Mem.NewStore [Mem.WithEventLogSize 5])) false false false false.

(** [filesystem/store_test.go], in a temporary directory. *)
Definition filesystemConfig (r : path) (t : gmap path node) : Config FS.FileStore :=
  mkConfig (FS.NewStore r (mkDisk t []) []) (Some (FS.NewStore r (mkDisk t []) [FS.WithEventLogSize 5])) false false false false.

Lemma simulates_new size : (0 <= size)%Z -> simulates (fresh size) (Mem.NewStore [Mem.WithEventLogSize size]).
Proof. intros Hs. destruct (Inv_NewStore testScheme size Hs) as [HI Hr]. by split. Qed.

Lemma fsSimulates_new r t size :
  freshDisk r t -> (0 <= size)%Z -> fsSimulates (fresh size) (FS.NewStore r (mkDisk t []) [FS.WithEventLogSize size]).
Proof.
  intros Hf Hs. destruct (NewStore_hist testScheme r t size Hf Hs) as [HI _]. split; [done|]. exists ∅.
  rewrite (NewStore_run r t size _ _ _ (freshDisk_ok r t Hf)) by done. exact (simulates_new size Hs).
Qed.

(** ** Sequential tests *)

Section suite.
Context {S} `{TestedStore S} (sim : spec -> S -> Prop) `{!Refines S sim} (cfg : Config S).
Hypothesis Hnew : sim (fresh 1000) (NewStore cfg).
Hypothesis Hsmall : forall s, NewSmallEventLogStore cfg = Some s -> sim (fresh 5) s.

Lemma TestStore_passes labelsParse :
  labelsParse "color=blue" = Ret colorBlue -> TestStore labelsParse cfg = true.
Proof using All.
  intros Hp. apply andb_true_iff. split.
  - apply forallb_forall. intros t Ht%list_elem_of_In. pose proof (sequential_correct labelsParse cfg Hp) as Hc.
    rewrite Forall_forall in Hc. apply (wp_passed sim t (fun _ _ => True) (fresh 1000)); [exact Hnew|]. by apply Hc.
  - destruct (NewSmallEventLogStore cfg) as [s|]; [|done]. apply (wp_passed sim _ (fun _ _ => True) (fresh 5)); [by apply Hsmall|]. apply revision_too_old_ok.
Qed.
End suite.

Lemma memory_new : simulates (fresh 1000) (NewStore memoryConfig).
Proof. by apply simulates_new. Qed.

Lemma filesystem_new r t : freshDisk r t -> fsSimulates (fresh 1000) (NewStore (filesystemConfig r t)).
Proof. intros Hf. by apply (fsSimulates_new r t 1000). Qed.

(** C28: both backends refine the reference semantics of the suite. From a store that simulates a state
    of the semantics (the history of changes, the size of the event log, the watchers with what is in their
    channels), every call the suite makes returns and answers as one of the outcomes the semantics allows, and the store
    then simulates the state of that outcome. *)
Theorem suite_refinement c r Q :
  callOk c r -> specPost c r Q ->
  (forall s, simulates r s -> exists s' a r', exec c s = Some (s', a) /\ Q a r' /\ simulates r' s') /\
  (forall s, fsSimulates r s -> exists s' a r', exec c s = Some (s', a) /\ Q a r' /\ fsSimulates r' s').
Proof. intros Hc HQ. split; intros s Hs; [by apply (Mem_Refines c r)|by apply (FS_Refines c r)]. Qed.

(** C29: the in-memory backend and the filesystem backend on an empty directory pass every sequential test
    of the conformance suite, in the configurations of their own tests, the test of a revision that has left
    the event log included. [labels.Parse] need only parse the selector the suite uses. *)
Theorem suite_sequential labelsParse r t :
  labelsParse "color=blue" = Ret colorBlue -> freshDisk r t ->
  TestStore labelsParse memoryConfig = true /\ TestStore labelsParse (filesystemConfig r t) = true.
Proof.
  intros Hp Hf. split.
  - eapply (TestStore_passes simulates); [apply memory_new| |done]. intros s [= <-]. by apply (simulates_new 5).
  - eapply (TestStore_passes fsSimulates); [by apply filesystem_new| |done]. intros s [= <-]. by apply fsSimulates_new.
Qed.

(** C30: whatever the scheduler does, the concurrent tests of the suite that create, recolour and delete
    widgets next to a watcher succeed on both backends: no goroutine fails or gets stuck, all of them return, the
    counting goroutine receives one event per change before its channel closes, and the events arrive in the order of
    their revisions. *)
Theorem suite_concurrent r t :
  freshDisk r t ->
  (passedConcurrent (concurrent_CRUD_with_watcher memoryConfig) (NewStore memoryConfig) /\
   passedConcurrent concurrent_updates_preserve_monotonicity (NewStore memoryConfig)) /\
  (passedConcurrent (concurrent_CRUD_with_watcher (filesystemConfig r t)) (NewStore (filesystemConfig r t)) /\
   passedConcurrent concurrent_updates_preserve_monotonicity (NewStore (filesystemConfig r t))).
Proof.
  intros Hf. pose proof memory_new as Hm. pose proof (filesystem_new r t Hf) as Hfs.
  split; split; 
    [exact (crud_passes simulates _ _ Hm)|exact (mono_passes simulates _ Hm)|
     exact (crud_passes fsSimulates _ _ Hfs)|exact (mono_passes fsSimulates _ Hfs)].
Qed.

(** C31: the concurrent test of spec and status writers, on both backends. Whatever the schedule, it ends:
    after 402 steps at most every writer has returned without an error, and the test function judges the object the
    store holds, which some writer has written to; until then some goroutine can go on. But the judgement can be a
    failure: under the schedule [starving] every spec writer gives up after ten conflicts with status writes, and the
    object keeps its first colour. *)
Theorem suite_writers r t :
  freshDisk r t ->
  (exists ts s, setUp concurrent_spec_and_status_writers (NewStore memoryConfig) = Some (ts, s) /\ settles ts s /\
     exists ts' s', schedule starving ts s = Some (ts', s') /\ testFailed ts') /\
  (exists ts s, setUp concurrent_spec_and_status_writers (NewStore (filesystemConfig r t)) = Some (ts, s) /\ settles ts s /\
     exists ts' s', schedule starving ts s = Some (ts', s') /\ testFailed ts').
Proof. intros Hf. split; [exact (writers_outcome simulates _ memory_new)|exact (writers_outcome fsSimulates _ (filesystem_new r t Hf))]. Qed.

(** ** At concrete inputs *)

(** A [labels.Parse] for equality selectors of one requirement. *)
Definition parseEquality (s : string) : result labelsSelector :=
  if bool_decide (s = "color=blue") then Ret colorBlue else Fail (OtherError "unable to parse requirement").

Lemma suite_refinement_witness :
  callOk (CCreate (newTestWidget "w1" "blue" 1)) (fresh 1000) /\
  exists s' a r', exec (CCreate (newTestWidget "w1" "blue" 1)) (NewStore memoryConfig) = Some (s', a) /\
    a.2 = Ret tt /\ simulates r' s'.
Proof.
  assert (callOk (CCreate (newTestWidget "w1" "blue" 1)) (fresh 1000)) as Hc by (by repeat call_condition).
  split; [exact Hc|].
  apply (suite_refinement (CCreate (newTestWidget "w1" "blue" 1)) (fresh 1000) (fun a _ => a.2 = Ret tt) Hc);
    [by intros uid _|exact memory_new].
Defined.

Lemma suite_sequential_witness :
  parseEquality "color=blue" = Ret colorBlue /\ freshDisk dataDir ∅ /\
  TestStore parseEquality memoryConfig = true /\ TestStore parseEquality (filesystemConfig dataDir ∅) = true.
Proof.
  split; [reflexivity|]. split; [apply fresh_empty|].
  exact (suite_sequential parseEquality dataDir ∅ eq_refl (fresh_empty dataDir)).
Defined.

Lemma suite_concurrent_witness :
  freshDisk dataDir ∅ /\ passedConcurrent (concurrent_CRUD_with_watcher (filesystemConfig dataDir ∅)) (NewStore (filesystemConfig dataDir ∅)).
Proof. split; [apply fresh_empty|]. apply (suite_concurrent dataDir ∅ (fresh_empty dataDir)). Defined.

Lemma suite_writers_witness :
  freshDisk dataDir ∅ /\
  exists ts s, setUp concurrent_spec_and_status_writers (NewStore (filesystemConfig dataDir ∅)) = Some (ts, s) /\ settles ts s /\
    exists ts' s', schedule starving ts s = Some (ts', s') /\ testFailed ts'.
Proof. split; [apply fresh_empty|]. apply (suite_writers dataDir ∅ (fresh_empty dataDir)). Defined.
